(* ===== verification/_CoqProject ===== *)
-Q . S2P
Prelude.v
RustStr.v
Match.v
Tdate.v
Url.v
Request.v
Timers.v
Mmc.v
Mime.v
Fdwatch.v
Throttle.v
HttpConn.v
Response.v
Wire.v
Auth.v
Cgi.v
Dirlist.v
Server.v
EventLoop.v
Dispatch.v
Invariants.v
Run.v
CgiExec.v
Serving.v
Frame.v
StaticFiles.v
EndToEnd.v
Config.v
Logging.v
LogLines.v
Startup.v
Daemon.v
Legacy.v
LegacyTick.v
LegacyLog.v
Breaker.v
Backend.v
Router.v
MigrateConfig.v
LiveState.v
Control.v
Drain.v
Diff.v
Forwarder.v
Proxy.v
ProxyRun.v
ProxySystem.v
ProxyStart.v
Observability.v
