(* ===== verification/Prelude.v ===== *)
(** * A verification library for thttpd-rs

    thttpd-rs is a Rust port of the web server thttpd, with a proxy that moves
    traffic from the C server to the Rust one.  Paths below are relative to
    [src/rust/crates].  This file is the root of the library: it documents the
    whole of it and holds the vocabulary the other files share (bytes, machine
    integers, record updates, the hint database [thttpd], list lemmas).

    ** The program

    The server is one thread around a poll loop ([thttpd-core/src/eventloop.rs],
    [run]).  An iteration waits for events, accepts connections, reads request
    bytes into the buffer of their slot, runs the request detector on them
    ([thttpd-http/src/parse.rs]), and on a whole request parses it, normalises
    its path ([url.rs]), checks the throttle table ([throttle.rs]), finds the
    file (virtual hosts, [~user], path info, index files, symlink check), checks
    Basic authentication ([thttpd-auth]) and produces a response: a file through
    the mapping cache ([thttpd-mmc]) with its MIME type ([thttpd-mime]) and
    dates ([thttpd-tdate]), a directory listing ([dirlist.rs]), the output of a
    CGI program ([cgi.rs]) or an error page ([response.rs]).  The response is
    sent in pieces; a throttled connection that is ahead of its limit is paused
    by deregistering its stream and woken by the sweep of a later iteration.
    Every second or so the throttle averages, the idle time-outs and the file
    cache are updated.

    Before the loop, [main] normalises the arguments of the C server, reads the
    configuration file ([config.rs]), opens the log ([logging.rs]) and the
    throttle file, daemonizes, enters the jail, binds the listeners and gives
    up its privileges ([startup.rs]); signals set flags that the loop reads
    ([signal.rs]).

    The proxy ([thttpd-migrate]) validates its configuration ([config.rs]),
    chooses a backend per request at random with operator-set weights
    ([router.rs]), admits it through a circuit breaker per backend
    ([circuit.rs]) and forwards it ([server.rs], [forwarder.rs]).  In shadow
    mode a capped copy of the request also goes to a second backend and the
    answers are compared ([shadow.rs], [diff.rs]).  Probes keep the backends'
    health ([backend.rs], [health.rs]); over a control socket the operator
    changes weights, drains and rolls back ([control.rs], [state.rs]).

    ** Files, in the order of their dependencies

    - [RustStr]: what the sources use of [str], [String], [Vec<u8>] and
      integer parsing of Rust's standard library.
    - [Match]: [thttpd-match/src/lib.rs], the glob matcher, and its semantics as
      a relation.
    - [Tdate]: [thttpd-tdate/src/lib.rs], [tdate_parse] and [format_http_date].
    - [Url]: [thttpd-http/src/url.rs], percent decoding and path normalisation.
    - [Request]: [thttpd-http/src/method.rs], [parse_state.rs], [parse.rs], the
      request detector as a state machine over the connection's buffer.
    - [Timers]: [thttpd-timers/src/lib.rs], the timer wheel.
    - [Mmc]: [thttpd-mmc/src/lib.rs], the cache of mapped files.
    - [Mime]: [thttpd-mime/src/types.rs].
    - [Fdwatch]: [thttpd-fdwatch/src/lib.rs], event tokens, and the registration
      of the listeners at the start of [run].
    - [Throttle]: [thttpd-core/src/throttle.rs], the rules file, admission,
      accounting and averages.
    - [HttpConn]: [thttpd-http/src/conn.rs], [error.rs].
    - [Response]: [thttpd-http/src/response.rs].
    - [Wire]: the helpers of [eventloop.rs] on header bytes.
    - [Auth]: [thttpd-auth/src/lib.rs].
    - [Cgi]: [thttpd-http/src/cgi.rs].
    - [Dirlist]: [thttpd-http/src/dirlist.rs].
    - [Server]: [thttpd-core/src/server.rs], [connection.rs] and the
      configuration and log records.
    - [EventLoop]: the handlers of [eventloop.rs] that send, pause, resume,
      finish and close ([handle_send], [handle_pause], [transition_to_sending],
      [cleanup_conn] and the like), and the class [World].
    - [Dispatch]: [handle_accept], [handle_read], [process_request],
      [serve_static], [dispatch_cgi], and one iteration of [run].
    - [Invariants], [Run], [Serving], [StaticFiles]: theorems on the server.
    - [Frame]: what an event of one connection leaves alone, and the other steps
      of the loop between two events of a connection.
    - [EndToEnd]: the life of a request for a file, from the accepted connection
      to its log line.
    - [CgiExec]: [execute_cgi] of [cgi.rs] and the reading of its output in
      [dispatch_cgi], as the server and the script over bounded pipes.
    - [Config]: [config.rs] of the server and the first part of [main.rs].
    - [Logging]: [logging.rs], over a file system of names and files;
      [LogLines]: what the handlers of the event loop hand to it.
    - [Startup]: [startup.rs], [main.rs] and [signal.rs], as computations that
      record their system calls, and the round of [run] with its signal flags.
    - [Daemon]: [daemonize] and [daemonize_with_handshake] of [startup.rs], the
      latter as three processes and a pipe.
    - [Legacy]: routines of the C server ([src/legacy/src]: [match],
      [httpd_got_request], [strdecode], [check_throttles]) and their equivalence
      with the port; [LegacyTick]: [update_throttles] against the update of the
      event loop; [LegacyLog]: [make_log_entry] against the access log.
    - [Breaker]: [thttpd-migrate/src/circuit.rs].
    - [Backend]: [backend.rs] and the probes of [health.rs].
    - [Router]: [router.rs].
    - [MigrateConfig]: [config.rs] of the proxy, with [validate].
    - [LiveState]: [state.rs], the state the operator changes, its commands as
      checks and updates.
    - [Control]: [control.rs], the snapshots and the state file of [state.rs],
      and the commands of [lib.rs].
    - [Drain]: the accept loop of [server.rs] with its watch on the drain flag,
      in time, and its end.
    - [Diff]: [diff.rs].
    - [Forwarder]: [forwarder.rs] and the capped reader of [shadow.rs].
    - [Proxy]: the handlers of [server.rs] and the mirroring task of
      [shadow.rs], before and after the answer of the backend.
    - [ProxyRun]: any number of such requests at once, some of them dropped, as
      a step relation.
    - [ProxySystem]: requests, probes and the single writes of the operator's
      commands, interleaved.
    - [ProxyStart]: [start] of [lib.rs], [main.rs], [load] of [config.rs], the
      accept loop of [control.rs] and the rounds of [health.rs].
    - [Observability]: [tracing_setup.rs], [metrics.rs] and the series that the
      handlers of [server.rs] and [shadow.rs] feed.

    ** How the code is rendered

    - Bytes are [ascii], strings and buffers lists of them; machine integers
      are [Z] with wrapping, saturation and casts written out; lengths and
      indices that only come from [len()] are [nat].
    - Rust structs are records updated with [r <| field := v |>]; enums are
      inductive types; [HashMap] is [gmap]; the slab of connections is a [gmap]
      whose next key is an input ([vacant_key], with the law [Run.SlabLaw]).
    - A handler maps the server state to [option Server]: [None] is a panic
      (index or slice out of range, [unwrap] of [None]), which ends the process.
      Errors the code handles are values.
    - Everything outside the process is a field of the class [World] (clocks,
      file system, contents of mappings, CGI programs) or, for sockets and
      poll, an argument of the handler.  The clock is read once per handler.
      [AuthEnv] holds the password file, base64 and crypt; [Lowercase] the
      Unicode lower-casing of [str::to_lowercase]; [HashOrder] the iteration
      order of a [HashMap].  The proxy's libraries are parameters with laws:
      [Forwarder.HeaderMap] (the http crate), [Control.Serde] (JSON),
      [Diff.Sha256], [Observability.Tracing.Filters] (tracing-subscriber),
      [Observability.Exporting.Exporter] (the Prometheus recorder), [uri_ok] (which texts parse as a URI), [debug_weights] (the
      text of a map).  [Startup.Os] and [Logging.LogSys] hold the results of
      system calls, [Config.Cli.t] what clap made of the arguments.  Theorems
      hold for all instances; the witnesses use concrete ones
      ([Run.demo_world], [Router.list_order], [Forwarder.Assoc],
      [Control.Codec]).
    - A request of the proxy is split where it waits: a handler is a function
      up to the request to the backend and one from its answer on, so that
      other requests can run in between.  A dropped future is a step of its
      own ([ProxyRun.step_dropped]).
    - Processes are steps of a relation: what each can do next given the bytes
      in the pipes, in any order.  A script is a tree of reads and writes
      ([CgiExec.Child]); the capacity of a pipe is a parameter.
    - The C routines work on suffixes of NUL-free strings; their arithmetic is
      unbounded, and compared with the port where C does not overflow.
    - A stream is represented by its registration with poll: which interest, or
      none.
    - The binary heap of the timer wheel is the list of its entries in firing
      order; a callback is the identifier that is logged when it fires.
    - The error rate of the breaker is IEEE binary64 ([SpecFloat]).
      The methods of the breaker are atomic steps, except in the last section
      of [Breaker], where the single atomic accesses of [try_admit] and
      [record] interleave.

    ** What is proved

    - The server as a whole ([Run]): in every reachable state the number of
      senders of each throttle rule is the number of open connections that hold
      it; every connection is registered with poll or paused and then resumed
      by the sweep; only the reading of a request can panic; the count of CGI
      processes is zero between events.
    - Delivery ([Serving]): what a client receives is a prefix of its response
      and the whole of it at the end; sending ends; the counter of a throttled
      connection is the number of its body bytes on the wire, and these stay
      within its limit, unless its share is rounded down to zero.
    - Requests ([StaticFiles]): without virtual hosts, the paths looked up for
      files are below the document root; how a file is answered for every
      range, also those that panic or announce a wrong length; a plain request
      for a file is answered.
    - From end to end ([EndToEnd]): a client that connects and asks for a
      readable file in HTTP/1.0 without headers (on a server without a throttle
      table, virtual hosts and a password file) receives exactly its header
      lines and its bytes, however the
      request is cut into reads and the response into writes and whatever the
      loop does for other clients in between, and its events add one line to
      the log.
    - CGI ([CgiExec]): the server and a script never block each other for ever
      when standard error stays within a pipe, every schedule ends, and the
      output is that of the script run alone; a script that writes more to
      standard error first hangs the server.
    - Daemon ([Daemon]): the starting command always returns, and with success
      only after the daemon has started.
    - The port against C ([Legacy], [LegacyTick], [LegacyLog]): the same verdicts
      of request detection, matching and admission, the same averages and, but
      for the authenticated user, the virtual host and URLs over 200 bytes, the
      same log lines; URL decoding differs exactly at plus signs, and the limits
      of connections that are not woken are not renewed.
    - Detection ([Request]): the detector answers exactly at the blank line,
      whatever the pieces in which the bytes arrive.
    - Throttling ([Throttle]): admission, roll-back on rejection, the fair
      shares, the averages, and the round trip of the rules file.
    - Glob matching is the relation of its documentation; timers fire exactly
      when expired and the wheel stays well formed; a mapping that is in use is
      shared and never replaced; dates round-trip; normalised paths have no
      [..]; headers are found as the header grammar says; error pages contain no
      markup from the request; listing links decode to the file they name;
      authentication is granted only by a matching line.
    - Start-up ([Config], [Logging], [Startup]): the configuration file can
      express every configuration and is read exactly; switches act in their
      order; the order of the privileged steps, whatever fails; what is served
      is what was configured, in and out of a jail; the loop starts in a state
      in which the invariants hold; log rotation loses no line; which signals
      are lost.
    - The access log ([LogLines]): in every state the server reaches, each entry
      is one line, whatever the clients sent.
    - Routing: one probe in flight in the half-open state, the breaker trips
      exactly when the outcomes of its current window reach the minimum volume
      with a rate above the threshold, over any number of windows, recovery and
      the weakness of the interleaved accesses; a decision names an admitted,
      healthy backend with positive weight and is found when there is one; the
      share of draws of a backend is its weight; changes of weights and the
      rollback are all or nothing; health follows runs of equal probe results;
      a validated configuration serves.
    - Control ([Control], [Drain]): frames round-trip; a command is delivered,
      executed and answered; with weights whose sum fits 32 bits no sequence of
      commands leads to a configuration that validation rejects; the state file is replaced in one piece; a
      running instance keeps its socket unless two start at once; a drain
      command ends the accept loop within 100 ms, also when nothing arrives, and
      the proxy within the grace, cutting off exactly the connections that
      outlast it.
    - Forwarding ([Diff], [Forwarder], [Proxy], [ProxyRun]): the exact headers a
      backend receives; capped reading loses no data; what shadow mode
      changes for the client (values that are not text, bodies that fail); the mirrored request is framed by its capped body; the
      verdict of the comparison; in every reachable state each half-open breaker
      has a request in flight that will resolve it, or had one that was dropped,
      and is then never used again.
    - The proxy as a whole ([ProxySystem], [ProxyStart]): when a command is
      refused and what its writes and the final store amount to; after a rollback every new
      request goes to its target, under every interleaving; when nothing may be
      routable in between; when the proxy starts, in which order, and with what
      state; the command line reports what the proxy did.
    - Logs and metrics ([Observability]): which filter rules the log; what a
      scrape of the exporter counts.

    ** Fuel

    Loops that are not structural take fuel, and it is shown or evident that the
    fuel given is enough: [Dispatch.pathinfo_loop], [cgi_prefix_loop] and
    [cgi_script_loop] drop a path component a step and get the length of the
    path; [RustStr.utf8_chunks_fuel] and [replace_fuel] consume a byte a step;
    [Tdate.year_loop] and [Dirlist.ymd_years] subtract at least 365 days a step
    ([year_fuel_enough], [ymd_fuel]); [Timers.run_loop] gets twice the size of
    the heap plus one, and [Timers.run_fires_expired] proves that it ends
    there; [Router.choose] removes a candidate a step; [Diff.scan] consumes a
    byte a step and gets the length of the string, so does
    [MigrateConfig.SocketAddr.digits]; [Forwarder.drain_body] yields a frame a
    step and gets [frames_left].  [Drain.drain_signal] waits for another task:
    [Drain.drain_signal_spec] says how much fuel it needs.
    [Legacy.CMatch.match_loop] drops an alternative a round and gets the length
    of the pattern plus one.

    ** What is not modelled

    What clap, serde, hyper, tokio and the metrics and tracing crates do
    inside, and the time-outs of the HTTP client.  The intervals of the health
    checker and of the state writer are left out: a round happens at any time.
    The memory order of single counters is not modelled, except for the
    accesses of the circuit breaker.  Of the C server, which the port replaces,
    only the routines of [Legacy], [LegacyTick] and [LegacyLog] are modelled:
    those that the Rust sources name as their originals and that can be
    compared as functions.  The end-to-end theorem is about a server without a
    throttle table; what connections share through it is the subject of [Run]. *)

From Stdlib Require Export ZArith Ascii Lia.
From stdpp Require Export base numbers option strings gmap list.

(** ** Bytes and string literals

    A Rust [u8] is an [ascii] (eight bits), a [[u8]], [Vec<u8>], [str] or
    [String] is a [bytes]: the list of its bytes (for [str], of its UTF-8
    encoding). *)

Abbreviation byte := ascii.
Abbreviation bytes := (list ascii).

Declare Scope thttpd_scope.
Delimit Scope thttpd_scope with thttpd.
Open Scope thttpd_scope.

(** [B "GET"] is the Rust literal [b"GET"] or ["GET"]. *)
Definition B (s : string) : bytes := String.list_ascii_of_string s.

Notation "c =c? d" := (Ascii.eqb c d) (at level 70) : thttpd_scope.

Definition code (c : byte) : Z := Z.of_N (N_of_ascii c).

Definition chr (z : Z) : byte := ascii_of_N (Z.to_N z).

Definition TAB : byte := chr 9.
Definition LF : byte := chr 10.
Definition CR : byte := chr 13.
Definition SP : byte := chr 32.
Definition DQ : byte := chr 34.
Definition CRLF : bytes := [CR; LF].

Lemma code_range c : (0 <= code c < 256)%Z.
Proof. unfold code. pose proof (N_ascii_bounded c). lia. Qed.

Lemma chr_code c : chr (code c) = c.
Proof. unfold chr, code. rewrite N2Z.id. apply ascii_N_embedding. Qed.

Lemma code_chr z : (0 <= z < 256)%Z -> code (chr z) = z.
Proof. intros H. unfold chr, code. rewrite N_ascii_embedding; lia. Qed.

Lemma code_inj c d : code c = code d -> c = d.
Proof. intros H. rewrite <- (chr_code c), <- (chr_code d), H. reflexivity. Qed.

(** ** Machine integers

    The release profile (`make build`) is modelled: arithmetic wraps. *)

Definition wrap_u (w z : Z) : Z := (z mod 2 ^ w)%Z.

Definition wrap_s (w z : Z) : Z := ((z + 2 ^ (w - 1)) mod 2 ^ w - 2 ^ (w - 1))%Z.

Abbreviation wrap_u8 := (wrap_u 8).
Abbreviation wrap_u32 := (wrap_u 32).
Abbreviation wrap_u64 := (wrap_u 64).
Abbreviation wrap_usize := (wrap_u 64).
Abbreviation wrap_i32 := (wrap_s 32).
Abbreviation wrap_i64 := (wrap_s 64).

Lemma wrap_u_small w z : (0 <= z < 2 ^ w)%Z -> wrap_u w z = z.
Proof. apply Z.mod_small. Qed.

Lemma wrap_s_small w z :
  (0 < w)%Z -> (- 2 ^ (w - 1) <= z < 2 ^ (w - 1))%Z -> wrap_s w z = z.
Proof.
  intros Hw Hz. unfold wrap_s.
  assert (E : (2 ^ w = 2 * 2 ^ (w - 1))%Z)
    by (replace w with (1 + (w - 1))%Z at 1 by lia; rewrite Z.pow_add_r by lia; lia).
  rewrite Z.mod_small by lia. lia.
Qed.

Lemma wrap_u_range w z : (0 <= w)%Z -> (0 <= wrap_u w z < 2 ^ w)%Z.
Proof. intros H. apply Z.mod_pos_bound. apply Z.pow_pos_nonneg; lia. Qed.

Definition is_i64 (z : Z) : Prop := (- 2 ^ 63 <= z < 2 ^ 63)%Z.

Lemma wrap_i64_id z : is_i64 z -> wrap_i64 z = z.
Proof. intros H. apply wrap_s_small; [lia|exact H]. Qed.

(** Removes the wrap-around of an operation that stays in range. *)
Ltac unwrap :=
  repeat (first [ rewrite wrap_u_small by (try lia)
                | rewrite wrap_s_small by (try lia) ]).

(** ** Field update

    [r <| f := v |>] is the Rust assignment [r.f = v], for a record type with
    a [Settable] instance (its eta expansion). *)

Class Settable (R : Type) := eta_record : R -> R.

Class Setter {R T : Type} (proj : R -> T) := update_field : (T -> T) -> R -> R.

Ltac derive_setter :=
  match goal with
  | |- @Setter ?R ?T ?proj =>
      let inst := constr:(_ : Settable R) in
      let eta := eval cbv [eta_record] in inst in
      let eta := eval red in eta in
      let abstracted := eval pattern proj in eta in
      match abstracted with
      | ?body proj => exact (fun f r => body (fun x => f (proj x)) r)
      end
  end.

#[export] Hint Extern 0 (Setter _) => derive_setter : typeclass_instances.

Notation "r <| proj := v |>" := (update_field (proj := proj) (fun _ => v) r)
  (at level 1, left associativity, proj at level 9, v at level 99,
   format "r  <|  proj  :=  v  |>") : thttpd_scope.

(** ** Automation *)

Create HintDb thttpd.
Create Rewrite HintDb thttpd_rw.

(** Case analysis on the boolean tests of a definition's body. *)
Ltac case_eqb :=
  match goal with
  | |- context [Ascii.eqb ?a ?b] => destruct (Ascii.eqb_spec a b)
  | H : context [Ascii.eqb ?a ?b] |- _ => destruct (Ascii.eqb_spec a b)
  | |- context [Z.eqb ?a ?b] => destruct (Z.eqb_spec a b)
  | |- context [Z.ltb ?a ?b] => destruct (Z.ltb_spec a b)
  | |- context [Z.leb ?a ?b] => destruct (Z.leb_spec a b)
  | |- context [Nat.eqb ?a ?b] => destruct (Nat.eqb_spec a b)
  | |- context [Nat.ltb ?a ?b] => destruct (Nat.ltb_spec a b)
  | |- context [Nat.leb ?a ?b] => destruct (Nat.leb_spec a b)
  | H : context [Z.eqb ?a ?b] |- _ => destruct (Z.eqb_spec a b)
  | H : context [Z.ltb ?a ?b] |- _ => destruct (Z.ltb_spec a b)
  | H : context [Z.leb ?a ?b] |- _ => destruct (Z.leb_spec a b)
  | H : context [Nat.eqb ?a ?b] |- _ => destruct (Nat.eqb_spec a b)
  | H : context [Nat.ltb ?a ?b] |- _ => destruct (Nat.ltb_spec a b)
  | H : context [Nat.leb ?a ?b] |- _ => destruct (Nat.leb_spec a b)
  end.

(** ** Search and splitting on byte strings *)

(** [iter().position(p)]: index of the first element satisfying [p]. *)
Fixpoint position {A} (p : A -> bool) (l : list A) : option nat :=
  match l with
  | [] => None
  | x :: l' => if p x then Some 0 else S <$> position p l'
  end.

(** [rposition]/[rfind]: index of the last element satisfying [p]. *)
Fixpoint rposition {A} (p : A -> bool) (l : list A) : option nat :=
  match l with
  | [] => None
  | x :: l' =>
      match rposition p l' with
      | Some i => Some (S i)
      | None => if p x then Some 0 else None
      end
  end.

(** [s.starts_with(pre)]. *)
Fixpoint starts_with (pre s : bytes) : bool :=
  match pre, s with
  | [], _ => true
  | p :: pre', c :: s' => (p =c? c) && starts_with pre' s'
  | _ :: _, [] => false
  end.

(** [s.strip_prefix(pre)]. *)
Definition strip_prefix (pre s : bytes) : option bytes :=
  if starts_with pre s then Some (drop (length pre) s) else None.

(** [hay.find(needle)], [hay.windows(n).position(|w| w == needle)]. *)
Fixpoint find_sub (needle hay : bytes) : option nat :=
  if starts_with needle hay then Some 0
  else match hay with
       | [] => None
       | _ :: hay' => S <$> find_sub needle hay'
       end.

Definition contains_sub (needle hay : bytes) : bool :=
  match find_sub needle hay with Some _ => true | None => false end.

Definition contains_char (c : byte) (s : bytes) : bool :=
  existsb (Ascii.eqb c) s.

(** [s.split(p)] for a predicate on the elements: never empty. *)
Fixpoint split_by {A} (p : A -> bool) (s : list A) : list (list A) :=
  match s with
  | [] => [[]]
  | x :: s' =>
      if p x then [] :: split_by p s'
      else match split_by p s' with
           | h :: t => (x :: h) :: t
           | [] => [[x]]
           end
  end.

Definition split_on (c : byte) (s : bytes) : list bytes :=
  split_by (fun x => x =c? c) s.

(** [s.split_once(c)]. *)
Definition split_once (c : byte) (s : bytes) : option (bytes * bytes) :=
  match position (fun x => x =c? c) s with
  | Some i => Some (take i s, drop (S i) s)
  | None => None
  end.

(** [s.rsplit_once(c)]. *)
Definition rsplit_once (c : byte) (s : bytes) : option (bytes * bytes) :=
  match rposition (fun x => x =c? c) s with
  | Some i => Some (take i s, drop (S i) s)
  | None => None
  end.

(** [l.join(sep)]. *)
Fixpoint join (sep : bytes) (l : list bytes) : bytes :=
  match l with
  | [] => []
  | [x] => x
  | x :: l' => x ++ sep ++ join sep l'
  end.

(** [s.trim_start_matches(p)]. *)
Fixpoint trim_start_by {A} (p : A -> bool) (s : list A) : list A :=
  match s with
  | x :: s' => if p x then trim_start_by p s' else s
  | [] => []
  end.

(** [s.trim_end_matches(p)]. *)
Definition trim_end_by {A} (p : A -> bool) (s : list A) : list A :=
  reverse (trim_start_by p (reverse s)).

Definition is_empty {A} (l : list A) : bool :=
  match l with [] => true | _ => false end.

Definition is_some {A} (o : option A) : bool :=
  match o with Some _ => true | None => false end.

Definition unwrap_or {A} (d : A) (o : option A) : A :=
  match o with Some x => x | None => d end.

Definition bytes_eqb (a b : bytes) : bool := bool_decide (a = b).

(** ASCII case folding. *)
Definition is_ascii_upper (c : byte) : bool := ((65 <=? code c) && (code c <=? 90))%Z.
Definition is_ascii_lower (c : byte) : bool := ((97 <=? code c) && (code c <=? 122))%Z.
Definition is_ascii_digit (c : byte) : bool := ((48 <=? code c) && (code c <=? 57))%Z.

Definition ascii_lower (c : byte) : byte :=
  if is_ascii_upper c then chr (code c + 32) else c.

Definition ascii_upper (c : byte) : byte :=
  if is_ascii_lower c then chr (code c - 32) else c.

Definition eq_ignore_ascii_case (a b : bytes) : bool :=
  bytes_eqb (ascii_lower <$> a) (ascii_lower <$> b).

(** ** Lemmas *)

Lemma starts_with_spec pre s :
  starts_with pre s = true <-> exists t, s = pre ++ t.
Proof.
  revert s. induction pre as [|p pre IH]; intros s; simpl.
  - split; [intros _; exists s; reflexivity|reflexivity].
  - destruct s as [|c s].
    + split; [discriminate|]. intros [t H]. discriminate.
    + rewrite andb_true_iff, Ascii.eqb_eq, IH. split.
      * intros [-> [t ->]]. exists t. reflexivity.
      * intros [t H]. injection H as -> ->. eauto.
Qed.

Lemma starts_with_app pre t : starts_with pre (pre ++ t) = true.
Proof. apply starts_with_spec. eauto. Qed.

Lemma strip_prefix_spec pre s t :
  strip_prefix pre s = Some t <-> s = pre ++ t.
Proof.
  unfold strip_prefix. destruct (starts_with pre s) eqn:E.
  - apply starts_with_spec in E as [u ->]. rewrite drop_app_length.
    split; [intros [= ->]; reflexivity|]. intros H%app_inv_head. congruence.
  - split; [discriminate|]. intros ->. rewrite starts_with_app in E. discriminate.
Qed.

Lemma position_Some {A} (p : A -> bool) l i :
  position p l = Some i <->
  exists x, l !! i = Some x /\ p x = true /\
    forall j y, j < i -> l !! j = Some y -> p y = false.
Proof.
  revert i. induction l as [|a l IH]; intros i; simpl.
  - split; [discriminate|]. intros (x & H & _). discriminate.
  - destruct (p a) eqn:Ea.
    + split.
      * intros [= <-]. exists a. repeat split; auto. intros j y Hj. lia.
      * intros (x & Hx & Px & Hall). destruct i as [|i]; [reflexivity|].
        rewrite (Hall 0 a) in Ea; [discriminate|lia|reflexivity].
    + destruct i as [|i].
      * split; [destruct (position p l); discriminate|].
        intros (x & Hx & Px & _). simpl in Hx. congruence.
      * rewrite fmap_Some. split.
        -- intros (k & Hk & [= ->]). apply IH in Hk as (x & Hx & Px & Hall).
           exists x. repeat split; auto. intros [|j] y Hj Hy; simpl in Hy; [congruence|].
           apply (Hall j); [lia|auto].
        -- intros (x & Hx & Px & Hall). exists i. split; [|reflexivity].
           apply IH. exists x. repeat split; auto.
           intros j y Hj Hy. apply (Hall (S j)); [lia|auto].
Qed.

Lemma position_None {A} (p : A -> bool) l :
  position p l = None <-> Forall (fun x => p x = false) l.
Proof.
  induction l as [|a l IH]; simpl; [split; auto|].
  rewrite Forall_cons. destruct (p a) eqn:E.
  - split; [discriminate|]. intros [H _]. congruence.
  - rewrite fmap_None, IH. tauto.
Qed.

Lemma split_by_nonempty {A} (p : A -> bool) s : split_by p s <> [].
Proof.
  destruct s as [|x s]; simpl; [discriminate|].
  destruct (p x); [discriminate|]. destruct (split_by p s); discriminate.
Qed.

Lemma split_by_no_sep {A} (p : A -> bool) s :
  Forall (fun x => p x = false) s -> split_by p s = [s].
Proof.
  induction 1 as [|x s Hx _ IH]; simpl; [reflexivity|]. rewrite Hx, IH. reflexivity.
Qed.

Lemma split_by_app {A} (p : A -> bool) s x t :
  Forall (fun y => p y = false) s -> p x = true ->
  split_by p (s ++ x :: t) = s :: split_by p t.
Proof.
  intros Hs Hx. induction Hs as [|y s Hy _ IH]; simpl.
  - rewrite Hx. reflexivity.
  - rewrite Hy, IH. reflexivity.
Qed.

(** Every piece of a split is free of separators. *)
Lemma split_by_pieces {A} (p : A -> bool) s :
  Forall (Forall (fun x => p x = false)) (split_by p s).
Proof.
  induction s as [|x s IH]; simpl; [repeat constructor|].
  destruct (p x) eqn:E; [constructor; auto|].
  destruct (split_by p s) as [|h t]; [repeat constructor; auto|].
  apply Forall_cons in IH as [Hh Ht]. constructor; auto.
Qed.

Lemma split_by_Forall {A} (P : A -> Prop) (p : A -> bool) s : Forall P s -> Forall (Forall P) (split_by p s).
Proof.
  induction 1 as [|x s Hx _ IH]; cbn [split_by]; [repeat constructor|].
  destruct (p x); [constructor; [constructor|done]|].
  destruct (split_by p s) as [|h t]; [repeat constructor; done|].
  apply Forall_cons in IH as [Hh Ht]. repeat constructor; done.
Qed.

Lemma split_once_app c s t :
  Forall (fun x => (x =c? c) = false) s -> split_once c (s ++ c :: t) = Some (s, t).
Proof.
  intros H. unfold split_once.
  assert (position (fun x => x =c? c) (s ++ c :: t) = Some (length s)) as ->.
  { induction H as [|x s Hx _ IH]; simpl; [by rewrite Ascii.eqb_refl|]. by rewrite Hx, IH. }
  rewrite take_app_length, (cons_middle c s t), app_assoc.
  replace (S (length s)) with (length (s ++ [c])) by (rewrite length_app; simpl; lia).
  by rewrite drop_app_length.
Qed.

Lemma join_cons sep x y l : join sep (x :: y :: l) = x ++ sep ++ join sep (y :: l).
Proof. reflexivity. Qed.

(** Splitting and joining with the separator are inverse. *)
Lemma join_split_on c s : join [c] (split_on c s) = s.
Proof.
  unfold split_on. induction s as [|x s IH]; [reflexivity|]. simpl.
  destruct (Ascii.eqb_spec x c) as [->|Hne].
  - destruct (split_by _ s) eqn:E; [exfalso; revert E; apply split_by_nonempty|].
    rewrite join_cons, IH. reflexivity.
  - destruct (split_by _ s) as [|h t] eqn:E; [exfalso; revert E; apply split_by_nonempty|].
    destruct t as [|h' t].
    + simpl in *. congruence.
    + rewrite join_cons in *. simpl. rewrite <- IH. reflexivity.
Qed.

Lemma split_on_join c l :
  l <> [] -> Forall (Forall (fun x => (x =c? c) = false)) l ->
  split_on c (join [c] l) = l.
Proof.
  unfold split_on. induction l as [|x l IH]; [congruence|]. intros _ H.
  apply Forall_cons in H as [Hx Hl]. destruct l as [|y l].
  - simpl. apply split_by_no_sep. exact Hx.
  - rewrite join_cons. change ([c] ++ ?t) with (c :: t). rewrite split_by_app.
    + rewrite IH; auto.
    + exact Hx.
    + apply Ascii.eqb_refl.
Qed.

Lemma bytes_eqb_true a b : bytes_eqb a b = true <-> a = b.
Proof. unfold bytes_eqb. rewrite bool_decide_eq_true. reflexivity. Qed.

Lemma bytes_eqb_false a b : bytes_eqb a b = false <-> a <> b.
Proof. unfold bytes_eqb. rewrite bool_decide_eq_false. reflexivity. Qed.

#[export] Hint Resolve code_range starts_with_app split_by_nonempty : thttpd.
#[export] Hint Rewrite bytes_eqb_true bytes_eqb_false : thttpd_rw.
