(* ===== verification/RustStr.v ===== *)
(** * What the sources use of Rust's [str], [String] and integer parsing

    UTF-8 is modelled byte for byte: [utf8_chunks] is the algorithm of
    [core::str::lossy] (the maximal-subpart rule), from which
    [String::from_utf8_lossy], [str::from_utf8] and [chars] follow.  Trimming
    and splitting use Unicode's White_Space.  [parse_u]/[parse_i] are
    [str::parse] for the integer types and [show_Z] their [Display]. *)

From S2P Require Import Prelude.

Local Open Scope Z_scope.

(** ** UTF-8 *)

Definition in_range (lo hi z : Z) : bool := (lo <=? z) && (z <=? hi).

Definition is_cont (z : Z) : bool := in_range 128 191 z.

(** Byte [i] of [s], 0 past the end ([safe_get] of the lossy decoder). *)
Definition byte_at (s : bytes) (i : nat) : Z :=
  match s !! i with Some c => code c | None => 0 end.

Definition second_ok3 (b0 b1 : Z) : bool :=
  if b0 =? 224 then in_range 160 191 b1
  else if b0 =? 237 then in_range 128 159 b1
  else is_cont b1.

Definition second_ok4 (b0 b1 : Z) : bool :=
  if b0 =? 240 then in_range 144 191 b1
  else if b0 =? 244 then in_range 128 143 b1
  else is_cont b1.

(** The sequence at the head of [s]: whether it is well formed, and its
    length (of the maximal subpart when it is not). *)
Definition utf8_head (s : bytes) : bool * nat :=
  let b := byte_at s in
  if b 0%nat <? 128 then (true, 1%nat)
  else if in_range 194 223 (b 0%nat) then
    if is_cont (b 1%nat) then (true, 2%nat) else (false, 1%nat)
  else if in_range 224 239 (b 0%nat) then
    if second_ok3 (b 0%nat) (b 1%nat) then
      if is_cont (b 2%nat) then (true, 3%nat) else (false, 2%nat)
    else (false, 1%nat)
  else if in_range 240 244 (b 0%nat) then
    if second_ok4 (b 0%nat) (b 1%nat) then
      if is_cont (b 2%nat) then
        if is_cont (b 3%nat) then (true, 4%nat) else (false, 3%nat)
      else (false, 2%nat)
    else (false, 1%nat)
  else (false, 1%nat).

Fixpoint utf8_chunks_fuel (n : nat) (s : bytes) : list (bool * bytes) :=
  match n, s with
  | O, _ | _, [] => []
  | S n', _ =>
      let '(ok, k) := utf8_head s in
      (ok, take k s) :: utf8_chunks_fuel n' (drop k s)
  end.

(** Each step consumes at least one byte, so [length s] is enough fuel. *)
Definition utf8_chunks (s : bytes) : list (bool * bytes) :=
  utf8_chunks_fuel (length s) s.

Definition valid_utf8 (s : bytes) : bool := forallb fst (utf8_chunks s).

(** U+FFFD. *)
Definition REPLACEMENT : bytes := [chr 239; chr 191; chr 189].

(** [String::from_utf8_lossy]. *)
Definition from_utf8_lossy (s : bytes) : bytes :=
  concat (map (fun ch : bool * bytes => if ch.1 then ch.2 else REPLACEMENT)
              (utf8_chunks s)).

(** [String::from_utf8(v).ok()]. *)
Definition from_utf8 (s : bytes) : option bytes :=
  if valid_utf8 s then Some s else None.

(** [s.chars()], each char as the bytes that encode it. *)
Definition chars (s : bytes) : list bytes := map snd (utf8_chunks s).

(** ** White space *)

Definition is_ascii_ws_code (z : Z) : bool := in_range 9 13 z || (z =? 32).

(** Unicode White_Space, on one encoded char. *)
Definition char_is_whitespace (c : bytes) : bool :=
  match map code c with
  | [a] => is_ascii_ws_code a
  | [a; b] => (a =? 194) && ((b =? 133) || (b =? 160))
  | [a; b; d] =>
      ((a =? 225) && (b =? 154) && (d =? 128))
      || ((a =? 226) && (b =? 128)
          && (in_range 128 138 d || (d =? 168) || (d =? 169) || (d =? 175)))
      || ((a =? 226) && (b =? 129) && (d =? 159))
      || ((a =? 227) && (b =? 128) && (d =? 128))
  | _ => false
  end.

Definition trim_start (s : bytes) : bytes :=
  concat (trim_start_by char_is_whitespace (chars s)).

Definition trim_end (s : bytes) : bytes :=
  concat (trim_end_by char_is_whitespace (chars s)).

(** [s.trim()]. *)
Definition trim (s : bytes) : bytes :=
  concat (trim_end_by char_is_whitespace (trim_start_by char_is_whitespace (chars s))).

(** [s.split(char::is_whitespace)]. *)
Definition split_ws_all (s : bytes) : list bytes :=
  map (@concat ascii) (split_by char_is_whitespace (chars s)).

(** [s.split_whitespace()]. *)
Definition split_whitespace (s : bytes) : list bytes :=
  filter (fun w => w <> []) (split_ws_all s).

(** [line.strip_suffix('\r')] of a terminated line. *)
Definition strip_cr (l : bytes) : bytes :=
  match reverse l with
  | c :: r => if c =c? CR then reverse r else l
  | [] => l
  end.

Fixpoint lines_of (pieces : list bytes) : list bytes :=
  match pieces with
  | [] => []
  | [last] => if is_empty last then [] else [last]
  | l :: rest => strip_cr l :: lines_of rest
  end.

(** [s.lines()]: a line ends at a line feed; the last one may be unterminated. *)
Definition lines (s : bytes) : list bytes := lines_of (split_on LF s).

(** [hay.replace(needle, rep)] for a non-empty needle: left to right,
    non-overlapping. *)
Fixpoint replace_fuel (n : nat) (needle rep hay : bytes) : bytes :=
  match n, hay with
  | O, _ | _, [] => []
  | S n', c :: hay' =>
      if starts_with needle hay then
        rep ++ replace_fuel n' needle rep (drop (length needle) hay)
      else c :: replace_fuel n' needle rep hay'
  end.

Definition str_replace (needle rep hay : bytes) : bytes :=
  replace_fuel (length hay) needle rep hay.

(** ** Decimal numbers *)

Definition digit (d : Z) : byte := chr (48 + d).

Fixpoint dec_fuel (n : nat) (z : Z) : bytes :=
  match n with
  | O => []
  | S n' => if z <? 10 then [digit z] else dec_fuel n' (z / 10) ++ [digit (z mod 10)]
  end.

(** [z.to_string()] for [z >= 0]: a number has at most [log2 z + 1] digits. *)
Definition show_nonneg (z : Z) : bytes := dec_fuel (S (Z.to_nat (Z.log2 z))) z.

Definition show_Z (z : Z) : bytes :=
  if z <? 0 then B "-" ++ show_nonneg (- z) else show_nonneg z.

(** [{:0w}] (for non-negative numbers) and [{:>w}]. *)
Definition pad_left (c : byte) (w : nat) (s : bytes) : bytes :=
  replicate (w - length s) c ++ s.

Fixpoint parse_acc (acc : Z) (s : bytes) : option Z :=
  match s with
  | [] => Some acc
  | c :: s' =>
      if is_ascii_digit c then parse_acc (acc * 10 + (code c - 48)) s' else None
  end.

Definition parse_digits (s : bytes) : option Z :=
  match s with [] => None | _ => parse_acc 0 s end.

(** [s.parse::<uW>().ok()]. *)
Definition parse_u (w : Z) (s : bytes) : option Z :=
  let d := match s with c :: r => if c =c? "+"%char then r else s | [] => s end in
  v ← parse_digits d;
  if v <? 2 ^ w then Some v else None.

(** [s.parse::<iW>().ok()]. *)
Definition parse_i (w : Z) (s : bytes) : option Z :=
  match s with
  | c :: r =>
      if c =c? "-"%char then
        v ← parse_digits r; if v <=? 2 ^ (w - 1) then Some (- v) else None
      else
        v ← parse_digits (if c =c? "+"%char then r else s);
        if v <? 2 ^ (w - 1) then Some v else None
  | [] => None
  end.

(** [Path::file_name] on Unix: the last component, unless it is `..`. *)
Definition path_parts (p : bytes) : list bytes :=
  filter (fun c => c <> [] /\ c <> B ".") (split_on "/"%char p).

Definition file_name (p : bytes) : option bytes :=
  match last (path_parts p) with
  | Some c => if bytes_eqb c (B "..") then None else Some c
  | None => None
  end.

(** [dir.join(rel)] on Unix: an absolute [rel] replaces [dir]. *)
Definition path_join (dir rel : bytes) : bytes :=
  if starts_with (B "/") rel then rel
  else if is_empty dir then rel
  else match last dir with
       | Some c => if c =c? "/"%char then dir ++ rel else dir ++ B "/" ++ rel
       | None => rel
       end.

(** The order of [str] and [[u8]]: lexicographic on bytes. *)
Fixpoint bytes_leb (a b : bytes) : bool :=
  match a, b with
  | [], _ => true
  | _ :: _, [] => false
  | x :: a', y :: b' => (code x <? code y) || ((code x =? code y) && bytes_leb a' b')
  end.

Definition bytes_le (a b : bytes) : Prop := bytes_leb a b = true.

#[export] Instance bytes_le_dec : RelDecision bytes_le.
Proof. intros a b. unfold bytes_le. apply _. Defined.

(** ** The order of strings *)

Lemma bytes_leb_total a b : bytes_leb a b = true \/ bytes_leb b a = true.
Proof.
  revert b. induction a as [|x a IH]; intros [|y b]; simpl; auto.
  destruct (IH b); repeat case_eqb; simpl; auto; lia.
Qed.

Lemma bytes_leb_trans a b c :
  bytes_leb a b = true -> bytes_leb b c = true -> bytes_leb a c = true.
Proof.
  revert b c. induction a as [|x a IH]; intros [|y b] [|z c]; simpl; try done.
  specialize (IH b c). repeat case_eqb; simpl; auto; try done; lia.
Qed.

Lemma bytes_leb_antisym a b : bytes_leb a b = true -> bytes_leb b a = true -> a = b.
Proof.
  revert b. induction a as [|x a IH]; intros [|y b]; simpl; try done.
  specialize (IH b). repeat case_eqb; simpl; try done; try lia.
  intros. f_equal; [by apply code_inj|auto].
Qed.

#[export] Instance bytes_le_total : Total bytes_le.
Proof. intros a b. apply bytes_leb_total. Qed.

#[export] Instance bytes_le_trans : Transitive bytes_le.
Proof. intros a b c. apply bytes_leb_trans. Qed.

#[export] Instance bytes_le_antisym : AntiSymm eq bytes_le.
Proof. intros a b. apply bytes_leb_antisym. Qed.

(** ** Lemmas on UTF-8 *)

Lemma byte_at_range s i : 0 <= byte_at s i < 256.
Proof. unfold byte_at. destruct (s !! i); [apply code_range|lia]. Qed.

Lemma byte_at_pos s i : 0 < byte_at s i -> (i < length s)%nat.
Proof.
  unfold byte_at. destruct (s !! i) eqn:E; [|lia]. intros _. by eapply lookup_lt_Some.
Qed.

Lemma utf8_head_len s ok k :
  s <> [] -> utf8_head s = (ok, k) -> (1 <= k <= length s)%nat.
Proof.
  intros Hs. assert (1 <= length s)%nat by (destruct s; simpl; [congruence|lia]).
  pose proof (byte_at_pos s 1). pose proof (byte_at_pos s 2). pose proof (byte_at_pos s 3).
  unfold utf8_head, is_cont, second_ok3, second_ok4, is_cont, in_range.
  repeat case_match; intros [= <- <-];
    repeat (rewrite ?andb_true_iff, ?Z.leb_le in *); lia.
Qed.

Lemma utf8_chunks_fuel_enough n s :
  (length s <= n)%nat -> utf8_chunks_fuel n s = utf8_chunks s.
Proof.
  unfold utf8_chunks. remember (length s) as m eqn:Hm.
  revert n s Hm. induction m as [m IH] using lt_wf_ind. intros n s Hm Hn.
  destruct s as [|c s].
  { destruct n, m; reflexivity. }
  destruct n as [|n]; [simpl in *; lia|]. destruct m as [|m]; [simpl in *; lia|].
  unfold utf8_chunks_fuel; fold utf8_chunks_fuel.
  destruct (utf8_head (c :: s)) as [ok k] eqn:E.
  apply utf8_head_len in E; [|discriminate]. f_equal.
  assert (length (drop k (c :: s)) < S m)%nat by (rewrite length_drop; lia).
  rewrite (IH _ H n _ eq_refl) by lia.
  symmetry. apply (IH _ H m _ eq_refl). lia.
Qed.

(** The defining equation of [utf8_chunks]. *)
Lemma utf8_chunks_eq s :
  utf8_chunks s =
  match s with
  | [] => []
  | _ => (fst (utf8_head s), take (snd (utf8_head s)) s)
         :: utf8_chunks (drop (snd (utf8_head s)) s)
  end.
Proof.
  destruct s as [|c s]; [reflexivity|].
  unfold utf8_chunks at 1. simpl length. unfold utf8_chunks_fuel; fold utf8_chunks_fuel.
  destruct (utf8_head (c :: s)) as [ok k] eqn:E.
  apply utf8_head_len in E; [|discriminate]. simpl fst; simpl snd. f_equal.
  apply utf8_chunks_fuel_enough. rewrite length_drop. simpl in *; lia.
Qed.

Lemma concat_chunks s : concat (map snd (utf8_chunks s)) = s.
Proof.
  remember (length s) as m eqn:Hm. revert s Hm.
  induction m as [m IH] using lt_wf_ind. intros s Hm. rewrite utf8_chunks_eq.
  destruct s as [|c s]; [reflexivity|].
  destruct (utf8_head (c :: s)) as [ok k] eqn:E.
  apply utf8_head_len in E; [|discriminate]. cbn [fst snd map concat].
  rewrite (IH (length (drop k (c :: s)))); [apply take_drop| |reflexivity].
  rewrite length_drop. simpl in *; lia.
Qed.

Lemma concat_chars s : concat (chars s) = s.
Proof. apply concat_chunks. Qed.

Lemma from_utf8_lossy_valid s : valid_utf8 s = true -> from_utf8_lossy s = s.
Proof.
  intros H. rewrite <- (concat_chunks s) at 2. unfold from_utf8_lossy. f_equal.
  unfold valid_utf8 in H. rewrite forallb_forall in H. apply map_ext_in.
  intros ch Hin. rewrite (H _ Hin). reflexivity.
Qed.

Definition ascii_only (s : bytes) : Prop := Forall (fun c => code c < 128) s.

Lemma utf8_head_ascii c s : code c < 128 -> utf8_head (c :: s) = (true, 1%nat).
Proof.
  intros H. unfold utf8_head. change (byte_at (c :: s) 0) with (code c).
  rewrite (proj2 (Z.ltb_lt _ _) H). reflexivity.
Qed.

Lemma utf8_chunks_ascii_cons c s :
  code c < 128 -> utf8_chunks (c :: s) = (true, [c]) :: utf8_chunks s.
Proof. intros H. rewrite utf8_chunks_eq, utf8_head_ascii by done. reflexivity. Qed.

Lemma utf8_chunks_ascii s : ascii_only s -> utf8_chunks s = map (fun c => (true, [c])) s.
Proof.
  induction 1 as [|c s Hc _ IH]; [reflexivity|].
  rewrite utf8_chunks_ascii_cons, IH by done. reflexivity.
Qed.

Lemma chars_ascii s : ascii_only s -> chars s = map (fun c => [c]) s.
Proof. intros H. unfold chars. rewrite utf8_chunks_ascii, map_map by done. reflexivity. Qed.

Lemma valid_utf8_ascii s : ascii_only s -> valid_utf8 s = true.
Proof.
  intros H. unfold valid_utf8. rewrite utf8_chunks_ascii by done.
  rewrite forallb_forall. intros ch. rewrite in_map_iff. intros (c & <- & _). reflexivity.
Qed.

Lemma from_utf8_lossy_ascii s : ascii_only s -> from_utf8_lossy s = s.
Proof. intros H. by apply from_utf8_lossy_valid, valid_utf8_ascii. Qed.

Lemma ascii_only_app s t : ascii_only (s ++ t) <-> ascii_only s /\ ascii_only t.
Proof. apply Forall_app. Qed.

Lemma strip_cr_Forall (P : byte -> Prop) l : Forall P l -> Forall P (strip_cr l).
Proof.
  intros H. unfold strip_cr. destruct (reverse l) as [|c r] eqn:E; [done|].
  destruct (_ =c? _); [|done]. apply Forall_reverse in H. rewrite E in H.
  apply Forall_reverse. by apply Forall_cons in H as [_ H].
Qed.

(** The lines of a text are made of its chars, other than line feeds. *)
Lemma lines_of_Forall (P : byte -> Prop) l : Forall (Forall P) l -> Forall (Forall P) (lines_of l).
Proof.
  induction 1 as [|l ls Hl Hls IH]; [constructor|]. cbn [lines_of].
  destruct ls as [|l' ls]; [destruct (is_empty l); [constructor|by repeat constructor]|].
  constructor; [by apply strip_cr_Forall|done].
Qed.

Lemma lines_Forall (P : byte -> Prop) s : Forall P s -> Forall (Forall P) (lines s).
Proof. intros H. apply lines_of_Forall. by apply split_by_Forall. Qed.

Lemma lines_no_lf s : Forall (Forall (fun c => c <> LF)) (lines s).
Proof.
  apply lines_of_Forall. eapply Forall_impl; [apply split_by_pieces|]. intros l Hl.
  eapply Forall_impl; [exact Hl|]. intros c Hc. cbn in Hc. by apply Ascii.eqb_neq.
Qed.

(** ** Valid strings *)

Lemma valid_utf8_eq s :
  s <> [] -> valid_utf8 s = (utf8_head s).1 && valid_utf8 (drop (utf8_head s).2 s).
Proof. intros Hs. unfold valid_utf8. rewrite utf8_chunks_eq. by destruct s. Qed.

(** The bytes of a well-formed sequence after the first are continuation
    bytes, the first is not. *)
Lemma utf8_head_cont s k :
  utf8_head s = (true, k) ->
  is_cont (byte_at s 0) = false /\ forall i, (0 < i < k)%nat -> is_cont (byte_at s i) = true.
Proof.
  unfold utf8_head, second_ok3, second_ok4, is_cont, in_range.
  repeat case_match; intros [= <-]; rewrite ?andb_true_iff, ?andb_false_iff, ?Z.leb_le, ?Z.leb_gt, ?Z.ltb_lt in *;
    (split; [lia|]); intros i Hi; try lia;
    (destruct i as [|[|[|[|i]]]]; try lia); rewrite andb_true_iff, !Z.leb_le; lia.
Qed.

Lemma byte_at_prefix s t k i : (i < k <= length s)%nat -> byte_at (take k s ++ t) i = byte_at s i.
Proof.
  intros H. unfold byte_at. rewrite lookup_app_l by (rewrite length_take; lia). by rewrite lookup_take_lt by lia.
Qed.

Lemma utf8_head_prefix s t k :
  s <> [] -> utf8_head s = (true, k) -> utf8_head (take k s ++ t) = (true, k).
Proof.
  intros Hs H. pose proof (utf8_head_len s true k Hs H) as Hk.
  assert (E : forall i, (i < k)%nat -> byte_at (take k s ++ t) i = byte_at s i)
    by (intros i Hi; apply byte_at_prefix; lia).
  revert H. unfold utf8_head. rewrite (E 0%nat) by lia.
  destruct (byte_at s 0 <? 128); [done|].
  destruct (in_range 194 223 _); [destruct (is_cont (byte_at s 1)) eqn:E1; [|done]|].
  { intros [= <-]. by rewrite (E 1%nat), E1 by lia. }
  destruct (in_range 224 239 _); [destruct (second_ok3 _ _) eqn:E1; [|done]; destruct (is_cont (byte_at s 2)) eqn:E2; [|done]|].
  { intros [= <-]. by rewrite (E 1%nat), E1, (E 2%nat), E2 by lia. }
  destruct (in_range 240 244 _); [|done]. destruct (second_ok4 _ _) eqn:E1; [|done].
  destruct (is_cont (byte_at s 2)) eqn:E2; [|done]. destruct (is_cont (byte_at s 3)) eqn:E3; [|done].
  intros [= <-]. by rewrite (E 1%nat), E1, (E 2%nat), E2, (E 3%nat), E3 by lia.
Qed.

(** Induction on the characters of a valid string. *)
Lemma valid_utf8_ind (P : bytes -> Prop) :
  P [] ->
  (forall s k, s <> [] -> utf8_head s = (true, k) -> valid_utf8 (drop k s) = true -> P (drop k s) -> P s) ->
  forall s, valid_utf8 s = true -> P s.
Proof.
  intros H0 HS s. remember (length s) as m eqn:Hm. revert s Hm.
  induction m as [m IH] using lt_wf_ind. intros s Hm Hv. destruct (decide (s = [])) as [->|Hs]; [done|].
  rewrite valid_utf8_eq in Hv by done. apply andb_true_iff in Hv as [Hok Hv].
  destruct (utf8_head s) as [ok k] eqn:E. cbn in Hok, Hv. subst ok.
  pose proof (utf8_head_len s true k Hs E). apply (HS s k Hs E Hv).
  apply (IH (length (drop k s))); [rewrite length_drop; lia|done|done].
Qed.

Lemma valid_utf8_app a b : valid_utf8 a = true -> valid_utf8 b = true -> valid_utf8 (a ++ b) = true.
Proof.
  intros Ha Hb. revert a Ha. apply valid_utf8_ind; [done|]. intros a k Hne E _ IH.
  pose proof (utf8_head_len a true k Hne E).
  assert (Eab : a ++ b = take k a ++ (drop k a ++ b)) by by rewrite app_assoc, take_drop.
  rewrite valid_utf8_eq by (by destruct a). rewrite Eab, utf8_head_prefix by done. cbn [fst snd].
  rewrite drop_app_length' by (rewrite length_take; lia). done.
Qed.

(** A position followed by an ASCII byte, or the end, is a character
    boundary. *)
Lemma valid_utf8_boundary s k :
  valid_utf8 s = true -> byte_at s k < 128 -> valid_utf8 (drop k s) = true.
Proof.
  intros Hv. revert s Hv k. apply (valid_utf8_ind (fun s => forall k, byte_at s k < 128 -> valid_utf8 (drop k s) = true)).
  { intros k _. by rewrite drop_nil. }
  intros s j Hne E Hv IH k Hk. pose proof (utf8_head_len s true j Hne E).
  destruct (decide (j <= k)%nat) as [Hjk|Hjk].
  - replace k with (j + (k - j))%nat by lia. rewrite <- drop_drop. apply IH.
    unfold byte_at in *. rewrite lookup_drop. by replace (j + (k - j))%nat with k by lia.
  - destruct k as [|k].
    + rewrite drop_0, valid_utf8_eq by done. by rewrite E.
    + pose proof (proj2 (utf8_head_cont s j E) (S k) ltac:(lia)) as Hc. unfold is_cont, in_range in Hc.
      rewrite andb_true_iff, !Z.leb_le in Hc. lia.
Qed.

Lemma valid_utf8_drop_ascii a b : ascii_only a -> valid_utf8 (a ++ b) = true -> valid_utf8 b = true.
Proof.
  induction 1 as [|c a Hc _ IH]; [done|]. cbn [app]. unfold valid_utf8.
  rewrite utf8_chunks_ascii_cons by done. apply IH.
Qed.

(** ** Splitting and trimming ASCII strings *)

Definition ascii_ws (c : byte) : bool := is_ascii_ws_code (code c).

Lemma split_by_map_singleton (p : bytes -> bool) (q : byte -> bool) s :
  (forall c, p [c] = q c) ->
  map (@concat ascii) (split_by p (map (fun c => [c]) s)) = split_by q s.
Proof.
  intros E. induction s as [|c s IH]; [reflexivity|]. simpl. rewrite E.
  destruct (q c); simpl; [by rewrite IH|]. rewrite <- IH.
  destruct (split_by p _) as [|h t]; [reflexivity|]. reflexivity.
Qed.

Lemma split_ws_all_ascii s : ascii_only s -> split_ws_all s = split_by ascii_ws s.
Proof.
  intros H. unfold split_ws_all. rewrite chars_ascii by done.
  by apply split_by_map_singleton.
Qed.

Lemma trim_start_by_first {A} (p : A -> bool) s :
  match head s with Some c => p c = false | None => True end -> trim_start_by p s = s.
Proof. destruct s as [|c s]; simpl; [done|]. intros ->. done. Qed.

Lemma trim_end_by_last {A} (p : A -> bool) s :
  match last s with Some c => p c = false | None => True end -> trim_end_by p s = s.
Proof.
  intros H. unfold trim_end_by. rewrite trim_start_by_first; [apply reverse_involutive|].
  rewrite head_reverse. exact H.
Qed.

Lemma concat_map_singleton {A} (s : list A) : concat (map (fun c => [c]) s) = s.
Proof. induction s; simpl; congruence. Qed.

(** Trimming does nothing to an ASCII string that neither starts nor ends
    with white space. *)
Lemma trim_ascii_id s :
  ascii_only s ->
  match head s with Some c => ascii_ws c = false | None => True end ->
  match last s with Some c => ascii_ws c = false | None => True end ->
  trim s = s.
Proof.
  intros Ha Hh Hl. unfold trim. rewrite chars_ascii by done.
  rewrite trim_start_by_first.
  2:{ destruct s; simpl in *; auto. }
  rewrite trim_end_by_last; [apply concat_map_singleton|].
  change (map ?f s) with (f <$> s). rewrite fmap_last. destruct (last s); simpl; auto.
Qed.

(** ** Lemmas on numbers *)

Lemma is_ascii_digit_digit d : 0 <= d <= 9 -> is_ascii_digit (digit d) = true.
Proof.
  intros H. unfold is_ascii_digit, digit. rewrite code_chr by lia.
  rewrite andb_true_iff, !Z.leb_le. lia.
Qed.

Lemma code_digit d : 0 <= d <= 9 -> code (digit d) = 48 + d.
Proof. intros H. unfold digit. rewrite code_chr by lia. reflexivity. Qed.

Lemma parse_acc_app acc s t :
  parse_acc acc (s ++ t) = a ← parse_acc acc s; parse_acc a t.
Proof.
  revert acc. induction s as [|c s IH]; intros acc; simpl; [reflexivity|].
  destruct (is_ascii_digit c); [apply IH|reflexivity].
Qed.

Lemma dec_fuel_spec n z acc :
  0 <= z < 2 ^ Z.of_nat n -> (1 <= n)%nat ->
  exists p, 0 < p /\ parse_acc acc (dec_fuel n z) = Some (acc * p + z).
Proof.
  revert z acc. induction n as [|n IH]; intros z acc Hz Hn; [lia|]. simpl.
  destruct (Z.ltb_spec z 10).
  - exists 10. split; [lia|]. simpl. rewrite is_ascii_digit_digit, code_digit by lia.
    f_equal. lia.
  - destruct (IH (z / 10) acc) as (p & Hp & E).
    + rewrite Nat2Z.inj_succ, Z.pow_succ_r in Hz by lia.
      split; [apply Z.div_pos; lia|]. apply Z.div_lt_upper_bound; lia.
    + destruct n; [simpl in Hz; lia|lia].
    + exists (p * 10). split; [lia|]. rewrite parse_acc_app, E. simpl.
      pose proof (Z.mod_pos_bound z 10 ltac:(lia)).
      rewrite is_ascii_digit_digit, code_digit by lia. f_equal.
      pose proof (Z.div_mod z 10 ltac:(lia)). lia.
Qed.

Lemma show_nonneg_fuel z : 0 <= z -> 0 <= z < 2 ^ Z.of_nat (S (Z.to_nat (Z.log2 z))).
Proof.
  intros H. split; [done|]. rewrite Nat2Z.inj_succ, Z2Nat.id by apply Z.log2_nonneg.
  destruct (Z.eq_dec z 0) as [->|]; [reflexivity|]. apply Z.log2_spec. lia.
Qed.

Lemma parse_acc_show z : 0 <= z -> parse_acc 0 (show_nonneg z) = Some z.
Proof.
  intros H. unfold show_nonneg.
  destruct (dec_fuel_spec (S (Z.to_nat (Z.log2 z))) z 0) as (p & _ & E).
  - by apply show_nonneg_fuel.
  - lia.
  - by rewrite E.
Qed.

Lemma dec_fuel_digits n z : 0 <= z -> Forall (fun c => is_ascii_digit c = true) (dec_fuel n z).
Proof.
  revert z. induction n as [|n IH]; intros z Hz; simpl; [constructor|].
  destruct (Z.ltb_spec z 10); [repeat constructor; apply is_ascii_digit_digit; lia|].
  apply Forall_app. split; [apply IH, Z.div_pos; lia|].
  repeat constructor. apply is_ascii_digit_digit.
  pose proof (Z.mod_pos_bound z 10 ltac:(lia)). lia.
Qed.

Lemma show_nonneg_digits z :
  0 <= z -> Forall (fun c => is_ascii_digit c = true) (show_nonneg z).
Proof. apply dec_fuel_digits. Qed.

Lemma show_nonneg_nonempty z : show_nonneg z <> [].
Proof.
  unfold show_nonneg. simpl. destruct (z <? 10); [discriminate|].
  intros H. apply app_nil in H as [_ H]. discriminate.
Qed.

Lemma is_ascii_digit_code c : is_ascii_digit c = true <-> 48 <= code c <= 57.
Proof. unfold is_ascii_digit. rewrite andb_true_iff, !Z.leb_le. reflexivity. Qed.

Lemma digit_ascii_only s :
  Forall (fun c => is_ascii_digit c = true) s -> ascii_only s.
Proof. intros H. eapply Forall_impl; [exact H|]. intros c. simpl. rewrite is_ascii_digit_code. lia. Qed.

Lemma digit_not_ws c : is_ascii_digit c = true -> ascii_ws c = false.
Proof.
  rewrite is_ascii_digit_code. unfold ascii_ws, is_ascii_ws_code, in_range. intros H.
  rewrite orb_false_iff, andb_false_iff, !Z.leb_gt, Z.eqb_neq. lia.
Qed.

Lemma parse_acc_zeros n s : parse_acc 0 (replicate n "0"%char ++ s) = parse_acc 0 s.
Proof. induction n; simpl; auto. Qed.

Lemma digit_neq c d : is_ascii_digit c = true -> is_ascii_digit d = false -> (c =c? d) = false.
Proof. intros Hc Hd. apply Ascii.eqb_neq. congruence. Qed.

(** A digit string is read as its value by the signed and unsigned parsers. *)
Lemma parse_u_digits w s v :
  s <> [] -> Forall (fun c => is_ascii_digit c = true) s ->
  parse_acc 0 s = Some v -> v < 2 ^ w -> parse_u w s = Some v.
Proof.
  intros Hne Hd Hv Hr. unfold parse_u. destruct s as [|c s]; [done|].
  apply Forall_cons in Hd as [Hc _]. rewrite (digit_neq c) by done.
  unfold parse_digits. rewrite Hv. simpl. rewrite (proj2 (Z.ltb_lt _ _) Hr). done.
Qed.

Lemma parse_i_digits w s v :
  s <> [] -> Forall (fun c => is_ascii_digit c = true) s ->
  parse_acc 0 s = Some v -> v < 2 ^ (w - 1) -> parse_i w s = Some v.
Proof.
  intros Hne Hd Hv Hr. unfold parse_i. destruct s as [|c s]; [done|].
  apply Forall_cons in Hd as [Hc _]. rewrite !(digit_neq c) by done.
  unfold parse_digits. rewrite Hv. simpl. rewrite (proj2 (Z.ltb_lt _ _) Hr). done.
Qed.

Lemma pad_zero_digits w z :
  0 <= z -> Forall (fun c => is_ascii_digit c = true) (pad_left "0"%char w (show_nonneg z)).
Proof.
  intros H. unfold pad_left. apply Forall_app. split; [|by apply show_nonneg_digits].
  by apply Forall_replicate.
Qed.

Lemma pad_left_nonempty c w s : s <> [] -> pad_left c w s <> [].
Proof. intros H E. apply app_nil in E as [_ E]. done. Qed.

Lemma parse_acc_pad w z : 0 <= z -> parse_acc 0 (pad_left "0"%char w (show_nonneg z)) = Some z.
Proof. intros H. unfold pad_left. rewrite parse_acc_zeros. by apply parse_acc_show. Qed.

#[export] Hint Resolve pad_zero_digits pad_left_nonempty parse_acc_pad show_nonneg_nonempty
  show_nonneg_digits parse_acc_show : thttpd.

(** ** Tokens: ASCII words without white space *)

Definition token_char (c : byte) : bool := (code c <? 128) && negb (ascii_ws c).

Definition token (s : bytes) : bool := negb (is_empty s) && forallb token_char s.

Lemma forallb_Forall_true {A} (f : A -> bool) l :
  forallb f l = true <-> Forall (fun x => f x = true) l.
Proof. rewrite forallb_forall, Forall_forall. setoid_rewrite list_elem_of_In. reflexivity. Qed.

Lemma token_spec s :
  token s = true <->
  s <> [] /\ ascii_only s /\ Forall (fun c => ascii_ws c = false) s.
Proof.
  unfold token, token_char, ascii_only. rewrite andb_true_iff, forallb_Forall_true.
  assert (E : negb (is_empty s) = true <-> s <> []) by (destruct s; simpl; split; congruence).
  rewrite E. rewrite <- Forall_and. apply and_iff_compat_l.
  apply Forall_proper; [|done]. intros c.
  rewrite andb_true_iff, Z.ltb_lt, negb_true_iff. reflexivity.
Qed.

Lemma token_app s t : token s = true -> token t = true -> token (s ++ t) = true.
Proof.
  rewrite !token_spec. intros (Hs & Ha & Hw) (Ht & Hb & Hv). split; [|split].
  - intros H%app_nil. tauto.
  - by apply ascii_only_app.
  - by apply Forall_app.
Qed.

Lemma token_digits s :
  s <> [] -> Forall (fun c => is_ascii_digit c = true) s -> token s = true.
Proof.
  intros Hne Hd. apply token_spec. split; [done|]. split; [by apply digit_ascii_only|].
  eapply Forall_impl; [exact Hd|]. apply digit_not_ws.
Qed.

(** Tokens joined by single spaces. *)
Fixpoint spaced (ws : list bytes) : bytes :=
  match ws with
  | [] => []
  | [w] => w
  | w :: ws' => w ++ SP :: spaced ws'
  end.

Lemma spaced_ascii ws : Forall (fun w => token w = true) ws -> ascii_only (spaced ws).
Proof.
  induction 1 as [|w ws Hw Hws IH]; [constructor|].
  apply token_spec in Hw as (_ & Ha & _). destruct ws; [exact Ha|].
  apply ascii_only_app. split; [exact Ha|]. constructor; [reflexivity|exact IH].
Qed.

Lemma spaced_split ws :
  ws <> [] -> Forall (fun w => token w = true) ws -> split_by ascii_ws (spaced ws) = ws.
Proof.
  intros Hne H. induction H as [|w ws Hw Hws IH]; [done|].
  apply token_spec in Hw as (_ & _ & Hw). destruct ws as [|w' ws].
  - by apply split_by_no_sep.
  - change (spaced (w :: w' :: ws)) with (w ++ SP :: spaced (w' :: ws)).
    rewrite split_by_app by done. by rewrite IH.
Qed.

(** [split_whitespace] recovers the tokens. *)
Lemma split_whitespace_spaced ws :
  ws <> [] -> Forall (fun w => token w = true) ws -> split_whitespace (spaced ws) = ws.
Proof.
  intros Hne H. unfold split_whitespace.
  rewrite split_ws_all_ascii by (by apply spaced_ascii). rewrite spaced_split by done.
  clear Hne. induction H as [|w ws Hw _ IH]; [done|].
  rewrite filter_cons_True; [by rewrite IH|]. apply token_spec in Hw. tauto.
Qed.

Lemma spaced_head ws w ws' : ws = w :: ws' -> token w = true ->
  exists c, head (spaced ws) = Some c /\ head w = Some c.
Proof.
  intros -> Hw. apply token_spec in Hw as (Hne & _). destruct w as [|c w]; [done|].
  exists c. destruct ws'; done.
Qed.

Lemma spaced_last ws :
  ws <> [] -> Forall (fun w => token w = true) ws ->
  match last (spaced ws) with Some c => ascii_ws c = false | None => False end.
Proof.
  intros Hne H. induction H as [|w ws Hw Hws IH]; [done|].
  apply token_spec in Hw as (Hw & _ & Hf). destruct ws as [|w' ws].
  - simpl. destruct (last w) eqn:E.
    + apply last_Some in E as [l ->]. apply Forall_app in Hf as [_ Hf].
      by apply Forall_cons in Hf as [? _].
    + apply last_None in E. done.
  - change (spaced (w :: w' :: ws)) with (w ++ [SP] ++ spaced (w' :: ws)).
    rewrite !last_app. specialize (IH ltac:(done)).
    destruct (last (spaced (w' :: ws))); done.
Qed.

Lemma trim_spaced ws :
  ws <> [] -> Forall (fun w => token w = true) ws -> trim (spaced ws) = spaced ws.
Proof.
  intros Hne H. apply trim_ascii_id.
  - by apply spaced_ascii.
  - destruct ws as [|w ws]; [done|]. apply Forall_cons in H as [Hw _].
    destruct (spaced_head (w :: ws) w ws eq_refl Hw) as (c & -> & Hc).
    apply token_spec in Hw as (_ & _ & Hf). destruct w; [done|]. injection Hc as ->.
    by apply Forall_cons in Hf as [? _].
  - pose proof (spaced_last ws Hne H). destruct (last (spaced ws)); done.
Qed.
