(* ===== verification/Match.v ===== *)
(** * Shell-style glob matching (rust/crates/thttpd-match/src/lib.rs)

    [match_single] and [match_pattern] follow the Rust byte matcher: the
    positions [pi] and [fi] of the loop are the suffixes of the pattern and of
    the file name that remain.  The specification is the language of a token
    list ([matches]): `?` is any one byte, `*` any run without `/`, `**` any
    run, everything else a literal. *)

From S2P Require Import Prelude.

Definition QMARK : byte := "?"%char.
Definition STAR : byte := "*"%char.
Definition SLASH : byte := "/"%char.
Definition BAR : byte := "|"%char.

(** ** The code *)

(** [for try_fi in fi..=filename.len()] of the `**` branch. *)
Fixpoint globstar_loop (m : bytes -> bool) (f : bytes) : bool :=
  if m f then true
  else match f with
       | [] => false
       | _ :: f' => globstar_loop m f'
       end.

(** [for try_fi in fi..=filename.len()] of the `*` branch, with its [break]
    when the byte just skipped is a slash. *)
Fixpoint star_loop (m : bytes -> bool) (f : bytes) : bool :=
  if m f then true
  else match f with
       | [] => false
       | c :: f' => if c =c? SLASH then false else star_loop m f'
       end.

Fixpoint match_single (pattern filename : bytes) : bool :=
  match pattern with
  | [] => is_empty filename
  | c :: p1 =>
      if c =c? QMARK then
        match filename with
        | [] => false
        | _ :: f' => match_single p1 f'
        end
      else if c =c? STAR then
        match p1 with
        | [] => negb (contains_char SLASH filename)
        | c2 :: p2 =>
            if c2 =c? STAR then
              match p2 with
              | [] => true
              | _ :: _ => globstar_loop (match_single p2) filename
              end
            else star_loop (match_single p1) filename
        end
      else
        match filename with
        | [] => false
        | d :: f' => if negb (c =c? d) then false else match_single p1 f'
        end
  end.

Definition match_pattern (pattern filename : bytes) : bool :=
  existsb (fun sub => match_single sub filename) (split_on BAR pattern).

(** ** Specification *)

Inductive tok := TAny1 | TStar | TGlob | TLit (c : byte).

Fixpoint tokenize (p : bytes) : list tok :=
  match p with
  | [] => []
  | c :: p1 =>
      if c =c? QMARK then TAny1 :: tokenize p1
      else if c =c? STAR then
        match p1 with
        | c2 :: p2 => if c2 =c? STAR then TGlob :: tokenize p2
                      else TStar :: tokenize p1
        | [] => [TStar]
        end
      else TLit c :: tokenize p1
  end.

Inductive matches : list tok -> bytes -> Prop :=
| matches_nil : matches [] []
| matches_any1 ts c f : matches ts f -> matches (TAny1 :: ts) (c :: f)
| matches_lit ts c f : matches ts f -> matches (TLit c :: ts) (c :: f)
| matches_star ts u f :
    (SLASH ∉ u) -> matches ts f -> matches (TStar :: ts) (u ++ f)
| matches_glob ts u f : matches ts f -> matches (TGlob :: ts) (u ++ f).

#[export] Hint Constructors matches : thttpd.

(** ** Proofs *)

Lemma globstar_loop_spec m f :
  globstar_loop m f = true <-> exists u g, f = u ++ g /\ m g = true.
Proof.
  induction f as [|c f IH]; simpl.
  - destruct (m []) eqn:E.
    + split; [intros _; exists [], []; auto|auto].
    + split; [discriminate|]. intros (u & g & H & Hm).
      symmetry in H. apply app_nil in H as [-> ->]. congruence.
  - destruct (m (c :: f)) eqn:E.
    + split; [intros _; exists [], (c :: f); auto|auto].
    + rewrite IH. split.
      * intros (u & g & -> & Hm). exists (c :: u), g. auto.
      * intros ([|x u] & g & H & Hm); simpl in H; [congruence|].
        injection H as -> ->. eauto.
Qed.

Lemma star_loop_spec m f :
  star_loop m f = true <-> exists u g, f = u ++ g /\ (SLASH ∉ u) /\ m g = true.
Proof.
  induction f as [|c f IH]; simpl.
  - destruct (m []) eqn:E.
    + split; [intros _; exists [], []; repeat split; auto; set_solver|auto].
    + split; [discriminate|]. intros (u & g & H & _ & Hm).
      symmetry in H. apply app_nil in H as [-> ->]. congruence.
  - destruct (m (c :: f)) eqn:E.
    + split; [intros _; exists [], (c :: f); repeat split; auto; set_solver|auto].
    + destruct (Ascii.eqb_spec c SLASH) as [->|Hc].
      * split; [discriminate|]. intros ([|x u] & g & H & Hu & Hm); simpl in H; [congruence|].
        injection H as <- ->. set_solver.
      * rewrite IH. split.
        -- intros (u & g & -> & Hu & Hm). exists (c :: u), g. repeat split; auto. set_solver.
        -- intros ([|x u] & g & H & Hu & Hm); simpl in H; [congruence|].
           injection H as -> ->. exists u, g. repeat split; auto. set_solver.
Qed.

Lemma contains_char_false c s : contains_char c s = false <-> c ∉ s.
Proof.
  unfold contains_char. rewrite <- not_true_iff_false, existsb_exists.
  setoid_rewrite Ascii.eqb_eq. setoid_rewrite <- list_elem_of_In. firstorder congruence.
Qed.

Lemma matches_star_tail f : matches [TStar] f <-> SLASH ∉ f.
Proof.
  split; intros H.
  - inversion H as [| | |ts u g Hu Hg|]; subst. inversion Hg; subst.
    rewrite app_nil_r. exact Hu.
  - rewrite <- (app_nil_r f). auto with thttpd.
Qed.

Lemma matches_glob_inv ts f :
  matches (TGlob :: ts) f <-> exists u g, f = u ++ g /\ matches ts g.
Proof.
  split.
  - inversion 1; subst; eauto.
  - intros (u & g & -> & H). auto with thttpd.
Qed.

Lemma matches_star_inv ts f :
  matches (TStar :: ts) f <-> exists u g, f = u ++ g /\ (SLASH ∉ u) /\ matches ts g.
Proof.
  split.
  - inversion 1; subst; eauto.
  - intros (u & g & -> & Hu & H). auto with thttpd.
Qed.

Lemma match_single_correct_aux n p f :
  length p <= n -> match_single p f = true <-> matches (tokenize p) f.
Proof.
  revert p f. induction n as [|n IH]; intros p f Hn.
  { destruct p; simpl in Hn; [|lia]. simpl. destruct f; simpl; split; try discriminate; auto with thttpd.
    inversion 1. }
  destruct p as [|c p1]; simpl.
  { destruct f; simpl; split; try discriminate; auto with thttpd. inversion 1. }
  simpl in Hn. destruct (Ascii.eqb_spec c QMARK) as [->|Hq].
  { destruct f as [|d f]; [split; [discriminate|inversion 1]|].
    rewrite IH by lia. split; [auto with thttpd|inversion 1; auto]. }
  destruct (Ascii.eqb_spec c STAR) as [->|Hs].
  - destruct p1 as [|c2 p2]; [rewrite negb_true_iff, contains_char_false, matches_star_tail; reflexivity|].
    simpl in Hn. destruct (Ascii.eqb_spec c2 STAR) as [->|Hc2].
    + rewrite matches_glob_inv. destruct p2 as [|c3 p3].
      * split; [intros _; exists f, []; rewrite app_nil_r; split; [auto|constructor]|auto].
      * rewrite globstar_loop_spec. do 2 (apply exist_proper; intros ?).
        rewrite IH by (simpl in *; lia). reflexivity.
    + rewrite matches_star_inv, star_loop_spec. do 2 (apply exist_proper; intros ?).
      rewrite IH by (simpl in *; lia). reflexivity.
  - destruct f as [|d f]; [split; [discriminate|inversion 1]|].
    destruct (Ascii.eqb_spec c d) as [->|Hd]; simpl.
    + rewrite IH by lia. split; [auto with thttpd|inversion 1; auto].
    + split; [discriminate|inversion 1; congruence].
Qed.

Lemma match_single_spec p f :
  match_single p f = true <-> matches (tokenize p) f.
Proof. apply (match_single_correct_aux (length p)). lia. Qed.

(** C30: a pattern matches a file name exactly when one of its `|`-separated
    alternatives does, an alternative denoting the language in which `?` is any
    one byte, `*` any run of bytes without `/`, `**` any run of bytes and every
    other byte itself. *)
Theorem match_pattern_correct pattern filename :
  match_pattern pattern filename = true <->
  exists sub, sub ∈ split_on BAR pattern /\ matches (tokenize sub) filename.
Proof.
  unfold match_pattern. rewrite existsb_exists. apply exist_proper. intros sub.
  rewrite list_elem_of_In, match_single_spec. reflexivity.
Qed.
