(* ===== verification/Tdate.v ===== *)
(** * HTTP dates (rust/crates/thttpd-tdate/src/lib.rs)

    Parsing (plain integers, RFC 1123, RFC 850, asctime) and printing of HTTP
    dates.  The Rust loops over years and months are kept as loops; a closed
    form of the proleptic Gregorian calendar specifies them. *)

From S2P Require Import Prelude RustStr.

Local Open Scope Z_scope.

(** ** The calendar *)

Definition month_num (name : bytes) : option Z :=
  if bytes_eqb name (B "Jan") then Some 0
  else if bytes_eqb name (B "Feb") then Some 1
  else if bytes_eqb name (B "Mar") then Some 2
  else if bytes_eqb name (B "Apr") then Some 3
  else if bytes_eqb name (B "May") then Some 4
  else if bytes_eqb name (B "Jun") then Some 5
  else if bytes_eqb name (B "Jul") then Some 6
  else if bytes_eqb name (B "Aug") then Some 7
  else if bytes_eqb name (B "Sep") then Some 8
  else if bytes_eqb name (B "Oct") then Some 9
  else if bytes_eqb name (B "Nov") then Some 10
  else if bytes_eqb name (B "Dec") then Some 11
  else None.

Definition is_leap_year (y : Z) : bool :=
  ((Z.rem y 4 =? 0) && negb (Z.rem y 100 =? 0)) || (Z.rem y 400 =? 0).

Definition days_in_year (y : Z) : Z := if is_leap_year y then 366 else 365.

Definition days_in_month (m y : Z) : Z :=
  match m with
  | 0 | 2 | 4 | 6 | 7 | 9 | 11 => 31
  | 3 | 5 | 8 | 10 => 30
  | 1 => if is_leap_year y then 29 else 28
  | _ => 0
  end.

(** The half-open range [a..b] of the [for] loops. *)
Definition range (a b : Z) : list Z := seqZ a (b - a).

Definition sum_over (f : Z -> Z) (l : list Z) : Z := foldr (fun x acc => f x + acc) 0 l.

(** Years are [i32], the other fields [u32]; every intermediate [i64] value is
    in range ([date_to_epoch_i64]), only [day - 1] can wrap. *)
Definition date_to_epoch (year month day hour min sec : Z) : Z :=
  let y := if year <? 1970 then range year 1970 else range 1970 year in
  let days := sum_over days_in_year y in
  let days := if year <? 1970 then - days else days in
  let days := days + sum_over (fun m => days_in_month m year) (range 0 month) in
  let days := days + wrap_u32 (day - 1) in
  days * 86400 + hour * 3600 + min * 60 + sec.

(** ** Parsing *)

Definition parse_time (t : bytes) : option (Z * Z * Z) :=
  match split_on ":"%char t with
  | [h; m; s] =>
      hour ← parse_u 32 h;
      min ← parse_u 32 m;
      sec ← parse_u 32 s;
      Some (hour, min, sec)
  | _ => None
  end.

Definition parse_rfc1123 (s : bytes) : option Z :=
  match split_whitespace s with
  | [_; p1; p2; p3; p4; p5] =>
      if negb (bytes_eqb p5 (B "GMT")) then None else
      day ← parse_u 32 p1;
      month ← month_num p2;
      year ← parse_i 32 p3;
      t ← parse_time p4;
      let '(hour, min, sec) := t in
      Some (date_to_epoch year month day hour min sec)
  | _ => None
  end.

Definition parse_rfc850 (s : bytes) : option Z :=
  match filter (fun p => p <> [])
          (split_by (fun c => (c =c? " "%char) || (c =c? ","%char)) s) with
  | [_; p1; p2; p3] =>
      if negb (bytes_eqb p3 (B "GMT")) then None else
      match split_on "-"%char p1 with
      | [d; mo; y] =>
          day ← parse_u 32 d;
          month ← month_num mo;
          year ← parse_i 32 y;
          let year := if year <? 70 then year + 2000
                      else if year <? 100 then year + 1900 else year in
          t ← parse_time p2;
          let '(hour, min, sec) := t in
          Some (date_to_epoch year month day hour min sec)
      | _ => None
      end
  | _ => None
  end.

Definition parse_asctime (s : bytes) : option Z :=
  match split_whitespace s with
  | [_; p1; p2; p3; p4] =>
      month ← month_num p1;
      day ← parse_u 32 p2;
      t ← parse_time p3;
      let '(hour, min, sec) := t in
      year ← parse_i 32 p4;
      Some (date_to_epoch year month day hour min sec)
  | _ => None
  end.

Definition parse_http_date (input : bytes) : option Z :=
  let s := trim input in
  match parse_i 64 s with
  | Some ts => Some ts
  | None =>
      match parse_rfc1123 s with
      | Some ts => Some ts
      | None =>
          match parse_rfc850 s with
          | Some ts => Some ts
          | None => parse_asctime s
          end
      end
  end.

(** ** Printing *)

Definition day_names : list bytes :=
  [B "Sun"; B "Mon"; B "Tue"; B "Wed"; B "Thu"; B "Fri"; B "Sat"].

Definition month_names : list bytes :=
  [B "Jan"; B "Feb"; B "Mar"; B "Apr"; B "May"; B "Jun";
   B "Jul"; B "Aug"; B "Sep"; B "Oct"; B "Nov"; B "Dec"].

(** The two [loop]s of [format_http_date]; [(remaining, year)] and
    [(remaining, month)] at the [break]. *)
Fixpoint year_loop (fuel : nat) (remaining year : Z) : Z * Z :=
  match fuel with
  | O => (remaining, year)
  | S n =>
      let dy := days_in_year year in
      if remaining <? dy * 86400 then (remaining, year)
      else year_loop n (remaining - dy * 86400) (wrap_i32 (year + 1))
  end.

Fixpoint month_loop (fuel : nat) (remaining month year : Z) : Z * Z :=
  match fuel with
  | O => (remaining, month)
  | S n =>
      let dm := days_in_month month year in
      if remaining <? dm * 86400 then (remaining, month)
      else month_loop n (remaining - dm * 86400) (month + 1) year
  end.

(** A year takes at least 365 days, so [timestamp / 31536000 + 1] rounds reach
    the first [break]; a year has twelve months ([year_loop_exit],
    [month_loop_exit]). *)
Definition year_fuel (timestamp : Z) : nat := S (Z.to_nat (timestamp / 31536000)).

Definition weekday_index (timestamp : Z) : nat :=
  let total_days := wrap_i32 (Z.quot timestamp 86400) in
  Z.to_nat (Z.rem (Z.rem total_days 7 + 7) 7).

Definition format_http_date (timestamp : Z) : bytes :=
  let '(remaining, year) := year_loop (year_fuel timestamp) timestamp 1970 in
  let '(remaining, month) := month_loop 12 remaining 0 year in
  let day := wrap_u32 (wrap_u32 (Z.quot remaining 86400) + 1) in
  let remaining := Z.rem remaining 86400 in
  let hour := wrap_u32 (Z.quot remaining 3600) in
  let remaining := Z.rem remaining 3600 in
  let min := wrap_u32 (Z.quot remaining 60) in
  let sec := wrap_u32 (Z.rem remaining 60) in
  let d2 z := pad_left "0"%char 2 (show_nonneg z) in
  unwrap_or [] (day_names !! weekday_index timestamp) ++ B ", " ++ d2 day ++ B " "
  ++ unwrap_or [] (month_names !! Z.to_nat month) ++ B " " ++ show_Z year ++ B " "
  ++ d2 hour ++ B ":" ++ d2 min ++ B ":" ++ d2 sec ++ B " GMT".

Example format_epoch :
  format_http_date 784111777 = B "Wed, 06 Nov 1994 08:49:37 GMT".
Proof. vm_compute. reflexivity. Qed.

Example parse_example :
  parse_http_date (B "Sun, 06 Nov 1994 08:49:37 GMT") = Some 784111777 /\
  parse_http_date (B "Sunday, 06-Nov-94 08:49:37 GMT") = Some 784111777 /\
  parse_http_date (B "Sun Nov  6 08:49:37 1994") = Some 784111777 /\
  parse_http_date (B "Sun, 06 Nov 1994 08:49:37 PST") = None.
Proof. vm_compute. auto. Qed.

(** ** Closed form of the calendar *)

(** Leap days before 1 January of year [y] since year 1, and days from the
    epoch to 1 January of year [y], in floor arithmetic. *)
Definition leap_days (y : Z) : Z := (y - 1) / 4 - (y - 1) / 100 + (y - 1) / 400.

Definition epoch_days (y : Z) : Z := 365 * (y - 1970) + leap_days y - leap_days 1970.

Definition leap (y : Z) : bool :=
  (y mod 4 =? 0) && (negb (y mod 100 =? 0) || (y mod 400 =? 0)).

Lemma rem_mod_0 a b : b <> 0 -> (Z.rem a b =? 0) = (a mod b =? 0).
Proof.
  intros Hb. apply eq_true_iff_eq. rewrite !Z.eqb_eq.
  rewrite Z.rem_divide, Z.mod_divide by done. reflexivity.
Qed.

Lemma is_leap_year_leap y : is_leap_year y = leap y.
Proof.
  unfold is_leap_year, leap. rewrite !rem_mod_0 by lia.
  destruct (Z.eqb_spec (y mod 4) 0), (Z.eqb_spec (y mod 100) 0), (Z.eqb_spec (y mod 400) 0);
    simpl; try reflexivity; exfalso; Z.div_mod_to_equations; lia.
Qed.

Lemma div_pred_step y k :
  0 < k -> y / k = (y - 1) / k + (if y mod k =? 0 then 1 else 0).
Proof.
  intros Hk. pose proof (Z.div_mod y k ltac:(lia)). pose proof (Z.mod_pos_bound y k Hk).
  destruct (Z.eqb_spec (y mod k) 0) as [E|E].
  - assert ((y - 1) / k = y / k - 1); [|lia].
    symmetry. apply Z.div_unique with (r := k - 1); lia.
  - assert ((y - 1) / k = y / k); [|lia].
    symmetry. apply Z.div_unique with (r := y mod k - 1); lia.
Qed.

Lemma epoch_days_succ y : epoch_days (y + 1) = epoch_days y + days_in_year y.
Proof.
  unfold epoch_days, leap_days, days_in_year. rewrite is_leap_year_leap. unfold leap.
  replace (y + 1 - 1) with y by lia.
  rewrite (div_pred_step y 4), (div_pred_step y 100), (div_pred_step y 400) by lia.
  destruct (Z.eqb_spec (y mod 4) 0), (Z.eqb_spec (y mod 100) 0), (Z.eqb_spec (y mod 400) 0);
    simpl; try lia; exfalso; Z.div_mod_to_equations; lia.
Qed.

Lemma seqZ_fold f a n :
  sum_over f (seqZ a (Z.of_nat n)) =
  match n with O => 0 | S m => sum_over f (seqZ a (Z.of_nat m)) + f (a + Z.of_nat m) end.
Proof.
  destruct n as [|m]; [reflexivity|].
  rewrite seqZ_S.
  unfold sum_over. rewrite foldr_app. simpl.
  generalize (seqZ a (Z.of_nat m)) as l. induction l as [|x l IH]; simpl; lia.
Qed.

Lemma sum_range_snoc f a b : a <= b -> sum_over f (range a (b + 1)) = sum_over f (range a b) + f b.
Proof.
  intros H. unfold range. replace (b + 1 - a) with (Z.of_nat (S (Z.to_nat (b - a)))) by lia.
  rewrite seqZ_fold. replace (Z.of_nat (Z.to_nat (b - a))) with (b - a) by lia. f_equal. f_equal. lia.
Qed.

Lemma sum_range_nil f a b : b <= a -> sum_over f (range a b) = 0.
Proof. intros H. unfold range. rewrite seqZ_nil by lia. reflexivity. Qed.

(** The year loop sums to a difference of the closed form. *)
Lemma sum_years a b : a <= b -> sum_over days_in_year (range a b) = epoch_days b - epoch_days a.
Proof.
  intros H. pattern b. apply Zlt_lower_bound_ind with (z := a); [|exact H]. clear b H.
  intros b IH Hb. destruct (Z.eq_dec a b) as [->|Hne].
  - rewrite sum_range_nil; lia.
  - replace b with (b - 1 + 1) by lia. rewrite sum_range_snoc by lia.
    rewrite IH by lia. rewrite epoch_days_succ. lia.
Qed.

Definition days_before_month (m y : Z) : Z := sum_over (fun i => days_in_month i y) (range 0 m).

Lemma days_before_month_year y : days_before_month 12 y = days_in_year y.
Proof.
  unfold days_before_month, days_in_year, sum_over.
  replace (range 0 12) with [0; 1; 2; 3; 4; 5; 6; 7; 8; 9; 10; 11] by (vm_compute; reflexivity).
  cbn [foldr days_in_month]. destruct (is_leap_year y); reflexivity.
Qed.

Lemma epoch_days_1970 : epoch_days 1970 = 0.
Proof. reflexivity. Qed.

Lemma date_to_epoch_eq year month day hour min sec :
  date_to_epoch year month day hour min sec =
  (epoch_days year + days_before_month month year + wrap_u32 (day - 1)) * 86400
  + hour * 3600 + min * 60 + sec.
Proof.
  unfold date_to_epoch, days_before_month. destruct (Z.ltb_spec year 1970).
  - rewrite sum_years, epoch_days_1970 by lia. f_equal. lia.
  - rewrite sum_years, epoch_days_1970 by lia. f_equal. lia.
Qed.

(** The day-counting loops of [date_to_epoch] compute, for every year
    before or after 1970, the closed form of the proleptic Gregorian calendar:
    365 days a year plus a leap day for each multiple of 4 that is not a
    multiple of 100 or is one of 400. *)
Theorem date_to_epoch_closed_form year month day hour min sec :
  1 <= day < 2 ^ 32 ->
  date_to_epoch year month day hour min sec =
  (365 * (year - 1970)
   + ((year - 1) / 4 - (year - 1) / 100 + (year - 1) / 400 - 477)
   + days_before_month month year + (day - 1)) * 86400
  + hour * 3600 + min * 60 + sec.
Proof.
  intros Hd. rewrite date_to_epoch_eq. rewrite wrap_u_small by lia.
  unfold epoch_days, leap_days.
  change ((1970 - 1) / 4 - (1970 - 1) / 100 + (1970 - 1) / 400) with 477. lia.
Qed.

Lemma date_to_epoch_closed_form_witness :
  1 <= 6 < 2 ^ 32 /\ date_to_epoch 1994 10 6 8 49 37 = 784111777.
Proof.
  split; [lia|]. rewrite (date_to_epoch_closed_form 1994 10 6 8 49 37) by lia.
  vm_compute. reflexivity.
Defined.

(** ** The printing loops *)

Lemma days_in_year_bounds y : 365 <= days_in_year y <= 366.
Proof. unfold days_in_year. destruct (is_leap_year y); lia. Qed.

(** The year loop leaves at its [break], whatever the timestamp. *)
Lemma year_loop_exit n r y :
  r < 31536000 * Z.of_nat n ->
  let '(r', y') := year_loop n r y in r' < days_in_year y' * 86400.
Proof.
  revert r y. induction n as [|n IH]; intros r y H; simpl.
  - pose proof (days_in_year_bounds y). lia.
  - pose proof (days_in_year_bounds y). case_eqb; [lia|]. apply IH. lia.
Qed.

Lemma year_fuel_enough ts : ts < 31536000 * Z.of_nat (year_fuel ts).
Proof.
  unfold year_fuel. pose proof (Z.div_mod ts 31536000 ltac:(lia)).
  pose proof (Z.mod_pos_bound ts 31536000 ltac:(lia)). lia.
Qed.

(** The year loop counts years: the remainder plus the days of the years
    passed is the timestamp, as long as [year] stays in [i32]. *)
Lemma year_loop_sum n r y :
  0 <= r -> 0 <= y -> y + r / 31536000 < 2 ^ 31 - 1 ->
  let '(r', y') := year_loop n r y in
  0 <= r' /\ y <= y' <= y + r / 31536000 /\ r' + epoch_days y' * 86400 = r + epoch_days y * 86400.
Proof.
  revert r y. induction n as [|n IH]; intros r y Hr Hy Hb; simpl.
  - pose proof (Z.div_pos r 31536000). lia.
  - pose proof (days_in_year_bounds y). case_eqb.
    + pose proof (Z.div_pos r 31536000). lia.
    + assert ((r - days_in_year y * 86400) / 31536000 <= r / 31536000 - 1).
      { replace (r / 31536000 - 1) with ((r - 1 * 31536000) / 31536000)
          by (rewrite <- Z.add_opp_r, Z.opp_eq_mul_m1, <- Z.mul_assoc, (Z.mul_comm 31536000),
                Z.mul_assoc, Z.div_add by lia; lia).
        apply Z.div_le_mono; lia. }
      assert (0 <= r / 31536000) by (apply Z.div_pos; lia).
      rewrite wrap_s_small by lia.
      specialize (IH (r - days_in_year y * 86400) (y + 1)).
      destruct (year_loop n _ _) as [r' y']. rewrite epoch_days_succ in IH. lia.
Qed.

Lemma days_before_month_succ m y :
  0 <= m -> days_before_month (m + 1) y = days_before_month m y + days_in_month m y.
Proof. intros H. unfold days_before_month. by rewrite sum_range_snoc. Qed.

(** The month loop leaves at its [break] within the year's twelve months. *)
Lemma month_loop_sum n m r y :
  m + Z.of_nat n = 12 -> 0 <= m -> 0 <= r ->
  r + days_before_month m y * 86400 < days_in_year y * 86400 ->
  let '(r', m') := month_loop n r m y in
  0 <= m' <= 11 /\ 0 <= r' < days_in_month m' y * 86400 /\
  r' + days_before_month m' y * 86400 = r + days_before_month m y * 86400.
Proof.
  revert m r. induction n as [|n IH]; intros m r Hn Hm Hr Hy; simpl.
  - assert (m = 12) as -> by lia. rewrite days_before_month_year in Hy. lia.
  - case_eqb; [lia|]. specialize (IH (m + 1) (r - days_in_month m y * 86400)).
    destruct (month_loop n _ _ _) as [r' m']. rewrite days_before_month_succ in IH by lia. lia.
Qed.

Lemma days_in_month_le m y : days_in_month m y <= 31.
Proof.
  unfold days_in_month. destruct (is_leap_year y); repeat case_match; lia.
Qed.

(** ** Round trip *)

(** The text [format_http_date] prints for given fields. *)
Definition rfc1123_words (wd : bytes) (year month day hour min sec : Z) : list bytes :=
  let d2 z := pad_left "0"%char 2 (show_nonneg z) in
  [wd ++ B ","; d2 day; unwrap_or [] (month_names !! Z.to_nat month); show_nonneg year;
   d2 hour ++ B ":" ++ d2 min ++ B ":" ++ d2 sec; B "GMT"].

Lemma d2_token z : 0 <= z -> token (pad_left "0"%char 2 (show_nonneg z)) = true.
Proof. intros H. apply token_digits; auto with thttpd. Qed.

Lemma parse_d2 z :
  0 <= z < 2 ^ 32 -> parse_u 32 (pad_left "0"%char 2 (show_nonneg z)) = Some z.
Proof. intros H. apply parse_u_digits; [auto with thttpd..|lia]; destruct H; auto with thttpd. Qed.

Lemma month_case (P : Z -> Prop) m :
  0 <= m <= 11 -> P 0 -> P 1 -> P 2 -> P 3 -> P 4 -> P 5 -> P 6 -> P 7 -> P 8 -> P 9 -> P 10 ->
  P 11 -> P m.
Proof.
  intros Hm. intros. assert (m = 0 \/ m = 1 \/ m = 2 \/ m = 3 \/ m = 4 \/ m = 5 \/ m = 6 \/ m = 7
    \/ m = 8 \/ m = 9 \/ m = 10 \/ m = 11) as Hc by lia.
  repeat (destruct Hc as [->|Hc]; [done|]). by subst.
Qed.

Lemma month_name_ok m :
  0 <= m <= 11 ->
  token (unwrap_or [] (month_names !! Z.to_nat m)) = true /\
  month_num (unwrap_or [] (month_names !! Z.to_nat m)) = Some m.
Proof. intros H. pattern m. apply month_case; [exact H|..]; vm_compute; auto. Qed.

Lemma day_name_token wd : wd ∈ day_names -> token (wd ++ B ",") = true.
Proof.
  intros H. unfold day_names in H. repeat (apply elem_of_cons in H as [->|H]; [reflexivity|]).
  by apply elem_of_nil in H.
Qed.

Lemma colon_split a b c :
  let nc := Forall (fun x => is_ascii_digit x = true) in
  nc a -> nc b -> nc c ->
  split_on ":"%char (a ++ B ":" ++ b ++ B ":" ++ c) = [a; b; c].
Proof.
  intros nc Ha Hb Hc. unfold split_on.
  assert (forall s, nc s -> Forall (fun x => (x =c? ":"%char) = false) s) as K.
  { intros s Hs. eapply Forall_impl; [exact Hs|]. intros x Hx. by apply digit_neq. }
  repeat change (B ":" ++ ?t) with (":"%char :: t).
  rewrite split_by_app by auto. rewrite split_by_app by auto.
  by rewrite split_by_no_sep by auto.
Qed.

Lemma rfc1123_words_tokens wd year month day hour min sec :
  wd ∈ day_names -> 0 <= year -> 0 <= month <= 11 -> 0 <= day -> 0 <= hour -> 0 <= min ->
  0 <= sec -> Forall (fun w => token w = true) (rfc1123_words wd year month day hour min sec).
Proof.
  intros. unfold rfc1123_words. repeat apply Forall_cons_2; [..|constructor].
  - by apply day_name_token.
  - by apply d2_token.
  - by apply month_name_ok.
  - apply token_digits; auto with thttpd.
  - do 2 (apply token_app; [by apply d2_token|]; apply token_app; [done|]). by apply d2_token.
  - reflexivity.
Qed.

Lemma parse_rfc1123_words wd year month day hour min sec :
  wd ∈ day_names -> 0 <= year < 2 ^ 31 -> 0 <= month <= 11 -> 0 <= day < 2 ^ 32 ->
  0 <= hour < 2 ^ 32 -> 0 <= min < 2 ^ 32 -> 0 <= sec < 2 ^ 32 ->
  parse_rfc1123 (spaced (rfc1123_words wd year month day hour min sec))
  = Some (date_to_epoch year month day hour min sec).
Proof.
  intros. destruct_and?. unfold parse_rfc1123.
  rewrite split_whitespace_spaced by (discriminate || apply rfc1123_words_tokens; lia || done).
  unfold rfc1123_words. change (bytes_eqb (B "GMT") (B "GMT")) with true. cbn [negb].
  rewrite (parse_d2 day) by lia. cbn [mbind option_bind].
  rewrite (proj2 (month_name_ok month ltac:(lia))). cbn [mbind option_bind].
  rewrite (parse_i_digits 32 _ year) by (lia || auto with thttpd). cbn [mbind option_bind].
  unfold parse_time. rewrite colon_split by (lia || auto with thttpd).
  rewrite (parse_d2 hour), (parse_d2 min), (parse_d2 sec) by lia.
  reflexivity.
Qed.

Lemma parse_http_date_words wd year month day hour min sec :
  wd ∈ day_names -> 0 <= year < 2 ^ 31 -> 0 <= month <= 11 -> 0 <= day < 2 ^ 32 ->
  0 <= hour < 2 ^ 32 -> 0 <= min < 2 ^ 32 -> 0 <= sec < 2 ^ 32 ->
  parse_http_date (spaced (rfc1123_words wd year month day hour min sec))
  = Some (date_to_epoch year month day hour min sec).
Proof.
  intros Hwd. intros. unfold parse_http_date.
  rewrite trim_spaced by (discriminate || apply rfc1123_words_tokens; lia || done).
  assert (parse_i 64 (spaced (rfc1123_words wd year month day hour min sec)) = None) as ->.
  { unfold day_names in Hwd.
    repeat (apply elem_of_cons in Hwd as [->|Hwd]; [reflexivity|]). by apply elem_of_nil in Hwd. }
  by rewrite parse_rfc1123_words.
Qed.

Lemma weekday_index_eq ts :
  0 <= ts < 2 ^ 47 -> weekday_index ts = Z.to_nat ((ts / 86400) mod 7).
Proof.
  intros H. unfold weekday_index. rewrite Z.quot_div_nonneg by lia.
  assert (0 <= ts / 86400 < 2 ^ 31).
  { split; [apply Z.div_pos; lia|apply Z.div_lt_upper_bound; lia]. }
  rewrite wrap_s_small by lia.
  rewrite (Z.rem_mod_nonneg (ts / 86400)) by lia.
  pose proof (Z.mod_pos_bound (ts / 86400) 7 ltac:(lia)).
  rewrite Z.rem_mod_nonneg by lia.
  replace ((ts / 86400) mod 7 + 7) with ((ts / 86400) mod 7 + 1 * 7) by lia.
  rewrite Z.mod_add, Z.mod_mod by lia. done.
Qed.

Lemma weekday_index_range ts : (weekday_index ts < 7)%nat.
Proof.
  unfold weekday_index. generalize (wrap_i32 (Z.quot ts 86400)) as d. intros d.
  pose proof (Z.rem_bound_abs (Z.rem d 7 + 7) 7 ltac:(lia)). lia.
Qed.

Lemma weekday_name ts : unwrap_or [] (day_names !! weekday_index ts) ∈ day_names.
Proof.
  destruct (lookup_lt_is_Some_2 day_names (weekday_index ts)) as [d Hd].
  - apply weekday_index_range.
  - rewrite Hd. simpl. by eapply list_elem_of_lookup_2.
Qed.

(** What is printed for a non-negative timestamp: fields in their calendar
    ranges that denote the timestamp. *)
Lemma format_http_date_fields ts :
  0 <= ts < 2 ^ 55 ->
  exists year month day hour min sec,
    format_http_date ts =
      spaced (rfc1123_words (unwrap_or [] (day_names !! weekday_index ts))
                year month day hour min sec) /\
    1970 <= year < 2 ^ 31 /\ 0 <= month <= 11 /\ 1 <= day <= days_in_month month year /\
    0 <= hour <= 23 /\ 0 <= min <= 59 /\ 0 <= sec <= 59 /\
    date_to_epoch year month day hour min sec = ts.
Proof.
  intros Hts. unfold format_http_date.
  assert (ts / 31536000 < 2 ^ 31 - 1971) by (apply Z.div_lt_upper_bound; lia).
  pose proof (year_loop_sum (year_fuel ts) ts 1970 ltac:(lia) ltac:(lia) ltac:(lia)) as Hy.
  pose proof (year_loop_exit (year_fuel ts) ts 1970 (year_fuel_enough ts)) as Hx.
  destruct (year_loop (year_fuel ts) ts 1970) as [r year]. destruct Hy as (Hr & Hyr & Esum).
  rewrite epoch_days_1970 in Esum.
  pose proof (month_loop_sum 12 0 r year ltac:(lia) ltac:(lia) ltac:(lia)) as Hm.
  change (days_before_month 0 year) with 0 in Hm. specialize (Hm ltac:(lia)).
  destruct (month_loop 12 r 0 year) as [r' month]. destruct Hm as (Hm & Hr' & Emon).
  rewrite Z.quot_div_nonneg, Z.rem_mod_nonneg by lia.
  pose proof (days_in_month_le month year).
  assert (0 <= r' / 86400 < days_in_month month year).
  { split; [apply Z.div_pos; lia|apply Z.div_lt_upper_bound; lia]. }
  pose proof (Z.div_mod r' 86400 ltac:(lia)) as E1.
  set (q := r' / 86400) in *. pose proof (Z.mod_pos_bound r' 86400 ltac:(lia)).
  set (t := r' mod 86400) in *.
  rewrite (Z.quot_div_nonneg t 3600), (Z.rem_mod_nonneg t 3600) by lia.
  pose proof (Z.div_mod t 3600 ltac:(lia)) as E2. pose proof (Z.mod_pos_bound t 3600 ltac:(lia)).
  assert (0 <= t / 3600 <= 23) by (split; [apply Z.div_pos; lia|
     apply Z.lt_succ_r, Z.div_lt_upper_bound; lia]).
  set (u := t mod 3600) in *.
  rewrite (Z.quot_div_nonneg u 60), (Z.rem_mod_nonneg u 60) by lia.
  pose proof (Z.div_mod u 60 ltac:(lia)) as E3. pose proof (Z.mod_pos_bound u 60 ltac:(lia)).
  assert (0 <= u / 60 <= 59) by (split; [apply Z.div_pos; lia|
     apply Z.lt_succ_r, Z.div_lt_upper_bound; lia]).
  rewrite (wrap_u_small 32 q) by lia. rewrite !wrap_u_small by lia.
  exists year, month, (q + 1), (t / 3600), (u / 60), (u mod 60).
  split; [|repeat split; try lia; rewrite date_to_epoch_eq, wrap_u_small; lia].
  unfold show_Z. rewrite (proj2 (Z.ltb_ge year 0)) by lia.
  unfold rfc1123_words, spaced. rewrite <- !app_assoc. reflexivity.
Qed.

(** C40: printing a timestamp and parsing it back is the identity, for every
    timestamp from the epoch to beyond year 10^9. *)
Theorem format_parse_roundtrip ts :
  0 <= ts < 2 ^ 55 -> parse_http_date (format_http_date ts) = Some ts.
Proof.
  intros H. destruct (format_http_date_fields ts H)
    as (y & mo & d & h & mi & s & -> & ? & ? & ? & ? & ? & ? & E).
  pose proof (days_in_month_le mo y).
  rewrite parse_http_date_words; [by rewrite E|apply weekday_name|lia..].
Qed.

Lemma format_parse_roundtrip_witness :
  0 <= 784111777 < 2 ^ 55 /\
  parse_http_date (format_http_date 784111777) = Some 784111777.
Proof. split; [lia|]. apply (format_parse_roundtrip 784111777). lia. Defined.

(** Day of the week, Sunday = 0: the epoch, 1 January 1970, was a Thursday. *)
Definition gregorian_weekday (ts : Z) : nat := Z.to_nat ((ts / 86400 + 4) mod 7).

(** The weekday that [format_http_date] prints is never the weekday of
    the date: the index counts days from the epoch into a table that starts
    on Sunday, although the epoch was a Thursday. *)
Theorem format_http_date_weekday_wrong ts :
  0 <= ts < 2 ^ 47 ->
  exists wd rest,
    format_http_date ts = wd ++ rest /\ length wd = 3%nat /\
    day_names !! gregorian_weekday ts <> Some wd.
Proof.
  intros H. destruct (format_http_date_fields ts ltac:(lia))
    as (y & mo & d & h & mi & s & -> & _).
  pose proof (weekday_index_range ts).
  destruct (lookup_lt_is_Some_2 day_names (weekday_index ts) ltac:(assumption)) as [wd Hwd].
  rewrite Hwd. unfold rfc1123_words, spaced. rewrite <- app_assoc. eexists wd, _.
  split; [reflexivity|]. rewrite weekday_index_eq in Hwd by lia. unfold gregorian_weekday.
  rewrite Z.add_mod by lia. change (4 mod 7) with 4. revert Hwd.
  pose proof (Z.mod_pos_bound (ts / 86400) 7 ltac:(lia)) as Hr.
  generalize dependent ((ts / 86400) mod 7). intros k Hk.
  assert (k = 0 \/ k = 1 \/ k = 2 \/ k = 3 \/ k = 4 \/ k = 5 \/ k = 6) as Hc by lia.
  repeat (destruct Hc as [->|Hc]; [intros [= <-]; split; [reflexivity|discriminate]|]).
  subst k. intros [= <-]; split; [reflexivity|discriminate].
Qed.

Lemma format_http_date_weekday_wrong_witness :
  0 <= 784111777 < 2 ^ 47 /\
  exists wd rest,
    format_http_date 784111777 = wd ++ rest /\ length wd = 3%nat /\
    day_names !! gregorian_weekday 784111777 <> Some wd.
Proof. split; [lia|]. apply (format_http_date_weekday_wrong 784111777). lia. Defined.
