(* ===== verification/Url.v ===== *)
(** * URL decoding and normalisation (rust/crates/thttpd-http/src/url.rs) *)

From S2P Require Import Prelude RustStr.

Local Open Scope Z_scope.

(** ** Percent decoding *)

(** [from_hex]: the value of one ASCII hex digit. *)
Definition from_hex (b : byte) : option Z :=
  if in_range 48 57 (code b) then Some (code b - 48)
  else if in_range 97 102 (code b) then Some (code b - 97 + 10)
  else if in_range 65 70 (code b) then Some (code b - 65 + 10)
  else None.

(** The loop of [percent_decode]: the head is [bytes[i]], and the guard
    [i + 2 < bytes.len()] asks for two more bytes. *)
Fixpoint decode_bytes (s : bytes) : bytes :=
  match s with
  | [] => []
  | c :: s1 =>
      if c =c? "%"%char then
        match s1 with
        | h :: ((l :: s3) as s2) =>
            match from_hex h, from_hex l with
            | Some hi, Some lo => chr (hi * 16 + lo) :: decode_bytes s3
            | _, _ => c :: decode_bytes s1
            end
        | _ => c :: decode_bytes s1
        end
      else if c =c? "+"%char then SP :: decode_bytes s1
      else c :: decode_bytes s1
  end.

Definition percent_decode (input : bytes) : bytes := from_utf8_lossy (decode_bytes input).

(** ** Path normalisation *)

Definition DOT : bytes := B ".".
Definition DOTDOT : bytes := B "..".

(** The loop over [path.split('/')]; the [Vec] of components is kept as a
    stack, its last element first.  [None] is the early return of [pop()?]. *)
Fixpoint normalize_loop (components parts : list bytes) : option (list bytes) :=
  match parts with
  | [] => Some components
  | part :: rest =>
      if is_empty part || bytes_eqb part DOT then normalize_loop components rest
      else if bytes_eqb part DOTDOT then
        match components with
        | [] => None
        | _ :: components' => normalize_loop components' rest
        end
      else normalize_loop (part :: components) rest
  end.

Definition normalize_path (path : bytes) : option bytes :=
  if contains_sub (B "//") path then None
  else
    components ← normalize_loop [] (split_on "/"%char path);
    let components := reverse components in
    Some (if is_empty components then B "/" else B "/" ++ join (B "/") components).

Example normalize_examples :
  normalize_path (B "/foo/../bar") = Some (B "/bar") /\
  normalize_path (B "/../../etc/passwd") = None /\
  normalize_path (B "/foo//bar") = None /\
  normalize_path (B "a/./b/") = Some (B "/a/b") /\
  normalize_path [] = Some (B "/").
Proof. vm_compute. repeat split. Qed.

Example decode_examples :
  percent_decode (B "hello%20world+x") = B "hello world x" /\
  percent_decode (B "foo%4") = B "foo%4" /\ percent_decode (B "%ZZ") = B "%ZZ" /\
  percent_decode (B "%41%42") = B "AB".
Proof. vm_compute. repeat split. Qed.

(** ** Components *)

(** A component that stays where it is put: not empty, not [.], not [..],
    without a slash. *)
Definition plain_component (c : bytes) : Prop :=
  c <> [] /\ c <> DOT /\ c <> DOTDOT /\ Forall (fun x => (x =c? "/"%char) = false) c.

(** Whether a part pushes, pops or is skipped. *)
Definition part_depth (part : bytes) : Z :=
  if is_empty part || bytes_eqb part DOT then 0
  else if bytes_eqb part DOTDOT then -1 else 1.

Definition depth (parts : list bytes) : Z := foldr (fun p d => part_depth p + d) 0 parts.

Arguments depth : simpl never.

Lemma depth_app l k : depth (l ++ k) = depth l + depth k.
Proof. unfold depth. induction l; simpl; lia. Qed.

Lemma is_empty_spec {A} (l : list A) : is_empty l = true <-> l = [].
Proof. destruct l; simpl; split; congruence. Qed.

Lemma normalize_loop_plain comps parts out :
  Forall plain_component comps ->
  Forall (Forall (fun x => (x =c? "/"%char) = false)) parts ->
  normalize_loop comps parts = Some out -> Forall plain_component out.
Proof.
  revert comps. induction parts as [|p parts IH]; intros comps Hc Hp; simpl.
  { intros [= <-]. done. }
  apply Forall_cons in Hp as [Hp Hps].
  destruct (is_empty p || bytes_eqb p DOT) eqn:E1; [by apply IH|].
  apply orb_false_iff in E1 as [E1 E2]. apply bytes_eqb_false in E2.
  destruct (bytes_eqb p DOTDOT) eqn:E3.
  - destruct comps as [|c comps]; [done|]. apply Forall_cons in Hc as [_ Hc]. by apply IH.
  - apply bytes_eqb_false in E3. apply IH; [|done]. constructor; [|done].
    repeat split; try done. intros ->. done.
Qed.

(** The loop fails exactly when some prefix of the parts climbs above the
    starting directory, and its depth follows the parts. *)
Lemma normalize_loop_depth comps parts :
  match normalize_loop comps parts with
  | Some out =>
      Z.of_nat (length out) = Z.of_nat (length comps) + depth parts /\
      forall k, 0 <= Z.of_nat (length comps) + depth (take k parts)
  | None => exists k, Z.of_nat (length comps) + depth (take k parts) < 0
  end.
Proof.
  revert comps. induction parts as [|p parts IH]; intros comps; simpl.
  { unfold depth. simpl. split; [lia|]. intros k. rewrite take_nil. simpl. lia. }
  assert (D : forall q ps, depth (q :: ps) = part_depth q + depth ps) by done.
  assert (S0 : forall (P : nat -> Prop), P 0%nat -> (forall k, P (S k)) -> forall k, P k)
    by (intros P ? ? []; auto).
  rewrite D.
  assert (St : forall comps',
    Z.of_nat (length comps') = Z.of_nat (length comps) + part_depth p ->
    match normalize_loop comps' parts with
    | Some out =>
        Z.of_nat (length out) = Z.of_nat (length comps) + (part_depth p + depth parts) /\
        forall k, 0 <= Z.of_nat (length comps) + depth (take k (p :: parts))
    | None => exists k, Z.of_nat (length comps) + depth (take k (p :: parts)) < 0
    end).
  { intros comps' E. specialize (IH comps'). destruct (normalize_loop comps' parts).
    - destruct IH as [IH1 IH2]. split; [lia|]. apply S0; [simpl; unfold depth; simpl; lia|].
      intros k. simpl take. rewrite D. specialize (IH2 k). lia.
    - destruct IH as [k Hk]. exists (S k). simpl take. rewrite D. lia. }
  destruct (is_empty p || bytes_eqb p DOT) eqn:E1.
  { apply St. unfold part_depth. rewrite E1. lia. }
  destruct (bytes_eqb p DOTDOT) eqn:E3.
  - destruct comps as [|c comps].
    + exists 1%nat. simpl take. rewrite take_0, D. unfold part_depth. rewrite E1, E3.
      unfold depth. simpl. lia.
    + apply St. unfold part_depth. rewrite E1, E3. simpl length. lia.
  - apply St. unfold part_depth. rewrite E1, E3. simpl length. lia.
Qed.

Lemma normalize_loop_plain_id comps parts :
  Forall plain_component parts -> normalize_loop comps parts = Some (reverse parts ++ comps).
Proof.
  intros H. revert comps. induction H as [|p parts (H1 & H2 & H3 & _) _ IH]; intros comps; [done|].
  simpl. rewrite (proj2 (bytes_eqb_false _ _) H2), (proj2 (bytes_eqb_false _ _) H3).
  destruct p; [done|]. simpl. rewrite IH, reverse_cons, <- app_assoc. done.
Qed.

(** A joined list of plain components contains no double slash. *)
Lemma find_sub_cons needle c hay :
  find_sub needle (c :: hay) =
  if starts_with needle (c :: hay) then Some 0%nat else S <$> find_sub needle hay.
Proof. destruct needle; done. Qed.

Lemma contains_slashes_cons c s :
  contains_sub (B "//") (c :: s) =
  ((c =c? "/"%char) && match s with d :: _ => d =c? "/"%char | [] => false end)
  || contains_sub (B "//") s.
Proof.
  unfold contains_sub at 1. rewrite find_sub_cons.
  change (B "//") with ["/"%char; "/"%char].
  replace (starts_with ["/"%char; "/"%char] (c :: s))
    with ((c =c? "/"%char) && match s with d :: _ => d =c? "/"%char | [] => false end).
  - destruct (_ && _); [done|]. simpl. unfold contains_sub. by destruct (find_sub _ s).
  - unfold starts_with. rewrite (Ascii.eqb_sym "/" c). destruct s as [|d s]; [done|].
    rewrite (Ascii.eqb_sym "/" d). by rewrite andb_true_r.
Qed.

Lemma no_slashes_app c s :
  Forall (fun x => (x =c? "/"%char) = false) c ->
  contains_sub (B "//") (c ++ s) = contains_sub (B "//") s.
Proof.
  induction 1 as [|x c Hx _ IH]; [done|].
  change ((x :: c) ++ s) with (x :: (c ++ s)). rewrite contains_slashes_cons, Hx. simpl. exact IH.
Qed.

Lemma join_no_slashes comps :
  Forall plain_component comps -> contains_sub (B "//") (B "/" ++ join (B "/") comps) = false.
Proof.
  induction 1 as [|c comps (H1 & _ & _ & Hc) Hcs IH]; [done|].
  change (B "/" ++ ?t) with ("/"%char :: t) in *. rewrite contains_slashes_cons.
  assert (match join (B "/") (c :: comps) with d :: _ => d =c? "/"%char | [] => false end = false) as E.
  { destruct c as [|x c]; [done|]. apply Forall_cons in Hc as [Hx _]. by destruct comps. }
  rewrite E, andb_false_r, orb_false_l. clear E. destruct comps as [|c' comps].
  - change (join (B "/") [c]) with c. rewrite <- (app_nil_r c). by rewrite no_slashes_app.
  - rewrite join_cons. rewrite no_slashes_app by done. exact IH.
Qed.

Lemma plain_split comps :
  comps <> [] -> Forall plain_component comps ->
  split_on "/"%char (B "/" ++ join (B "/") comps) = [] :: comps.
Proof.
  intros Hne H. unfold split_on. change (B "/" ++ ?t) with ([] ++ "/"%char :: t).
  rewrite split_by_app by done. f_equal. apply split_on_join; [done|].
  eapply Forall_impl; [exact H|]. intros c (_ & _ & _ & Hc). exact Hc.
Qed.

Lemma normalize_path_shape path q :
  normalize_path path = Some q ->
  exists comps, Forall plain_component comps /\ q = B "/" ++ join (B "/") comps.
Proof.
  unfold normalize_path. destruct (contains_sub (B "//") path); [done|].
  destruct (normalize_loop [] _) as [out|] eqn:E; [|done]. cbn [mbind option_bind].
  intros [= <-]. exists (reverse out). split.
  - apply Forall_reverse. eapply normalize_loop_plain; [| |exact E]; [constructor|].
    apply split_by_pieces.
  - by destruct (reverse out).
Qed.

Lemma normalize_path_plain comps :
  Forall plain_component comps ->
  normalize_path (B "/" ++ join (B "/") comps) = Some (B "/" ++ join (B "/") comps).
Proof.
  intros H. unfold normalize_path. rewrite join_no_slashes by done.
  destruct comps as [|c comps]; [reflexivity|].
  rewrite plain_split by done. change (normalize_loop [] ([] :: ?l)) with (normalize_loop [] l).
  rewrite normalize_loop_plain_id by done. rewrite app_nil_r. cbn [mbind option_bind].
  rewrite reverse_involutive. done.
Qed.

(** What [normalize_path] returns is an absolute path whose components
    are all non-empty, contain no slash and are neither `.` nor `..`, so that
    joined to the document root it names a file below it; and normalising it
    again changes nothing. *)
Theorem normalize_path_safe path q :
  normalize_path path = Some q ->
  (exists comps, Forall plain_component comps /\ q = B "/" ++ join (B "/") comps) /\
  normalize_path q = Some q.
Proof.
  intros H. apply normalize_path_shape in H as (comps & Hc & ->).
  split; [by exists comps|]. by apply normalize_path_plain.
Qed.

Lemma normalize_path_safe_witness :
  normalize_path (B "/a/../b/./c") = Some (B "/b/c") /\
  (exists comps, Forall plain_component comps /\ B "/b/c" = B "/" ++ join (B "/") comps) /\
  normalize_path (B "/b/c") = Some (B "/b/c").
Proof.
  split; [vm_compute; reflexivity|].
  apply (normalize_path_safe (B "/a/../b/./c")). vm_compute. reflexivity.
Defined.

(** [normalize_path] rejects a path exactly when it contains `//` or
    when some prefix of its components climbs above the root, that is has more
    `..` than ordinary components; it accepts every other path. *)
Theorem normalize_path_rejects path :
  normalize_path path = None <->
  contains_sub (B "//") path = true \/
  exists k, depth (take k (split_on "/"%char path)) < 0.
Proof.
  unfold normalize_path. destruct (contains_sub (B "//") path); [split; auto|].
  pose proof (normalize_loop_depth [] (split_on "/"%char path)) as H.
  destruct (normalize_loop [] _); cbn [mbind option_bind].
  - split; [done|]. intros [?|[k Hk]]; [done|]. destruct H as [_ H]. specialize (H k).
    simpl in H. lia.
  - split; [intros _; right|done]. destruct H as [k Hk]. exists k. simpl in Hk. lia.
Qed.

(** ** Decoding *)

Lemma decode_bytes_plain s :
  Forall (fun c => (c =c? "%"%char) = false /\ (c =c? "+"%char) = false) s ->
  decode_bytes s = s.
Proof. induction 1 as [|c s [H1 H2] _ IH]; simpl; [done|]. by rewrite H1, H2, IH. Qed.

Lemma decode_bytes_plain_cons c s :
  (c =c? "%"%char) = false -> (c =c? "+"%char) = false ->
  decode_bytes (c :: s) = c :: decode_bytes s.
Proof. simpl. by intros -> ->. Qed.

Lemma decode_bytes_escape h l hi lo s :
  from_hex h = Some hi -> from_hex l = Some lo ->
  decode_bytes ("%"%char :: h :: l :: s) = chr (hi * 16 + lo) :: decode_bytes s.
Proof. intros Hh Hl. simpl. by rewrite Hh, Hl. Qed.
