(* ===== verification/Request.v ===== *)
(** * Request detection (rust/crates/thttpd-http/src/method.rs, parse_state.rs,
      parse.rs)

    The incremental request FSM.  [fsm_step] is one round of the [while] loop
    of [got_request]; an index out of the buffer is a Rust panic, modelled as
    [None]. *)

From S2P Require Import Prelude RustStr.

(** ** Methods *)

Module Method.
Inductive t := Get | Head | Post | Unknown.

#[global] Instance t_eq_dec : EqDecision t.
Proof. solve_decision. Defined.

Definition parse (s : bytes) : t :=
  if bytes_eqb s (B "GET") then Get
  else if bytes_eqb s (B "HEAD") then Head
  else if bytes_eqb s (B "POST") then Post
  else Unknown.

Definition as_str (m : t) : bytes :=
  match m with
  | Get => B "GET"
  | Head => B "HEAD"
  | Post => B "POST"
  | Unknown => B "UNKNOWN"
  end.
End Method.

(** ** The FSM *)

Module GotRequest.
Inductive t := NoRequest | GotRequest | BadRequest.

#[global] Instance t_eq_dec : EqDecision t.
Proof. solve_decision. Defined.
End GotRequest.

Module ParseState.
Inductive t :=
| FirstWord | FirstWs | SecondWord | SecondWs | ThirdWord | ThirdWs
| Lf | Cr | Crlf | Crlfcr | Line | GotRequest | Bogus.

#[global] Instance t_eq_dec : EqDecision t.
Proof. solve_decision. Defined.

Definition initial : t := FirstWord.

Definition is_terminal (s : t) : bool :=
  match s with GotRequest | Bogus => true | _ => false end.
End ParseState.

(** [b' ' | b'\t'] and [b'\r' | b'\n']. *)
Definition is_ws (c : byte) : bool := (c =c? SP) || (c =c? TAB).
Definition is_eol (c : byte) : bool := (c =c? CR) || (c =c? LF).

(** A round of the loop either falls through to [checked_idx += 1] with a new
    state, or returns, at [checked_idx + 1] when [adv] and at [checked_idx]
    otherwise. *)
Inductive step_result :=
| Continue (s : ParseState.t)
| Return (r : GotRequest.t) (adv : bool) (s : ParseState.t).

Abbreviation bad := (Return GotRequest.BadRequest false ParseState.Bogus).
Abbreviation got := (Return GotRequest.GotRequest true ParseState.GotRequest).

Definition fsm_step (state : ParseState.t) (c : byte) : step_result :=
  match state with
  | ParseState.FirstWord =>
      if is_ws c then Continue ParseState.FirstWs
      else if is_eol c then bad
      else Continue ParseState.FirstWord
  | ParseState.FirstWs =>
      if is_ws c then Continue ParseState.FirstWs
      else if is_eol c then bad
      else Continue ParseState.SecondWord
  | ParseState.SecondWord =>
      if is_ws c then Continue ParseState.SecondWs
      else if is_eol c then got
      else Continue ParseState.SecondWord
  | ParseState.SecondWs =>
      if is_ws c then Continue ParseState.SecondWs
      else if is_eol c then bad
      else Continue ParseState.ThirdWord
  | ParseState.ThirdWord =>
      if is_ws c then Continue ParseState.ThirdWs
      else if c =c? CR then Continue ParseState.Cr
      else if c =c? LF then Continue ParseState.Lf
      else Continue ParseState.ThirdWord
  | ParseState.ThirdWs =>
      if is_ws c then Continue ParseState.ThirdWs
      else if c =c? CR then Continue ParseState.Cr
      else if c =c? LF then Continue ParseState.Lf
      else bad
  | ParseState.Lf =>
      if c =c? CR then Continue ParseState.Cr
      else if c =c? LF then got
      else Continue ParseState.Line
  | ParseState.Cr =>
      if c =c? LF then Continue ParseState.Crlf
      else if c =c? CR then got
      else Continue ParseState.Line
  | ParseState.Crlf =>
      if c =c? CR then Continue ParseState.Crlfcr
      else if c =c? LF then got
      else Continue ParseState.Line
  | ParseState.Line =>
      if c =c? CR then Continue ParseState.Cr
      else if c =c? LF then Continue ParseState.Lf
      else Continue ParseState.Line
  | ParseState.Crlfcr =>
      if is_eol c then got
      else Continue ParseState.Line
  | ParseState.GotRequest | ParseState.Bogus =>
      Return GotRequest.NoRequest false state
  end.

Fixpoint got_request_loop (rounds : nat) (read_buf : bytes) (checked_idx : nat)
    (state : ParseState.t) : option (GotRequest.t * nat * ParseState.t) :=
  match rounds with
  | O => Some (GotRequest.NoRequest, checked_idx, state)
  | S n =>
      c ← read_buf !! checked_idx;
      match fsm_step state c with
      | Continue state' => got_request_loop n read_buf (S checked_idx) state'
      | Return r adv state' =>
          Some (r, if adv then S checked_idx else checked_idx, state')
      end
  end.

(** [while checked_idx < read_idx]: at most [read_idx - checked_idx] rounds. *)
Definition got_request (read_buf : bytes) (checked_idx read_idx : nat)
    (initial_state : ParseState.t) : option (GotRequest.t * nat * ParseState.t) :=
  got_request_loop (read_idx - checked_idx) read_buf checked_idx initial_state.

Fixpoint take_while (p : byte -> bool) (s : bytes) : bytes :=
  match s with
  | c :: s' => if p c then c :: take_while p s' else []
  | [] => []
  end.

(** [read_buf[..end]] panics when [end] is past the buffer. *)
Definition parse_method (read_buf : bytes) (end_ : nat) : option Method.t :=
  if length read_buf <? end_ then None
  else Some (Method.parse (from_utf8_lossy
               (take_while (fun b => negb (is_ws b)) (take end_ read_buf)))).

Definition crlf2 : bytes := CRLF ++ CRLF.

Example got_request_examples :
  let run s := got_request s 0 (length s) ParseState.FirstWord in
  run (B "GET / HTTP/1.0" ++ crlf2) =
    Some (GotRequest.GotRequest, 18, ParseState.GotRequest) /\
  run (B "GET / HTTP/1.0" ++ CRLF) = Some (GotRequest.NoRequest, 16, ParseState.Crlf) /\
  run (B "GET /" ++ CRLF) = Some (GotRequest.GotRequest, 6, ParseState.GotRequest) /\
  run (B "GET / HTTP/1.0 X" ++ crlf2) = Some (GotRequest.BadRequest, 15, ParseState.Bogus).
Proof. vm_compute. repeat split. Qed.

(** ** Bounds and freedom from panics *)

Lemma got_request_loop_bounds n buf i st :
  i + n <= length buf ->
  exists r j st', got_request_loop n buf i st = Some (r, j, st') /\ i <= j <= i + n.
Proof.
  revert i st. induction n as [|n IH]; intros i st H; simpl.
  - repeat eexists; lia.
  - destruct (lookup_lt_is_Some_2 buf i) as [c Hc]; [lia|]. rewrite Hc. simpl.
    destruct (fsm_step st c) as [st'|r adv st'].
    + destruct (IH (S i) st') as (r & j & st'' & E & Hj); [lia|]. rewrite E.
      repeat eexists; lia.
    + repeat eexists; destruct adv; lia.
Qed.

(** On a buffer that holds the [read_idx] bytes read, [got_request]
    never indexes out of the buffer and returns a position between the old
    [checked_idx] and [read_idx]. *)
Theorem got_request_in_bounds buf checked read st :
  checked <= read <= length buf ->
  exists r j st', got_request buf checked read st = Some (r, j, st') /\ checked <= j <= read.
Proof.
  intros H. unfold got_request.
  destruct (got_request_loop_bounds (read - checked) buf checked st) as (r & j & st' & E & Hj);
    [lia|]. exists r, j, st'. split; [done|lia].
Qed.

Lemma got_request_in_bounds_witness :
  0 <= 5 <= length (B "GET / HTTP/1.0") /\
  exists r j st', got_request (B "GET / HTTP/1.0") 0 5 ParseState.FirstWord = Some (r, j, st')
    /\ 0 <= j <= 5.
Proof.
  assert (H : 0 <= 5 <= length (B "GET / HTTP/1.0")) by (vm_compute; lia).
  split; [exact H|]. apply (got_request_in_bounds _ _ _ _ H).
Defined.

(** ** Incremental reads *)

(** The loop over a longer buffer starts like the loop over a shorter one. *)
Lemma got_request_loop_prefix n m buf buf' i st :
  (forall j, i <= j < i + n -> buf !! j = buf' !! j) ->
  match got_request_loop n buf i st with
  | Some (GotRequest.NoRequest, j, st') =>
      got_request_loop (n + m) buf' i st = got_request_loop (n + m - (j - i)) buf' j st'
  | Some res => got_request_loop (n + m) buf' i st = Some res
  | None => True
  end.
Proof.
  revert i st. induction n as [|n IH]; intros i st Hb; simpl.
  { by rewrite Nat.sub_diag, Nat.sub_0_r. }
  rewrite (Hb i) by lia. destruct (buf' !! i) as [c|] eqn:Hc; simpl; [|done].
  destruct (fsm_step st c) as [st'|r adv st'] eqn:E.
  - specialize (IH (S i) st' ltac:(intros; apply Hb; lia)).
    destruct (got_request_loop n buf (S i) st') as [[[[] j] st'']|] eqn:G; try done.
    rewrite IH. f_equal.
    assert (S i <= j) by (clear -G; revert G; generalize (S i) as k; revert st';
      induction n as [|n IHn]; intros st' k; simpl; [intros [= <- _]; lia|];
      destruct (buf !! k); simpl; [|done]; destruct (fsm_step st' a) as [|? [] ?];
      [intros G%IHn; lia|intros [= _ <- _]; lia..]).
    lia.
  - destruct r; try (destruct adv; done).
    assert (adv = false /\ st' = st) as [-> ->].
    { destruct st; simpl in E; repeat (case_match; try done); by simplify_eq. }
    rewrite Nat.sub_diag, Nat.sub_0_r. simpl. by rewrite Hc; simpl; rewrite E.
Qed.

(** Reads arrive as a list of [read_idx] values; each call resumes from the
    previous [checked_idx] and state and the first verdict is final. *)
Definition resume (buf : bytes)
    (acc : option (GotRequest.t * nat * ParseState.t)) (read_idx : nat) :
    option (GotRequest.t * nat * ParseState.t) :=
  match acc with
  | Some (GotRequest.NoRequest, j, st) => got_request buf j read_idx st
  | _ => acc
  end.

Definition feed (buf : bytes) (reads : list nat) (i : nat) (st : ParseState.t) :=
  foldl (resume buf) (Some (GotRequest.NoRequest, i, st)) reads.

(** One more read after any answer is the one-shot answer. *)
Lemma resume_got_request buf i m n st :
  i <= m <= n -> n <= length buf ->
  resume buf (got_request buf i m st) n = got_request buf i n st.
Proof.
  intros Hm Hn. unfold got_request.
  pose proof (got_request_loop_prefix (m - i) (n - m) buf buf i st ltac:(done)) as P.
  destruct (got_request_loop_bounds (m - i) buf i st) as (r & j & st' & E & Hj); [lia|].
  rewrite E in P |- *. replace (m - i + (n - m)) with (n - i) in P by lia.
  destruct r; simpl; [|by rewrite P..].
  unfold got_request. rewrite P. f_equal. lia.
Qed.

Lemma got_request_refl buf i st :
  got_request buf i i st = Some (GotRequest.NoRequest, i, st).
Proof. unfold got_request. by rewrite Nat.sub_diag. Qed.

Lemma feed_app buf reads n i st :
  feed buf (reads ++ [n]) i st = resume buf (feed buf reads i st) n.
Proof. unfold feed. by rewrite foldl_app. Qed.

Fixpoint increasing (i : nat) (reads : list nat) : Prop :=
  match reads with
  | [] => True
  | n :: reads' => i <= n /\ increasing n reads'
  end.

Lemma increasing_app i l m n :
  increasing i ((l ++ [m]) ++ [n]) -> increasing i (l ++ [m]) /\ i <= m <= n.
Proof.
  revert i. induction l as [|k l IH]; intros i; simpl; [lia|].
  intros [H1 H2%IH]. split; [tauto|lia].
Qed.

(** The verdict on a request does not depend on how its bytes were cut
    into reads: resuming [got_request] from the saved [checked_idx] and state
    after each of any increasing sequence of reads gives the verdict, the
    position and the state of one call on the whole buffer. *)
Theorem got_request_chunking buf reads n i st :
  increasing i (reads ++ [n]) -> n <= length buf ->
  feed buf (reads ++ [n]) i st = got_request buf i n st.
Proof.
  revert n. induction reads as [|m reads IH] using rev_ind; intros n Hinc Hn; [done|].
  apply increasing_app in Hinc as [Hinc Hm].
  rewrite feed_app, IH by (done || lia). apply resume_got_request; done.
Qed.

Lemma got_request_chunking_witness :
  let buf := B "GET / HTTP/1.0" ++ crlf2 in
  increasing 0 ([3; 10; 17] ++ [18]) /\ 18 <= length buf /\
  feed buf ([3; 10; 17] ++ [18]) 0 ParseState.FirstWord =
    got_request buf 0 18 ParseState.FirstWord.
Proof.
  assert (Hi : increasing 0 ([3; 10; 17] ++ [18])) by (vm_compute; lia).
  assert (Hn : 18 <= length (B "GET / HTTP/1.0" ++ crlf2)) by (vm_compute; lia).
  split; [exact Hi|]. split; [exact Hn|].
  apply (got_request_chunking _ _ _ _ _ Hi Hn).
Defined.

(** ** Where a request ends

    The specification of the end of a header block, on the reversed bytes
    [r] read since the end of the request line's last word: two line feeds,
    two carriage returns, or the blank line CR LF CR LF. *)

Definition ends_block (r : bytes) : bool :=
  match r with
  | c :: d :: r' =>
      ((c =c? LF) && (d =c? LF)) || ((c =c? CR) && (d =c? CR))
      || ((c =c? LF) && (d =c? CR) &&
          match r' with e :: f :: _ => (e =c? LF) && (f =c? CR) | _ => false end)
  | _ => false
  end.

(** What the FSM remembers of [r]. *)
Definition line_state (r : bytes) : ParseState.t :=
  match r with
  | [] => ParseState.ThirdWord
  | c :: r' =>
      if c =c? LF then
        match r' with d :: _ => if d =c? CR then ParseState.Crlf else ParseState.Lf
                    | [] => ParseState.Lf end
      else if c =c? CR then
        match r' with
        | d :: e :: _ => if (d =c? LF) && (e =c? CR) then ParseState.Crlfcr else ParseState.Cr
        | _ => ParseState.Cr
        end
      else ParseState.Line
  end.

Arguments ends_block : simpl never.
Arguments line_state : simpl never.

Lemma fsm_step_line c d r :
  ends_block (d :: r) = false ->
  fsm_step (line_state (d :: r)) c =
    if ends_block (c :: d :: r) then got else Continue (line_state (c :: d :: r)).
Proof.
  unfold ends_block, line_state, fsm_step, is_eol.
  destruct r as [|e [|f [|g r]]];
    repeat (case_eqb; subst; cbn [andb orb]; try done; try discriminate).
Qed.

(** The loop as a scan of the unread bytes. *)
Fixpoint scan (i : nat) (st : ParseState.t) (l : bytes) : GotRequest.t * nat * ParseState.t :=
  match l with
  | [] => (GotRequest.NoRequest, i, st)
  | c :: l' =>
      match fsm_step st c with
      | Continue st' => scan (S i) st' l'
      | Return r adv st' => (r, if adv then S i else i, st')
      end
  end.

Lemma got_request_loop_scan l pre i st :
  i = length pre -> got_request_loop (length l) (pre ++ l) i st = Some (scan i st l).
Proof.
  revert pre i st. induction l as [|c l IH]; intros pre i st ->; simpl; [done|].
  rewrite list_lookup_middle by done. cbn [mbind option_bind].
  destruct (fsm_step st c) as [st'|]; [|done].
  rewrite (cons_middle c pre l), app_assoc. apply IH. rewrite length_app. simpl. lia.
Qed.

Lemma got_request_scan l st : got_request l 0 (length l) st = Some (scan 0 st l).
Proof.
  unfold got_request. rewrite Nat.sub_0_r. apply (got_request_loop_scan l []). done.
Qed.

Lemma scan_skip i st w s :
  Forall (fun c => fsm_step st c = Continue st) w ->
  scan i st (w ++ s) = scan (i + length w) st s.
Proof.
  intros H. revert i. induction H as [|c w Hc _ IH]; intros i; simpl.
  - f_equal. lia.
  - rewrite Hc, IH. f_equal. lia.
Qed.

Definition word_char (c : byte) : bool := negb (is_ws c) && negb (is_eol c).

(** A word of the request line and the white space between two words. *)
Definition is_word (w : bytes) : Prop := w <> [] /\ Forall (fun c => word_char c = true) w.
Definition is_gap (w : bytes) : Prop := w <> [] /\ Forall (fun c => is_ws c = true) w.

Lemma scan_move i st st' w s (P : byte -> bool) :
  w <> [] -> Forall (fun c => P c = true) w ->
  (forall c, P c = true -> fsm_step st c = Continue st') ->
  (forall c, P c = true -> fsm_step st' c = Continue st') ->
  scan i st (w ++ s) = scan (i + length w) st' s.
Proof.
  intros Hw HP H1 H2. destruct w as [|c w]; [done|].
  apply Forall_cons in HP as [Hc HP]. simpl. rewrite (H1 c Hc), scan_skip.
  - f_equal. lia.
  - eapply Forall_impl; [exact HP|]. exact H2.
Qed.

(** Discharges the side conditions of [scan_move]. *)
Ltac fsm_side :=
  intros c; unfold word_char; simpl; destruct (is_ws c) eqn:?; try done;
  unfold is_eol; repeat case_eqb; subst; simpl in *; done.

Lemma scan_first_word i w s :
  is_word w -> scan i ParseState.FirstWord (w ++ s) = scan (i + length w) ParseState.FirstWord s.
Proof. intros [Hw HP]. eapply scan_move; [done|exact HP|fsm_side..]. Qed.

Lemma scan_gap i w s st st' :
  is_gap w ->
  (st, st') = (ParseState.FirstWord, ParseState.FirstWs) \/
  (st, st') = (ParseState.SecondWord, ParseState.SecondWs) \/
  (st, st') = (ParseState.ThirdWord, ParseState.ThirdWs) ->
  scan i st (w ++ s) = scan (i + length w) st' s.
Proof.
  intros [Hw HP] [E|[E|E]]; injection E as -> ->; (eapply scan_move; [done|exact HP|fsm_side..]).
Qed.

Lemma scan_word i w s st st' :
  is_word w ->
  (st, st') = (ParseState.FirstWs, ParseState.SecondWord) \/
  (st, st') = (ParseState.SecondWs, ParseState.ThirdWord) ->
  scan i st (w ++ s) = scan (i + length w) st' s.
Proof.
  intros [Hw HP] [E|E]; injection E as -> ->; (eapply scan_move; [done|exact HP|fsm_side..]).
Qed.

(** In a header block, the FSM stops at the first block end and not before. *)
Lemma scan_block_end t k i d r :
  ends_block (d :: r) = false -> k <= length t ->
  ends_block (reverse (take k t) ++ d :: r) = true ->
  (forall j, j < k -> ends_block (reverse (take j t) ++ d :: r) = false) ->
  scan i (line_state (d :: r)) t = (GotRequest.GotRequest, i + k, ParseState.GotRequest).
Proof.
  revert k i d r. induction t as [|c t IH]; intros k i d r H0 Hk He Hl.
  { assert (k = 0) as -> by (simpl in Hk; lia). exfalso; revert He; unfold reverse; simpl; by rewrite H0. }
  destruct k as [|k]; [exfalso; revert He; unfold reverse; simpl; by rewrite H0|]. cbn [scan]. rewrite fsm_step_line by done.
  destruct (ends_block (c :: d :: r)) eqn:E.
  - destruct k as [|k]; [repeat f_equal; lia|].
    specialize (Hl 1 ltac:(lia)). exfalso; revert Hl; unfold reverse; simpl; by rewrite E.
  - simpl in Hk. rewrite (IH k); [f_equal; f_equal; lia|done|lia|..].
    + cbn [take] in He. rewrite reverse_cons, <- app_assoc in He. exact He.
    + intros j Hj. specialize (Hl (S j) ltac:(lia)).
      cbn [take] in Hl. rewrite reverse_cons, <- app_assoc in Hl. exact Hl.
Qed.

Lemma scan_no_block_end t i d r :
  (forall j, j <= length t -> ends_block (reverse (take j t) ++ d :: r) = false) ->
  scan i (line_state (d :: r)) t =
    (GotRequest.NoRequest, i + length t, line_state (reverse t ++ d :: r)).
Proof.
  revert i d r. induction t as [|c t IH]; intros i d r Hl; cbn [scan].
  { simpl. repeat f_equal. lia. }
  rewrite fsm_step_line by exact (Hl 0 ltac:(lia)).
  pose proof (Hl 1 ltac:(simpl; lia)) as E. change (ends_block (c :: d :: r) = false) in E.
  rewrite E, IH.
  - rewrite reverse_cons, <- app_assoc. simpl. do 2 f_equal. lia.
  - intros j Hj. specialize (Hl (S j) ltac:(simpl; lia)).
    cbn [take] in Hl. rewrite reverse_cons, <- app_assoc in Hl. exact Hl.
Qed.

(** A complete request line: three words, the last one possibly followed by
    white space. *)
Definition request_line (l : bytes) : Prop :=
  exists w1 g1 w2 g2 w3 g3,
    l = w1 ++ g1 ++ w2 ++ g2 ++ w3 ++ g3 /\
    is_word w1 /\ is_gap g1 /\ is_word w2 /\ is_gap g2 /\ is_word w3 /\
    (g3 = [] \/ is_gap g3).

Lemma scan_request_line l c t :
  request_line l -> is_eol c = true ->
  scan 0 ParseState.FirstWord (l ++ c :: t) = scan (S (length l)) (line_state [c]) t.
Proof.
  intros (w1 & g1 & w2 & g2 & w3 & g3 & -> & H1 & H2 & H3 & H4 & H5 & H6) Hc.
  rewrite <- !app_assoc, scan_first_word, (scan_gap _ g1 _ _ ParseState.FirstWs),
    (scan_word _ w2 _ _ ParseState.SecondWord), (scan_gap _ g2 _ _ ParseState.SecondWs),
    (scan_word _ w3 _ _ ParseState.ThirdWord) by eauto.
  destruct H6 as [->|H6]; [|rewrite (scan_gap _ g3 _ _ ParseState.ThirdWs) by eauto];
    rewrite ?app_nil_l; cbn [scan fsm_step line_state]; rewrite !length_app;
    unfold is_eol in Hc; repeat case_eqb; subst; simpl in *; try done; f_equal; lia.
Qed.

(** C13: after a complete request line, the request is complete exactly at
    the first header-block end of the tail: [got_request] answers
    [GotRequest] just past the least prefix that ends in LF LF, CR CR or
    CR LF CR LF, and [NoRequest], with all of the buffer checked, when no
    prefix does. *)
Theorem got_request_end_of_headers l c t :
  request_line l -> is_eol c = true ->
  let buf := l ++ c :: t in
  let ended k := ends_block (reverse (take k (c :: t))) in
  (forall k, k <= length (c :: t) -> ended k = true ->
     (forall j, j < k -> ended j = false) ->
     got_request buf 0 (length buf) ParseState.initial =
       Some (GotRequest.GotRequest, length l + k, ParseState.GotRequest)) /\
  ((forall k, k <= length (c :: t) -> ended k = false) ->
     got_request buf 0 (length buf) ParseState.initial =
       Some (GotRequest.NoRequest, length buf, line_state (reverse (c :: t)))).
Proof.
  intros Hl Hc buf ended. subst buf. rewrite got_request_scan. unfold ParseState.initial.
  rewrite scan_request_line by done. subst ended. split.
  - intros k Hk He Hlt. destruct k as [|k]; [done|].
    rewrite (scan_block_end t k); [do 3 f_equal; lia|done|simpl in Hk; lia|..].
    + cbn [take] in He. by rewrite reverse_cons in He.
    + intros j Hj. specialize (Hlt (S j) ltac:(lia)). cbn [take] in Hlt.
      by rewrite reverse_cons in Hlt.
  - intros Hno. rewrite (scan_no_block_end t).
    + rewrite length_app, reverse_cons. simpl. do 3 f_equal. lia.
    + intros j Hj. specialize (Hno (S j) ltac:(simpl; lia)). cbn [take] in Hno.
      by rewrite reverse_cons in Hno.
Qed.

(** Concrete request lines for the witnesses. *)
Lemma request_line_get : request_line (B "GET / HTTP/1.0").
Proof.
  exists (B "GET"), (B " "), (B "/"), (B " "), (B "HTTP/1.0"), [].
  repeat split; try done; repeat constructor.
Qed.

Lemma got_request_end_of_headers_witness :
  request_line (B "GET / HTTP/1.0") /\ is_eol CR = true /\
  got_request (B "GET / HTTP/1.0" ++ CR :: (LF :: B "A: b" ++ crlf2)) 0 24 ParseState.initial =
    Some (GotRequest.GotRequest, 14 + 10, ParseState.GotRequest).
Proof.
  split; [exact request_line_get|]. split; [reflexivity|].
  apply (got_request_end_of_headers _ CR (LF :: B "A: b" ++ crlf2) request_line_get eq_refl).
  - vm_compute. lia.
  - reflexivity.
  - intros j Hj. do 10 (destruct j as [|j]; [reflexivity|]). lia.
Defined.

(** The verdict on every incomplete request line: a line with one
    word, or that ends inside the white space between two words, is bad; a
    line of two words is a complete HTTP/0.9 request, accepted at its line
    end; a fourth word makes a line bad at its first byte. *)
Theorem got_request_short_lines w1 g1 w2 g2 w3 g3 c t :
  is_word w1 -> is_gap g1 -> is_word w2 -> is_gap g2 -> is_word w3 -> is_gap g3 ->
  let verdict l := fst <$> got_request (l ++ c :: t) 0 (length (l ++ c :: t)) ParseState.initial in
  (is_eol c = true ->
     verdict w1 = Some (GotRequest.BadRequest, length w1) /\
     verdict (w1 ++ g1) = Some (GotRequest.BadRequest, length (w1 ++ g1)) /\
     verdict (w1 ++ g1 ++ w2) = Some (GotRequest.GotRequest, S (length (w1 ++ g1 ++ w2))) /\
     verdict (w1 ++ g1 ++ w2 ++ g2) =
       Some (GotRequest.BadRequest, length (w1 ++ g1 ++ w2 ++ g2))) /\
  (word_char c = true ->
     verdict (w1 ++ g1 ++ w2 ++ g2 ++ w3 ++ g3) =
       Some (GotRequest.BadRequest, length (w1 ++ g1 ++ w2 ++ g2 ++ w3 ++ g3))).
Proof.
  intros H1 H2 H3 H4 H5 H6 verdict.
  assert (V : forall l, verdict l = Some (fst (scan 0 ParseState.FirstWord (l ++ c :: t)))).
  { intros l. unfold verdict. by rewrite got_request_scan. }
  assert (Hex : is_eol c = true -> is_ws c = false).
  { unfold is_eol, is_ws. repeat case_eqb; subst; done. }
  rewrite !V, <- !app_assoc. split; intros Hc; repeat split;
    rewrite scan_first_word by done;
    rewrite ?(scan_gap _ g1 _ _ ParseState.FirstWs) by eauto;
    rewrite ?(scan_word _ w2 _ _ ParseState.SecondWord) by eauto;
    rewrite ?(scan_gap _ g2 _ _ ParseState.SecondWs) by eauto;
    rewrite ?(scan_word _ w3 _ _ ParseState.ThirdWord) by eauto;
    rewrite ?(scan_gap _ g3 _ _ ParseState.ThirdWs) by eauto;
    cbn [scan fsm_step]; rewrite ?length_app;
    try (rewrite Hex, Hc by done; apply (f_equal Some), (f_equal2 pair); [done|lia]).
  clear -Hc. unfold word_char, is_eol in Hc. destruct (is_ws c); simpl in Hc; [discriminate|].
  repeat case_eqb; try done. apply (f_equal Some), (f_equal2 pair); [done|lia].
Qed.

Lemma got_request_short_lines_witness :
  is_word (B "GET") /\ is_gap (B " ") /\ is_word (B "/") /\ is_word (B "HTTP/1.0") /\
  is_eol CR = true /\
  fst <$> got_request (B "GET /" ++ [CR]) 0 6 ParseState.initial = Some (GotRequest.GotRequest, 6).
Proof.
  assert (H1 : is_word (B "GET")) by (split; [done|repeat constructor]).
  assert (H2 : is_gap (B " ")) by (split; [done|repeat constructor]).
  assert (H3 : is_word (B "/")) by (split; [done|repeat constructor]).
  assert (H4 : is_word (B "HTTP/1.0")) by (split; [done|repeat constructor]).
  repeat (split; [assumption || reflexivity|]).
  apply (got_request_short_lines _ _ _ _ _ _ CR [] H1 H2 H3 H2 H4 H2). reflexivity.
Defined.
