(* ===== verification/Timers.v ===== *)
(** * The timer wheel (rust/crates/thttpd-timers/src/lib.rs)

    [Instant]s and [Duration]s are nanoseconds in [Z].  The [BinaryHeap] of
    reversed entries is the list of its entries in increasing [Ord] order, so
    that [peek] is the head; a callback, which only receives the empty
    [TimerCtx] and cannot touch the wheel, is a name, and [run] returns the
    log of the entries it fired.  Each [Instant::now()] is a reading passed
    as an argument; inside [run] the readings after the first one are the
    values of [clock]. *)

From S2P Require Import Prelude.
From stdpp Require Import sorting.

Record TimerEntry := mkEntry {
  id : Z;
  deadline : Z;
  period : option Z;
  callback : nat;
}.

#[export] Instance TimerEntry_eq_dec : EqDecision TimerEntry.
Proof. solve_decision. Defined.

(** [Ord for TimerEntry]: deadline first, then id. *)
Definition entry_lt (a b : TimerEntry) : bool :=
  ((deadline a <? deadline b) || ((deadline a =? deadline b) && (id a <? id b)))%Z.

Record TimerWheel := mkWheel {
  heap : list TimerEntry;
  next_id : Z;
  cancelled : gset Z;
}.

Definition new : TimerWheel := mkWheel [] 0 ∅.

(** [BinaryHeap::push] on the ordered list. *)
Fixpoint push (e : TimerEntry) (h : list TimerEntry) : list TimerEntry :=
  match h with
  | [] => [e]
  | x :: h' => if entry_lt e x then e :: h else x :: push e h'
  end.

Definition create (now delay : Z) (cb : nat) (w : TimerWheel) : Z * TimerWheel :=
  let i := next_id w in
  (i, mkWheel (push (mkEntry i (now + delay) None cb) (heap w))
        (wrap_usize (i + 1)) (cancelled w)).

Definition create_periodic (now period : Z) (cb : nat) (w : TimerWheel) : Z * TimerWheel :=
  let i := next_id w in
  (i, mkWheel (push (mkEntry i (now + period) (Some period) cb) (heap w))
        (wrap_usize (i + 1)) (cancelled w)).

Definition cancel (i : Z) (w : TimerWheel) : TimerWheel :=
  mkWheel (heap w) (next_id w) ({[i]} ∪ cancelled w).

Definition is_cancelled (w : TimerWheel) (i : Z) : bool := bool_decide (i ∈ cancelled w).

(** [reset]: the entry is found by id, plucked out of the heap and pushed
    again under a new id; the cancel marker of the old id is dropped. *)
Definition reset (now : Z) (i : Z) (delay : Z) (w : TimerWheel) : option Z * TimerWheel :=
  match position (fun e => Z.eqb (id e) i) (heap w) with
  | None => (None, w)
  | Some p =>
      match heap w !! p with
      | None => (None, w)
      | Some old =>
          let new_id := next_id w in
          (Some new_id,
           mkWheel (push (mkEntry new_id (now + delay) (period old) (callback old))
                         (delete p (heap w)))
                   (wrap_usize (new_id + 1)) (cancelled w ∖ {[i]}))
      end
  end.

(** The main loop of [run]: [k] counts the clock readings taken so far and
    [log] the fired entries, last first.  The test that follows the [pop] in
    the code repeats the test on [peek] and never succeeds.  [None] is fuel
    exhaustion. *)
Fixpoint run_loop (fuel : nat) (clock : nat -> Z) (now : Z) (k : nat)
    (log : list TimerEntry) (w : TimerWheel) : option (list TimerEntry * TimerWheel) :=
  match fuel with
  | O => None
  | S fuel' =>
      match heap w with
      | [] => Some (log, w)
      | e :: h =>
          if is_cancelled w (id e) then
            run_loop fuel' clock now k log (mkWheel h (next_id w) (cancelled w ∖ {[id e]}))
          else if (deadline e <=? now)%Z then
            match period e with
            | Some p =>
                let e' := mkEntry (id e) (clock k + p) (Some p) (callback e) in
                run_loop fuel' clock now (S k) (e :: log)
                  (mkWheel (if is_cancelled w (id e) then h else push e' h)
                           (next_id w) (cancelled w))
            | None =>
                run_loop fuel' clock now k (e :: log) (mkWheel h (next_id w) (cancelled w))
            end
          else Some (log, w)
      end
  end.

(** The clean-up loop at the end of [run]. *)
Fixpoint drop_cancelled (h : list TimerEntry) (c : gset Z) : list TimerEntry * gset Z :=
  match h with
  | e :: h' => if bool_decide (id e ∈ c) then drop_cancelled h' (c ∖ {[id e]}) else (h, c)
  | [] => ([], c)
  end.

(** The number of iterations is bounded by [2 * |heap| + 1], see [run_ok]. *)
Definition run (clock : nat -> Z) (now : Z) (w : TimerWheel) :
    option (list TimerEntry * TimerWheel) :=
  '(log, w') ← run_loop (2 * length (heap w) + 1) clock now 0 [] w;
  let '(h, c) := drop_cancelled (heap w') (cancelled w') in
  Some (reverse log, mkWheel h (next_id w') c).

Definition next_deadline (now : Z) (w : TimerWheel) : option Z :=
  let earliest := foldl (fun acc e =>
      if is_cancelled w (id e) then acc
      else match acc with
           | None => Some (deadline e)
           | Some d => if (deadline e <? d)%Z then Some (deadline e) else acc
           end) None (heap w) in
  (fun d => Z.max 0 (d - now)) <$> earliest.

(** ** The heap order *)

Definition entry_ltP (a b : TimerEntry) : Prop := entry_lt a b = true.

Lemma entry_lt_spec a b :
  entry_ltP a b <-> (deadline a < deadline b \/ deadline a = deadline b /\ id a < id b)%Z.
Proof. unfold entry_ltP, entry_lt. repeat case_eqb; simpl; intuition (lia || done). Qed.

#[export] Instance entry_ltP_trans : Transitive entry_ltP.
Proof. intros a b c. rewrite !entry_lt_spec. lia. Qed.

(** A wheel is well formed when its heap is strictly ordered, its ids are
    distinct and its next id is fresh. *)
Record wf (w : TimerWheel) : Prop := {
  wf_sorted : StronglySorted entry_ltP (heap w);
  wf_ids : NoDup (id <$> heap w);
  wf_fresh : Forall (fun e => (0 <= id e < next_id w)%Z) (heap w);
  wf_next : (0 <= next_id w)%Z;
}.

Lemma push_perm e h : push e h ≡ₚ e :: h.
Proof.
  induction h as [|x h IH]; simpl; [done|]. destruct (entry_lt e x); [done|].
  rewrite IH. apply Permutation_swap.
Qed.

Lemma push_sorted e h :
  id e ∉ id <$> h -> StronglySorted entry_ltP h -> StronglySorted entry_ltP (push e h).
Proof.
  induction h as [|x h IH]; intros Hn Hs; simpl; [repeat constructor|].
  apply StronglySorted_inv in Hs as [Hs Hx]. rewrite fmap_cons, not_elem_of_cons in Hn.
  destruct (entry_lt e x) eqn:E.
  - constructor; [by constructor|]. constructor; [done|].
    eapply Forall_impl; [exact Hx|]. intros y Hy. by transitivity x.
  - constructor; [apply IH; tauto|]. rewrite push_perm. constructor; [|done].
    apply entry_lt_spec. unfold entry_lt in E. repeat case_eqb; simpl in E; try done; lia.
Qed.

(** A later entry does not move an earlier prefix of the heap. *)
Lemma push_app_late e E R now :
  Forall (fun x => (deadline x <= now)%Z) E -> (now < deadline e)%Z ->
  push e (E ++ R) = E ++ push e R.
Proof.
  intros HE He. induction HE as [|x E Hx _ IH]; simpl; [done|].
  destruct (entry_lt e x) eqn:L; [apply entry_lt_spec in L; lia|]. by rewrite IH.
Qed.

(** ** [run] fires what has expired *)

Definition expired (now : Z) (e : TimerEntry) : bool := (deadline e <=? now)%Z.

(** The entries of the heap that are not cancelled. *)
Definition live (c : gset Z) (h : list TimerEntry) : list TimerEntry :=
  filter (fun e => id e ∉ c) h.

(** The periodic entries of [l], in order, at the deadlines given by the
    clock readings from the [k]-th on. *)
Fixpoint rescheduled (clock : nat -> Z) (k : nat) (l : list TimerEntry) : list TimerEntry :=
  match l with
  | [] => []
  | e :: l' =>
      match period e with
      | Some p => mkEntry (id e) (clock k + p) (Some p) (callback e) :: rescheduled clock (S k) l'
      | None => rescheduled clock k l'
      end
  end.

Definition positive_periods (h : list TimerEntry) : Prop :=
  Forall (fun e => match period e with Some p => (0 < p)%Z | None => True end) h.

Lemma live_id_ne c i h : i ∉ id <$> h -> live (c ∖ {[i]}) h = live c h.
Proof.
  intros Hi. unfold live. induction h as [|e h IH]; [done|].
  rewrite fmap_cons, not_elem_of_cons in Hi. destruct Hi as [Hne Hi].
  rewrite !filter_cons, (IH Hi). destruct (decide (id e ∉ c)), (decide (id e ∉ c ∖ {[i]}));
    set_solver.
Qed.

Lemma live_cons_live c e h : id e ∉ c -> live c (e :: h) = e :: live c h.
Proof. intros H. unfold live. by rewrite filter_cons_True. Qed.

Lemma live_cons_dead c e h : id e ∈ c -> live c (e :: h) = live c h.
Proof. intros H. unfold live. rewrite filter_cons_False; tauto. Qed.

Lemma live_perm c h h' : h ≡ₚ h' -> live c h ≡ₚ live c h'.
Proof. intros H. unfold live. by rewrite H. Qed.

Lemma live_push c e h : id e ∉ c -> live c (push e h) ≡ₚ e :: live c h.
Proof.
  intros H. by rewrite (live_perm c _ _ (push_perm e h)), live_cons_live.
Qed.

(** A heap splits into an expired prefix and an unexpired rest. *)
Lemma heap_split now h :
  StronglySorted entry_ltP h ->
  exists E R, h = E ++ R /\ Forall (fun e => (deadline e <= now)%Z) E /\
    Forall (fun e => (now < deadline e)%Z) R.
Proof.
  induction 1 as [|e h Hs IH Hx]; [by exists [], []|].
  destruct IH as (E & R & -> & HE & HR). destruct (Z.leb_spec (deadline e) now).
  - exists (e :: E), R. repeat split; auto.
  - exists [], (e :: E ++ R). repeat split; auto. constructor; [done|].
    eapply Forall_impl; [exact Hx|]. intros y Hy%entry_lt_spec. lia.
Qed.

Lemma subset_cons_r (l l' : list Z) x : l ⊆ l' -> l ⊆ x :: l'.
Proof. intros H y Hy. right. by apply H. Qed.

Section Run.
Context (clock : nat -> Z) (now : Z) (n : Z).
Hypothesis clock_after : forall j, (now <= clock j)%Z.

(** The expired prefix is consumed; what remains is later than [now]. *)
Lemma run_loop_expired E R k log c f :
  Forall (fun e => (deadline e <= now)%Z) E ->
  Forall (fun e => (now < deadline e)%Z) R ->
  StronglySorted entry_ltP R -> NoDup (id <$> E ++ R) -> positive_periods E ->
  exists R' k' c',
    run_loop (length E + f) clock now k log (mkWheel (E ++ R) n c) =
      run_loop f clock now k' (reverse (live c E) ++ log) (mkWheel R' n c') /\
    Forall (fun e => (now < deadline e)%Z) R' /\ StronglySorted entry_ltP R' /\
    NoDup (id <$> R') /\ (id <$> R') ⊆ (id <$> E ++ R) /\
    length R' <= length E + length R /\ (positive_periods R -> positive_periods R') /\
    live c' R' ≡ₚ live c R ++ rescheduled clock k (live c E).
Proof.
  intros HE. revert R k log c. induction HE as [|e E He HE IH]; intros R k log c HR Hs Hnd Hp.
  { exists R, k, c. simpl. unfold reverse; simpl. rewrite app_nil_r. repeat split; try done; lia. }
  change (id <$> (e :: E) ++ R) with (id e :: (id <$> E ++ R)) in *.
  apply Forall_cons in Hp as [Hpe Hp]. apply NoDup_cons in Hnd as [Hnot Hnd].
  simpl run_loop. unfold is_cancelled at 1. cbn [cancelled].
  rewrite fmap_app, elem_of_app in Hnot. case_bool_decide as Hc.
  - destruct (IH R k log (c ∖ {[id e]}) HR Hs Hnd Hp) as (R' & k' & c' & -> & H1 & H2 & H3 & H4 & H5 & H7 & H6).
    exists R', k', c'. rewrite live_id_ne in * by tauto. rewrite live_id_ne in H6 by tauto.
    rewrite live_cons_dead by done.
    repeat split; try done; [by apply subset_cons_r|simpl; lia].
  - rewrite live_cons_live by done. rewrite (proj2 (Z.leb_le _ _) He), reverse_cons, <- app_assoc. simpl.
    destruct (period e) as [p|].
    + set (e' := mkEntry (id e) (clock k + p) (Some p) (callback e)).
      assert (Hl : (now < deadline e')%Z) by (simpl; pose proof (clock_after k); lia).
      unfold is_cancelled. cbn [cancelled]. rewrite bool_decide_false by done.
      rewrite (push_app_late e' E R now HE Hl).
      assert (P : id <$> E ++ push e' R ≡ₚ id e :: (id <$> E ++ R)).
      { rewrite push_perm, <- Permutation_middle. done. }
      destruct (IH (push e' R) (S k) (e :: log) c) as (R' & k' & c' & -> & H1 & H2 & H3 & H4 & H5 & H7 & H6).
      * rewrite push_perm. by constructor.
      * apply push_sorted; simpl; tauto.
      * rewrite P. constructor; [|done]. by rewrite fmap_app, elem_of_app.
      * done.
      * exists R', k', c'. repeat split; try done.
        -- intros x Hx%H4. by rewrite P in Hx.
        -- rewrite push_perm in H5. simpl in *. lia.
        -- intros HpR. apply H7. unfold positive_periods. rewrite push_perm. by constructor.
        -- rewrite H6, live_push by done. simpl. by rewrite Permutation_middle.
    + destruct (IH R k (e :: log) c HR Hs Hnd Hp) as (R' & k' & c' & -> & H1 & H2 & H3 & H4 & H5 & H7 & H6).
      exists R', k', c'. repeat split; try done; [by apply subset_cons_r|simpl; lia].
Qed.

Lemma run_loop_unexpired R k log c f :
  Forall (fun e => (now < deadline e)%Z) R ->
  run_loop (length R + S f) clock now k log (mkWheel R n c) =
    Some (log, mkWheel (drop_cancelled R c).1 n (drop_cancelled R c).2).
Proof.
  intros HR. revert c. induction HR as [|e R He HR IH]; intros c; simpl; [done|].
  unfold is_cancelled. cbn [cancelled]. case_bool_decide; [apply IH|].
  by rewrite (proj2 (Z.leb_gt _ _) He).
Qed.
End Run.

Lemma drop_cancelled_suffix h c : exists p, h = p ++ (drop_cancelled h c).1.
Proof.
  revert c. induction h as [|e h IH]; intros c; simpl; [by exists []|].
  case_bool_decide; [|by exists []]. destruct (IH (c ∖ {[id e]})) as [p E].
  exists (e :: p). simpl. by rewrite <- E.
Qed.

Lemma drop_cancelled_idem h c :
  drop_cancelled (drop_cancelled h c).1 (drop_cancelled h c).2 = drop_cancelled h c.
Proof.
  revert c. induction h as [|e h IH]; intros c; simpl; [done|].
  case_bool_decide; [apply IH|]. simpl. by rewrite bool_decide_false.
Qed.

Lemma drop_cancelled_live h c :
  NoDup (id <$> h) -> live (drop_cancelled h c).2 (drop_cancelled h c).1 = live c h.
Proof.
  revert c. induction h as [|e h IH]; intros c Hnd; simpl; [done|].
  apply NoDup_cons in Hnd as [Hn Hnd]. case_bool_decide as E; [|done].
  by rewrite IH, live_id_ne, live_cons_dead.
Qed.

Lemma live_app c h h' : live c (h ++ h') = live c h ++ live c h'.
Proof. apply filter_app. Qed.

Lemma live_Forall P c h : Forall P h -> Forall P (live c h).
Proof. intros H. apply Forall_forall. intros e [_ He]%list_elem_of_filter. by eapply Forall_forall in H. Qed.

Lemma filter_all {A} (P : A -> Prop) `{!forall x, Decision (P x)} l : Forall P l -> filter P l = l.
Proof. induction 1; [done|]. rewrite filter_cons_True; congruence. Qed.

Lemma filter_none {A} (P : A -> Prop) `{!forall x, Decision (P x)} l :
  Forall (fun x => ~ P x) l -> filter P l = [].
Proof. induction 1; [done|]. by rewrite filter_cons_False. Qed.

Lemma Forall_ids (P : Z -> Prop) h h' :
  (id <$> h') ⊆ (id <$> h) -> Forall (fun e => P (id e)) h -> Forall (fun e => P (id e)) h'.
Proof.
  intros Hsub HP. apply Forall_forall. intros e He.
  apply (list_elem_of_fmap_2 id), Hsub, list_elem_of_fmap in He as (e' & -> & He').
  by eapply Forall_forall in HP.
Qed.

Definition positive_wheel (w : TimerWheel) : Prop := positive_periods (heap w).

Lemma run_facts clock now w :
  wf w -> positive_wheel w -> (forall j, (now <= clock j)%Z) ->
  let alive := live (cancelled w) (heap w) in
  let due := filter (fun e => (deadline e <= now)%Z) alive in
  exists w', run clock now w = Some (due, w') /\ wf w' /\ positive_wheel w' /\
    next_id w' = next_id w /\
    Forall (fun e => (now < deadline e)%Z) (heap w') /\
    live (cancelled w') (heap w') ≡ₚ
      filter (fun e => (now < deadline e)%Z) alive ++ rescheduled clock 0 due.
Proof.
  intros [Hs Hnd Hf Hn] Hp Hclk. unfold positive_wheel in Hp. destruct w as [h n c]; simpl in *.
  destruct (heap_split now h Hs) as (E & R & -> & HE & HR).
  assert (HsR : StronglySorted entry_ltP R) by (by apply StronglySorted_app_1_r in Hs).
  apply Forall_app in Hp as [HpE HpR].
  pose proof (run_loop_expired clock now n Hclk E R 0 [] c (length E + 2 * length R + 1)
    HE HR HsR Hnd HpE) as (R' & k' & c' & Hrun & H1 & H2 & H3 & H4 & H5 & H7 & H6).
  rewrite live_app, !filter_app, (filter_all _ (live c E)), (filter_none _ (live c R)),
    (filter_none _ (live c E)), (filter_all _ (live c R)), app_nil_l, app_nil_r
    by (apply live_Forall; first [done | eapply Forall_impl; [eassumption|]; simpl; lia]).
  destruct (drop_cancelled R' c') as [h' c''] eqn:D.
  destruct (drop_cancelled_suffix R' c') as [p Ep]. rewrite D in Ep. simpl in Ep.
  exists (mkWheel h' n c''). repeat split; simpl.
  - unfold run. cbn [heap].
    replace (2 * length (E ++ R) + 1) with (length E + (length E + 2 * length R + 1))
      by (rewrite length_app; lia).
    rewrite Hrun. replace (length E + 2 * length R + 1) with
      (length R' + S (length E + 2 * length R - length R')) by lia.
    rewrite run_loop_unexpired by done. cbn [mbind option_bind heap cancelled next_id].
    rewrite drop_cancelled_idem, D, app_nil_r, reverse_involutive. done.
  - rewrite Ep in H2. by apply StronglySorted_app_1_r in H2.
  - rewrite Ep, fmap_app in H3. apply NoDup_app in H3 as (_ & _ & H3). exact H3.
  - eapply (Forall_ids (fun i => 0 <= i < n)%Z) in Hf; [|exact H4].
    rewrite Ep in Hf. apply Forall_app in Hf as [_ Hf]. exact Hf.
  - done.
  - apply H7 in HpR. rewrite Ep in HpR. apply Forall_app in HpR as [_ HpR]. exact HpR.
  - rewrite Ep in H1. apply Forall_app in H1 as [_ H1]. exact H1.
  - rewrite <- H6, <- (drop_cancelled_live _ c' H3), D. done.
Qed.

(** C29: [run] always terminates and fires exactly the live timers that have
    expired, each once and in deadline order; the live timers left are those
    not yet due and the periodic ones rescheduled after the clock reading of
    their own firing, and nothing due is left. *)
Theorem run_fires_expired clock now w :
  wf w -> positive_wheel w -> (forall j, (now <= clock j)%Z) ->
  let alive := live (cancelled w) (heap w) in
  let due := filter (fun e => (deadline e <= now)%Z) alive in
  exists w', run clock now w = Some (due, w') /\
    Forall (fun e => (now < deadline e)%Z) (heap w') /\
    live (cancelled w') (heap w') ≡ₚ
      filter (fun e => (now < deadline e)%Z) alive ++ rescheduled clock 0 due.
Proof.
  intros Hw Hp Hc alive due.
  destruct (run_facts clock now w Hw Hp Hc) as (w' & H1 & _ & _ & _ & H2 & H3). eauto.
Qed.

(** ** Every reachable wheel is well formed *)

Inductive op :=
| OpCreate (now delay : Z) (cb : nat)
| OpPeriodic (now period : Z) (cb : nat)
| OpCancel (i : Z)
| OpReset (now i delay : Z)
| OpRun (clock : nat -> Z) (now : Z).

Definition exec1 (w : TimerWheel) (o : op) : option TimerWheel :=
  match o with
  | OpCreate now delay cb => Some (create now delay cb w).2
  | OpPeriodic now p cb => Some (create_periodic now p cb w).2
  | OpCancel i => Some (cancel i w)
  | OpReset now i delay => Some (reset now i delay w).2
  | OpRun clock now => snd <$> run clock now w
  end.

Fixpoint exec (w : TimerWheel) (ops : list op) : option TimerWheel :=
  match ops with
  | [] => Some w
  | o :: ops' => w' ← exec1 w o; exec w' ops'
  end.

(** Periods are positive and the clock does not run backwards. *)
Definition valid_op (o : op) : Prop :=
  match o with
  | OpPeriodic _ p _ => (0 < p)%Z
  | OpRun clock now => forall j, (now <= clock j)%Z
  | _ => True
  end.

Lemma wf_push w e (c : gset Z) h :
  wf w -> (next_id w < 2 ^ 64 - 1)%Z -> id e = next_id w -> h `sublist_of` heap w ->
  wf (mkWheel (push e h) (wrap_usize (next_id w + 1)) c) /\
  (wrap_usize (next_id w + 1) = next_id w + 1)%Z.
Proof.
  intros [Hs Hnd Hf Hn] Hb Hid Hsub. rewrite wrap_u_small by lia.
  assert (Hf' : Forall (fun e => (0 <= id e < next_id w)%Z) h).
  { apply Forall_forall. intros x Hx. eapply Forall_forall in Hf; [exact Hf|].
    by eapply elem_of_sublist. }
  assert (Hni : id e ∉ id <$> h).
  { intros (x & E & Hx)%list_elem_of_fmap. eapply Forall_forall in Hf'; [|exact Hx]. lia. }
  split; [|done]. constructor; simpl.
  - apply push_sorted; [done|]. clear -Hs Hsub. revert Hs. induction Hsub; intros Hs; [done|..].
    + apply StronglySorted_inv in Hs as [Hs Hx]. constructor; [by apply IHHsub|].
      apply Forall_forall. intros y Hy. eapply Forall_forall in Hx; [exact Hx|].
      by eapply elem_of_sublist.
    + apply StronglySorted_inv in Hs as [Hs Hx]. by apply IHHsub.
  - rewrite push_perm. constructor; [done|]. eapply sublist_NoDup; [exact Hnd|].
    clear -Hsub. induction Hsub; simpl; by constructor.
  - rewrite push_perm. constructor; [lia|]. eapply Forall_impl; [exact Hf'|]. simpl. lia.
  - lia.
Qed.

Lemma positive_sublist h h' : h `sublist_of` h' -> positive_periods h' -> positive_periods h.
Proof.
  intros Hs H. apply Forall_forall. intros e He. eapply Forall_forall in H; [exact H|].
  by eapply elem_of_sublist.
Qed.

(** The effect of one operation on the invariant and the id counter. *)
Lemma exec1_wf w o :
  wf w -> positive_wheel w -> valid_op o -> (next_id w < 2 ^ 64 - 1)%Z ->
  exists w', exec1 w o = Some w' /\ wf w' /\ positive_wheel w' /\
    (next_id w' <= next_id w + 1)%Z.
Proof.
  intros Hw Hp Hv Hb. unfold positive_wheel, positive_periods in *.
  destruct o as [now delay cb|now p cb|i|now i delay|clock now]; simpl in *.
  - eexists; split; [done|]. edestruct (wf_push w (mkEntry (next_id w) (now + delay) None cb))
      as [H1 H2]; try done. split; [exact H1|]. simpl. rewrite push_perm. auto with lia.
  - eexists; split; [done|]. edestruct (wf_push w (mkEntry (next_id w) (now + p) (Some p) cb))
      as [H1 H2]; try done. split; [exact H1|]. simpl. rewrite push_perm. auto with lia.
  - eexists; split; [done|]. simpl. destruct Hw. repeat split; simpl; auto; lia.
  - eexists; split; [done|]. unfold reset.
    destruct (position _ _) as [k|]; [|simpl; auto with lia].
    destruct (heap w !! k) as [old|] eqn:Hk; [|simpl; auto with lia].
    pose proof (sublist_delete (heap w) k) as Hsub.
    edestruct (wf_push w (mkEntry (next_id w) (now + delay) (period old) (callback old)))
      as [H1 H2]; try done. split; [exact H1|]. simpl. rewrite push_perm.
    split; [|lia]. constructor; [|by eapply positive_sublist].
    simpl. eapply Forall_lookup_1 in Hp; [exact Hp|done].
  - destruct (run_facts clock now w Hw Hp Hv) as (w' & -> & H1 & H2 & H3 & _).
    exists w'. split; [done|]. split; [done|]. split; [exact H2|lia].
Qed.

(** From the empty wheel, every sequence of fewer than [2^64 - 1]
    operations (creations, cancellations, resets and runs) returns, and leaves
    a wheel whose heap is ordered, whose timer ids are distinct and whose next
    id is fresh. *)
Theorem reachable_wf ops :
  Forall valid_op ops -> (Z.of_nat (length ops) < 2 ^ 64 - 1)%Z ->
  exists w, exec new ops = Some w /\ wf w.
Proof.
  intros Hv Hl. assert (Hw : wf new) by (repeat split; simpl; try constructor; lia).
  assert (Hp : positive_wheel new) by constructor.
  assert (Hn : (next_id new + Z.of_nat (length ops) < 2 ^ 64 - 1)%Z) by done.
  clear Hl. revert Hw Hp Hn. generalize new. induction Hv as [|o ops Ho _ IH]; intros w Hw Hp Hn.
  { by exists w. }
  simpl in *. destruct (exec1_wf w o Hw Hp Ho) as (w' & E & Hw' & Hp' & Hn'); [lia|].
  rewrite E. cbn [mbind option_bind]. apply IH; [done..|lia].
Qed.

(** ** The next deadline *)

Lemma earliest_fold c h acc :
  let f := fun acc e =>
      if bool_decide (id e ∈ c) then acc
      else match acc with
           | None => Some (deadline e)
           | Some d => if (deadline e <? d)%Z then Some (deadline e) else acc
           end in
  foldl f acc h = foldl (fun acc e => Some (match acc with None => deadline e
                                             | Some d => Z.min (deadline e) d end)) acc (live c h).
Proof.
  intros f. revert acc. induction h as [|e h IH]; intros acc; [done|]. simpl foldl at 1.
  rewrite IH. unfold f at 1. case_bool_decide as E.
  - by rewrite live_cons_dead.
  - rewrite live_cons_live by done. simpl. f_equal. destruct acc as [d|]; [|done].
    destruct (Z.ltb_spec (deadline e) d); f_equal; lia.
Qed.

Lemma foldl_min h d :
  exists m, foldl (fun acc e => Some (match acc with None => deadline e
                                      | Some d => Z.min (deadline e) d end)) (Some d) h = Some m /\
    (m <= d)%Z /\ Forall (fun e => (m <= deadline e)%Z) h /\
    (m = d \/ exists e, e ∈ h /\ m = deadline e).
Proof.
  revert d. induction h as [|e h IH]; intros d; simpl; [exists d; eauto with lia|].
  destruct (IH (Z.min (deadline e) d)) as (m & -> & H1 & H2 & H3). exists m.
  split; [done|]. split; [lia|]. split; [constructor; [lia|done]|].
  destruct H3 as [->|(x & Hx & ->)].
  - destruct (Z.min_spec (deadline e) d) as [[_ ->]|[_ ->]]; [right; exists e|]; set_solver.
  - right. exists x. set_solver.
Qed.

(** [next_deadline] is the time left, at least zero, until the
    earliest timer that is not cancelled, and [None] exactly when every timer
    is cancelled. *)
Theorem next_deadline_min now w :
  match next_deadline now w with
  | None => live (cancelled w) (heap w) = []
  | Some d => exists e, e ∈ live (cancelled w) (heap w) /\ d = Z.max 0 (deadline e - now) /\
                Forall (fun e' => (deadline e <= deadline e')%Z) (live (cancelled w) (heap w))
  end.
Proof.
  unfold next_deadline, is_cancelled. rewrite earliest_fold.
  destruct (live (cancelled w) (heap w)) as [|e h] eqn:E; [done|]. simpl foldl.
  destruct (foldl_min h (deadline e)) as (m & -> & H1 & H2 & H3). simpl.
  destruct H3 as [->|(x & Hx & ->)].
  - exists e. split; [set_solver|]. split; [done|]. by constructor.
  - exists x. split; [set_solver|]. split; [done|]. by constructor.
Qed.

(** ** [reset] *)

Lemma position_id i h :
  i ∈ id <$> h -> exists k e, position (fun e => Z.eqb (id e) i) h = Some k /\
    h !! k = Some e /\ id e = i.
Proof.
  intros (e & -> & He)%list_elem_of_fmap.
  destruct (position (fun e' => Z.eqb (id e') (id e)) h) as [k|] eqn:P.
  - pose proof P as Q. apply position_Some in Q as (x & Hx & Hi & _).
    exists k, x. repeat split; auto. by apply Z.eqb_eq.
  - apply position_None in P. eapply Forall_forall in P; [|exact He].
    by rewrite Z.eqb_refl in P.
Qed.

(** [reset] answers [None], changing nothing, exactly when no timer of
    the heap has the id; otherwise it moves the timer, with its callback and
    period, to a fresh id and the new deadline, and the new timer is live even
    when the old one had been cancelled (the code's comment says [None] is
    returned unless the timer is live). *)
Theorem reset_revives now i delay w :
  wf w -> (next_id w < 2 ^ 64 - 1)%Z -> next_id w ∉ cancelled w ->
  (i ∉ id <$> heap w -> reset now i delay w = (None, w)) /\
  (i ∈ id <$> heap w ->
   exists w' old, reset now i delay w = (Some (next_id w), w') /\ old ∈ heap w /\ id old = i /\
     mkEntry (next_id w) (now + delay) (period old) (callback old)
       ∈ live (cancelled w') (heap w') /\
     i ∉ id <$> heap w').
Proof.
  intros Hw Hb Hfresh. unfold reset. split.
  - intros Hi. assert (position (fun e => Z.eqb (id e) i) (heap w) = None) as ->; [|done].
    apply position_None, Forall_forall. intros e He. apply Z.eqb_neq. intros <-.
    by apply Hi, list_elem_of_fmap_2.
  - intros Hi. destruct (position_id _ _ Hi) as (k & old & -> & Hk & <-). rewrite Hk.
    eexists _, old. split; [done|]. split; [by eapply list_elem_of_lookup_2|]. split; [done|].
    cbn [heap cancelled]. split.
    + unfold live. apply list_elem_of_filter. split; [simpl; set_solver|].
      rewrite push_perm. by left.
    + rewrite push_perm. simpl. rewrite not_elem_of_cons.
      destruct Hw as [_ Hnd Hf _]. split.
      * eapply Forall_lookup_1 in Hf; [|exact Hk]. lia.
      * pose proof (delete_Permutation (heap w) k old Hk) as P. rewrite P in Hnd.
        simpl in Hnd. by apply NoDup_cons in Hnd as [? _].
Qed.

(** A wheel with a due one-shot timer, a due periodic timer and a cancelled
    timer that is not due. *)
Definition sample : TimerWheel :=
  (cancel 2 (create 0 90 9 (create_periodic 0 20 8 (create 0 10 7 new).2).2).2).

Lemma sample_wf : wf sample.
Proof. repeat split; simpl; repeat constructor; vm_compute; set_solver || congruence || lia. Qed.

Lemma run_fires_expired_witness :
  wf sample /\ positive_wheel sample /\ (forall j, 30 <= 30 + Z.of_nat j)%Z /\
  exists w', run (fun j => 30 + Z.of_nat j)%Z 30 sample =
    Some ([mkEntry 0 10 None 7; mkEntry 1 20 (Some 20%Z) 8], w').
Proof.
  assert (Hp : positive_wheel sample) by (repeat constructor).
  assert (Hc : forall j, (30 <= 30 + Z.of_nat j)%Z) by lia.
  split; [exact sample_wf|]. split; [exact Hp|]. split; [exact Hc|].
  destruct (run_fires_expired _ 30 sample sample_wf Hp Hc) as (w' & E & _).
  exists w'. exact E.
Defined.

Lemma reachable_wf_witness :
  let ops := [OpPeriodic 0 20 8; OpCancel 0; OpReset 5 0 7; OpRun (fun _ => 30%Z) 30] in
  Forall valid_op ops /\ (Z.of_nat (length ops) < 2 ^ 64 - 1)%Z /\
  exists w, exec new ops = Some w /\ wf w.
Proof.
  intros ops.
  assert (Hv : Forall valid_op ops) by (repeat constructor; simpl; lia).
  assert (Hl : (Z.of_nat (length ops) < 2 ^ 64 - 1)%Z) by (simpl; lia).
  split; [exact Hv|]. split; [exact Hl|]. apply (reachable_wf ops Hv Hl).
Defined.

(** Timer 2 of [sample] is cancelled; resetting it brings it back. *)
Lemma reset_revives_witness :
  wf sample /\ (next_id sample < 2 ^ 64 - 1)%Z /\ (next_id sample ∉ cancelled sample) /\
  (2%Z ∈ cancelled sample) /\ exists w', reset 50 2 5 sample = (Some 3%Z, w').
Proof.
  assert (Hn : (next_id sample < 2 ^ 64 - 1)%Z) by (vm_compute; congruence).
  assert (Hc : next_id sample ∉ cancelled sample) by (vm_compute; set_solver).
  split; [exact sample_wf|]. split; [exact Hn|]. split; [exact Hc|].
  split; [apply (bool_decide_unpack _); vm_compute; exact I|].
  destruct (reset_revives 50 2 5 sample sample_wf Hn Hc) as [_ H].
  destruct H as (w' & old & E & _); [apply (bool_decide_unpack _); vm_compute; exact I|].
  exists w'. exact E.
Defined.
