(* ===== verification/Mmc.v ===== *)
(** * The file cache (rust/crates/thttpd-mmc/src/lib.rs)

    A mapping ([Rc<Mmap>]) is a name, fresh for each call of [Mmap::map]; the
    strong count of a mapping is one for the cache plus the number of handles
    that callers still hold, which the [handles] multiset records.  Opening a
    file and mapping it are system calls, passed in as their outcome. *)

From S2P Require Import Prelude.

Record FileKey := mkKey {
  dev : Z; ino : Z; fsize : Z; ctime_sec : Z; ctime_nsec : Z
}.

#[export] Instance FileKey_eq_dec : EqDecision FileKey.
Proof. solve_decision. Defined.

#[export] Instance FileKey_countable : Countable FileKey.
Proof.
  refine (inj_countable' (fun k => (dev k, ino k, fsize k, ctime_sec k, ctime_nsec k))
    (fun '(a, b, c, d, e) => mkKey a b c d e) _). by intros [].
Defined.

Record CacheEntry := mkCacheEntry {
  mmap : nat;
  last_used : Z;
  size : Z;
}.

Inductive MmapError := FileNotFound | Io.

Record MmapCache := mkCache {
  entries : gmap FileKey CacheEntry;
  expire_age : Z;
  max_size : Z;
  handles : list nat;
  next_mmap : nat;
}.

(** Durations in nanoseconds. *)
Definition secs (n : Z) : Z := (n * 1000000000)%Z.

Definition with_max_size (m : Z) : MmapCache := mkCache ∅ (secs 120) m [] 0.

Definition new : MmapCache := with_max_size (64 * 1024 * 1024).

(** The outcome of [File::open] and [metadata]. *)
Inductive open_result :=
| OpenFailed
| MetadataFailed
| Opened (key : FileKey).

Definition strong_count (c : MmapCache) (m : nat) : nat :=
  1 + length (filter (fun h => h = m) (handles c)).

Definition map (open_file : open_result) (mmap_ok : bool) (now : Z) (c : MmapCache) :
    (nat + MmapError) * MmapCache :=
  match open_file with
  | OpenFailed => (inr FileNotFound, c)
  | MetadataFailed => (inr Io, c)
  | Opened key =>
      match entries c !! key with
      | Some e =>
          (inl (mmap e),
           mkCache (<[key := mkCacheEntry (mmap e) now (size e)]> (entries c))
             (expire_age c) (max_size c) (mmap e :: handles c) (next_mmap c))
      | None =>
          if mmap_ok then
            let m := next_mmap c in
            (inl m,
             mkCache (<[key := mkCacheEntry m now (fsize key)]> (entries c))
               (expire_age c) (max_size c) (m :: handles c) (S m))
          else (inr Io, c)
      end
  end.

(** [unmap] does nothing itself; the caller's handle is dropped. *)
Definition unmap (c : MmapCache) : MmapCache := c.

Definition drop_handle (m : nat) (c : MmapCache) : MmapCache :=
  match position (fun h => h =? m) (handles c) with
  | Some i => mkCache (entries c) (expire_age c) (max_size c) (delete i (handles c)) (next_mmap c)
  | None => c
  end.

(** The [retain] predicate; [duration_since] saturates at zero. *)
Definition retained (c : MmapCache) (now : Z) (e : CacheEntry) : bool :=
  (1 <? strong_count c (mmap e)) || (Z.max 0 (now - last_used e) <? expire_age c)%Z.

Definition total_size (es : gmap FileKey CacheEntry) : Z :=
  map_fold (fun _ e acc => wrap_u64 (acc + size e)) 0%Z es.

Definition cleanup (now : Z) (c : MmapCache) : MmapCache :=
  let es := filter (fun '(_, e) => retained c now e = true) (entries c) in
  let age :=
    if (max_size c <? total_size es)%Z then (expire_age c / 2)%Z
    else if (expire_age c <? secs 120)%Z then (expire_age c * 2)%Z
    else expire_age c in
  mkCache es age (max_size c) (handles c) (next_mmap c).

(** ** Histories of operations *)

Inductive op :=
| OpMap (o : open_result) (mmap_ok : bool) (now : Z)
| OpDrop (m : nat)
| OpCleanup (now : Z).

Definition exec1 (c : MmapCache) (o : op) : MmapCache :=
  match o with
  | OpMap o ok now => (map o ok now c).2
  | OpDrop m => drop_handle m c
  | OpCleanup now => cleanup now c
  end.

Definition exec (c : MmapCache) (ops : list op) : MmapCache := foldl exec1 c ops.

(** ** Clean-up *)

(** [cleanup] keeps an entry exactly when a connection still holds the
    mapping or the entry was used less than [expire_age] ago, and the entries
    it keeps are unchanged. *)
Theorem cleanup_retention now c k e :
  entries (cleanup now c) !! k = Some e <->
  entries c !! k = Some e /\
  (mmap e ∈ handles c \/ (Z.max 0 (now - last_used e) < expire_age c)%Z).
Proof.
  unfold cleanup. cbn [entries]. rewrite map_lookup_filter_Some. unfold retained.
  rewrite orb_true_iff, Nat.ltb_lt, Z.ltb_lt. unfold strong_count.
  assert (H : 1 < 1 + length (filter (fun h => h = mmap e) (handles c)) <-> mmap e ∈ handles c).
  { split.
    - intros Hl. destruct (filter _ _) as [|h l] eqn:E; [simpl in Hl; lia|].
      assert (Hh : h ∈ filter (fun h => h = mmap e) (handles c)) by (rewrite E; by left).
      apply list_elem_of_filter in Hh as [-> Hh]. done.
    - intros He. assert (Hh : mmap e ∈ filter (fun h => h = mmap e) (handles c))
        by (by apply list_elem_of_filter).
      destruct (filter _ _); [by apply elem_of_nil in Hh|simpl; lia]. }
  rewrite H. done.
Qed.

(** ** Hits *)

(** [m] is cached for [k]. *)
Definition cached (k : FileKey) (m : nat) (c : MmapCache) : Prop :=
  exists e, entries c !! k = Some e /\ mmap e = m.

Lemma exec1_cached k m c o :
  cached k m c -> m ∈ handles c -> cached k m (exec1 c o).
Proof.
  intros (e & He & <-) Hm. destruct o as [[| |key] ok now|m'|now]; simpl.
  - by exists e.
  - by exists e.
  - unfold cached. destruct (entries c !! key) as [e'|] eqn:E; simpl.
    + destruct (decide (key = k)) as [->|Hne].
      * assert (e' = e) as -> by congruence. eexists. by rewrite lookup_insert_eq.
      * exists e. by rewrite lookup_insert_ne.
    + destruct ok; simpl; [|by exists e]. exists e.
      rewrite lookup_insert_ne; [done|congruence].
  - unfold drop_handle. destruct (position _ _); by exists e.
  - exists e. split; [|done]. unfold cleanup. cbn [entries].
    rewrite map_lookup_filter_Some. split; [done|]. unfold retained.
    apply orb_true_iff. left. apply Nat.ltb_lt. unfold strong_count.
    assert (Hh : mmap e ∈ filter (fun h => h = mmap e) (handles c))
      by (by apply list_elem_of_filter).
    destruct (filter _ _); [by apply elem_of_nil in Hh|simpl; lia].
Qed.

(** While some connection holds a mapping, the file version it belongs
    to is never mapped again: after any history of maps, drops and clean-ups
    that leaves a handle outstanding throughout, mapping the unchanged file is
    a hit that returns the same mapping and changes no entry but its
    [last_used] time. *)
Theorem held_mapping_is_shared c ops k e ok now :
  entries c !! k = Some e ->
  (forall n, n <= length ops -> mmap e ∈ handles (exec c (take n ops))) ->
  (map (Opened k) ok now (exec c ops)).1 = inl (mmap e) /\
  delete k (entries (map (Opened k) ok now (exec c ops)).2) = delete k (entries (exec c ops)).
Proof.
  intros He Hheld. assert (Hc : cached k (mmap e) (exec c ops)).
  { assert (H0 : cached k (mmap e) c) by (by exists e). clear He ok now.
    revert c H0 Hheld. induction ops as [|o ops IH]; intros c H0 Hheld; [done|].
    simpl. apply IH.
    - apply exec1_cached; [done|]. exact (Hheld 0 ltac:(simpl; lia)).
    - intros n Hn. exact (Hheld (S n) ltac:(simpl; lia)). }
  destruct Hc as (e' & E & Em). simpl. rewrite E. simpl. rewrite Em. split; [done|].
  by rewrite delete_insert_eq.
Qed.

Lemma held_mapping_is_shared_witness :
  let k := mkKey 1 2 30 4 5 in
  let c := (map (Opened k) true 0 new).2 in
  let ops := [OpCleanup (secs 500); OpMap (Opened (mkKey 1 3 9 4 5)) true (secs 501);
              OpCleanup (secs 900)] in
  entries c !! k = Some (mkCacheEntry 0 0 30) /\
  (forall n, n <= length ops -> 0 ∈ handles (exec c (take n ops))) /\
  (map (Opened k) true (secs 950) (exec c ops)).1 = inl 0.
Proof.
  intros k c ops.
  assert (He : entries c !! k = Some (mkCacheEntry 0 0 30)) by reflexivity.
  assert (Hh : forall n, n <= length ops -> 0 ∈ handles (exec c (take n ops))).
  { intros n Hn. apply (bool_decide_unpack _). do 4 (destruct n as [|n]; [vm_compute; exact I|]).
    simpl in Hn. lia. }
  split; [exact He|]. split; [exact Hh|].
  apply (held_mapping_is_shared c ops k _ true (secs 950) He Hh).
Defined.

(** ** The expiry age *)

Lemma exec1_expire_age c o :
  (0 <= expire_age c < secs 240)%Z ->
  (0 <= expire_age (exec1 c o) < secs 240)%Z /\
  (expire_age c = 0 -> expire_age (exec1 c o) = 0)%Z.
Proof.
  intros H. destruct o as [[| |key] ok now|m'|now]; simpl.
  - done.
  - done.
  - destruct (entries c !! key); [done|]. by destruct ok.
  - unfold drop_handle. by destruct (position _ _).
  - unfold secs in *. revert H. generalize (expire_age c). intros a Ha.
    assert (0 <= a / 2 <= a)%Z
      by (split; [apply Z.div_pos; lia|apply Z.div_le_upper_bound; lia]).
    repeat case_eqb; lia.
Qed.

(** In every history of a new cache the expiry age stays below 240
    seconds, and once repeated halving has brought it to zero it stays zero
    for ever, whatever the cache size becomes (doubling never restores it). *)
Theorem expire_age_zero_absorbing ops ops' m :
  let c := exec (with_max_size m) ops in
  (0 <= expire_age c < secs 240)%Z /\
  (expire_age c = 0 -> expire_age (exec c ops') = 0)%Z.
Proof.
  intros c.
  assert (G : forall ops d, (0 <= expire_age d < secs 240)%Z ->
    (0 <= expire_age (exec d ops) < secs 240)%Z /\
    (expire_age d = 0 -> expire_age (exec d ops) = 0)%Z).
  { clear. induction ops as [|o ops IH]; intros d H; [done|]. simpl.
    destruct (exec1_expire_age d o H) as [H1 H2]. destruct (IH _ H1) as [H3 H4].
    split; [done|]. intros H0. by apply H4, H2. }
  destruct (G ops (with_max_size m)) as [H1 _]; [simpl; unfold secs; lia|].
  split; [exact H1|]. apply (G ops' c H1).
Qed.

(** Thirty-seven clean-ups of an over-full cache reach zero; afterwards an
    idle entry does not survive a clean-up at the very time it was used. *)
Example expire_age_reaches_zero :
  let big := (map (Opened (mkKey 1 2 1000 4 5)) true 0 (with_max_size 100)).2 in
  let full := exec big (replicate 37 (OpCleanup 0)) in
  let idle := exec full [OpDrop 0; OpCleanup 0] in
  expire_age full = 0%Z /\ entries idle = ∅ /\ expire_age (exec idle (replicate 50 (OpCleanup 0))) = 0%Z.
Proof. vm_compute. repeat split. Qed.
