(* ===== verification/Mime.v ===== *)
(** * MIME types (rust/crates/thttpd-mime/src/types.rs) *)

From S2P Require Import Prelude RustStr.

Record MimeInfo := mkMime {
  mime_type_of : bytes;
  encoding : option bytes;
}.

Definition lookup_encoding (ext : bytes) : option bytes :=
  if bytes_eqb ext (B "gz") then Some (B "gzip")
  else if bytes_eqb ext (B "bz2") then Some (B "x-bzip2")
  else if bytes_eqb ext (B "Z") then Some (B "compress")
  else None.

(** The table of [lookup_type], in the order of its [match]. *)
Definition type_table : list (bytes * bytes) :=
  [ (B "html", B "text/html"); (B "htm", B "text/html"); (B "css", B "text/css");
    (B "js", B "application/javascript"); (B "txt", B "text/plain");
    (B "json", B "application/json"); (B "xml", B "application/xml");
    (B "png", B "image/png"); (B "jpg", B "image/jpeg"); (B "jpeg", B "image/jpeg");
    (B "gif", B "image/gif"); (B "svg", B "image/svg+xml"); (B "ico", B "image/x-icon");
    (B "pdf", B "application/pdf"); (B "zip", B "application/zip");
    (B "tar", B "application/x-tar"); (B "mp3", B "audio/mpeg"); (B "mp4", B "video/mp4");
    (B "webm", B "video/webm"); (B "wav", B "audio/wav"); (B "ogg", B "audio/ogg");
    (B "doc", B "application/msword"); (B "xls", B "application/vnd.ms-excel");
    (B "ppt", B "application/vnd.ms-powerpoint");
    (B "swf", B "application/x-shockwave-flash"); (B "wasm", B "application/wasm") ].

Fixpoint assoc (k : bytes) (t : list (bytes * bytes)) : option bytes :=
  match t with
  | [] => None
  | (k', v) :: t' => if bytes_eqb k k' then Some v else assoc k t'
  end.

Definition lookup_type (ext : bytes) : option bytes := assoc ext type_table.

Definition default_type : bytes := B "application/octet-stream".

(** The loop over the extensions, rightmost first: [parts] are the encodings
    pushed so far. *)
Fixpoint mime_loop (exts : list bytes) (parts : list bytes) : bytes * list bytes :=
  match exts with
  | [] => (default_type, parts)
  | ext :: exts' =>
      let parts := match lookup_encoding ext with
                   | Some enc => parts ++ [enc]
                   | None => parts
                   end in
      match lookup_type ext with
      | Some t => (t, parts)
      | None => mime_loop exts' parts
      end
  end.

(** The extensions of a file name: what follows its first dot, cut at dots. *)
Definition extensions_of (filename : bytes) : list bytes :=
  match file_name filename with
  | Some n => tail (split_on "."%char n)
  | None => []
  end.

Definition figure_mime (filename : bytes) : MimeInfo :=
  let '(t, parts) := mime_loop (reverse (extensions_of filename)) [] in
  mkMime t (if is_empty parts then None else Some (join (B ",") parts)).

Definition mime_type (filename : bytes) : bytes := mime_type_of (figure_mime filename).

Definition mime_encoding (filename : bytes) : option bytes := encoding (figure_mime filename).

Lemma mime_loop_untyped exts rest parts :
  Forall (fun e => lookup_type e = None) exts ->
  mime_loop (exts ++ rest) parts = mime_loop rest (parts ++ omap lookup_encoding exts).
Proof.
  intros H. revert parts. induction H as [|e exts He _ IH]; intros parts; simpl.
  - by rewrite app_nil_r.
  - rewrite He, IH. destruct (lookup_encoding e); [by rewrite <- app_assoc|done].
Qed.

(** No extension is both an encoding and a type. *)
Lemma encoding_not_type e enc : lookup_encoding e = Some enc -> lookup_type e = None.
Proof.
  unfold lookup_encoding. intros H.
  repeat match type of H with
  | (if bytes_eqb e ?l then _ else _) = _ => destruct (bytes_eqb e l) eqn:E; [|clear E]
  end; try done; apply bytes_eqb_true in E; by subst.
Qed.

Definition encoding_header (encs : list bytes) : option bytes :=
  if is_empty encs then None else Some (join (B ",") encs).

(** [figure_mime] peels encodings off the right of the name: the type
    is the one of the rightmost extension that has a type, whatever stands to
    its left, and the encoding joins, from right to left, the encodings of the
    extensions to the right of it; a name with no typed extension gets
    [application/octet-stream] with all of its encodings. *)
Theorem figure_mime_spec filename :
  (forall pre ext suf t,
     extensions_of filename = pre ++ ext :: suf ->
     lookup_type ext = Some t -> Forall (fun e => lookup_type e = None) suf ->
     figure_mime filename = mkMime t (encoding_header (omap lookup_encoding (reverse suf)))) /\
  (Forall (fun e => lookup_type e = None) (extensions_of filename) ->
     figure_mime filename = mkMime default_type
       (encoding_header (omap lookup_encoding (reverse (extensions_of filename))))).
Proof.
  unfold figure_mime. split.
  - intros pre ext suf t -> Ht Hs. rewrite reverse_app, reverse_cons, <- app_assoc.
    rewrite mime_loop_untyped by (by apply Forall_reverse). simpl. rewrite Ht.
    destruct (lookup_encoding ext) eqn:E; [|done].
    apply encoding_not_type in E. congruence.
  - intros H. rewrite <- (app_nil_r (reverse _)) at 1.
    by rewrite mime_loop_untyped by (by apply Forall_reverse).
Qed.

Example figure_mime_examples :
  figure_mime (B "/www/a.tar.gz.bz2") = mkMime (B "application/x-tar") (Some (B "x-bzip2,gzip")) /\
  figure_mime (B "a.html.gz") = mkMime (B "text/html") (Some (B "gzip")) /\
  figure_mime (B "README") = mkMime default_type None /\
  figure_mime (B "a.txt.html") = mkMime (B "text/html") None.
Proof. vm_compute. repeat split. Qed.

(** Extensions are compared with case. *)
Example upper_case_untyped : figure_mime (B "INDEX.HTML") = mkMime default_type None.
Proof. vm_compute. reflexivity. Qed.

(** A chained name at which both branches' premises are met. *)
Lemma figure_mime_spec_witness :
  figure_mime (B "a.tar.gz.Z") = mkMime (B "application/x-tar") (Some (B "compress,gzip")).
Proof.
  apply (proj1 (figure_mime_spec (B "a.tar.gz.Z")) [] (B "tar") [B "gz"; B "Z"]).
  - reflexivity.
  - reflexivity.
  - repeat constructor.
Defined.
