(* ===== verification/Fdwatch.v ===== *)
(** * Event tokens (rust/crates/thttpd-fdwatch/src/lib.rs)

    A [Token] is a [usize]; the rest of the crate re-exports mio. *)

From S2P Require Import Prelude.

Definition MAX_LISTENERS : Z := 16.
Definition CONN_BASE : Z := MAX_LISTENERS.
Definition LISTEN6 : Z := 0.
Definition LISTEN4 : Z := 1.

Definition listen_token (listener_idx : Z) : option Z :=
  if (listener_idx <? MAX_LISTENERS)%Z then Some listener_idx else None.

Definition conn_token (slab_key : Z) : Z := wrap_usize (CONN_BASE + slab_key).

Definition slab_key_from_token (token : Z) : option Z :=
  if (CONN_BASE <=? token)%Z then Some (wrap_usize (token - CONN_BASE)) else None.

Definition is_listen_token (token : Z) : bool := (token <? CONN_BASE)%Z.

(** Slab keys whose token does not overflow. *)
Definition slab_key_ok (k : Z) : Prop := (0 <= k < 2 ^ 64 - CONN_BASE)%Z.

(** The token ranges of listeners and connections are disjoint and
    connection tokens determine their slab key: a token is either a listener's
    token, with no slab key, or the token of exactly the connection
    [slab_key_from_token] names. *)
Theorem tokens_disjoint k i t :
  slab_key_ok k -> (0 <= i)%Z -> listen_token i = Some t ->
  slab_key_from_token (conn_token k) = Some k /\ is_listen_token (conn_token k) = false /\
  is_listen_token t = true /\ slab_key_from_token t = None /\ t <> conn_token k.
Proof.
  unfold slab_key_ok, listen_token, slab_key_from_token, is_listen_token, conn_token,
    CONN_BASE, MAX_LISTENERS.
  intros Hk Hi Ht. destruct (Z.ltb_spec i 16); [|done]. injection Ht as <-.
  rewrite (wrap_u_small 64 (16 + k)) by lia.
  repeat case_eqb; try lia. rewrite wrap_u_small by lia.
  repeat split; try done; [f_equal|]; lia.
Qed.

Lemma tokens_disjoint_witness :
  slab_key_ok 0 /\ (0 <= 15)%Z /\ listen_token 15 = Some 15%Z /\ 15%Z <> conn_token 0.
Proof.
  assert (Hk : slab_key_ok 0) by (unfold slab_key_ok, CONN_BASE, MAX_LISTENERS; lia).
  assert (Hi : (0 <= 15)%Z) by lia.
  assert (Ht : listen_token 15 = Some 15%Z) by reflexivity.
  split; [exact Hk|]. split; [exact Hi|]. split; [exact Ht|].
  apply (tokens_disjoint 0 15 15 Hk Hi Ht).
Defined.

(** ** The listeners of [run] (rust/crates/thttpd-core/src/eventloop.rs) *)

Inductive ListenError := TooManyListeners (n : nat) | RegisterFailed (i : Z).

(** The tokens the listeners from the [i]th on are registered with; [oks] are
    the answers of the poll registry, [n] the number of all listeners. *)
Fixpoint register_listeners (n : nat) (i : Z) (oks : list bool) : list Z + ListenError :=
  match oks with
  | [] => inl []
  | ok :: oks' =>
      match listen_token i with
      | None => inr (TooManyListeners n)
      | Some t =>
          if negb ok then inr (RegisterFailed i)
          else match register_listeners n (i + 1) oks' with
               | inl ts => inl (t :: ts)
               | inr e => inr e
               end
      end
  end.

(** [run] gets past the registration exactly when there are at most sixteen
    listeners and the registry takes each; every listener then has its index
    as its token, which no connection has. *)
Theorem listeners_registered oks ts :
  register_listeners (length oks) 0 oks = inl ts <->
  (Z.of_nat (length oks) <= MAX_LISTENERS)%Z /\ Forall (fun ok => ok = true) oks /\
  ts = Z.of_nat <$> seq 0 (length oks) /\
  Forall (fun t => is_listen_token t = true /\ slab_key_from_token t = None) ts.
Proof.
  assert (H : forall n j ts, register_listeners n (Z.of_nat j) oks = inl ts <->
    (oks = [] \/ (Z.of_nat (j + length oks) <= MAX_LISTENERS)%Z) /\ Forall (fun ok => ok = true) oks /\
    ts = Z.of_nat <$> seq j (length oks)).
  { clear ts. intros n. induction oks as [|ok oks IH]; intros j ts; cbn [register_listeners length].
    { split; [intros [= <-]; split_and!; auto|by intros (_ & _ & ->)]. }
    unfold listen_token. specialize (IH (S j)). replace (Z.of_nat (S j)) with (Z.of_nat j + 1)%Z in IH by lia.
    rewrite Forall_cons. destruct (Z.ltb_spec (Z.of_nat j) MAX_LISTENERS) as [Hj|Hj].
    2:{ split; [done|]. intros ([?|?] & _); [done|lia]. }
    destruct ok; cbn [negb]; [|split; [done|by intros (_ & [? _] & _)]].
    destruct (register_listeners n (Z.of_nat j + 1) oks) as [ts'|e].
    - destruct (IH ts') as [IH1 _]. destruct (IH1 eq_refl) as (Hl & Ho & ->).
      cbn [seq]. rewrite fmap_cons. split.
      + intros [= <-]. split_and!; [right|done|done|done]. destruct Hl as [->|Hl]; simpl; lia.
      + by intros (_ & _ & ->).
    - split; [done|]. intros (Hl & [_ Ho] & _). destruct (IH (Z.of_nat <$> seq (S j) (length oks))) as [_ IH2].
      discriminate IH2. split_and!; [|done|done]. destruct Hl as [?|Hl]; [done|]. right. lia. }
  specialize (H (length oks) 0%nat ts). rewrite H. split.
  - intros (Hl & Ho & ->). assert (Hm : (Z.of_nat (length oks) <= MAX_LISTENERS)%Z)
      by (destruct Hl as [->|?]; [done|lia]).
    split_and!; [done|done|done|]. apply Forall_fmap, Forall_seq. intros i [_ Hi]. cbn.
    unfold is_listen_token, slab_key_from_token, CONN_BASE. rewrite (proj2 (Z.ltb_lt _ _)), (proj2 (Z.leb_gt _ _)) by lia.
    done.
  - intros (Hl & Ho & -> & _). split_and!; [right; lia|done|done].
Qed.
