(* ===== verification/Throttle.v ===== *)
(** * Bandwidth throttling (rust/crates/thttpd-core/src/throttle.rs)

    All counters are [i64] and wrap; divisions truncate towards zero. *)

From S2P Require Import Prelude RustStr Match.

Local Open Scope Z_scope.

Definition THROTTLE_TIME : Z := 2.
Definition MAX_THROTTLE_NUMS : nat := 10.
Definition CGI_BYTECOUNT : Z := 25000.
Definition THROTTLE_NOLIMIT : Z := -1.

Record ThrottleEntry := mkThrottle {
  pattern : bytes;
  max_limit : Z;
  min_limit : Z;
  rate : Z;
  bytes_since_avg : Z;
  num_sending : Z;
}.

Definition ThrottleEntry_new (pattern : bytes) (max_limit min_limit : Z) : ThrottleEntry :=
  mkThrottle pattern max_limit min_limit 0 0 0.

(** The table is its vector of entries. *)
Abbreviation ThrottleTable := (list ThrottleEntry).

Inductive ThrottleDecision :=
| Unlimited
| Allow (tnums : list nat) (max_limit min_limit : Z)
| Reject.

Definition set_num_sending (n : Z) (e : ThrottleEntry) : ThrottleEntry :=
  mkThrottle (pattern e) (max_limit e) (min_limit e) (rate e) (bytes_since_avg e) n.

Definition set_bytes (n : Z) (e : ThrottleEntry) : ThrottleEntry :=
  mkThrottle (pattern e) (max_limit e) (min_limit e) (rate e) n (num_sending e).

(** *** Parsing *)

(** A quoted pattern ends at the next quote, an unquoted one at the first
    white space. *)
Definition parse_pattern (line : bytes) : option (bytes * bytes) :=
  match line with
  | c :: stripped =>
      if c =c? DQ then
        '(pat, rest) ← split_once DQ stripped; Some (pat, trim_start rest)
      else
        match split_by char_is_whitespace (chars line) with
        | p :: _ :: _ =>
            Some (trim (concat p),
                  trim_start (concat (drop (S (length p)) (chars line))))
        | _ => None
        end
  | [] => None
  end.

Definition parse_line (line : bytes) : option ThrottleEntry :=
  '(pat, rest) ← parse_pattern line;
  let pat := trim_start_by (fun c => c =c? "/"%char) pat in
  let pat := if contains_sub (B "|/") pat then str_replace (B "|/") (B "|") pat else pat in
  first ← head (split_ws_all rest);
  let first := trim first in
  '(lo, hi) ← match split_once "-"%char first with
              | Some (min_str, max_str) =>
                  lo ← parse_i 64 (trim min_str);
                  hi ← parse_i 64 (trim max_str);
                  Some (lo, hi)
              | None => hi ← parse_i 64 first; Some (0, hi)
              end;
  if is_empty pat then None else Some (ThrottleEntry_new pat hi lo).

Definition eol_blank (c : byte) : bool :=
  (c =c? SP) || (c =c? TAB) || (c =c? LF) || (c =c? CR).

(** One line of the file: the entry it adds, if any.  An unparsable line is
    reported on standard error and skipped. *)
Definition load_line (raw_line : bytes) : option ThrottleEntry :=
  let line := trim_end_by eol_blank raw_line in
  if contains_char "#"%char line then
    let trimmed := unwrap_or [] (head (split_on "#"%char line)) in
    if is_empty (trim trimmed) then None else parse_line (trim_end trimmed)
  else if is_empty line then None
  else parse_line line.

(** [load] of a file with that content; the error of [read_to_string] is
    returned unchanged. *)
Definition load {E} (content : bytes + E) : ThrottleTable + E :=
  match content with
  | inl s => inl (omap load_line (lines s))
  | inr e => inr e
  end.

(** *** Admission *)

Definition over_limit (e : ThrottleEntry) : bool :=
  (wrap_i64 (max_limit e * 2) <? rate e) || (rate e <? min_limit e).

Definition bump (e : ThrottleEntry) : ThrottleEntry :=
  set_num_sending (wrap_i64 ((if num_sending e <? 0 then 0 else num_sending e) + 1)) e.

(** [clear]: also the roll-back of a rejected request. *)
Definition clear (tnums : list nat) (t : ThrottleTable) : ThrottleTable :=
  foldl (fun t tnum => alter (fun e => set_num_sending (wrap_i64 (num_sending e - 1)) e) tnum t)
        t tnums.

Definition min_share (acc l : Z) : Z := if acc =? THROTTLE_NOLIMIT then l else Z.min acc l.
Definition max_floor (acc l : Z) : Z := if acc =? THROTTLE_NOLIMIT then l else Z.max acc l.

(** The loop over the entries: [seen] are the entries already visited and
    [todo] the ones left. *)
Fixpoint check_loop (filename : bytes) (seen todo : ThrottleTable) (tnums : list nat)
    (max_l min_l : Z) : ThrottleDecision * ThrottleTable :=
  match todo with
  | [] => (if is_empty tnums then Unlimited else Allow tnums max_l min_l, seen)
  | e :: todo' =>
      if (MAX_THROTTLE_NUMS <=? length tnums)%nat then
        (if is_empty tnums then Unlimited else Allow tnums max_l min_l, seen ++ todo)
      else if match_pattern (pattern e) filename then
        if over_limit e then (Reject, clear tnums (seen ++ todo))
        else
          let e' := bump e in
          check_loop filename (seen ++ [e']) todo' (tnums ++ [length seen])
            (min_share max_l (Z.quot (max_limit e') (num_sending e')))
            (max_floor min_l (min_limit e'))
      else check_loop filename (seen ++ [e]) todo' tnums max_l min_l
  end.

Definition check_request (filename : bytes) (t : ThrottleTable) :
    ThrottleDecision * ThrottleTable :=
  if is_empty t then (Unlimited, t)
  else check_loop filename [] t [] THROTTLE_NOLIMIT THROTTLE_NOLIMIT.

Definition add_bytes (tnums : list nat) (n : Z) (t : ThrottleTable) : ThrottleTable :=
  foldl (fun t tnum => alter (fun e => set_bytes (wrap_i64 (bytes_since_avg e + n)) e) tnum t)
        t tnums.

Definition fair_share_for (tnums : list nat) (t : ThrottleTable) : Z :=
  foldl (fun acc tnum =>
           match t !! tnum with
           | Some e => min_share acc (Z.quot (max_limit e) (Z.max (num_sending e) 1))
           | None => acc
           end) THROTTLE_NOLIMIT tnums.

Definition update_rate (e : ThrottleEntry) : ThrottleEntry :=
  mkThrottle (pattern e) (max_limit e) (min_limit e)
    (Z.quot (wrap_i64 (wrap_i64 (2 * rate e) + Z.quot (bytes_since_avg e) THROTTLE_TIME)) 3)
    0 (num_sending e).

Definition update_averages (t : ThrottleTable) : ThrottleTable := update_rate <$> t.

Definition fair_share (max_limit num_sending : Z) : Z :=
  if 0 <? num_sending then Z.quot max_limit num_sending else max_limit.

Definition check_throttles (filename : bytes) (t : ThrottleTable) : Z * Z :=
  match list_find (fun e => match_pattern (pattern e) filename = true) t with
  | Some (_, e) => (max_limit e, min_limit e)
  | None => (THROTTLE_NOLIMIT, THROTTLE_NOLIMIT)
  end.

Example parse_line_examples :
  parse_line (B "**.jpg|/**.gif  50000") = Some (ThrottleEntry_new (B "**.jpg|**.gif") 50000 0) /\
  parse_line (B "/foo/** 10-200") = Some (ThrottleEntry_new (B "foo/**") 200 10) /\
  parse_line (B "** 5--3") = Some (ThrottleEntry_new (B "**") (-3) 5) /\
  parse_line (B "**") = None /\ load_line (B "# nothing") = None.
Proof. vm_compute. repeat split. Qed.

(** ** Admission: the specification *)

(** The positions, from [k] on, of the entries whose pattern matches. *)
Fixpoint matching (filename : bytes) (k : nat) (t : ThrottleTable) : list nat :=
  match t with
  | [] => []
  | e :: t' =>
      if match_pattern (pattern e) filename then k :: matching filename (S k) t'
      else matching filename (S k) t'
  end.

(** The entries that govern a request: the first ten that match. *)
Definition governing (filename : bytes) (t : ThrottleTable) : list nat :=
  take MAX_THROTTLE_NUMS (matching filename 0 t).

Definition over_at (t : ThrottleTable) (i : nat) : bool :=
  match t !! i with Some e => over_limit e | None => false end.

Definition bump_at (tnums : list nat) (t : ThrottleTable) : ThrottleTable :=
  foldl (fun t i => alter bump i t) t tnums.

Definition floor_for (tnums : list nat) (t : ThrottleTable) : Z :=
  foldl (fun acc i => match t !! i with Some e => max_floor acc (min_limit e) | None => acc end)
        THROTTLE_NOLIMIT tnums.

Definition verdict (tnums : list nat) (t : ThrottleTable) : ThrottleDecision :=
  if is_empty tnums then Unlimited
  else Allow tnums (fair_share_for tnums t) (floor_for tnums t).

(** The counts of senders are in range. *)
Definition counts_ok (t : ThrottleTable) : Prop :=
  Forall (fun e => 0 <= num_sending e < 2 ^ 63 - 1) t.

Lemma lookup_foldl_alter (f : ThrottleEntry -> ThrottleEntry) (tnums : list nat)
    (t : ThrottleTable) (i : nat) :
  NoDup tnums ->
  foldl (fun t i => alter f i t) t tnums !! i =
    if decide (i ∈ tnums) then f <$> t !! i else t !! i.
Proof.
  intros Hnd. revert t. induction Hnd as [|k tnums Hk _ IH]; intros t; cbn [foldl].
  { by rewrite decide_False by apply not_elem_of_nil. }
  rewrite IH. destruct (decide (i = k)) as [->|Hne].
  - rewrite (decide_False (P := k ∈ tnums)) by done.
    rewrite decide_True by by left. by rewrite list_lookup_alter_eq.
  - rewrite list_lookup_alter_ne by done.
    destruct (decide (i ∈ tnums)) as [H|H].
    + by rewrite decide_True by by right.
    + rewrite decide_False; [done|]. rewrite not_elem_of_cons. done.
Qed.

Lemma lookup_bump_at (tnums : list nat) t (i : nat) :
  NoDup tnums ->
  bump_at tnums t !! i = if decide (i ∈ tnums) then bump <$> t !! i else t !! i.
Proof. apply lookup_foldl_alter. Qed.

Lemma lookup_clear (tnums : list nat) t (i : nat) :
  NoDup tnums ->
  clear tnums t !! i =
    if decide (i ∈ tnums)
    then (fun e => set_num_sending (wrap_i64 (num_sending e - 1)) e) <$> t !! i else t !! i.
Proof. apply lookup_foldl_alter. Qed.

Lemma bump_counts e : 0 <= num_sending e < 2 ^ 63 - 1 -> bump e = set_num_sending (num_sending e + 1) e.
Proof.
  intros H. unfold bump. destruct (Z.ltb_spec (num_sending e) 0); [lia|].
  by rewrite wrap_s_small by lia.
Qed.

Lemma clear_bump_at tnums t : NoDup tnums -> counts_ok t -> clear tnums (bump_at tnums t) = t.
Proof.
  intros Hnd Hok. apply list_eq. intros i. rewrite lookup_clear, lookup_bump_at by done.
  destruct (decide (i ∈ tnums)) as [Hin|]; [|done]. destruct (t !! i) as [e|] eqn:E; [|done].
  cbn [fmap option_fmap option_map]. eapply Forall_lookup_1 in Hok; [|exact E]. rewrite bump_counts by lia.
  unfold set_num_sending. cbn [num_sending pattern max_limit min_limit rate bytes_since_avg].
  rewrite wrap_s_small by lia. f_equal. destruct e; simpl. f_equal. lia.
Qed.

Lemma length_bump_at tnums t : length (bump_at tnums t) = length t.
Proof.
  unfold bump_at. revert t. induction tnums as [|i tnums IH]; intros t; simpl; [done|].
  by rewrite IH, length_alter.
Qed.

Lemma bump_at_app tnums t u :
  Forall (fun i => (i < length t)%nat) tnums -> bump_at tnums (t ++ u) = bump_at tnums t ++ u.
Proof.
  unfold bump_at. revert t. induction tnums as [|i tnums IH]; intros t H; simpl; [done|].
  apply Forall_cons in H as [Hi H]. rewrite alter_app_l by done. apply IH.
  by rewrite length_alter.
Qed.

(** A fold over table positions reads only those positions. *)
Lemma foldl_lookup_ext (g : Z -> ThrottleEntry -> Z) (tnums : list nat)
    (t t' : ThrottleTable) acc :
  Forall (fun i => t !! i = t' !! i) tnums ->
  foldl (fun acc i => match t !! i with Some e => g acc e | None => acc end) acc tnums =
  foldl (fun acc i => match t' !! i with Some e => g acc e | None => acc end) acc tnums.
Proof.
  intros H. revert acc. induction H as [|i tnums Hi _ IH]; intros acc; simpl; [done|].
  by rewrite Hi, IH.
Qed.

Lemma matching_range filename k t :
  Forall (fun i => (k <= i < k + length t)%nat) (matching filename k t) /\
  NoDup (matching filename k t).
Proof.
  revert k. induction t as [|e t IH]; intros k; simpl; [split; constructor|].
  destruct (IH (S k)) as [H1 H2].
  assert (H1' : Forall (fun i => (k <= i < k + S (length t))%nat) (matching filename (S k) t))
    by (eapply Forall_impl; [exact H1|]; simpl; lia).
  destruct (match_pattern (pattern e) filename); [|done].
  split; [constructor; [lia|done]|]. constructor; [|done].
  intros Hin. eapply Forall_forall in H1; [|exact Hin]. simpl in H1. lia.
Qed.

Lemma limits_app tnums t u :
  Forall (fun i => (i < length t)%nat) tnums ->
  fair_share_for tnums (t ++ u) = fair_share_for tnums t /\
  floor_for tnums (t ++ u) = floor_for tnums t.
Proof.
  intros H. assert (E : Forall (fun i => (t ++ u) !! i = t !! i) tnums)
    by (eapply Forall_impl; [exact H|]; intros k Hk; by apply lookup_app_l).
  split; [apply (foldl_lookup_ext (fun acc e => min_share acc _)) |
          apply (foldl_lookup_ext (fun acc e => max_floor acc _))]; exact E.
Qed.

(** Admitting one more entry at the end of the table. *)
Lemma limits_snoc tnums t e :
  Forall (fun i => (i < length t)%nat) tnums -> 1 <= num_sending e ->
  fair_share_for (tnums ++ [length t]) (t ++ [e]) =
    min_share (fair_share_for tnums t) (Z.quot (max_limit e) (num_sending e)) /\
  floor_for (tnums ++ [length t]) (t ++ [e]) = max_floor (floor_for tnums t) (min_limit e).
Proof.
  intros H He. destruct (limits_app tnums t [e] H) as [E1 E2].
  unfold fair_share_for, floor_for in *. rewrite !foldl_app, E1, E2. cbn [foldl].
  rewrite list_lookup_middle by done. by rewrite Z.max_l by lia.
Qed.

Lemma bump_at_snoc tnums t e :
  Forall (fun i => (i < length t)%nat) tnums ->
  bump_at (tnums ++ [length t]) (t ++ [e]) = bump_at tnums t ++ [bump e].
Proof.
  intros H. unfold bump_at. rewrite foldl_app. cbn [foldl].
  change (foldl _ (t ++ [e]) tnums) with (bump_at tnums (t ++ [e])).
  rewrite bump_at_app by done.
  replace (length t) with (length (bump_at tnums t) + 0)%nat by (rewrite length_bump_at; lia).
  by rewrite alter_app_r.
Qed.

Lemma check_loop_spec filename seen todo tnums :
  NoDup tnums -> Forall (fun i => (i < length seen)%nat) tnums ->
  (length tnums <= MAX_THROTTLE_NUMS)%nat -> counts_ok (seen ++ todo) ->
  let ms := take (MAX_THROTTLE_NUMS - length tnums) (matching filename (length seen) todo) in
  let t := seen ++ todo in
  check_loop filename (bump_at tnums seen) todo tnums
    (fair_share_for tnums (bump_at tnums seen)) (floor_for tnums (bump_at tnums seen)) =
  if existsb (over_at t) ms then (Reject, t)
  else (verdict (tnums ++ ms) (bump_at (tnums ++ ms) t), bump_at (tnums ++ ms) t).
Proof.
  revert seen tnums. induction todo as [|e todo IH]; intros seen tnums Hnd Hlt Hlen Hok ms t.
  { subst ms t. cbn [matching]. rewrite take_nil. simpl. rewrite !app_nil_r. done. }
  assert (Hlt' : Forall (fun i => (i < length (bump_at tnums seen))%nat) tnums)
    by (by rewrite length_bump_at).
  subst ms t. cbn [check_loop matching].
  destruct (Nat.leb_spec MAX_THROTTLE_NUMS (length tnums)) as [Hfull|Hroom].
  { replace (MAX_THROTTLE_NUMS - length tnums)%nat with 0%nat by lia. cbn [take existsb].
    rewrite app_nil_r, bump_at_app by done. unfold verdict.
    by destruct (limits_app tnums (bump_at tnums seen) (e :: todo) Hlt') as [-> ->]. }
  assert (Hl : length (seen ++ [e]) = S (length seen)) by (rewrite length_app; simpl; lia).
  assert (Hltl : Forall (fun i => (i < length (seen ++ [e]))%nat) tnums)
    by (eapply Forall_impl; [exact Hlt|]; simpl; lia).
  rewrite (cons_middle e seen todo), app_assoc in *.
  destruct (match_pattern (pattern e) filename).
  - replace (MAX_THROTTLE_NUMS - length tnums)%nat
      with (S (MAX_THROTTLE_NUMS - length (tnums ++ [length seen])))%nat
      by (rewrite length_app; simpl; lia). cbn [take existsb].
    assert (Ho : over_at ((seen ++ [e]) ++ todo) (length seen) = over_limit e).
    { unfold over_at. rewrite <- app_assoc. simpl. by rewrite list_lookup_middle. }
    rewrite Ho. destruct (over_limit e); cbn [orb].
    + rewrite (cons_middle e _ todo), app_assoc, <- !bump_at_app by done.
      by rewrite clear_bump_at.
    + assert (Hb : 1 <= num_sending (bump e)).
      { apply Forall_app in Hok as [Hok _]. apply Forall_app in Hok as [_ Hok].
        apply Forall_cons in Hok as [Hok _]. rewrite bump_counts by done. simpl. lia. }
      destruct (limits_snoc tnums (bump_at tnums seen) (bump e) Hlt' Hb) as [E1 E2].
      rewrite <- E1, <- E2, length_bump_at, <- bump_at_snoc by done.
      rewrite IH.
      * by rewrite Hl, <- !app_assoc.
      * apply NoDup_app. split; [done|]. split; [|apply NoDup_singleton].
        intros x Hx ->%list_elem_of_singleton. eapply Forall_forall in Hlt; [|exact Hx]. simpl in Hlt. lia.
      * apply Forall_app. split; [done|]. constructor; [lia|constructor].
      * rewrite length_app. simpl. lia.
      * done.
  - rewrite <- bump_at_app by done.
    destruct (limits_app tnums (bump_at tnums seen) [e] Hlt') as [E1 E2].
    rewrite <- E1, <- E2, <- bump_at_app by done. rewrite IH, Hl by done. done.
Qed.

Lemma check_request_unfold filename t :
  counts_ok t ->
  check_request filename t =
    let g := governing filename t in
    if existsb (over_at t) g then (Reject, t)
    else (verdict g (bump_at g t), bump_at g t).
Proof.
  intros Hok. unfold check_request, governing. destruct t as [|e t]; [done|].
  cbn [is_empty]. pose proof (check_loop_spec filename [] (e :: t) []) as H.
  cbn [bump_at fair_share_for floor_for foldl app length] in H. rewrite Nat.sub_0_r in H.
  apply H; try done; [constructor..|lia].
Qed.

(** C10: the admission decision: a request is governed by the first ten
    entries that match its path; it is rejected, and the table left as it was,
    exactly when one of them is over twice its maximum or under its minimum;
    otherwise exactly those entries count one more sender, and the limits
    granted are the least fair share and the greatest minimum among them
    ([Unlimited] when nothing matches). *)
Theorem check_request_correct filename t :
  counts_ok t ->
  check_request filename t =
    let g := governing filename t in
    if existsb (over_at t) g then (Reject, t)
    else (if is_empty g then Unlimited
          else Allow g (fair_share_for g (bump_at g t)) (floor_for g (bump_at g t)),
          bump_at g t).
Proof. apply check_request_unfold. Qed.

Lemma governing_NoDup filename t : NoDup (governing filename t).
Proof.
  unfold governing. eapply sublist_NoDup; [|apply sublist_take]. apply (matching_range filename 0 t).
Qed.

(** Closing a connection gives back what admitting it took: clearing
    the entries of an admitted request restores the table, so no sender count
    leaks. *)
Theorem clear_undoes_check filename t tnums hi lo t' :
  counts_ok t -> check_request filename t = (Allow tnums hi lo, t') -> clear tnums t' = t.
Proof.
  intros Hok. rewrite check_request_unfold by done. cbv zeta.
  destruct (existsb _ _); [done|]. unfold verdict.
  destruct (is_empty (governing filename t)); [done|]. intros [= <- _ _ <-].
  apply clear_bump_at; [apply governing_NoDup|done].
Qed.

(** ** Fair shares *)

Lemma min_share_le g acc x : min_share acc x = g -> 0 <= x -> -1 <= acc -> 0 <= g <= x /\ (acc <> -1 -> g <= acc).
Proof. unfold min_share, THROTTLE_NOLIMIT. case_eqb; lia. Qed.

Lemma fair_share_for_le tnums (t : ThrottleTable) :
  Forall (fun e => 0 <= max_limit e) t ->
  forall i e, i ∈ tnums -> t !! i = Some e ->
  0 <= fair_share_for tnums t <= Z.quot (max_limit e) (Z.max (num_sending e) 1).
Proof.
  intros Hmax. unfold fair_share_for.
  set (f := fun acc tnum => match t !! tnum with
     | Some e => min_share acc (Z.quot (max_limit e) (Z.max (num_sending e) 1)) | None => acc end).
  assert (Hq : forall i e, t !! i = Some e -> 0 <= Z.quot (max_limit e) (Z.max (num_sending e) 1)).
  { intros i e Hi. eapply Forall_lookup_1 in Hmax; [|exact Hi]. apply Z.quot_pos; [exact Hmax|lia]. }
  assert (Hmono : forall tnums acc, -1 <= acc -> -1 <= foldl f acc tnums /\
            (0 <= acc -> 0 <= foldl f acc tnums <= acc)).
  { induction tnums0 as [|k l IH]; intros acc Ha; cbn [foldl]; [lia|].
    assert (Ef : f acc k = match t !! k with
       | Some e => min_share acc (Z.quot (max_limit e) (Z.max (num_sending e) 1)) | None => acc end)
      by done.
    destruct (t !! k) as [x|] eqn:Ek; rewrite Ef; [|by apply IH].
    destruct (min_share_le _ acc _ eq_refl (Hq k x Ek) Ha) as [H1 H2].
    revert H1 H2. generalize (min_share acc (Z.quot (max_limit x) (Z.max (num_sending x) 1))).
    intros v H1 H2. destruct (IH v ltac:(lia)) as [H3 H4]. split; [done|]. intros H0.
    specialize (H2 ltac:(lia)). specialize (H4 ltac:(lia)). lia. }
  intros i e Hi He. unfold THROTTLE_NOLIMIT.
  apply list_elem_of_split in Hi as (l1 & l2 & ->). rewrite foldl_app. cbn [foldl].
  destruct (Hmono l1 (-1) ltac:(lia)) as [Ha _].
  set (a := foldl f (-1) l1) in *.
  assert (Ef : f a i = min_share a (Z.quot (max_limit e) (Z.max (num_sending e) 1)))
    by (unfold f; by rewrite He).
  rewrite Ef. destruct (min_share_le _ a _ eq_refl (Hq i e He) Ha) as [H1 _].
  revert H1. generalize (min_share a (Z.quot (max_limit e) (Z.max (num_sending e) 1))).
  intros v H1. destruct (Hmono l2 v ltac:(lia)) as [_ H2]. specialize (H2 ltac:(lia)). lia.
Qed.

(** An admitted connection is never granted more than its fair share
    of any entry that governs it, so the grants of the connections counted by
    an entry add up to at most its maximum. *)
Theorem fair_share_total filename t tnums hi lo t' i e :
  counts_ok t -> Forall (fun e => 0 <= max_limit e) t ->
  check_request filename t = (Allow tnums hi lo, t') ->
  i ∈ tnums -> t' !! i = Some e ->
  1 <= num_sending e /\ 0 <= hi /\ num_sending e * hi <= max_limit e.
Proof.
  intros Hok Hmax. rewrite check_request_unfold by done. cbv zeta.
  destruct (existsb _ _); [done|]. unfold verdict.
  destruct (is_empty (governing filename t)); [done|]. intros [= <- <- _ <-] Hi He.
  set (g := governing filename t) in *.
  assert (Hb : exists e0, t !! i = Some e0 /\ e = bump e0).
  { rewrite lookup_bump_at, decide_True in He by (done || apply governing_NoDup).
    apply fmap_Some in He as (e0 & ? & ->). eauto. }
  destruct Hb as (e0 & H0 & E0).
  assert (Hn : 1 <= num_sending e).
  { subst e. eapply Forall_lookup_1 in Hok; [|exact H0]. rewrite bump_counts by done. simpl. lia. }
  assert (Hmax' : Forall (fun e => 0 <= max_limit e) (bump_at g t)).
  { apply Forall_lookup_2. intros j x. rewrite lookup_bump_at by apply governing_NoDup.
    destruct (decide (j ∈ g)).
    - intros (y & Hy & ->)%fmap_Some. exact (Forall_lookup_1 _ _ _ _ Hmax Hy).
    - intros Hx. exact (Forall_lookup_1 _ _ _ _ Hmax Hx). }
  pose proof (fair_share_for_le g (bump_at g t) Hmax' i e Hi He) as Hf.
  rewrite Z.max_l in Hf by lia. split; [done|]. split; [lia|].
  eapply Forall_lookup_1 in Hmax'; [|exact He]. simpl in Hmax'.
  rewrite Z.quot_div_nonneg in Hf by lia.
  pose proof (Z.mul_div_le (max_limit e) (num_sending e) ltac:(lia)). nia.
Qed.

(** ** Sessions

    The use the event loop makes of the table: a connection is admitted with
    its list of entries, accounts the bytes it sends against them and gives
    them back when it closes; a timer updates the averages. *)

Record session := mkSession {
  table : ThrottleTable;
  open : list (list nat);
}.

Inductive op :=
| Req (filename : bytes)
| Sent (k : nat) (n : Z)
| Close (k : nat)
| Tick.

Definition step (s : session) (o : op) : session :=
  match o with
  | Req f =>
      match check_request f (table s) with
      | (Allow tnums _ _, t) => mkSession t (open s ++ [tnums])
      | (_, t) => mkSession t (open s)
      end
  | Sent k n =>
      match open s !! k with
      | Some tnums => mkSession (add_bytes tnums n (table s)) (open s)
      | None => s
      end
  | Close k =>
      match open s !! k with
      | Some tnums => mkSession (clear tnums (table s)) (delete k (open s))
      | None => s
      end
  | Tick => mkSession (update_averages (table s)) (open s)
  end.

Definition run (s : session) (ops : list op) : session := foldl step s ops.

(** How many open connections hold entry [i]. *)
Definition holders (i : nat) (conns : list (list nat)) : Z :=
  Z.of_nat (length (filter (fun l => i ∈ l) conns)).

Record counted (s : session) : Prop := {
  counted_exact : forall i e, table s !! i = Some e -> num_sending e = holders i (open s);
  counted_nodup : Forall (@NoDup nat) (open s);
}.

Lemma holders_app i l1 l2 : holders i (l1 ++ l2) = holders i l1 + holders i l2.
Proof. unfold holders. rewrite filter_app, length_app. lia. Qed.

Lemma holders_singleton i l : holders i [l] = if decide (i ∈ l) then 1 else 0.
Proof. unfold holders. rewrite filter_cons. by destruct (decide (i ∈ l)). Qed.

Lemma holders_range i l : 0 <= holders i l <= Z.of_nat (length l).
Proof. unfold holders. pose proof (length_filter (fun l => i ∈ l) l). lia. Qed.

Lemma holders_delete i conns k tnums :
  conns !! k = Some tnums ->
  holders i (delete k conns) = holders i conns - (if decide (i ∈ tnums) then 1 else 0).
Proof.
  intros H. rewrite (delete_take_drop conns k), holders_app.
  rewrite <- (take_drop_middle conns k tnums H) at 3.
  rewrite (cons_middle tnums), !holders_app, holders_singleton. lia.
Qed.

Lemma lookup_add_bytes_num (tnums : list nat) n (t : ThrottleTable) (i : nat) e :
  add_bytes tnums n t !! i = Some e ->
  exists e0, t !! i = Some e0 /\ num_sending e = num_sending e0 /\ (i ∉ tnums -> e = e0).
Proof.
  unfold add_bytes. revert t. induction tnums as [|k tnums IH]; intros t; cbn [foldl].
  { intros H. exists e. done. }
  intros (e0 & H0 & E1 & E2)%IH. destruct (decide (i = k)) as [->|Hne].
  - rewrite list_lookup_alter_eq in H0. apply fmap_Some in H0 as (e1 & H1 & ->).
    exists e1. repeat split; [done..|]. intros Hn. rewrite not_elem_of_cons in Hn. by destruct Hn.
  - rewrite list_lookup_alter_ne in H0 by done. exists e0. repeat split; [done..|].
    rewrite not_elem_of_cons. intros [_ Hn]. by apply E2.
Qed.

Lemma length_add_bytes tnums n t : length (add_bytes tnums n t) = length t.
Proof.
  unfold add_bytes. revert t. induction tnums as [|i tnums IH]; intros t; cbn [foldl]; [done|].
  by rewrite IH, length_alter.
Qed.

Lemma counted_counts_ok s :
  counted s -> Z.of_nat (length (open s)) < 2 ^ 63 - 1 -> counts_ok (table s).
Proof.
  intros [H _] Hl. apply Forall_lookup_2. intros i e Hi. rewrite (H i e Hi).
  pose proof (holders_range i (open s)). lia.
Qed.

Lemma step_counted s o :
  counted s -> Z.of_nat (length (open s)) < 2 ^ 63 - 1 ->
  counted (step s o) /\ (length (open (step s o)) <= S (length (open s)))%nat.
Proof.
  intros Hc Hl. pose proof (counted_counts_ok s Hc Hl) as Hok. destruct Hc as [He Hn].
  destruct o as [f|k n|k|]; simpl.
  - rewrite check_request_unfold by done. cbv zeta. set (g := governing f (table s)).
    destruct (existsb _ g); [split; [by constructor|simpl; lia]|].
    assert (Hb : forall i e, bump_at g (table s) !! i = Some e ->
              num_sending e = holders i (open s) + (if decide (i ∈ g) then 1 else 0)).
    { intros i e. rewrite lookup_bump_at by apply governing_NoDup.
      destruct (decide (i ∈ g)) as [Hin|]; [|intros Hi; rewrite (He i e Hi); lia].
      intros (e0 & Hi & ->)%fmap_Some. pose proof (Forall_lookup_1 _ _ _ _ Hok Hi).
      rewrite bump_counts by done. simpl. rewrite (He i e0 Hi). done. }
    unfold verdict. destruct g as [|x g'] eqn:Eg; cbn [is_empty].
    + split; [|simpl; lia]. constructor; simpl; [|done]. intros i e Hi.
      rewrite (Hb i e Hi), decide_False by apply not_elem_of_nil. lia.
    + split; [|simpl; rewrite length_app; simpl; lia]. constructor; simpl.
      * intros i e Hi. by rewrite (Hb i e Hi), holders_app, holders_singleton.
      * apply Forall_app. split; [done|]. constructor; [|constructor].
        rewrite <- Eg. apply governing_NoDup.
  - destruct (open s !! k) as [tnums|]; [|split; [by constructor|lia]].
    split; [|simpl; lia]. constructor; simpl; [|done].
    intros i e (e0 & Hi & -> & _)%lookup_add_bytes_num. by apply He.
  - destruct (open s !! k) as [tnums|] eqn:Ek; [|split; [by constructor|lia]].
    pose proof (Forall_lookup_1 _ _ _ _ Hn Ek) as Hnd. simpl in Hnd.
    split; [|simpl; rewrite length_delete by (by eexists); lia]. constructor; simpl.
    + intros i e. rewrite lookup_clear by done. rewrite (holders_delete i _ k tnums Ek).
      destruct (decide (i ∈ tnums)) as [Hin|]; [|intros Hi; rewrite (He i e Hi); lia].
      intros (e0 & Hi & ->)%fmap_Some. simpl. rewrite (He i e0 Hi).
      rewrite wrap_s_small; [done|lia|].
      pose proof (holders_range i (open s)). lia.
    + by apply Forall_delete.
  - split; [|simpl; lia]. constructor; simpl; [|done].
    intros i e. unfold update_averages. rewrite list_lookup_fmap.
    intros (e0 & Hi & ->)%fmap_Some. exact (He i e0 Hi).
Qed.

(** In every history of admissions, transfers, closes and averaging
    from a table with no senders, the sender count of each entry is exactly
    the number of open connections that the entry governs. *)
Theorem sender_counts_exact t ops i e :
  Forall (fun e => num_sending e = 0) t -> Z.of_nat (length ops) < 2 ^ 63 - 1 ->
  let s := run (mkSession t []) ops in
  table s !! i = Some e -> num_sending e = holders i (open s).
Proof.
  intros Ht Hl. set (s0 := mkSession t []).
  assert (H0 : counted s0).
  { constructor; simpl; [|constructor]. intros j x Hj.
    rewrite (Forall_lookup_1 _ _ _ _ Ht Hj). done. }
  assert (Hb : Z.of_nat (length (open s0)) + Z.of_nat (length ops) < 2 ^ 63 - 1) by done.
  enough (Hc : counted (run s0 ops)) by apply (counted_exact _ Hc).
  clear Ht Hl i e. revert H0 Hb. generalize s0. clear s0.
  induction ops as [|o ops IH]; intros s Hc Hb; [done|]. simpl in *.
  destruct (step_counted s o Hc) as [Hc' Hl']; [lia|]. apply IH; [done|lia].
Qed.

(** ** Minimum limits *)

(** Entry [i] has a positive minimum, has sent nothing and governs no open
    connection. *)
Definition starved (i : nat) (s : session) : Prop :=
  (exists e, table s !! i = Some e /\ rate e = 0 /\ bytes_since_avg e = 0 /\ 0 < min_limit e) /\
  Forall (fun l => i ∉ l) (open s).

Lemma starved_over i s : starved i s -> over_at (table s) i = true.
Proof.
  intros [(e & He & Hr & _ & Hm) _]. unfold over_at, over_limit. rewrite He, Hr.
  apply orb_true_iff. right. by apply Z.ltb_lt.
Qed.

Lemma starved_reject i s f :
  counts_ok (table s) -> starved i s -> i ∈ governing f (table s) ->
  check_request f (table s) = (Reject, table s).
Proof.
  intros Hok Hs Hi. rewrite check_request_unfold by done. cbv zeta.
  assert (existsb (over_at (table s)) (governing f (table s)) = true) as ->; [|done].
  apply existsb_exists. exists i. split; [by apply list_elem_of_In|by apply starved_over].
Qed.

Lemma step_starved i s o :
  counted s -> Z.of_nat (length (open s)) < 2 ^ 63 - 1 -> starved i s -> starved i (step s o).
Proof.
  intros Hc Hl Hs. pose proof (counted_counts_ok s Hc Hl) as Hok.
  destruct Hs as [(e & He & Hr & Hb & Hm) Ho]. destruct o as [f|k n|k|]; simpl.
  - destruct (decide (i ∈ governing f (table s))) as [Hi|Hi].
    + rewrite (starved_reject i) by (done || by split; [exists e|]).
      split; [by exists e|done].
    + rewrite check_request_unfold by done. cbv zeta.
      destruct (existsb _ _); [split; [by exists e|done]|]. unfold verdict.
      assert (He' : bump_at (governing f (table s)) (table s) !! i = Some e).
      { rewrite lookup_bump_at by apply governing_NoDup. by rewrite decide_False. }
      destruct (governing f (table s)) as [|x g] eqn:Eg; split; simpl.
      * by exists e.
      * done.
      * by exists e.
      * apply Forall_app. split; [done|]. by constructor.
  - destruct (open s !! k) as [tnums|] eqn:Ek; [|split; [by exists e|done]].
    pose proof (Forall_lookup_1 _ _ _ _ Ho Ek) as Hn. simpl in Hn. split; [|done].
    destruct (lookup_lt_is_Some_2 (add_bytes tnums n (table s)) i) as [e' Ea].
    { rewrite length_add_bytes. by eapply lookup_lt_Some. }
    pose proof Ea as (e0 & Hi & _ & E)%lookup_add_bytes_num. rewrite (E Hn) in *.
    assert (e0 = e) as -> by congruence. exists e. done.
  - destruct (open s !! k) as [tnums|] eqn:Ek; [|split; [by exists e|done]].
    pose proof (Forall_lookup_1 _ _ _ _ Ho Ek) as Hn. simpl in Hn.
    pose proof (Forall_lookup_1 _ _ _ _ (counted_nodup _ Hc) Ek) as Hnd. simpl in Hnd.
    split; simpl.
    + exists e. by rewrite lookup_clear, decide_False.
    + by apply Forall_delete.
  - split; [|done]. exists (update_rate e). unfold update_averages. simpl.
    rewrite list_lookup_fmap, He. simpl. rewrite Hr, Hb. done.
Qed.

(** An entry with a positive minimum admits nothing, ever: its rate
    starts at zero, below the minimum, only transfers it governs could raise
    it, and every request it governs is rejected, after any history. *)
Theorem min_limit_starves t ops i e f :
  t !! i = Some e -> 0 < min_limit e ->
  Forall (fun e => num_sending e = 0 /\ rate e = 0 /\ bytes_since_avg e = 0) t ->
  Z.of_nat (length ops) < 2 ^ 63 - 1 ->
  let s := run (mkSession t []) ops in
  i ∈ governing f (table s) -> check_request f (table s) = (Reject, table s).
Proof.
  intros Hi Hm Ht Hl s. set (s0 := mkSession t []).
  assert (H0 : counted s0).
  { constructor; simpl; [|constructor]. intros j x Hj.
    by destruct (Forall_lookup_1 _ _ _ _ Ht Hj) as [-> _]. }
  assert (Hs0 : starved i s0).
  { destruct (Forall_lookup_1 _ _ _ _ Ht Hi) as (_ & Hr & Hb).
    split; [exists e; done|constructor]. }
  assert (Hb : Z.of_nat (length (open s0)) + Z.of_nat (length ops) < 2 ^ 63 - 1) by done.
  enough (H : counts_ok (table s) /\ starved i s) by (destruct H; by apply (starved_reject i)).
  subst s. change (mkSession t []) with s0. clear Ht Hl Hi Hm. revert H0 Hs0 Hb.
  generalize s0. clear s0.
  induction ops as [|o ops IH]; intros s Hc Hs Hb.
  - split; [apply counted_counts_ok; [done|simpl in *; lia]|done].
  - simpl in *. destruct (step_counted s o Hc) as [Hc' Hl']; [lia|].
    apply IH; [done|apply step_starved; [done|lia|done]|lia].
Qed.

(** ** The rolling average *)

(** The rolling average stays between zero and the larger of the old
    rate and the traffic just measured (in bytes per second), without
    overflow, and the byte counter is reset. *)
Theorem update_rate_bounded m e :
  m < 2 ^ 61 -> 0 <= rate e <= m -> 0 <= bytes_since_avg e <= 2 * m ->
  0 <= rate (update_rate e) <= m /\ bytes_since_avg (update_rate e) = 0 /\
  rate (update_rate e) = (2 * rate e + bytes_since_avg e / 2) / 3.
Proof.
  intros Hm Hr Hb. unfold update_rate, THROTTLE_TIME in *. simpl rate. simpl bytes_since_avg.
  rewrite (Z.quot_div_nonneg (bytes_since_avg e)) by lia.
  assert (Hq : 0 <= bytes_since_avg e / 2 <= m)
    by (split; [apply Z.div_pos; lia|apply Z.div_le_upper_bound; lia]).
  rewrite (wrap_s_small 64 (2 * rate e)), wrap_s_small by lia.
  rewrite Z.quot_div_nonneg by lia. split; [|done].
  split; [apply Z.div_pos; lia|apply Z.div_le_upper_bound; lia].
Qed.

(** ** Round trip of the throttle file *)

(** A pattern that can be written unquoted and is stored as it is. *)
Definition plain_pattern (p : bytes) : Prop :=
  token p = true /\ contains_sub (B "|/") p = false /\
  match head p with Some c => (c =c? DQ) = false /\ (c =c? "/"%char) = false | None => False end.

Lemma trim_token s : token s = true -> trim s = s.
Proof.
  intros (Hne & Ha & Hw)%token_spec. apply trim_ascii_id; [done|..].
  - destruct s; [done|]. by apply Forall_cons in Hw as [? _].
  - destruct (last s) as [c|] eqn:E; [|done].
    apply last_Some_elem_of in E. by eapply Forall_forall in Hw.
Qed.

Lemma parse_pattern_plain p rest :
  token p = true -> token rest = true ->
  match head p with Some c => (c =c? DQ) = false | None => False end ->
  parse_pattern (p ++ SP :: rest) = Some (p, rest).
Proof.
  intros Hp Hr Hd. pose proof Hp as (Hne & Ha & Hw)%token_spec.
  pose proof Hr as (Hrne & Hra & Hrw)%token_spec.
  destruct p as [|c p]; [done|]. cbn [head] in Hd.
  assert (Hal : ascii_only ((c :: p) ++ SP :: rest))
    by (apply ascii_only_app; split; [done|constructor; [done|exact Hra]]).
  unfold parse_pattern. cbn [app]. rewrite Hd. change (c :: p ++ SP :: rest) with ((c :: p) ++ SP :: rest).
  rewrite chars_ascii by done. rewrite map_app. cbn [map].
  change ([c] :: map (fun c => [c]) p) with (map (fun c => [c]) (c :: p)).
  assert (Hs : Forall (fun y => char_is_whitespace y = false) (map (fun c => [c]) (c :: p))).
  { apply Forall_fmap. exact Hw. }
  rewrite split_by_app by done.
  destruct (split_by char_is_whitespace (map _ rest)) as [|h tl] eqn:E;
    [exfalso; revert E; apply split_by_nonempty|].
  rewrite concat_map_singleton, (trim_token (c :: p)) by done. f_equal. f_equal.
  rewrite (cons_middle [SP]), app_assoc.
  replace (S (length (map (fun c => [c]) (c :: p))))
    with (length (map (fun c => [c]) (c :: p) ++ [[SP]])) by (rewrite length_app; simpl; lia).
  rewrite drop_app_length, concat_map_singleton.
  unfold trim_start. rewrite chars_ascii by done. rewrite trim_start_by_first.
  - apply concat_map_singleton.
  - destruct rest as [|x rest]; [done|]. by apply Forall_cons in Hrw as [? _].
Qed.

(** A rule written to the throttle file as `pattern min-max` is read
    back with its pattern and limits, for every pattern that needs no quoting
    or slash stripping and all limits in range. *)
Theorem parse_line_roundtrip p lo hi :
  plain_pattern p -> 0 <= lo < 2 ^ 63 -> 0 <= hi < 2 ^ 63 ->
  parse_line (p ++ SP :: show_nonneg lo ++ "-"%char :: show_nonneg hi) =
    Some (ThrottleEntry_new p hi lo).
Proof.
  intros (Hp & Hbar & Hh) Hlo Hhi. unfold parse_line.
  assert (Hr : token (show_nonneg lo ++ "-"%char :: show_nonneg hi) = true).
  { apply token_app; [apply token_digits; auto with thttpd lia|].
    apply (token_app ["-"%char]); [done|]. apply token_digits; [|apply show_nonneg_digits; lia].
    apply show_nonneg_nonempty. }
  rewrite parse_pattern_plain; [|done..|by destruct (head p); [destruct Hh|]].
  cbn [mbind option_bind]. rewrite (trim_start_by_first _ p) by (destruct p; [done|by destruct Hh]).
  rewrite Hbar. pose proof Hr as (_ & Hra & Hrw)%token_spec.
  rewrite split_ws_all_ascii, split_by_no_sep by done. cbn [head mbind option_bind].
  rewrite trim_token by done. rewrite split_once_app.
  2:{ eapply Forall_impl; [apply show_nonneg_digits; lia|]. intros x Hx. by apply digit_neq. }
  assert (T : forall z, 0 <= z < 2 ^ 63 -> parse_i 64 (trim (show_nonneg z)) = Some z).
  { intros z Hz. rewrite trim_token.
    - apply parse_i_digits; [apply show_nonneg_nonempty|apply show_nonneg_digits; lia|
        apply parse_acc_show; lia|simpl; lia].
    - apply token_digits; [apply show_nonneg_nonempty|apply show_nonneg_digits; lia]. }
  rewrite !T by done. cbn [mbind option_bind].
  by destruct p.
Qed.

(** ** Witnesses *)

(** Two rules that govern `img/a.gif`, one of them with a minimum. *)
Definition sample : ThrottleTable :=
  [ThrottleEntry_new (B "**.jpg|**.gif") 50000 0; ThrottleEntry_new (B "img/**") 9000 0].

Definition sample_min : ThrottleTable := [ThrottleEntry_new (B "img/**") 9000 100].

Lemma check_request_correct_witness :
  counts_ok sample /\
  check_request (B "img/a.gif") sample =
    (Allow [0; 1]%nat 9000 0, bump_at [0; 1]%nat sample).
Proof.
  assert (H : counts_ok sample) by (repeat constructor; simpl; lia).
  split; [exact H|]. rewrite (check_request_correct (B "img/a.gif") sample H).
  vm_compute. reflexivity.
Defined.

Lemma clear_undoes_check_witness :
  counts_ok sample /\
  check_request (B "img/a.gif") sample = (Allow [0; 1]%nat 9000 0, bump_at [0; 1]%nat sample) /\
  clear [0; 1]%nat (bump_at [0; 1]%nat sample) = sample.
Proof.
  assert (H : counts_ok sample) by (repeat constructor; simpl; lia).
  assert (E : check_request (B "img/a.gif") sample =
    (Allow [0; 1]%nat 9000 0, bump_at [0; 1]%nat sample)) by (vm_compute; reflexivity).
  split; [exact H|]. split; [exact E|].
  apply (clear_undoes_check (B "img/a.gif") sample _ 9000 0 _ H E).
Defined.

Lemma fair_share_total_witness :
  let e := set_num_sending 1 (ThrottleEntry_new (B "img/**") 9000 0) in
  counts_ok sample /\ Forall (fun e => 0 <= max_limit e) sample /\
  1 <= num_sending e /\ 0 <= 9000 /\ num_sending e * 9000 <= max_limit e.
Proof.
  intros e.
  assert (H : counts_ok sample) by (repeat constructor; simpl; lia).
  assert (Hm : Forall (fun e => 0 <= max_limit e) sample) by (repeat constructor; simpl; lia).
  assert (E : check_request (B "img/a.gif") sample =
    (Allow [0; 1]%nat 9000 0, bump_at [0; 1]%nat sample)) by (vm_compute; reflexivity).
  split; [exact H|]. split; [exact Hm|].
  apply (fair_share_total (B "img/a.gif") sample _ 9000 0 _ 1%nat e H Hm E).
  - apply (bool_decide_unpack _). vm_compute. exact I.
  - vm_compute. reflexivity.
Defined.

Definition sample_ops : list op :=
  [Req (B "img/a.gif"); Req (B "x.jpg"); Sent 0 500; Tick; Close 0].

Lemma sender_counts_exact_witness :
  Forall (fun e => num_sending e = 0) sample /\ Z.of_nat (length sample_ops) < 2 ^ 63 - 1 /\
  exists e, table (run (mkSession sample []) sample_ops) !! 0%nat = Some e /\ num_sending e = 1.
Proof.
  assert (H : Forall (fun e => num_sending e = 0) sample) by (repeat constructor).
  assert (Hl : Z.of_nat (length sample_ops) < 2 ^ 63 - 1) by (simpl; lia).
  split; [exact H|]. split; [exact Hl|].
  eexists. split; [vm_compute; reflexivity|].
  refine (eq_trans (sender_counts_exact sample sample_ops 0%nat _ H Hl _) _).
  - vm_compute. reflexivity.
  - vm_compute. reflexivity.
Defined.

Lemma min_limit_starves_witness :
  check_request (B "img/a.gif")
    (table (run (mkSession sample_min []) [Req (B "img/b.gif"); Tick; Tick])) =
  (Reject, table (run (mkSession sample_min []) [Req (B "img/b.gif"); Tick; Tick])).
Proof.
  apply (min_limit_starves sample_min _ 0%nat (ThrottleEntry_new (B "img/**") 9000 100)).
  - reflexivity.
  - simpl. lia.
  - repeat constructor.
  - simpl. lia.
  - apply (bool_decide_unpack _). vm_compute. exact I.
Defined.

Lemma update_rate_bounded_witness :
  let e := mkThrottle (B "**") 5000 0 300 1000 1 in
  0 <= rate (update_rate e) <= 500 /\ bytes_since_avg (update_rate e) = 0 /\
  rate (update_rate e) = (2 * rate e + bytes_since_avg e / 2) / 3.
Proof. intros e. apply (update_rate_bounded 500 e); simpl; lia. Defined.

Lemma parse_line_roundtrip_witness :
  plain_pattern (B "**.jpg") /\
  parse_line (B "**.jpg" ++ SP :: show_nonneg 10 ++ "-"%char :: show_nonneg 50000) =
    Some (ThrottleEntry_new (B "**.jpg") 50000 10).
Proof.
  assert (H : plain_pattern (B "**.jpg")) by (repeat split).
  split; [exact H|]. apply (parse_line_roundtrip _ 10 50000 H); lia.
Defined.
