(* ===== verification/HttpConn.v ===== *)
(** * Connection state and errors (rust/crates/thttpd-http/src/conn.rs, error.rs) *)

From S2P Require Import Prelude RustStr Request.

Inductive ConnState := Free | Reading | Sending | Pausing | Lingering.

#[export] Instance ConnState_eq_dec : EqDecision ConnState.
Proof. solve_decision. Defined.

(** [file_address] is the name of a mapping of the file cache. *)
Record HttpConn := mkHttpConn {
  read_buf : bytes;
  read_idx : nat;
  checked_idx : nat;
  parse_state : ParseState.t;
  method : Method.t;
  http_version : bytes;
  one_one : bool;
  vhost_dir : bytes;
  encoded_url : bytes;
  decoded_url : bytes;
  path_info : bytes;
  query : bytes;
  fragment : bytes;
  orig_filename : bytes;
  expn_filename : bytes;
  host : bytes;
  x_forwarded_for : bytes;
  content_type : bytes;
  content_length : option Z;
  referer : bytes;
  user_agent : bytes;
  cookie : bytes;
  authorization : bytes;
  charset : bytes;
  accept : bytes;
  accept_encoding : bytes;
  accept_language : bytes;
  if_modified_since : option Z;
  mime_flag : bool;
  got_range : bool;
  first_byte_index : Z;
  last_byte_index : Z;
  range_if : option Z;
  response : bytes;
  response_len : nat;
  response_header_len : nat;
  status_code : Z;
  status_text : bytes;
  headers : list (bytes * bytes);
  file_address : option nat;
  bytes_sent : Z;
  state : ConnState;
  keep_alive : bool;
  should_linger : bool;
}.

#[export] Instance HttpConn_settable : Settable HttpConn := fun c =>
  mkHttpConn (read_buf c) (read_idx c) (checked_idx c) (parse_state c) (method c)
    (http_version c) (one_one c) (vhost_dir c) (encoded_url c) (decoded_url c)
    (path_info c) (query c) (fragment c) (orig_filename c) (expn_filename c) (host c)
    (x_forwarded_for c) (content_type c) (content_length c) (referer c) (user_agent c)
    (cookie c) (authorization c) (charset c) (accept c) (accept_encoding c)
    (accept_language c) (if_modified_since c) (mime_flag c) (got_range c)
    (first_byte_index c) (last_byte_index c) (range_if c) (response c) (response_len c)
    (response_header_len c) (status_code c) (status_text c) (headers c) (file_address c)
    (bytes_sent c) (state c) (keep_alive c) (should_linger c).

Definition default_charset : bytes := B "iso-8859-1".

Definition new : HttpConn :=
  mkHttpConn (replicate (Z.to_nat 60000) (chr 0)) 0 0 ParseState.initial Method.Unknown
    [] false [] [] [] [] [] [] [] [] [] [] [] None [] [] [] [] default_charset [] [] []
    None true false 0 (-1) None [] 0 0 0 [] [] None 0 Reading false false.

Definition reset (self : HttpConn) : HttpConn :=
  let self := self <| read_idx := 0 |> <| checked_idx := 0 |>
    <| parse_state := ParseState.initial |> <| method := Method.Unknown |>
    <| http_version := [] |> <| one_one := false |> <| vhost_dir := [] |>
    <| encoded_url := [] |> <| decoded_url := [] |> <| path_info := [] |>
    <| query := [] |> <| fragment := [] |> <| orig_filename := [] |>
    <| expn_filename := [] |> <| host := [] |> <| x_forwarded_for := [] |> in
  let self := self <| content_type := [] |> <| content_length := None |>
    <| referer := [] |> <| user_agent := [] |> <| cookie := [] |>
    <| authorization := [] |> <| charset := default_charset |> <| accept := [] |>
    <| accept_encoding := [] |> <| accept_language := [] |>
    <| if_modified_since := None |> <| mime_flag := true |> <| got_range := false |>
    <| first_byte_index := 0%Z |> <| last_byte_index := (-1)%Z |> <| range_if := None |> in
  self <| response := [] |> <| response_len := 0 |> <| response_header_len := 0 |>
    <| status_code := 0%Z |> <| status_text := [] |> <| headers := [] |>
    <| file_address := None |> <| bytes_sent := 0%Z |> <| state := Reading |>
    <| keep_alive := false |> <| should_linger := false |>.

(** Resetting a connection for reuse leaves nothing of the previous
    request but the bytes of its read buffer: every other field is that of a
    new connection. *)
Theorem reset_is_new c : reset c = new <| read_buf := read_buf c |>.
Proof. reflexivity. Qed.

(** ** Errors *)

Module HttpError.
Inductive t :=
| BadRequest
| Unauthorized (realm : bytes)
| Forbidden
| NotFound
| RequestTimeout
| InternalServerError
| NotImplemented
| ServiceUnavailable.

Definition status_code (e : t) : Z :=
  match e with
  | BadRequest => 400
  | Unauthorized _ => 401
  | Forbidden => 403
  | NotFound => 404
  | RequestTimeout => 408
  | InternalServerError => 500
  | NotImplemented => 501
  | ServiceUnavailable => 503
  end.

Definition status_text (e : t) : bytes :=
  match e with
  | BadRequest => B "Bad Request"
  | Unauthorized _ => B "Unauthorized"
  | Forbidden => B "Forbidden"
  | NotFound => B "Not Found"
  | RequestTimeout => B "Request Timeout"
  | InternalServerError => B "Internal Server Error"
  | NotImplemented => B "Not Implemented"
  | ServiceUnavailable => B "Service Unavailable"
  end.

Definition title (e : t) : bytes :=
  match e with
  | BadRequest => B "Bad Request"
  | Unauthorized _ => B "Unauthorized"
  | Forbidden => B "Forbidden"
  | NotFound => B "Not Found"
  | RequestTimeout => B "Request Timeout"
  | InternalServerError => B "Internal Server Error"
  | NotImplemented => B "Not Implemented"
  | ServiceUnavailable => B "Service Unavailable"
  end.
End HttpError.
