(* ===== verification/Response.v ===== *)
(** * Responses (rust/crates/thttpd-http/src/response.rs)

    The wall clock, read once per response, is an argument. *)

From S2P Require Import Prelude RustStr Tdate Request HttpConn.

Definition SERVER_SOFTWARE : bytes := B "sthttpd/2.27.0 03oct2014".
Definition SERVER_ADDRESS : bytes := B "http://localhost".

(** ** The builder *)

Record ResponseBuilder := mkBuilder {
  rb_status_code : Z;
  rb_status_text : bytes;
  rb_headers : list (bytes * bytes);
  rb_body : bytes;
}.

#[export] Instance ResponseBuilder_settable : Settable ResponseBuilder := fun r =>
  mkBuilder (rb_status_code r) (rb_status_text r) (rb_headers r) (rb_body r).

Definition rb_new : ResponseBuilder := mkBuilder 200 (B "OK") [] [].

Definition status (code : Z) (text : bytes) (r : ResponseBuilder) : ResponseBuilder :=
  r <| rb_status_code := code |> <| rb_status_text := text |>.

Definition header (name value : bytes) (r : ResponseBuilder) : ResponseBuilder :=
  r <| rb_headers := rb_headers r ++ [(name, value)] |>.

Definition body (b : bytes) (r : ResponseBuilder) : ResponseBuilder := r <| rb_body := b |>.

(** One line [name: value] CRLF. *)
Definition header_line (name value : bytes) : bytes := name ++ B ": " ++ value ++ CRLF.

Definition build (r : ResponseBuilder) : bytes :=
  (B "HTTP/1.0 " ++ show_Z (rb_status_code r) ++ B " " ++ rb_status_text r ++ CRLF)
  ++ concat (map (fun nv => header_line nv.1 nv.2) (rb_headers r))
  ++ CRLF ++ rb_body r.

(** ** The standard response header *)

(** The test for the upgrade of a 200 to a 206. *)
Definition partial_content (http : HttpConn) (status length mod_time : Z) : bool :=
  got_range http && (status =? 200)%Z
  && (first_byte_index http <=? last_byte_index http)%Z
  && (negb (last_byte_index http =? wrap_i64 (length - 1))%Z || negb (first_byte_index http =? 0)%Z)
  && match range_if http with None => true | Some t => (t =? mod_time)%Z end.

Definition is_content_encoding (name : bytes) : bool :=
  eq_ignore_ascii_case name (B "Content-Encoding").

Definition fixed_type (http : HttpConn) (content_type : bytes) : bytes :=
  let charset := if is_empty (charset http) then B "iso-8859-1" else charset http in
  if starts_with (B "text/") content_type && negb (contains_sub (B "charset=") content_type)
  then content_type ++ B "; charset=" ++ charset
  else content_type.

Definition protocol (http : HttpConn) : bytes :=
  if is_empty (http_version http) then B "HTTP/1.0" else http_version http.

(** The lines of the header, in order, without their CRLF. *)
Definition response_lines (now_ts : Z) (http : HttpConn) (status : Z) (status_text : bytes)
    (content_type : bytes) (length mtime : Z) (extra_headers : list (bytes * bytes)) :
    list bytes :=
  let mod_time := if (mtime =? 0)%Z then now_ts else mtime in
  let partial := partial_content http status length mod_time in
  let final_status := if partial then 206%Z else status in
  let final_text := if partial then B "Partial Content" else status_text in
  let field name value := name ++ B ": " ++ value in
  [ protocol http ++ B " " ++ show_Z final_status ++ B " " ++ final_text;
    field (B "Server") SERVER_SOFTWARE;
    field (B "Content-Type") (fixed_type http content_type);
    field (B "Date") (format_http_date now_ts);
    field (B "Last-Modified") (format_http_date mod_time);
    B "Accept-Ranges: bytes";
    B "Connection: close" ]
  ++ (let s100 := (final_status / 100)%Z in
      if negb (s100 =? 2)%Z && negb (s100 =? 3)%Z
      then [B "Cache-Control: no-cache,no-store"] else [])
  ++ map (fun nv => field (B "Content-Encoding") nv.2)
       (filter (fun nv => is_content_encoding nv.1 = true) extra_headers)
  ++ (if partial then
        [ field (B "Content-Range")
            (B "bytes " ++ show_Z (first_byte_index http) ++ B "-"
             ++ show_Z (last_byte_index http) ++ B "/" ++ show_Z length);
          field (B "Content-Length")
            (show_Z (wrap_i64 (last_byte_index http - first_byte_index http + 1))) ]
      else if (0 <=? length)%Z then [field (B "Content-Length") (show_Z length)] else [])
  ++ map (fun nv => field nv.1 nv.2)
       (filter (fun nv => is_content_encoding nv.1 = false) extra_headers).

Definition crlf_lines (ls : list bytes) : bytes := concat (map (fun l => l ++ CRLF) ls).

Definition build_full_response (now_ts : Z) (http : HttpConn) (status : Z)
    (status_text content_type : bytes) (length mtime : Z)
    (extra_headers : list (bytes * bytes)) : bytes :=
  if negb (mime_flag http) then []
  else crlf_lines (response_lines now_ts http status status_text content_type length mtime
                     extra_headers) ++ CRLF.

(** ** Error pages *)

(** A byte that continues a UTF-8 sequence is not a char boundary. *)
Definition is_char_boundary (s : bytes) (i : nat) : bool :=
  match s !! i with
  | None => i =? length s
  | Some c => negb ((128 <=? code c) && (code c <? 192))%Z
  end.

Fixpoint floor_loop (s : bytes) (index : nat) : nat :=
  if is_char_boundary s index then index
  else match index with O => O | S i => floor_loop s i end.

Definition floor_char_boundary (s : bytes) (index : nat) : nat :=
  if length s <=? index then length s else floor_loop s index.

Definition defang_char (c : byte) : bytes :=
  if c =c? "<"%char then B "&lt;" else if c =c? ">"%char then B "&gt;" else [c].

Definition defang (s : bytes) : bytes := concat (map defang_char s).

(** What replaces the [%.80s] of the form. *)
Definition truncated_arg (arg : bytes) : bytes :=
  let defanged := defang arg in
  if 80 <? length defanged then take (floor_char_boundary defanged 80) defanged else defanged.

Definition body_message (form arg : bytes) : bytes :=
  if contains_sub (B "%.80s") form then str_replace (B "%.80s") (truncated_arg arg) form
  else form.

Definition q (s : bytes) : bytes := DQ :: s ++ [DQ].
Definition nl : bytes := [LF].

Definition msie_padding : bytes :=
  B "<!--" ++ nl
  ++ concat (replicate 6
       (B "Padding so that MSIE deigns to show this error instead of its own canned one." ++ nl))
  ++ B "-->" ++ nl.

Definition page_head (status : Z) (title : bytes) : bytes :=
  B "<HTML>" ++ nl
  ++ B "<HEAD><TITLE>" ++ show_Z status ++ B " " ++ title ++ B "</TITLE></HEAD>" ++ nl
  ++ B "<BODY BGCOLOR=" ++ q (B "#cc9999") ++ B " TEXT=" ++ q (B "#000000")
  ++ B " LINK=" ++ q (B "#2020ff") ++ B " VLINK=" ++ q (B "#4040cc") ++ B ">" ++ nl
  ++ B "<H2>" ++ show_Z status ++ B " " ++ title ++ B "</H2>" ++ nl.

Definition page_tail : bytes :=
  B "<HR>" ++ nl ++ B "<ADDRESS><A HREF=" ++ q SERVER_ADDRESS ++ B ">" ++ SERVER_SOFTWARE
  ++ B "</A></ADDRESS>" ++ nl ++ B "</BODY>" ++ nl ++ B "</HTML>" ++ nl.

Definition error_page (status : Z) (title form arg : bytes) (user_agent : option bytes) : bytes :=
  page_head status title ++ body_message form arg
  ++ (if match user_agent with Some ua => contains_sub (B "MSIE") ua | None => false end
      then msie_padding else [])
  ++ page_tail.

(** ** The header block *)

(** A line that cannot be mistaken for a line end or a blank line. *)
Definition clean (s : bytes) : Prop := Forall (fun c => is_eol c = false) s.
Definition clean_line (s : bytes) : Prop := s <> [] /\ clean s.

Lemma clean_app s t : clean (s ++ t) <-> clean s /\ clean t.
Proof. apply Forall_app. Qed.

Lemma not_eol_eqb c : is_eol c = false -> (CR =c? c) = false /\ (LF =c? c) = false.
Proof.
  unfold is_eol. rewrite orb_false_iff, !Ascii.eqb_neq. intros [H1 H2]. split; congruence.
Qed.

Lemma clean_token_spaced ws : Forall (fun w => token w = true) ws -> clean (spaced ws).
Proof.
  induction 1 as [|w ws Hw Hws IH]; [constructor|].
  assert (clean w).
  { apply token_spec in Hw as (_ & _ & Hw). eapply Forall_impl; [exact Hw|].
    intros c Hc. unfold is_eol. repeat case_eqb; subst; done. }
  destruct ws; [done|]. apply clean_app. split; [done|]. by constructor.
Qed.

Lemma clean_digits s : Forall (fun c => is_ascii_digit c = true) s -> clean s.
Proof.
  intros H. eapply Forall_impl; [exact H|]. intros c Hc. unfold is_eol.
  by rewrite !digit_neq.
Qed.

Lemma clean_show z : clean (show_Z z).
Proof.
  unfold show_Z. destruct (Z.ltb_spec z 0).
  - apply clean_app. split; [repeat constructor|]. apply clean_digits, show_nonneg_digits. lia.
  - by apply clean_digits, show_nonneg_digits.
Qed.

Lemma clean_date ts : (0 <= ts < 2 ^ 55)%Z -> clean (format_http_date ts).
Proof.
  intros H. destruct (format_http_date_fields ts H)
    as (y & mo & d & h & mi & s & -> & Hy & Hmo & Hd & Hh & Hmi & Hs & _).
  apply clean_token_spaced, rfc1123_words_tokens; try lia. apply weekday_name.
Qed.

#[export] Hint Resolve clean_show clean_date : thttpd.

Lemma find_sub_miss needle c s :
  starts_with needle (c :: s) = false -> find_sub needle (c :: s) = S <$> find_sub needle s.
Proof. intros H. cbn [find_sub]. by rewrite H. Qed.

Lemma find_sub_skip s t :
  clean s -> find_sub (CRLF ++ CRLF) (s ++ t) = (fun n => length s + n) <$> find_sub (CRLF ++ CRLF) t.
Proof.
  intros H. induction H as [|c s Hc _ IH].
  - change ([] ++ t) with t. by destruct (find_sub (CRLF ++ CRLF) t).
  - assert (starts_with (CRLF ++ CRLF) (c :: s ++ t) = false) as E.
    { apply not_eol_eqb in Hc as [Hc _]. cbn [CRLF app starts_with]. by rewrite Hc. }
    change ((c :: s) ++ t) with (c :: s ++ t). rewrite find_sub_miss, IH by done.
    by destruct (find_sub (CRLF ++ CRLF) t).
Qed.

(** The first blank line after clean lines is the one that ends them. *)
Lemma find_blank_line ls l rest :
  Forall clean_line (ls ++ [l]) ->
  find_sub (CRLF ++ CRLF) (crlf_lines (ls ++ [l]) ++ CRLF ++ rest) =
    Some (length (crlf_lines (ls ++ [l])) - 2).
Proof.
  unfold crlf_lines. induction ls as [|l1 ls IH]; intros H; cbn [app] in *.
  - apply Forall_cons in H as [[_ Hl] _]. cbn [map concat]. rewrite app_nil_r, <- app_assoc.
    rewrite find_sub_skip by done.
    change (CRLF ++ CRLF ++ rest) with ((CRLF ++ CRLF) ++ rest).
    assert (find_sub (CRLF ++ CRLF) ((CRLF ++ CRLF) ++ rest) = Some 0) as -> by done.
    rewrite length_app. simpl. f_equal. lia.
  - apply Forall_cons in H as [[_ Hl] H]. specialize (IH H). cbn [map concat].
    rewrite <- !app_assoc, find_sub_skip by done.
    remember (concat (map (fun l => l ++ CRLF) (ls ++ [l])) ++ CRLF ++ rest) as tl eqn:Etl.
    assert (Hne : exists c tl', tl = c :: tl' /\ is_eol c = false).
    { destruct (ls ++ [l]) as [|l2 ls2] eqn:E; [by destruct ls|].
      apply Forall_cons in H as [[Hne Hcl] _]. destruct l2 as [|c l2]; [done|].
      apply Forall_cons in Hcl as [Hc _]. subst tl. eexists c, _. split; [reflexivity|done]. }
    destruct Hne as (c & tl' & -> & Hc).
    assert (E2 : find_sub (CRLF ++ CRLF) (CRLF ++ c :: tl') =
                 (fun n => 2 + n) <$> find_sub (CRLF ++ CRLF) (c :: tl')).
    { change (CRLF ++ c :: tl') with (CR :: LF :: c :: tl').
      rewrite (find_sub_miss _ CR), (find_sub_miss _ LF).
      - by destruct (find_sub (CRLF ++ CRLF) (c :: tl')).
      - done.
      - apply not_eol_eqb in Hc as [Hc _]. cbn [CRLF app starts_with].
        by rewrite Hc, !Ascii.eqb_refl. }
    rewrite E2, IH. simpl. f_equal. rewrite !length_app. simpl.
    assert (2 <= length (concat (map (fun l => l ++ CRLF) (ls ++ [l])))); [|lia].
    rewrite map_app, concat_app, length_app. simpl. rewrite !length_app. simpl. lia.
Qed.

(** The inputs of a response that the caller controls contain no line ends. *)
Record clean_inputs (now_ts : Z) (http : HttpConn) (status_text content_type : bytes)
    (mtime : Z) (extra_headers : list (bytes * bytes)) : Prop := {
  ci_now : (0 <= now_ts < 2 ^ 55)%Z;
  ci_mtime : (0 <= mtime < 2 ^ 55)%Z;
  ci_version : clean (http_version http);
  ci_charset : clean (HttpConn.charset http);
  ci_text : clean status_text;
  ci_type : clean content_type;
  ci_extra : Forall (fun nv => clean nv.1 /\ clean nv.2) extra_headers;
}.

Lemma clean_lit (s : string) :
  forallb (fun c => negb (is_eol c)) (B s) = true -> clean (B s).
Proof.
  rewrite forallb_Forall_true. intros H. eapply Forall_impl; [exact H|].
  intros c. simpl. by destruct (is_eol c).
Qed.

(** Splits a [clean] goal along [++] and closes the literals. *)
Ltac clean_tac :=
  repeat match goal with
  | |- clean (_ ++ _) => apply clean_app; split
  | |- clean (B _) => apply clean_lit; reflexivity
  end; auto with thttpd.

Lemma clean_fixed_type http ty :
  clean ty -> clean (HttpConn.charset http) -> clean (fixed_type http ty).
Proof.
  intros H1 H2. unfold fixed_type. destruct (_ && _); [|done]. clean_tac.
  destruct (is_empty _); [clean_tac|done].
Qed.

Lemma clean_protocol http : clean (http_version http) -> clean (protocol http).
Proof. intros H. unfold protocol. destruct (is_empty _); [clean_tac|done]. Qed.

Lemma clean_field name value : clean name -> clean value -> clean_line (name ++ B ": " ++ value).
Proof.
  intros H1 H2. split; [|clean_tac]. intros E. apply app_nil in E as [_ E]. discriminate.
Qed.

Lemma Forall_filter_map {A B} (P : A -> Prop) (Q : A -> Prop) (R : B -> Prop)
    `{!forall x, Decision (P x)} (f : A -> B) l :
  Forall Q l -> (forall x, Q x -> R (f x)) -> Forall R (map f (filter P l)).
Proof.
  intros Hall HR. apply Forall_fmap. apply Forall_forall. intros x [_ Hx]%list_elem_of_filter.
  apply HR. by eapply Forall_forall in Hall.
Qed.

Lemma clean_response_lines now_ts http st text ty len mtime extra :
  clean_inputs now_ts http text ty mtime extra ->
  Forall clean_line (response_lines now_ts http st text ty len mtime extra).
Proof.
  intros [Hn Hm Hv Hc Ht Hty Hx]. unfold response_lines.
  set (mod_time := if (mtime =? 0)%Z then now_ts else mtime).
  assert (Hmod : (0 <= mod_time < 2 ^ 55)%Z) by (subst mod_time; destruct (_ =? _)%Z; done).
  set (partial := partial_content http st len mod_time).
  rewrite !Forall_app. repeat split.
  - repeat apply Forall_cons_2; [..|constructor].
    + split; [|clean_tac].
      * intros E. apply app_nil in E as [_ E]. discriminate.
      * by apply clean_protocol.
      * destruct partial; [clean_tac|done].
    + apply clean_field; clean_tac. apply clean_lit. reflexivity.
    + apply clean_field; clean_tac. by apply clean_fixed_type.
    + apply clean_field; clean_tac.
    + apply clean_field; clean_tac.
    + split; [done|clean_tac].
    + split; [done|clean_tac].
  - destruct (_ && _); [|constructor]. apply Forall_cons_2; [split; [done|clean_tac]|constructor].
  - apply (Forall_filter_map _ (fun nv => clean nv.1 /\ clean nv.2)); [done|].
    intros nv [_ H]. apply clean_field; clean_tac.
  - destruct partial; [|destruct (_ <=? _)%Z; [|constructor]];
      repeat apply Forall_cons_2; try constructor; apply clean_field; clean_tac.
  - apply (Forall_filter_map _ (fun nv => clean nv.1 /\ clean nv.2)); [done|].
    intros nv [H1 H2]. by apply clean_field.
Qed.

(** The header built from clean inputs ends at its first blank line, whatever
    body follows. *)
Lemma full_response_blank_line now_ts http st text ty len mtime extra rest :
  mime_flag http = true -> clean_inputs now_ts http text ty mtime extra ->
  let r := build_full_response now_ts http st text ty len mtime extra in
  find_sub (CRLF ++ CRLF) (r ++ rest) = Some (length r - 4) /\ 4 <= length r.
Proof.
  intros Hm Hc r. subst r. unfold build_full_response. rewrite Hm. cbn [negb].
  pose proof (clean_response_lines now_ts http st text ty len mtime extra Hc) as Hl.
  assert (Hne : response_lines now_ts http st text ty len mtime extra <> []) by done.
  destruct (exists_last Hne) as (ls & l & E). rewrite E in *.
  assert (2 <= length (crlf_lines (ls ++ [l]))).
  { unfold crlf_lines. rewrite map_app, concat_app, length_app. simpl. rewrite !length_app.
    simpl. lia. }
  rewrite <- app_assoc, find_blank_line by done. rewrite length_app.
  change (length CRLF) with 2. split; [f_equal|]; lia.
Qed.

(** ** Escaping *)

Lemma defang_no_angle s : Forall (fun c => c <> "<"%char /\ c <> ">"%char) (defang s).
Proof.
  unfold defang. induction s as [|c s IH]; simpl; [constructor|]. apply Forall_app. split; [|done].
  unfold defang_char. repeat case_eqb; repeat constructor; done.
Qed.

Lemma truncated_arg_take arg : exists n, truncated_arg arg = take n (defang arg) /\
  length (truncated_arg arg) <= 80.
Proof.
  unfold truncated_arg. destruct (Nat.ltb_spec 80 (length (defang arg))).
  - eexists. split; [reflexivity|]. rewrite length_take. unfold floor_char_boundary.
    destruct (Nat.leb_spec (length (defang arg)) 80); [lia|].
    assert (F : forall s i, floor_loop s i <= i).
    { clear. intros s i. induction i as [|i IH]; simpl; destruct (is_char_boundary s _); lia. }
    specialize (F (defang arg) 80). lia.
  - exists (length (defang arg)). rewrite take_ge by lia. split; [done|lia].
Qed.

Lemma replace_fuel_Forall (P : byte -> Prop) n needle rep s :
  Forall P rep -> Forall P s -> Forall P (replace_fuel n needle rep s).
Proof.
  intros Hr. revert s. induction n as [|n IH]; intros s Hs; simpl; [constructor|].
  destruct s as [|c s]; [constructor|]. destruct (starts_with needle (c :: s)).
  - apply Forall_app. split; [done|]. apply IH. by apply Forall_drop.
  - apply Forall_cons in Hs as [Hc Hs]. constructor; [done|]. by apply IH.
Qed.

(** No request text can inject markup into an error page: with a form
    that has no angle brackets of its own, the message between the fixed page
    head and tail contains none, whatever the argument is, and the argument
    contributes at most 80 bytes. *)
Theorem error_page_no_injection st title form arg ua :
  Forall (fun c => c <> "<"%char /\ c <> ">"%char) form ->
  exists msg pad,
    error_page st title form arg ua = page_head st title ++ msg ++ pad ++ page_tail /\
    (pad = [] \/ pad = msie_padding) /\
    Forall (fun c => c <> "<"%char /\ c <> ">"%char) msg /\
    length (truncated_arg arg) <= 80.
Proof.
  intros Hf. unfold error_page. eexists (body_message form arg), _. split; [reflexivity|].
  split; [destruct (match ua with Some _ => _ | None => _ end); auto|].
  destruct (truncated_arg_take arg) as (n & E & Hl). split; [|done].
  unfold body_message. destruct (contains_sub _ form); [|done].
  apply replace_fuel_Forall; [|done]. rewrite E. apply Forall_take, defang_no_angle.
Qed.

Lemma error_page_no_injection_witness :
  Forall (fun c => c <> "<"%char /\ c <> ">"%char) (B "The URL '%.80s' was not found.") /\
  exists msg pad,
    error_page 404 (B "Not Found") (B "The URL '%.80s' was not found.")
      (B "/<script>") None = page_head 404 (B "Not Found") ++ msg ++ pad ++ page_tail /\
    Forall (fun c => c <> "<"%char /\ c <> ">"%char) msg.
Proof.
  assert (H : Forall (fun c => c <> "<"%char /\ c <> ">"%char) (B "The URL '%.80s' was not found."))
    by (repeat constructor; done).
  split; [exact H|].
  destruct (error_page_no_injection 404 (B "Not Found") _ (B "/<script>") None H)
    as (msg & pad & E & _ & Hm & _).
  exists msg, pad. split; [exact E|exact Hm].
Defined.
