(* ===== verification/Wire.v ===== *)
(** * Helpers of the event loop on request and response bytes
      (rust/crates/thttpd-core/src/eventloop.rs) *)

From S2P Require Import Prelude RustStr Request HttpConn Response.

(** The Unicode case table behind [str::to_lowercase]: only its behaviour on
    ASCII strings is relied upon. *)
Class Lowercase := {
  to_lowercase : bytes -> bytes;
  to_lowercase_ascii s : ascii_only s -> to_lowercase s = ascii_lower <$> s;
}.

Definition throttle_match_path (path : bytes) : bytes :=
  unwrap_or path (strip_prefix (B "/") path).

(** ** Responses *)

Definition header_end_offset (response : bytes) : option nat :=
  match find_sub (CRLF ++ CRLF) response with
  | Some pos => Some (pos + 4)
  | None => (fun pos => pos + 2) <$> find_sub [LF; LF] response
  end.

Definition status_code_from_response (response : bytes) : option Z :=
  first_line_end ← find_sub CRLF response;
  first_line ← from_utf8 (take first_line_end response);
  match split_whitespace first_line with
  | protocol :: rest =>
      if starts_with (B "HTTP/") protocol then code ← head rest; parse_u 16 code else None
  | [] => None
  end.

Definition logged_status_code (http : HttpConn) : Z :=
  if (0 <? HttpConn.status_code http)%Z then HttpConn.status_code http
  else unwrap_or 0%Z (status_code_from_response (response http)).

Definition entity_bytes_sent (bytes_sent : Z) (header_len : nat) : Z :=
  Z.max (wrap_i64 (bytes_sent - Z.of_nat header_len)) 0.

Definition bad_request_form : bytes :=
  B "Your request has bad syntax or is inherently impossible to satisfy." ++ [LF].

Definition build_error_response (status_code : Z) (status_text extra : bytes)
    (user_agent : option bytes) : bytes :=
  let page := error_page status_code status_text bad_request_form extra user_agent in
  build (body page
    (header (B "Content-Length") (show_nonneg (Z.of_nat (length page)))
      (header (B "Content-Type") (B "text/html")
        (status status_code status_text rb_new)))).

(** ** Request headers *)

Section Headers.
Context `{!Lowercase}.

(** [line[n..]]: a panic ([None]) when [n] is not a char boundary. *)
Definition str_from (s : bytes) (n : nat) : option bytes :=
  if (n <=? length s) && is_char_boundary s n then Some (drop n s) else None.

(** The loop over the lines; [None] is a panic, [Some None] no such header. *)
Fixpoint extract_loop (search : bytes) (ls : list bytes) : option (option bytes) :=
  match ls with
  | [] => Some None
  | line :: ls' =>
      if starts_with (to_lowercase search) (to_lowercase line) then
        v ← str_from line (length search); Some (Some (trim v))
      else extract_loop search ls'
  end.

Definition extract_header (headers name : bytes) : option (option bytes) :=
  extract_loop (name ++ B ":") (lines (from_utf8_lossy headers)).
End Headers.

(** ** CGI output *)

Definition is_named (name : bytes) (s : bytes) : bool := eq_ignore_ascii_case (trim s) name.

(** One header line of the output: [status, status_set]. *)
Definition cgi_line (acc : Z * bool) (line : bytes) : Z * bool :=
  match split_once ":"%char line with
  | None => acc
  | Some (name, value) =>
      if is_named (B "status") name then
        match parse_u 16 (take_while is_ascii_digit (trim value)) with
        | Some code => (code, true)
        | None => acc
        end
      else if negb acc.2 && is_named (B "location") name then (302%Z, true)
      else acc
  end.

Definition cgi_title (status : Z) : bytes :=
  if (status =? 200)%Z then B "OK"
  else if (status =? 302)%Z then B "Found"
  else if (status =? 304)%Z then B "Not Modified"
  else if (status =? 400)%Z then B "Bad Request"
  else if (status =? 401)%Z then B "Unauthorized"
  else if (status =? 403)%Z then B "Forbidden"
  else if (status =? 404)%Z then B "Not Found"
  else if (status =? 408)%Z then B "Request Timeout"
  else if (status =? 500)%Z then B "Internal Error"
  else if (status =? 501)%Z then B "Not Implemented"
  else if (status =? 503)%Z then B "Service Unavailable"
  else B "Something".

Definition extract_cgi_status (output : bytes) : Z * bytes :=
  let blank_pos := match find_sub (CRLF ++ CRLF) output with
                   | Some p => Some p
                   | None => find_sub [LF; LF] output
                   end in
  match blank_pos with
  | None => (200%Z, B "OK")
  | Some header_end =>
      let header_str := from_utf8_lossy (take header_end output) in
      let '(status, _) := foldl cgi_line (200%Z, false) (lines header_str) in
      (status, cgi_title status)
  end.

Example extract_cgi_status_examples :
  extract_cgi_status (B "Location: /x" ++ CRLF ++ CRLF) = (302%Z, B "Found") /\
  extract_cgi_status (B "Location: /x" ++ CRLF ++ B "Status: 404 Nope" ++ CRLF ++ CRLF)
    = (404%Z, B "Not Found") /\
  extract_cgi_status (B "no blank line") = (200%Z, B "OK").
Proof. vm_compute. repeat split. Qed.

(** ** Framing *)

(** The header length the server records for a response is exact: for
    every response header built from inputs without line ends, followed by
    any body, [header_end_offset] is the length of the header. *)
Theorem header_length_exact now_ts http st text ty len mtime extra rest :
  mime_flag http = true -> clean_inputs now_ts http text ty mtime extra ->
  let r := build_full_response now_ts http st text ty len mtime extra in
  header_end_offset (r ++ rest) = Some (length r).
Proof.
  intros Hm Hc r. destruct (full_response_blank_line now_ts http st text ty len mtime extra rest Hm Hc)
    as [E H4]. fold r in E, H4. unfold header_end_offset. rewrite E. f_equal. lia.
Qed.

Lemma header_length_exact_witness :
  let r := build_full_response 784111777 new 200 (B "OK") (B "text/html") 5 0 [] in
  header_end_offset (r ++ B "hello") = Some (length r).
Proof.
  apply (header_length_exact 784111777 new 200 (B "OK") (B "text/html") 5 0 [] (B "hello")).
  - reflexivity.
  - constructor; try lia; try (apply clean_lit; reflexivity); constructor.
Defined.

(** ** Reading back the status *)

Lemma find_crlf_line s t : clean s -> find_sub CRLF (s ++ CRLF ++ t) = Some (length s).
Proof.
  intros H. induction H as [|c s Hc _ IH]; [done|].
  change ((c :: s) ++ CRLF ++ t) with (c :: s ++ CRLF ++ t). rewrite find_sub_miss, IH.
  - done.
  - apply not_eol_eqb in Hc as [Hc _]. cbn [CRLF starts_with]. by rewrite Hc.
Qed.

Lemma status_line_read proto st text rest :
  token proto = true -> starts_with (B "HTTP/") proto = true -> (0 <= st < 2 ^ 16)%Z ->
  Forall (fun w => token w = true) text -> text <> [] ->
  status_code_from_response (proto ++ B " " ++ show_Z st ++ B " " ++ spaced text ++ CRLF ++ rest)
    = Some st.
Proof.
  intros Hp Hh Hst Ht Hne.
  assert (Hs : show_Z st = show_nonneg st)
    by (unfold show_Z; destruct (Z.ltb_spec st 0); [lia|done]).
  assert (Hds : token (show_nonneg st) = true)
    by (apply token_digits; [apply show_nonneg_nonempty|apply show_nonneg_digits; lia]).
  set (ws := proto :: show_nonneg st :: text).
  assert (Hws : Forall (fun w => token w = true) ws) by (by repeat constructor).
  assert (E : proto ++ B " " ++ show_Z st ++ B " " ++ spaced text ++ CRLF ++ rest =
              spaced ws ++ CRLF ++ rest).
  { rewrite Hs. subst ws. destruct text as [|w text]; [done|].
    change (spaced (proto :: show_nonneg st :: w :: text))
      with (proto ++ SP :: show_nonneg st ++ SP :: spaced (w :: text)).
    rewrite <- !app_assoc. simpl. by rewrite <- !app_assoc. }
  rewrite E. unfold status_code_from_response.
  rewrite find_crlf_line by (by apply clean_token_spaced). cbn [mbind option_bind].
  rewrite take_app_length. unfold from_utf8.
  rewrite valid_utf8_ascii by (by apply spaced_ascii). cbn [mbind option_bind].
  rewrite split_whitespace_spaced by done. subst ws. cbv beta iota. rewrite Hh.
  cbn [head mbind option_bind].
  apply parse_u_digits; [apply show_nonneg_nonempty|apply show_nonneg_digits; lia|
    apply parse_acc_show; lia|lia].
Qed.

(** A response that carries no explicit status is logged with the
    status on its own status line: the code read back from a response built
    for a protocol token is the one that was sent (206 when the request was
    upgraded to a partial response). *)
Theorem logged_status_is_sent now_ts http st text ty len mtime extra rest :
  HttpConn.status_code http = 0%Z -> mime_flag http = true ->
  token (protocol http) = true -> starts_with (B "HTTP/") (protocol http) = true ->
  (0 <= st < 2 ^ 16)%Z -> Forall (fun w => token w = true) text -> text <> [] ->
  let r := build_full_response now_ts http st (spaced text) ty len mtime extra in
  let partial := partial_content http st len (if (mtime =? 0)%Z then now_ts else mtime) in
  logged_status_code (http <| response := r ++ rest |>) = (if partial then 206 else st)%Z.
Proof.
  intros H0 Hm Hp Hh Hst Ht Hne r partial. unfold logged_status_code.
  change (HttpConn.status_code (http <| response := r ++ rest |>)) with (HttpConn.status_code http).
  rewrite H0. cbn [Z.ltb]. change (response (http <| response := r ++ rest |>)) with (r ++ rest).
  enough (E : status_code_from_response (r ++ rest) = Some (if partial then 206 else st)%Z)
    by (by rewrite E).
  subst r. unfold build_full_response. rewrite Hm. cbn [negb]. unfold response_lines.
  fold partial. cbn [app]. unfold crlf_lines. cbn [map concat]. rewrite <- !app_assoc.
  destruct partial.
  - apply (status_line_read _ 206 [B "Partial"; B "Content"]); try done.
    repeat constructor.
  - by apply status_line_read.
Qed.

Lemma logged_status_is_sent_witness :
  let http := new <| http_version := B "HTTP/1.1" |> in
  let r := build_full_response 784111777 http 404 (spaced [B "Not"; B "Found"])
             (B "text/html") (-1) 0 [] in
  logged_status_code (http <| response := r ++ B "page" |>) = 404%Z.
Proof.
  intros http r.
  apply (logged_status_is_sent 784111777 http 404 [B "Not"; B "Found"] (B "text/html") (-1) 0 []
           (B "page")); try reflexivity; try done; repeat constructor.
Defined.

(** ** Header lookup *)

Section Lookup.
Context `{!Lowercase}.

(** A header that can be written on one line. *)
Record plain_header (h : bytes * bytes) : Prop := {
  ph_name : ascii_only h.1 /\ clean h.1 /\ contains_char ":"%char h.1 = false;
  ph_value : ascii_only h.2 /\ clean h.2 /\ trim (SP :: h.2) = h.2;
}.

Definition field_line (h : bytes * bytes) : bytes := h.1 ++ B ": " ++ h.2.

Lemma lines_crlf ls :
  Forall clean ls -> lines (crlf_lines ls) = ls.
Proof.
  unfold lines, crlf_lines, split_on. induction 1 as [|l ls Hl Hls IH]; [done|].
  cbn [map concat]. change (l ++ CRLF) with (l ++ [CR] ++ [LF]). rewrite !app_assoc, <- app_assoc.
  change ([LF] ++ concat (map (fun l => l ++ CRLF) ls))
    with (LF :: concat (map (fun l => l ++ CRLF) ls)).
  rewrite split_by_app.
  - destruct (split_by (fun x => x =c? LF) (concat (map (fun l => l ++ CRLF) ls))) as [|h t] eqn:E;
      [exfalso; revert E; apply split_by_nonempty|].
    change (lines_of ((l ++ [CR]) :: h :: t)) with (strip_cr (l ++ [CR]) :: lines_of (h :: t)).
    rewrite IH. assert (Hs : strip_cr (l ++ [CR]) = l).
    { unfold strip_cr. rewrite reverse_snoc, Ascii.eqb_refl. apply reverse_involutive. }
    rewrite Hs. done.
  - apply Forall_app. split; [|by repeat constructor].
    eapply Forall_impl; [exact Hl|]. intros c Hc. unfold is_eol in Hc.
    apply orb_false_iff in Hc. tauto.
  - done.
Qed.

Lemma starts_with_colon n m v :
  contains_char ":"%char n = false -> contains_char ":"%char m = false ->
  starts_with (n ++ B ":") (m ++ ":"%char :: v) = bytes_eqb n m.
Proof.
  revert m. unfold contains_char. induction n as [|a n IH]; intros m Hn Hm.
  - destruct m as [|b m]; simpl in *; [done|]. apply orb_false_iff in Hm as [Hm _].
    rewrite Hm. by destruct (bytes_eqb [] (b :: m)) eqn:E; [apply bytes_eqb_true in E|].
  - cbn [existsb] in Hn. apply orb_false_iff in Hn as [Ha Hn]. destruct m as [|b m].
    + cbn [app starts_with]. rewrite Ascii.eqb_sym, Ha.
      destruct (bytes_eqb (a :: n) []) eqn:E; [by apply bytes_eqb_true in E|done].
    + cbn [existsb] in Hm. apply orb_false_iff in Hm as [_ Hm]. cbn [app starts_with].
      rewrite IH by done. destruct (Ascii.eqb_spec a b) as [->|Hne]; simpl.
      * destruct (bytes_eqb n m) eqn:E; symmetry.
        -- apply bytes_eqb_true in E as ->. by apply bytes_eqb_true.
        -- apply bytes_eqb_false in E. apply bytes_eqb_false. congruence.
      * symmetry. apply bytes_eqb_false. congruence.
Qed.

Lemma ascii_lower_colon s :
  contains_char ":"%char s = false -> contains_char ":"%char (ascii_lower <$> s) = false.
Proof.
  unfold contains_char. induction s as [|c s IH]; [done|]. cbn [existsb fmap list_fmap].
  rewrite !orb_false_iff. intros [Hc Hs]. split; [|by apply IH].
  unfold ascii_lower. destruct (is_ascii_upper c) eqn:E; [|done].
  unfold is_ascii_upper in E. apply andb_true_iff in E as [E1 E2]. apply Z.leb_le in E1, E2.
  apply Ascii.eqb_neq. intros X. apply (f_equal code) in X.
  rewrite code_chr in X by lia. change (code ":"%char) with 58%Z in X. lia.
Qed.

Lemma field_line_match h name :
  plain_header h -> ascii_only name -> contains_char ":"%char name = false ->
  starts_with (to_lowercase (name ++ B ":")) (to_lowercase (field_line h)) =
    eq_ignore_ascii_case name h.1.
Proof.
  intros [(Ha & _ & Hc) (Hva & _)] Hn Hnc. unfold field_line, eq_ignore_ascii_case.
  rewrite !to_lowercase_ascii.
  - rewrite !fmap_app. change (ascii_lower <$> B ": " ++ h.2) with (":"%char :: SP :: (ascii_lower <$> h.2)).
    apply starts_with_colon; by apply ascii_lower_colon.
  - apply ascii_only_app. split; [done|]. apply ascii_only_app. split; [repeat constructor|done].
  - apply ascii_only_app. split; [done|repeat constructor].
Qed.

Lemma extract_loop_find hs name :
  Forall plain_header hs -> ascii_only name -> contains_char ":"%char name = false ->
  extract_loop (name ++ B ":") (map field_line hs) =
    Some (snd <$> (list_find (fun h => eq_ignore_ascii_case name h.1 = true) hs ≫= fun p => Some p.2)).
Proof.
  intros Hhs Hn Hc. induction Hhs as [|h hs Hh _ IH]; [done|]. cbn [map extract_loop].
  rewrite field_line_match by done. cbn [list_find].
  destruct (eq_ignore_ascii_case name h.1) eqn:E.
  - rewrite decide_True by done. cbn [mbind option_bind fmap option_fmap option_map snd].
    assert (Hlen : length name = length h.1).
    { unfold eq_ignore_ascii_case in E. apply bytes_eqb_true in E.
      apply (f_equal length) in E. by rewrite !length_fmap in E. }
    destruct Hh as [(Ha & _ & _) (Hva & _ & Ht)].
    unfold str_from, field_line.
    assert (Hd : length (name ++ B ":") = length (h.1 ++ B ":"))
      by (rewrite !length_app; simpl; lia).
    change (h.1 ++ B ": " ++ h.2) with (h.1 ++ B ":" ++ SP :: h.2). rewrite Hd, (app_assoc h.1 (B ":") (SP :: h.2)).
    rewrite (proj2 (Nat.leb_le _ _)) by (rewrite !length_app; lia).
    unfold is_char_boundary. rewrite list_lookup_middle by done. cbn [andb].
    rewrite drop_app_length. change (negb _) with true. cbn [mbind option_bind]. by rewrite Ht.
  - rewrite decide_False by done. rewrite IH.
    by destruct (list_find (fun h => eq_ignore_ascii_case name h.1 = true) hs) as [[? ?]|].
Qed.

(** Header lookup: among header lines written one per line, in any
    letter case, [extract_header] finds the value of the first header with the
    name, and nothing when there is none; it never panics. *)
Theorem extract_header_lookup hs name :
  Forall plain_header hs -> ascii_only name -> contains_char ":"%char name = false ->
  extract_header (crlf_lines (map field_line hs)) name =
    Some (snd <$> (list_find (fun h => eq_ignore_ascii_case name h.1 = true) hs
                     ≫= fun p => Some p.2)).
Proof.
  intros Hhs Hn Hc. unfold extract_header.
  assert (Ha : ascii_only (crlf_lines (map field_line hs))).
  { unfold crlf_lines. clear -Hhs. induction Hhs as [|h hs [(H1 & _) (H2 & _)] _ IH]; [constructor|].
    cbn [map concat]. repeat (apply ascii_only_app; split); try done; repeat constructor. }
  rewrite from_utf8_lossy_ascii by done. rewrite lines_crlf.
  - by apply extract_loop_find.
  - clear -Hhs. induction Hhs as [|h hs [(_ & H1 & _) (_ & H2 & _)] _ IH]; [constructor|].
    constructor; [|done]. unfold field_line. apply clean_app. split; [done|].
    apply clean_app. split; [apply clean_lit; reflexivity|done].
Qed.
End Lookup.

(** An instance of the case table, for the witnesses. *)
Definition ascii_lowercase : Lowercase :=
  {| to_lowercase s := ascii_lower <$> s; to_lowercase_ascii _ _ := eq_refl |}.

Lemma extract_header_lookup_witness :
  let hs := [(B "Host", B "example.org"); (B "RANGE", B "bytes=0-4")] in
  Forall plain_header hs /\
  @extract_header ascii_lowercase (crlf_lines (map field_line hs)) (B "Range") =
    Some (Some (B "bytes=0-4")).
Proof.
  intros hs.
  assert (H : Forall plain_header hs).
  { repeat constructor; simpl; try (apply clean_lit; reflexivity); vm_compute; reflexivity. }
  split; [exact H|].
  apply (@extract_header_lookup ascii_lowercase hs (B "Range") H); repeat constructor.
Defined.
