(* ===== verification/Auth.v ===== *)
(** * Basic authentication (rust/crates/thttpd-auth/src/lib.rs)

    The file system, the base64 decoder (a third-party crate) and libc's
    [crypt] are the fields of [AuthEnv].  A path is its list of components,
    after the normalisation of [Path::components]. *)

From S2P Require Import Prelude RustStr.

Class AuthEnv := {
  file_exists : bytes -> bool;
  read_to_string : bytes -> option bytes;
  base64_decode : bytes -> option bytes;
  crypt : bytes -> bytes -> option bytes;
}.

Definition AUTH_FILE : bytes := B ".htpasswd".
Definition ERR_401_TITLE : bytes := B "Unauthorized".
Definition ERR_401_FORM : bytes :=
  B "Authorization required for the URL '%.80s'." ++ [LF].

Inductive AuthResult := NoAuthFile | AuthOk | Unauthorized | Forbidden.

#[export] Instance AuthResult_eq_dec : EqDecision AuthResult.
Proof. solve_decision. Defined.

(** The text of a path with these components. *)
Definition path_text (absolute : bool) (parts : list bytes) : bytes :=
  (if absolute then B "/" else []) ++ join (B "/") parts.

Definition is_absolute (p : bytes) : bool := starts_with (B "/") p.

(** [Path::components]: a dot counts at the start of a relative path only. *)
Definition path_components (path : bytes) : list bytes :=
  (if negb (is_absolute path) && bool_decide (head (split_on "/"%char path) = Some (B ".")) then [B "."] else [])
  ++ path_parts path.

(** The successive results of [parent()], nearest first. *)
Definition ancestors (path : bytes) : list bytes :=
  let parts := path_components path in
  map (fun k => path_text (is_absolute path) (take k parts)) (reverse (seq 0 (length parts))).

Definition contains_nul (s : bytes) : bool := contains_char (chr 0) s.

Section Auth.
Context `{!AuthEnv}.

Definition parse_basic_auth (authorization : bytes) : option (bytes * bytes) :=
  let auth := trim authorization in
  if negb (starts_with (B "Basic ") auth) then None
  else
    b64_part ← strip_prefix (B "Basic ") auth;
    decoded ← base64_decode (trim b64_part);
    decoded_str ← from_utf8 decoded;
    split_once ":"%char decoded_str.

Definition verify_password (password stored_hash : bytes) : bool :=
  if contains_nul password then false
  else if contains_nul stored_hash then false
  else match crypt password stored_hash with
       | None => false
       | Some result =>
           match from_utf8 result with
           | Some result_str => bytes_eqb result_str stored_hash
           | None => false
           end
       end.

(** The loop over the lines of the password file. *)
Fixpoint check_lines (user pass : bytes) (ls : list bytes) : AuthResult :=
  match ls with
  | [] => Unauthorized
  | line :: ls' =>
      let line := trim_end line in
      if is_empty line then check_lines user pass ls'
      else match split_once ":"%char line with
           | None => check_lines user pass ls'
           | Some (line_user, line_hash) =>
               if negb (bytes_eqb line_user user) then check_lines user pass ls'
               else if verify_password pass line_hash then AuthOk else Unauthorized
           end
  end.

Definition check_htpasswd (auth_path authorization : bytes) : AuthResult :=
  match parse_basic_auth authorization with
  | None => Unauthorized
  | Some (user, pass) =>
      match read_to_string auth_path with
      | None => Forbidden
      | Some content => check_lines user pass (lines content)
      end
  end.

(** The walk up the directories. *)
Fixpoint auth_walk (dirs : list bytes) (authorization : bytes) : AuthResult :=
  match dirs with
  | [] => NoAuthFile
  | dir :: dirs' =>
      let auth_path := path_join dir AUTH_FILE in
      if file_exists auth_path then check_htpasswd auth_path authorization
      else auth_walk dirs' authorization
  end.

Definition auth_check2 (path authorization : bytes) : AuthResult :=
  auth_walk (ancestors path) authorization.

(** ** What access requires *)

(** The password file that governs [path]: that of the nearest ancestor
    directory that has one. *)
Definition governing_file (path : bytes) : option bytes :=
  snd <$> list_find (fun f => file_exists f = true)
            (map (fun d => path_join d AUTH_FILE) (ancestors path)).

(** The hash on the first line for [user]. *)
Definition line_entry (line : bytes) : option (bytes * bytes) :=
  let line := trim_end line in
  if is_empty line then None else split_once ":"%char line.

Definition user_hash (user content : bytes) : option bytes :=
  (fun e => e.2) <$>
    (snd <$> list_find (fun e => e.1 = user) (omap line_entry (lines content))).

Lemma check_lines_spec user pass ls :
  check_lines user pass ls =
    match (fun e => e.2) <$> (snd <$> list_find (fun e => e.1 = user) (omap line_entry ls)) with
    | Some hash => if verify_password pass hash then AuthOk else Unauthorized
    | None => Unauthorized
    end.
Proof.
  induction ls as [|line ls IH]; [done|]. cbn [check_lines].
  change (omap line_entry (line :: ls)) with
    (match line_entry line with Some e => e :: omap line_entry ls | None => omap line_entry ls end).
  unfold line_entry at 1. destruct (is_empty (trim_end line)); [exact IH|].
  destruct (split_once _ _) as [[u h]|]; [|exact IH]. cbn [list_find fst].
  destruct (bytes_eqb u user) eqn:E; cbn [negb].
  - apply bytes_eqb_true in E. rewrite decide_True by done. done.
  - apply bytes_eqb_false in E. rewrite decide_False by done. rewrite IH.
    by destruct (list_find _ (omap line_entry ls)) as [[]|].
Qed.

Lemma auth_walk_spec dirs authorization :
  auth_walk dirs authorization =
    match snd <$> list_find (fun f => file_exists f = true)
                    (map (fun d => path_join d AUTH_FILE) dirs) with
    | Some f => check_htpasswd f authorization
    | None => NoAuthFile
    end.
Proof.
  induction dirs as [|d dirs IH]; [done|]. cbn [auth_walk map list_find].
  destruct (file_exists (path_join d AUTH_FILE)) eqn:E.
  - by rewrite decide_True.
  - rewrite decide_False by done. rewrite IH.
    by destruct (list_find _ (map _ dirs)) as [[]|].
Qed.

(** Closes the branches in which access is refused. *)
Ltac no_grant :=
  split; [done|]; intros (f' & u & p & c & h & H1 & H2 & H3 & H4 & _);
  injection H1 as <-; congruence.

(** C16: access control: a request passes exactly when no ancestor
    directory has a password file, or the nearest one is readable, the header
    carries Basic credentials, the first line for that user has a hash, and
    [crypt] of the password with that hash is that hash. *)
Theorem auth_check2_grants path authorization :
  (auth_check2 path authorization = NoAuthFile <-> governing_file path = None) /\
  (auth_check2 path authorization = AuthOk <->
   exists f user pass content hash,
     governing_file path = Some f /\
     parse_basic_auth authorization = Some (user, pass) /\
     read_to_string f = Some content /\
     user_hash user content = Some hash /\
     crypt pass hash = Some hash /\ valid_utf8 hash = true /\
     contains_nul pass = false /\ contains_nul hash = false).
Proof.
  unfold auth_check2. rewrite auth_walk_spec. fold (governing_file path).
  assert (HV : forall pass hash, verify_password pass hash = true <->
     crypt pass hash = Some hash /\ valid_utf8 hash = true /\
     contains_nul pass = false /\ contains_nul hash = false).
  { intros pass hash. unfold verify_password, from_utf8.
    destruct (contains_nul pass), (contains_nul hash); try (split; [done|naive_solver]).
    destruct (crypt pass hash) as [r|]; [|naive_solver].
    destruct (valid_utf8 r) eqn:Er; [rewrite bytes_eqb_true|]; naive_solver. }
  destruct (governing_file path) as [f|]; [|naive_solver].
  unfold check_htpasswd. split.
  - split; [|done]. intros Hg. exfalso. revert Hg.
    destruct (parse_basic_auth authorization) as [[user pass]|]; [|done].
    destruct (read_to_string f); [|done]. rewrite check_lines_spec.
    destruct (_ <$> (snd <$> _)) as [hash|]; [|done]. by destruct (verify_password pass hash).
  - destruct (parse_basic_auth authorization) as [[user pass]|]; [|no_grant].
    destruct (read_to_string f) as [content|] eqn:Ec; [|no_grant].
    rewrite check_lines_spec. fold (user_hash user content).
    destruct (user_hash user content) as [hash|] eqn:Eh; [|no_grant].
    destruct (verify_password pass hash) eqn:Ev.
    + apply HV in Ev. split; [|done]. intros _. exists f, user, pass, content, hash. tauto.
    + split; [done|]. intros (f' & u & p & c & h & H1 & H2 & H3 & H4 & H5).
      injection H1 as <-. injection H2 as <- <-. rewrite H3 in Ec. injection Ec as ->.
      rewrite Eh in H4. injection H4 as <-. apply HV in H5. congruence.
Qed.
End Auth.

(** A world in which `/www/.htpasswd` holds one user; the toy codec and hash
    stand for base64 and crypt. *)
Definition sample_env : AuthEnv := {|
  file_exists f := bytes_eqb f (B "/www/.htpasswd");
  read_to_string f := Some (B "bob:ab" ++ [LF] ++ B "eve:x" ++ [LF]);
  base64_decode s := if bytes_eqb s (B "Ym9iOnB3") then Some (B "bob:pw")
                     else if bytes_eqb s (B "ZXZlOnB3") then Some (B "eve:pw") else None;
  crypt k s := Some (B "ab");
|}.

Example auth_examples :
  let check := @auth_check2 sample_env in
  check (B "/www/a/b.html") (B "Basic Ym9iOnB3") = AuthOk /\
  check (B "/www/a/b.html") (B "Basic ZXZlOnB3") = Unauthorized /\
  check (B "/www/a/b.html") (B "Basic ???") = Unauthorized /\
  check (B "/www/a/b.html") [] = Unauthorized /\
  check (B "/srv/b.html") [] = NoAuthFile /\
  ancestors (B "/www/a/b.html") = [B "/www/a"; B "/www"; B "/"] /\
  ancestors (B "./a/./b.html") = [B "./a"; B "."; []].
Proof. vm_compute. repeat split. Qed.
