(* ===== verification/Cgi.v ===== *)
(** * CGI environment (rust/crates/thttpd-http/src/cgi.rs)

    [execute_cgi] itself is in [CgiExec]; here its outcome is an input. *)

From S2P Require Import Prelude RustStr.

Record CgiContext := mkCgi {
  server_software : bytes;
  server_name : bytes;
  gateway_interface : bytes;
  server_protocol : bytes;
  server_port : Z;
  request_method : bytes;
  script_name : bytes;
  query_string : bytes;
  remote_addr : bytes;
  cgi_content_type : option bytes;
  cgi_content_length : option Z;
  http_headers : gmap (list ascii) bytes;
  cgi_path_info : option bytes;
  path_translated : option bytes;
  remote_user : option bytes;
  auth_type : option bytes;
}.

Definition is_nph_script (script_path : bytes) : bool :=
  match file_name script_path with
  | Some name => starts_with (B "nph-") name
  | None => false
  end.

Definition fixed_order : list bytes :=
  [B "Referer"; B "User-Agent"; B "Accept"; B "Accept-Encoding"; B "Accept-Language";
   B "Cookie"; B "Host"].

(** [format!("HTTP_{}", header.to_uppercase().replace('-', "_"))]; the names
    are ASCII. *)
Definition env_key (header : bytes) : bytes :=
  B "HTTP_" ++ str_replace (B "-") (B "_") (ascii_upper <$> header).

Definition opt_var (name : bytes) (v : option bytes) : list (bytes * bytes) :=
  match v with Some x => [(name, x)] | None => [] end.

Definition build_envp (ctx : CgiContext) (script_path cgi_pattern : bytes) :
    list (bytes * bytes) :=
  [ (B "PATH", B "/usr/local/bin:/usr/ucb:/bin:/usr/bin");
    (B "SERVER_SOFTWARE", server_software ctx);
    (B "SERVER_NAME", server_name ctx);
    (B "GATEWAY_INTERFACE", gateway_interface ctx);
    (B "SERVER_PROTOCOL", server_protocol ctx);
    (B "SERVER_PORT", show_Z (server_port ctx));
    (B "REQUEST_METHOD", request_method ctx) ]
  ++ opt_var (B "PATH_INFO") (cgi_path_info ctx)
  ++ opt_var (B "PATH_TRANSLATED") (path_translated ctx)
  ++ [(B "SCRIPT_NAME", script_path)]
  ++ (if is_empty (query_string ctx) then [] else [(B "QUERY_STRING", query_string ctx)])
  ++ [(B "REMOTE_ADDR", remote_addr ctx)]
  ++ opt_var (B "AUTH_TYPE") (auth_type ctx)
  ++ opt_var (B "REMOTE_USER") (remote_user ctx)
  ++ omap (fun h => (fun v => (env_key h, v)) <$> (http_headers ctx !! h)) fixed_order
  ++ opt_var (B "CONTENT_TYPE") (cgi_content_type ctx)
  ++ opt_var (B "CONTENT_LENGTH") (show_Z <$> cgi_content_length ctx)
  ++ [(B "CGI_PATTERN", cgi_pattern)].

(** The variables a script can ever see, in the order they are set. *)
Definition env_names : list bytes :=
  [B "PATH"; B "SERVER_SOFTWARE"; B "SERVER_NAME"; B "GATEWAY_INTERFACE"; B "SERVER_PROTOCOL";
   B "SERVER_PORT"; B "REQUEST_METHOD"; B "PATH_INFO"; B "PATH_TRANSLATED"; B "SCRIPT_NAME";
   B "QUERY_STRING"; B "REMOTE_ADDR"; B "AUTH_TYPE"; B "REMOTE_USER";
   B "HTTP_REFERER"; B "HTTP_USER_AGENT"; B "HTTP_ACCEPT"; B "HTTP_ACCEPT_ENCODING";
   B "HTTP_ACCEPT_LANGUAGE"; B "HTTP_COOKIE"; B "HTTP_HOST";
   B "CONTENT_TYPE"; B "CONTENT_LENGTH"; B "CGI_PATTERN"].

Lemma opt_var_sublist name v : (opt_var name v).*1 `sublist_of` [name].
Proof. destruct v; [done|]. apply sublist_nil_l. Qed.

Lemma omap_sublist (l : list bytes) (m : gmap (list ascii) bytes) :
  (omap (fun h => (fun v => (env_key h, v)) <$> (m !! h)) l).*1 `sublist_of` (env_key <$> l).
Proof.
  induction l as [|h l IH]; [done|]. cbn [omap list_omap fmap list_fmap].
  destruct (m !! h); simpl; by constructor.
Qed.

(** The environment of a script is built from a fixed, ordered list of
    names without duplicates: no request header outside the list can become a
    variable (in particular no [Proxy] header becomes [HTTP_PROXY]), and no
    variable is set twice. *)
Theorem build_envp_names ctx script_path cgi_pattern :
  (build_envp ctx script_path cgi_pattern).*1 `sublist_of` env_names /\
  NoDup (build_envp ctx script_path cgi_pattern).*1 /\
  B "HTTP_PROXY" ∉ (build_envp ctx script_path cgi_pattern).*1.
Proof.
  assert (H : (build_envp ctx script_path cgi_pattern).*1 `sublist_of` env_names).
  { unfold build_envp. rewrite !fmap_app.
    change env_names with
      ([B "PATH"; B "SERVER_SOFTWARE"; B "SERVER_NAME"; B "GATEWAY_INTERFACE";
        B "SERVER_PROTOCOL"; B "SERVER_PORT"; B "REQUEST_METHOD"] ++ [B "PATH_INFO"]
       ++ [B "PATH_TRANSLATED"] ++ [B "SCRIPT_NAME"] ++ [B "QUERY_STRING"] ++ [B "REMOTE_ADDR"]
       ++ [B "AUTH_TYPE"] ++ [B "REMOTE_USER"] ++ (env_key <$> fixed_order)
       ++ [B "CONTENT_TYPE"] ++ [B "CONTENT_LENGTH"] ++ [B "CGI_PATTERN"]).
    repeat (apply sublist_app; [auto using opt_var_sublist, omap_sublist|]); try done.
    - destruct (is_empty (query_string ctx)); [apply sublist_nil_l|done]. }
  assert (Hn : NoDup env_names) by (apply (bool_decide_unpack _); vm_compute; exact I).
  split; [exact H|]. split; [by eapply sublist_NoDup|].
  intros Hin. apply (elem_of_sublist _ _ _ Hin) in H. revert H.
  apply (bool_decide_unpack _). vm_compute. exact I.
Qed.
