(* ===== verification/Dirlist.v ===== *)
(** * Directory listings (rust/crates/thttpd-http/src/dirlist.rs)

    Reading the directory is a system call: its outcome is the list of the
    entries with what [symlink_metadata], [DirEntry::metadata] and
    [read_link] answered for each; the wall clock is an argument. *)

From S2P Require Import Prelude RustStr Tdate Url Request Response Wire.
From stdpp Require Import sorting.

Local Open Scope Z_scope.

Record Meta := mkMeta {
  is_dir : bool;
  is_symlink : bool;
  mode_bits : Z;
  nlink : Z;
  len : Z;
  mtime : Z;
}.

(** One entry of [read_dir]. *)
Record RawEntry := mkRaw {
  raw_name : bytes;
  raw_lstat : option Meta;
  raw_metadata : option Meta;
  raw_link : option bytes;
}.

Record DirEntry := mkEntry {
  name : bytes;
  metadata : Meta;
  lstat_metadata : Meta;
  link_target : option bytes;
}.

(** ** Helpers *)

Definition hex_digit (d : Z) : byte := if d <? 10 then chr (48 + d) else chr (55 + d).

Definition unreserved (b : byte) : bool :=
  is_ascii_upper b || is_ascii_lower b || is_ascii_digit b
  || (b =c? ".") || (b =c? "-") || (b =c? "_") || (b =c? "~").

(** [{b:02X}]: two upper-case hexadecimal digits. *)
Definition encode_byte (b : byte) : bytes :=
  if unreserved b then [b] else ["%"%char; hex_digit (code b / 16); hex_digit (code b mod 16)].

Definition url_encode (s : bytes) : bytes := concat (map encode_byte s).

Definition truncate_to_80 (s : bytes) : bytes :=
  if (length s <=? 80)%nat then s else take (floor_loop s 80) s.

Definition is_leap (year : Z) : bool :=
  ((year mod 4 =? 0) && negb (year mod 100 =? 0)) || (year mod 400 =? 0).

(** The [loop] over the years; a year has at least 365 days. *)
Fixpoint ymd_years (fuel : nat) (days year : Z) : Z * Z :=
  match fuel with
  | O => (days, year)
  | S n =>
      let diy := if is_leap year then 366 else 365 in
      if days <? diy then (days, year) else ymd_years n (days - diy) (wrap_u64 (year + 1))
  end.

Definition ymd_fuel (days : Z) : nat := S (Z.to_nat (days / 365)).

Definition month_days (leap : bool) : list Z :=
  [31; if leap then 29 else 28; 31; 30; 31; 30; 31; 31; 30; 31; 30; 31].

(** The [for] over the months: [(month, remaining)] at the [break]. *)
Fixpoint ymd_months (i : Z) (mds : list Z) (remaining : Z) : Z * Z :=
  match mds with
  | [] => (11, remaining)
  | md :: mds' =>
      if remaining <? md then (i, remaining) else ymd_months (i + 1) mds' (remaining - md)
  end.

Definition days_to_ymd (days : Z) : Z * Z * Z :=
  let '(d, year) := ymd_years (ymd_fuel days) days 1970 in
  let '(month, remaining) := ymd_months 0 (month_days (is_leap year)) d in
  (year, month + 1, remaining + 1).

Definition format_ls_time (now_secs secs : Z) : bytes :=
  let '(year, month, day) := days_to_ymd (secs / 86400) in
  let time_of_day := secs mod 86400 in
  let month_str := unwrap_or (B "???") (month_names !! Z.to_nat (month - 1)) in
  let day_str := pad_left SP 2 (show_nonneg day) in
  if 60 * 60 * 24 * 182 <? Z.max 0 (now_secs - secs) then
    month_str ++ B " " ++ day_str ++ B "  " ++ show_nonneg year
  else
    month_str ++ B " " ++ day_str ++ B " " ++ pad_left "0" 2 (show_nonneg (time_of_day / 3600))
    ++ B ":" ++ pad_left "0" 2 (show_nonneg (time_of_day mod 3600 / 60)).

(** ** The listing *)

Section Listing.
Context `{!Lowercase}.

Definition entry_le (a b : DirEntry) : bool :=
  bytes_leb (to_lowercase (name a)) (to_lowercase (name b)).

(** [sort_by] is stable: entries are inserted from the last one on, each
    before those that are not smaller. *)
Fixpoint insert_entry (e : DirEntry) (l : list DirEntry) : list DirEntry :=
  match l with
  | [] => [e]
  | x :: l' => if entry_le e x then e :: l else x :: insert_entry e l'
  end.

Definition sort_entries (l : list DirEntry) : list DirEntry := foldr insert_entry [] l.

(** An entry that vanished is skipped; an entry that cannot be followed is
    shown with its own metadata. *)
Definition read_entry (r : RawEntry) : option DirEntry :=
  (fun lstat => mkEntry (from_utf8_lossy (raw_name r)) (unwrap_or lstat (raw_metadata r)) lstat
                  (raw_link r)) <$> raw_lstat r.

Definition bit (mode mask : Z) (c : byte) : byte :=
  if Z.land mode mask =? 0 then "-"%char else c.

Definition modestr (e : DirEntry) : bytes :=
  let l := lstat_metadata e in
  [ if is_dir l then "d"%char else if is_symlink l then "l"%char else "-"%char;
    bit (mode_bits l) 4 "r"%char; bit (mode_bits l) 2 "w"%char; bit (mode_bits l) 1 "x"%char ].

Definition url_prefix (url_path : bytes) : bytes :=
  match last url_path with
  | Some c => if c =c? "/"%char then url_path else url_path ++ B "/"
  | None => url_path ++ B "/"
  end.

(** The [HREF] of an entry. *)
Definition href (url_path : bytes) (e : DirEntry) : bytes :=
  B "/" ++ url_prefix url_path ++ url_encode (name e)
  ++ (if is_dir (metadata e) then B "/" else []).

Definition fileclass (e : DirEntry) : bytes :=
  if is_dir (metadata e) then B "/"
  else if is_symlink (lstat_metadata e) then B "@"
  else if negb (Z.land (mode_bits (lstat_metadata e)) 1 =? 0) then B "*" else [].

Definition link_text (e : DirEntry) : bytes :=
  if is_symlink (lstat_metadata e) then
    match link_target e with Some t => B " -&gt; " ++ from_utf8_lossy t | None => [] end
  else [].

Definition entry_line (now_secs : Z) (url_path : bytes) (e : DirEntry) : bytes :=
  let size := if is_dir (metadata e) then len (lstat_metadata e) else len (metadata e) in
  modestr e ++ B " " ++ pad_left SP 3 (show_nonneg (nlink (lstat_metadata e))) ++ B "  "
  ++ pad_left SP 10 (show_Z (wrap_i64 size)) ++ B "  "
  ++ format_ls_time now_secs (mtime (lstat_metadata e)) ++ B "  <A HREF=" ++ q (href url_path e)
  ++ B ">" ++ truncate_to_80 (name e) ++ B "</A>" ++ link_text e ++ fileclass e ++ [LF].

Definition listing_head (url_path : bytes) : bytes :=
  B "<HTML>" ++ [LF] ++ B "<HEAD><TITLE>Index of " ++ url_path ++ B "</TITLE></HEAD>" ++ [LF]
  ++ B "<BODY BGCOLOR=" ++ q (B "#99cc99") ++ B " TEXT=" ++ q (B "#000000")
  ++ B " LINK=" ++ q (B "#2020ff") ++ B " VLINK=" ++ q (B "#4040cc") ++ B ">" ++ [LF]
  ++ B "<H2>Index of " ++ url_path ++ B "</H2>" ++ [LF] ++ B "<PRE>" ++ [LF]
  ++ B "mode  links  bytes  last-changed  name" ++ [LF] ++ B "<HR>".

(** [dir_entries] is [None] when [read_dir] or one of its items failed. *)
Definition generate_listing (now_secs : Z) (dir_entries : option (list RawEntry))
    (url_path : bytes) : option bytes :=
  raw ← dir_entries;
  let es := sort_entries (omap read_entry raw) in
  Some (listing_head url_path
        ++ concat (map (entry_line now_secs url_path) es)
        ++ B "</PRE></BODY>" ++ [LF] ++ B "</HTML>" ++ [LF]).
End Listing.

(** ** URL encoding *)

Lemma from_hex_hex_digit d : 0 <= d < 16 -> from_hex (hex_digit d) = Some d.
Proof.
  intros H. assert (d ∈ seqZ 0 16) as Hd by (apply elem_of_seqZ; lia).
  revert d Hd H. apply (Forall_forall (fun d => 0 <= d < 16 -> from_hex (hex_digit d) = Some d)).
  replace (seqZ 0 16) with [0;1;2;3;4;5;6;7;8;9;10;11;12;13;14;15] by reflexivity.
  repeat constructor.
Qed.

Lemma unreserved_plain b :
  unreserved b = true -> (b =c? "%"%char) = false /\ (b =c? "+"%char) = false.
Proof. intros H. repeat case_eqb; subst; done. Qed.

Lemma decode_encode_byte b s : decode_bytes (encode_byte b ++ s) = b :: decode_bytes s.
Proof.
  unfold encode_byte. pose proof (code_range b) as Hb. destruct (unreserved b) eqn:E.
  - apply unreserved_plain in E as [E1 E2]. by apply decode_bytes_plain_cons.
  - cbn [app]. rewrite (decode_bytes_escape _ _ (code b / 16) (code b mod 16)).
    + f_equal. rewrite <- (chr_code b) at 3. f_equal.
      pose proof (Z.div_mod (code b) 16). lia.
    + apply from_hex_hex_digit. split; [apply Z.div_pos; lia|apply Z.div_lt_upper_bound; lia].
    + apply from_hex_hex_digit. apply Z.mod_pos_bound. lia.
Qed.

Lemma decode_url_encode s : decode_bytes (url_encode s) = s.
Proof.
  unfold url_encode. induction s as [|b s IH]; [done|]. cbn [map concat].
  by rewrite decode_encode_byte, IH.
Qed.

(** The name in a listing's link decodes to the name of the file:
    [percent_decode] undoes [url_encode] on every valid UTF-8 name. *)
Theorem url_encode_roundtrip s : valid_utf8 s = true -> percent_decode (url_encode s) = s.
Proof.
  intros H. unfold percent_decode. rewrite decode_url_encode. by apply from_utf8_lossy_valid.
Qed.

Lemma url_encode_roundtrip_witness :
  valid_utf8 (B "50% <a>+b.txt") = true /\
  percent_decode (url_encode (B "50% <a>+b.txt")) = B "50% <a>+b.txt".
Proof. split; [reflexivity|]. apply url_encode_roundtrip. reflexivity. Defined.

(** ** Links *)

(** Every link of a listing of a path that starts with a slash begins
    with two slashes, and the server itself rejects such a path: the code
    prefixes a slash to a URL path that already has one. *)
Theorem listing_links_rejected url_path e :
  starts_with (B "/") url_path = true ->
  starts_with (B "//") (href url_path e) = true /\ normalize_path (href url_path e) = None.
Proof.
  intros (t & ->)%starts_with_spec.
  assert (Hs : exists r, href (B "/" ++ t) e = B "//" ++ r).
  { unfold href, url_prefix.
    destruct (last (B "/" ++ t)) as [c|]; [destruct (c =c? "/"%char)|];
      rewrite <- ?app_assoc; eexists; reflexivity. }
  destruct Hs as [r ->]. split; [apply starts_with_app|].
  unfold normalize_path, contains_sub.
  assert (find_sub (B "//") (B "//" ++ r) = Some 0%nat) as ->; [|done].
  cbn [B String.list_ascii_of_string app find_sub starts_with]. by rewrite !Ascii.eqb_refl.
Qed.

Lemma listing_links_rejected_witness :
  let e := mkEntry (B "a.txt") (mkMeta false false 420 1 5 0) (mkMeta false false 420 1 5 0) None in
  starts_with (B "/") (B "/docs") = true /\
  href (B "/docs") e = B "//docs/a.txt" /\ normalize_path (href (B "/docs") e) = None.
Proof.
  intros e. split; [reflexivity|]. split; [vm_compute; reflexivity|].
  apply (listing_links_rejected (B "/docs") e). reflexivity.
Defined.

(** ** Order of the entries *)

Section Sorted.
Context `{!Lowercase}.

Definition entry_leP (a b : DirEntry) : Prop := entry_le a b = true.

Lemma insert_entry_perm e l : insert_entry e l ≡ₚ e :: l.
Proof.
  induction l as [|x l IH]; simpl; [done|]. destruct (entry_le e x); [done|].
  rewrite IH. apply Permutation_swap.
Qed.

Lemma insert_entry_sorted e l :
  StronglySorted entry_leP l -> StronglySorted entry_leP (insert_entry e l).
Proof.
  induction 1 as [|x l Hl IH Hx]; simpl; [repeat constructor|]. destruct (entry_le e x) eqn:E.
  - constructor; [by constructor|]. constructor; [done|]. eapply Forall_impl; [exact Hx|].
    intros y Hy. by eapply bytes_leb_trans.
  - constructor; [done|]. rewrite insert_entry_perm. constructor; [|done].
    unfold entry_leP, entry_le in *.
    by destruct (bytes_leb_total (to_lowercase (name e)) (to_lowercase (name x))); [congruence|].
Qed.

(** A listing shows every entry that could be examined exactly once,
    in case-insensitive alphabetical order. *)
Theorem sort_entries_correct l :
  sort_entries l ≡ₚ l /\ StronglySorted entry_leP (sort_entries l).
Proof.
  unfold sort_entries. induction l as [|e l [IH1 IH2]]; simpl; [split; constructor|].
  split; [by rewrite insert_entry_perm, IH1|by apply insert_entry_sorted].
Qed.
End Sorted.

(** ** The calendar of the listing *)

Lemma is_leap_agrees y : 0 <= y -> is_leap y = is_leap_year y.
Proof. intros H. unfold is_leap, is_leap_year. by rewrite !Z.rem_mod_nonneg by lia. Qed.

Lemma ymd_years_spec n d y :
  0 <= d < 365 * Z.of_nat n -> 0 <= y -> y + Z.of_nat n < 2 ^ 64 ->
  let '(d', y') := ymd_years n d y in
  0 <= d' < days_in_year y' /\ y <= y' /\ d' + epoch_days y' = d + epoch_days y.
Proof.
  revert d y. induction n as [|n IH]; intros d y Hd Hy Hb; [lia|]. cbn [ymd_years].
  rewrite is_leap_agrees by done. fold (days_in_year y).
  pose proof (days_in_year_bounds y). destruct (Z.ltb_spec d (days_in_year y)); [lia|].
  rewrite wrap_u_small by lia. specialize (IH (d - days_in_year y) (y + 1)).
  destruct (ymd_years n _ _) as [d' y']. rewrite epoch_days_succ in IH. lia.
Qed.

Lemma ymd_months_spec n i r y :
  i + Z.of_nat n = 12 -> 0 <= i -> 0 <= r -> r + days_before_month i y < days_in_year y ->
  let '(m, r') := ymd_months i (map (fun k => days_in_month k y) (seqZ i (Z.of_nat n))) r in
  0 <= m <= 11 /\ 0 <= r' < days_in_month m y /\
  r' + days_before_month m y = r + days_before_month i y.
Proof.
  revert i r. induction n as [|n IH]; intros i r Hn Hi Hr Hb.
  { assert (i = 12) as -> by lia. rewrite days_before_month_year in Hb. lia. }
  rewrite seqZ_cons by lia. cbn [map ymd_months].
  replace (Z.succ i) with (i + 1) by lia. replace (Z.pred (Z.of_nat (S n))) with (Z.of_nat n) by lia.
  destruct (Z.ltb_spec r (days_in_month i y)); [lia|].
  specialize (IH (i + 1) (r - days_in_month i y)). rewrite days_before_month_succ in IH by lia.
  destruct (ymd_months _ _ _) as [m r']. lia.
Qed.

(** The calendar of the listing agrees with that of the HTTP dates: for
    every day number, [days_to_ymd] returns the year, month and day of the
    month whose timestamp [date_to_epoch] puts at the start of that day. *)
Theorem days_to_ymd_correct days :
  0 <= days < 2 ^ 40 ->
  let '(y, m, d) := days_to_ymd days in
  1 <= m <= 12 /\ 1 <= d <= days_in_month (m - 1) y /\
  date_to_epoch y (m - 1) d 0 0 0 = days * 86400.
Proof.
  intros H. unfold days_to_ymd.
  assert (Hf : days < 365 * Z.of_nat (ymd_fuel days) <= days + 365).
  { unfold ymd_fuel. pose proof (Z.div_mod days 365 ltac:(lia)).
    pose proof (Z.mod_pos_bound days 365 ltac:(lia)). pose proof (Z.div_pos days 365). lia. }
  pose proof (ymd_years_spec (ymd_fuel days) days 1970 ltac:(lia) ltac:(lia) ltac:(lia)) as Hy.
  destruct (ymd_years _ _ _) as [d y]. destruct Hy as (Hd & Hy & Ey).
  rewrite epoch_days_1970 in Ey.
  assert (Hmd : month_days (is_leap y) = map (fun k => days_in_month k y) (seqZ 0 (Z.of_nat 12))).
  { rewrite is_leap_agrees by lia. reflexivity. }
  rewrite Hmd. pose proof (ymd_months_spec 12 0 d y eq_refl ltac:(lia) ltac:(lia)) as Hm.
  change (days_before_month 0 y) with 0 in Hm. specialize (Hm ltac:(lia)).
  destruct (ymd_months _ _ _) as [m r]. destruct Hm as (Hm & Hr & Em).
  pose proof (days_in_month_le m y). replace (m + 1 - 1) with m by lia.
  split; [lia|]. split; [lia|]. rewrite date_to_epoch_eq, wrap_u_small; lia.
Qed.

Lemma days_to_ymd_correct_witness :
  0 <= 19782 < 2 ^ 40 /\ days_to_ymd 19782 = (2024, 2, 29) /\
  date_to_epoch 2024 1 29 0 0 0 = 19782 * 86400.
Proof.
  assert (E : days_to_ymd 19782 = (2024, 2, 29)) by (vm_compute; reflexivity).
  pose proof (days_to_ymd_correct 19782 ltac:(lia)) as H. rewrite E in H.
  split; [lia|]. split; [exact E|]. exact (proj2 (proj2 H)).
Defined.

(** Names are shown as they are: markup in a file name reaches the page. *)
Example listing_not_defanged :
  let md := mkMeta false false 420 1 5 0 in
  contains_sub (B "<script>") (entry_line 0 (B "/") (mkEntry (B "<script>") md md None)) = true.
Proof. by vm_compute. Qed.
