(* ===== verification/Server.v ===== *)
(** * Server state (rust/crates/thttpd-core/src/server.rs, connection.rs and the
      configuration record of config.rs)

    A TCP stream is its registration with the poll: [Some r] is an open stream
    registered for [r], [None] (of the stream) a stream that was dropped.  The
    slab of connections is a finite map from its keys. *)

From S2P Require Import Prelude RustStr Request HttpConn Throttle Mmc Timers.

Inductive Interest := READABLE | WRITABLE.

#[export] Instance Interest_eq_dec : EqDecision Interest.
Proof. solve_decision. Defined.

Definition NOLIMIT : Z := -1.

Module ConnThrottle.
Record t := mk {
  tnums : list nat;
  max_limit : Z;
  min_limit : Z;
  header_len : nat;
  body_bytes : Z;
  started_at : option Z;
  active_at : option Z;
  pause_until : option Z;
  checked : bool;
}.

#[global] Instance t_settable : Settable t := fun c =>
  mk (tnums c) (max_limit c) (min_limit c) (header_len c) (body_bytes c) (started_at c)
     (active_at c) (pause_until c) (checked c).

Definition new : t := mk [] NOLIMIT NOLIMIT 0 0 None None None false.

Definition is_throttled (c : t) : bool := negb (is_empty (tnums c)).

Definition reset (c : t) : t :=
  c <| tnums := [] |> <| max_limit := NOLIMIT |> <| min_limit := NOLIMIT |>
    <| header_len := 0 |> <| body_bytes := 0%Z |> <| started_at := None |>
    <| active_at := None |> <| pause_until := None |> <| checked := false |>.
End ConnThrottle.

Module ConnSlot.
(** [peer_addr] is the text of the address, without and with its port. *)
Record t := mk {
  state : ConnState;
  stream : option (option Interest);
  http : HttpConn;
  peer_addr : option (bytes * bytes);
  throttle : ConnThrottle.t;
  is_cgi : bool;
  pending_cgi_body : bool;
}.

#[global] Instance t_settable : Settable t := fun c =>
  mk (state c) (stream c) (http c) (peer_addr c) (throttle c) (is_cgi c) (pending_cgi_body c).

Definition new : t := mk Free None HttpConn.new None ConnThrottle.new false false.

Definition is_free (c : t) : bool := bool_decide (state c = Free).
End ConnSlot.

Module ServerConfig.
Record t := mk {
  port : Z;
  dir : bytes;
  do_chroot : bool;
  no_symlink_check : bool;
  data_dir : option bytes;
  user : option bytes;
  logfile : option bytes;
  cgi_pattern : option bytes;
  cgi_limit : option Z;
  charset : bytes;
  p3p : option bytes;
  max_age : Z;
  vhost : bool;
  global_passwd : bool;
  url_pattern : option bytes;
  local_pattern : option bytes;
  no_empty_referers : bool;
  hostname : option bytes;
  throttle_file : option bytes;
  pidfile : option bytes;
  daemonize : bool;
}.

#[global] Instance t_settable : Settable t := fun c =>
  mk (port c) (dir c) (do_chroot c) (no_symlink_check c) (data_dir c) (user c) (logfile c)
     (cgi_pattern c) (cgi_limit c) (charset c) (p3p c) (max_age c) (vhost c) (global_passwd c)
     (url_pattern c) (local_pattern c) (no_empty_referers c) (hostname c) (throttle_file c)
     (pidfile c) (daemonize c).

Definition default : t :=
  mk 80 (B ".") false false None None None None None (B "iso-8859-1") None (-1) false true
     None None false None None None true.
End ServerConfig.

(** The fields of one access-log line. *)
Record LogEntry := mkLog {
  log_remote_addr : bytes;
  log_remote_user : bytes;
  log_method : bytes;
  log_url : bytes;
  log_protocol : bytes;
  log_status : Z;
  log_bytes_sent : Z;
  log_referer : bytes;
  log_user_agent : bytes;
}.

Record ServerStats := mkStats {
  st_connections : Z;
  st_requests : Z;
  st_bytes_sent : Z;
}.

#[export] Instance ServerStats_settable : Settable ServerStats := fun s =>
  mkStats (st_connections s) (st_requests s) (st_bytes_sent s).

(** The access log is the list of the entries logged so far. *)
Record Server := mkServer {
  config : ServerConfig.t;
  timers : TimerWheel;
  mmc : MmapCache;
  stats : ServerStats;
  conns : gmap nat ConnSlot.t;
  listeners : nat;
  throttles : option ThrottleTable;
  access_log : list LogEntry;
  active_cgis : Z;
  draining : bool;
}.

#[export] Instance Server_settable : Settable Server := fun s =>
  mkServer (config s) (timers s) (mmc s) (stats s) (conns s) (listeners s) (throttles s)
    (access_log s) (active_cgis s) (draining s).

Definition Server_new (c : ServerConfig.t) (n_listeners : nat) : Server :=
  mkServer c Timers.new Mmc.new (mkStats 0 0 0) ∅ n_listeners None [] 0 false.

Definition cgi_limit (s : Server) : Z := unwrap_or 50%Z (ServerConfig.cgi_limit (config s)).

(** ** Updates of one slot *)

Definition upd_slot (k : nat) (f : ConnSlot.t -> ConnSlot.t) (s : Server) : Server :=
  s <| conns := alter f k (conns s) |>.

Definition upd_http (k : nat) (f : HttpConn -> HttpConn) : Server -> Server :=
  upd_slot k (fun sl => sl <| ConnSlot.http := f (ConnSlot.http sl) |>).

Definition upd_throttle (k : nat) (f : ConnThrottle.t -> ConnThrottle.t) : Server -> Server :=
  upd_slot k (fun sl => sl <| ConnSlot.throttle := f (ConnSlot.throttle sl) |>).

(** The registry of the poll: [register] fails on a registered stream and
    [reregister] on one that is not; the code ignores both failures. *)
Definition register (i : Interest) (sl : ConnSlot.t) : ConnSlot.t :=
  match ConnSlot.stream sl with
  | Some None => sl <| ConnSlot.stream := Some (Some i) |>
  | _ => sl
  end.

Definition reregister (i : Interest) (sl : ConnSlot.t) : ConnSlot.t :=
  match ConnSlot.stream sl with
  | Some (Some _) => sl <| ConnSlot.stream := Some (Some i) |>
  | _ => sl
  end.

Definition deregister (sl : ConnSlot.t) : ConnSlot.t :=
  match ConnSlot.stream sl with
  | Some (Some _) => sl <| ConnSlot.stream := Some None |>
  | _ => sl
  end.

(** Clearing the throttle state of a connection after a CGI run makes
    it that of a new connection. *)
Theorem conn_throttle_reset_new c : ConnThrottle.reset c = ConnThrottle.new.
Proof. reflexivity. Qed.
