(* ===== verification/EventLoop.v ===== *)
(** * Event handlers (rust/crates/thttpd-core/src/eventloop.rs)

    One definition per handler, on the server state; [None] is a Rust panic.
    Everything outside the process is a field of [World]: the clocks (read
    once per handler), the file system, the contents of mapped files, the key
    the slab hands out for a new connection and the outcome of running a CGI
    program.  Reads and writes on sockets are inputs
    of the handlers. *)

From S2P Require Import Prelude RustStr Match Tdate Url Request HttpConn Response Wire.
From S2P Require Import Mime Mmc Throttle Auth Cgi Dirlist Server.

Definition MAX_CONNECTIONS : nat := 4096.
Definition READ_BUF_SIZE : nat := Z.to_nat 60000.
Definition MAX_URL_LENGTH : nat := Z.to_nat 10000.

Class World := {
  w_lower :: Lowercase;
  w_auth :: AuthEnv;
  clock : Z;
  now_ts : Z;
  canonicalize : bytes -> option bytes;
  stat_file : bytes -> Meta + bool;
  path_exists : bytes -> bool;
  path_is_dir : bytes -> bool;
  list_dir : bytes -> option (list RawEntry);
  open_file : bytes -> open_result;
  mmap_ok : bytes -> bool;
  mapping : nat -> bytes;
  hostname : bytes;
  vacant_key : gmap nat ConnSlot.t -> nat;
  run_cgi : bytes -> bytes -> list (bytes * bytes) -> option bytes -> option bytes;
}.

(** ** Sending *)

Section Handlers.
Context `{!World}.

Definition set_response (r : bytes) (h : HttpConn) : HttpConn :=
  h <| response := r |> <| response_len := length r |>.

(** The page with its header, or the bare page for HTTP/0.9. *)
Definition error_response (status : Z) (title form arg : bytes) (extra : list (bytes * bytes))
    (h : HttpConn) : bytes :=
  let page := error_page status title form arg (Some (user_agent h)) in
  if mime_flag h then
    build_full_response now_ts h status title (B "text/html") (-1) 0 extra ++ page
  else page.

Definition over_limit_form : bytes :=
  B "The requested URL '%.80s' is temporarily over its bandwidth limit." ++ [LF].

(** *** transition_to_sending *)

Definition fill_header_len (sl : ConnSlot.t) : ConnSlot.t :=
  let h := ConnSlot.http sl in
  if negb (ConnSlot.is_cgi sl) && mime_flag h && (response_header_len h =? 0) then
    match header_end_offset (response h) with
    | Some e => sl <| ConnSlot.http := h <| response_header_len := e |> |>
    | None => sl
    end
  else sl.

(** The admission check, skipped for CGI output and when already done. *)
Definition admit_sending (sl : ConnSlot.t) (thr : option ThrottleTable) :
    ThrottleDecision * option ThrottleTable :=
  if negb (ConnSlot.is_cgi sl) && negb (ConnThrottle.checked (ConnSlot.throttle sl)) then
    match thr with
    | Some t =>
        let '(d, t') := check_request (throttle_match_path (orig_filename (ConnSlot.http sl))) t in
        (d, Some t')
    | None => (Unlimited, None)
    end
  else (Unlimited, thr).

Definition start_clock (h : HttpConn) (ct : ConnThrottle.t) : ConnThrottle.t :=
  ct <| ConnThrottle.header_len := response_header_len h |>
     <| ConnThrottle.started_at := Some clock |> <| ConnThrottle.active_at := Some clock |>.

Definition begin_sending (d : ThrottleDecision) (sl : ConnSlot.t) : ConnSlot.t :=
  let already_checked := ConnThrottle.checked (ConnSlot.throttle sl) in
  let sl := sl <| ConnSlot.state := Sending |>
               <| ConnSlot.http := (ConnSlot.http sl) <| bytes_sent := 0%Z |> |> in
  let h := ConnSlot.http sl in
  let sl := if already_checked && ConnThrottle.is_throttled (ConnSlot.throttle sl)
            then sl <| ConnSlot.throttle := start_clock h (ConnSlot.throttle sl) |> else sl in
  let sl :=
    match d with
    | Unlimited => sl
    | Allow tnums max_l min_l =>
        sl <| ConnSlot.throttle := start_clock h
              ((ConnSlot.throttle sl) <| ConnThrottle.tnums := tnums |>
                 <| ConnThrottle.max_limit := max_l |> <| ConnThrottle.min_limit := min_l |>) |>
    | Reject =>
        let r := error_response 503 (B "Service Unavailable") over_limit_form (orig_filename h) [] h in
        sl <| ConnSlot.http := (set_response r h) <| HttpConn.status_code := 503%Z |>
                <| response_header_len := unwrap_or 0 (header_end_offset r) |> |>
    end in
  reregister WRITABLE sl.

Definition count_request (s : Server) : Server :=
  s <| stats := (stats s) <| st_requests := wrap_u64 (st_requests (stats s) + 1) |> |>.

Definition transition_to_sending (k : nat) (s : Server) : Server :=
  match conns s !! k with
  | None => s
  | Some sl =>
      let sl := fill_header_len sl in
      let '(d, thr) := admit_sending sl (throttles s) in
      count_request (s <| throttles := thr |> <| conns := <[k := begin_sending d sl]> (conns s) |>)
  end.

Definition send_response (k : nat) (r : HttpConn -> bytes) (s : Server) : Server :=
  transition_to_sending k (upd_http k (fun h => set_response (r h) h) s).

Definition send_error (k : nat) (status : Z) (title form arg : bytes) : Server -> Server :=
  send_response k (error_response status title form arg []).

(** *** transition_to_lingering and close_connection *)

Definition drop_file (h : HttpConn) (m : MmapCache) : MmapCache :=
  match file_address h with Some f => drop_handle f m | None => m end.

Definition transition_to_lingering (k : nat) (s : Server) : Server :=
  match conns s !! k with
  | None => s
  | Some sl =>
      let sl' := reregister READABLE
                   (sl <| ConnSlot.state := Lingering |>
                       <| ConnSlot.http := (ConnSlot.http sl) <| file_address := None |> |>) in
      s <| mmc := drop_file (ConnSlot.http sl) (mmc s) |> <| conns := <[k := sl']> (conns s) |>
  end.

Definition log_entry (sl : ConnSlot.t) : LogEntry :=
  let h := ConnSlot.http sl in
  mkLog (if is_empty (x_forwarded_for h)
         then match ConnSlot.peer_addr sl with Some (ip, _) => ip | None => B "-" end
         else x_forwarded_for h)
    (B "-") (Method.as_str (method h)) (encoded_url h)
    (if mime_flag h then http_version h else [])
    (logged_status_code h) (entity_bytes_sent (bytes_sent h) (response_header_len h))
    (referer h) (user_agent h).

Definition release_throttle (sl : ConnSlot.t) (thr : option ThrottleTable) : option ThrottleTable :=
  if ConnThrottle.is_throttled (ConnSlot.throttle sl) then
    clear (ConnThrottle.tnums (ConnSlot.throttle sl)) <$> thr
  else thr.

Definition close_connection (k : nat) (s : Server) : Server :=
  match conns s !! k with
  | None => s
  | Some sl =>
      let e := log_entry sl in
      s <| access_log := if (0 <? log_status e)%Z then access_log s ++ [e] else access_log s |>
        <| throttles := release_throttle sl (throttles s) |>
        <| mmc := drop_file (ConnSlot.http sl) (mmc s) |>
        <| conns := delete k (conns s) |>
  end.

(** *** handle_send *)

Inductive WriteResult := WOk (n : nat) | WWouldBlock | WErr.

(** Nanoseconds. *)
Definition SEC : Z := 1000000000.

Definition elapsed_secs (started : option Z) : Z :=
  match started with
  | Some t => Z.max (Z.max 0 (clock - t) / SEC) 1
  | None => 1
  end.

(** How many bytes may be written in this round. *)
Definition write_limit (sl : ConnSlot.t) : Z :=
  let ct := ConnSlot.throttle sl in
  let sent := bytes_sent (ConnSlot.http sl) in
  if ConnThrottle.is_throttled ct && (0 <? ConnThrottle.max_limit ct)%Z then
    let remaining_header_bytes := Z.max (Z.of_nat (ConnThrottle.header_len ct) - sent) 0 in
    let allowed_body_bytes :=
      Z.max (wrap_i64 (wrap_i64 (ConnThrottle.max_limit ct * elapsed_secs (ConnThrottle.started_at ct))
                       - ConnThrottle.body_bytes ct)) 0 in
    (remaining_header_bytes + allowed_body_bytes)%Z
  else (Z.of_nat (response_len (ConnSlot.http sl)) - sent)%Z.

Definition pause (sl : ConnSlot.t) : ConnSlot.t :=
  deregister (sl <| ConnSlot.throttle := (ConnSlot.throttle sl)
                      <| ConnThrottle.pause_until := Some (clock + SEC)%Z |> |>
                 <| ConnSlot.state := Pausing |>).

(** [&remaining[..limit]], what is handed to the write. *)
Definition write_slice (sl : ConnSlot.t) : bytes :=
  take (Z.to_nat (write_limit sl)) (drop (Z.to_nat (bytes_sent (ConnSlot.http sl))) (response (ConnSlot.http sl))).

(** The body bytes among [n] bytes written after [sent]. *)
Definition body_delta (ct : ConnThrottle.t) (sent n : Z) : Z :=
  (Z.max (sent + n - Z.of_nat (ConnThrottle.header_len ct)) 0
   - Z.max (sent - Z.of_nat (ConnThrottle.header_len ct)) 0)%Z.

(** After [n] bytes went out: the slot and the table. *)
Definition account_sent (n : Z) (sl : ConnSlot.t) (thr : option ThrottleTable) :
    ConnSlot.t * option ThrottleTable :=
  let h := ConnSlot.http sl in
  let ct := ConnSlot.throttle sl in
  let sl' := sl <| ConnSlot.http := h <| bytes_sent := (bytes_sent h + n)%Z |> |> in
  let delta := body_delta ct (bytes_sent h) n in
  if ConnThrottle.is_throttled ct && (0 <? delta)%Z then
    (sl' <| ConnSlot.throttle := ct
              <| ConnThrottle.body_bytes := (ConnThrottle.body_bytes ct + delta)%Z |>
              <| ConnThrottle.active_at := Some clock |> |>,
     add_bytes (ConnThrottle.tnums ct) delta <$> thr)
  else (sl', thr).

Definition handle_send (wr : WriteResult) (k : nat) (s : Server) : option Server :=
  sl ← conns s !! k;
  let h := ConnSlot.http sl in
  let response_len := Z.of_nat (response_len h) in
  let sent := bytes_sent h in
  if (response_len <=? sent)%Z then Some (transition_to_lingering k s)
  else
    let limit := write_limit sl in
    if (limit =? 0)%Z then Some (upd_slot k pause s)
    else
      match ConnSlot.stream sl with
      | None => Some (close_connection k s)
      | Some _ =>
          if (Z.of_nat (length (response h)) <? sent)%Z then None
          else
            let remaining := (Z.of_nat (length (response h)) - sent)%Z in
            match wr with
            | WWouldBlock => Some s
            | WErr => Some (close_connection k s)
            | WOk n =>
                let n := Z.min (Z.of_nat n) (Z.min limit remaining) in
                let '(sl', thr) := account_sent n sl (throttles s) in
                let s := s <| stats := (stats s) <| st_bytes_sent :=
                                 wrap_u64 (st_bytes_sent (stats s) + n) |> |>
                           <| throttles := thr |> in
                if (response_len <=? bytes_sent (ConnSlot.http sl'))%Z then
                  Some (transition_to_lingering k (s <| conns := <[k := sl']> (conns s) |>))
                else
                  Some (s <| conns := <[k := reregister WRITABLE sl']> (conns s) |>)
            end
      end.

(** *** handle_pause, handle_linger *)

Definition resume_sending (thr : option ThrottleTable) (sl : ConnSlot.t) : ConnSlot.t :=
  let ct := ConnSlot.throttle sl in
  let ct := match thr with
            | Some t => ct <| ConnThrottle.max_limit := fair_share_for (ConnThrottle.tnums ct) t |>
            | None => ct
            end in
  sl <| ConnSlot.throttle := ct <| ConnThrottle.pause_until := None |> |>
     <| ConnSlot.state := Sending |>.

Definition handle_pause (wr : WriteResult) (k : nat) (s : Server) : option Server :=
  sl ← conns s !! k;
  let waiting := match ConnThrottle.pause_until (ConnSlot.throttle sl) with
                 | Some deadline => (clock <? deadline)%Z
                 | None => false
                 end in
  if waiting then Some s
  else
    let s := upd_slot k (resume_sending (throttles s)) s in
    match ConnSlot.stream sl with
    | Some _ => handle_send wr k (upd_slot k (register WRITABLE) s)
    | None => Some (close_connection k s)
    end.

(** Whatever the read returns, the connection is closed. *)
Definition handle_linger (k : nat) (s : Server) : Server := close_connection k s.
End Handlers.
