(* ===== verification/Dispatch.v ===== *)
(** * Request dispatch (rust/crates/thttpd-core/src/eventloop.rs: handle_accept,
      handle_read, process_request, serve_static, dispatch_cgi and the loop
      body of [run])

    Built on the handlers of [EventLoop]; [None] is a Rust panic. *)

From S2P Require Import Prelude RustStr Match Tdate Url Request HttpConn Response Wire.
From S2P Require Import Timers Mime Mmc Throttle Auth Cgi Dirlist Server EventLoop.

(** Messages of the error pages. *)
Definition not_found_form : bytes :=
  B "The requested URL '%.80s' was not found on this server." ++ [LF].
Definition unusual_form : bytes :=
  B "There was an unusual problem serving the requested URL '%.80s'." ++ [LF].
Definition not_accessible_form : bytes :=
  B "The requested URL '%.80s' is not accessible." ++ [LF].
Definition pathinfo_form : bytes :=
  B "The requested URL '%.80s' resolves to a file plus CGI-style pathinfo, but the file is not a valid CGI file."
  ++ [LF].
Definition outside_form : bytes :=
  B "The requested URL '%.80s' resolves to a file outside the permitted web server directory tree."
  ++ [LF].
Definition world_readable_form : bytes :=
  B "The requested URL '%.80s' resolves to a file that is not world-readable." ++ [LF].
Definition executable_form : bytes :=
  B "The requested URL '%.80s' resolves to a file which is marked executable but is not a CGI file; retrieving it is forbidden."
  ++ [LF].
Definition method_form : bytes :=
  B "The requested method '%.80s' is not implemented by this server." ++ [LF].
Definition too_many_cgis_form : bytes :=
  B "Too many concurrent CGI requests. Please try again later." ++ [LF].

(** ** Parsing the request *)

(** The bytes of the request, its first line and what follows it. *)
Definition request_bytes (h : HttpConn) : bytes := take (checked_idx h) (read_buf h).

Definition first_line (h : HttpConn) : bytes :=
  let buf := request_bytes h in
  let e := unwrap_or (length buf) (position (fun b => b =c? CR) buf) in
  from_utf8_lossy (take e buf).

Definition header_bytes (h : HttpConn) : bytes :=
  let buf := request_bytes h in
  match position (fun b => b =c? LF) buf with
  | Some p => drop (S p) buf
  | None => buf
  end.

Definition request_words (h : HttpConn) : list bytes := split_whitespace (first_line h).

(** The [Range] header: [bytes=N-M]. *)
Definition parse_range (range_str : bytes) (h : HttpConn) : HttpConn :=
  if contains_char ","%char range_str then h
  else match split_once "="%char range_str with
  | None => h
  | Some (_, range_spec) =>
      match split_once "-"%char range_spec with
      | None => h
      | Some (first_str, rest) =>
          if is_empty first_str then h
          else match parse_i 64 first_str with
          | None => h
          | Some first =>
              let h := h <| got_range := true |>
                         <| first_byte_index := (if first <? 0 then 0 else first)%Z |> in
              if is_empty rest then h
              else match parse_i 64 rest with
                   | Some last => h <| last_byte_index := (if last <? 0 then -1 else last)%Z |>
                   | None => h
                   end
          end
      end
  end.

Section Dispatch.
Context `{!World}.

(** The request line and the fields derived from it. *)
Definition parse_request_line (h : HttpConn) : option HttpConn :=
  let words := request_words h in
  let url := unwrap_or (B "/") (words !! 1) in
  let version := words !! 2 in
  let version_str := unwrap_or (B "HTTP/0.9") version in
  let has_version := is_some version in
  host_h ← extract_header (header_bytes h) (B "Host");
  m ← parse_method (read_buf h) (checked_idx h);
  let decoded := percent_decode url in
  let h := h <| method := m |> <| http_version := version_str |>
    <| one_one := has_version && negb (is_empty version_str)
                  && negb (eq_ignore_ascii_case version_str (B "HTTP/1.0")) |>
    <| encoded_url := url |> <| host := unwrap_or [] host_h |>
    <| mime_flag := has_version |> <| decoded_url := decoded |> in
  Some match split_once "?"%char decoded with
       | Some (path, q) => h <| query := q |> <| decoded_url := path |>
       | None => h
       end.

Definition with_header (h0 : HttpConn) (name : string) (f : bytes -> HttpConn -> HttpConn)
    (h : HttpConn) : option HttpConn :=
  v ← extract_header (header_bytes h0) (B name);
  Some match v with Some x => f x h | None => h end.

Definition parse_headers (h : HttpConn) : option HttpConn :=
  h1 ← with_header h "If-Modified-Since" (fun v h => h <| if_modified_since := parse_http_date v |>) h;
  h2 ← with_header h "Range" parse_range h1;
  h3 ← with_header h "Content-Type" (fun v h => h <| content_type := v |>) h2;
  h4 ← with_header h "Content-Length" (fun v h => h <| content_length :=
         match parse_i 64 (trim v) with
         | Some z => if (0 <=? z)%Z then Some z else None
         | None => None
         end |>) h3;
  h5 ← with_header h "User-Agent" (fun v h => h <| user_agent := v |>) h4;
  h6 ← with_header h "Referer" (fun v h => h <| referer := v |>) h5;
  h7 ← with_header h "Accept" (fun v h => h <| accept := v |>) h6;
  h8 ← with_header h "Accept-Encoding" (fun v h => h <| accept_encoding := v |>) h7;
  h9 ← with_header h "Accept-Language" (fun v h => h <| accept_language := v |>) h8;
  h10 ← with_header h "Cookie" (fun v h => h <| cookie := v |>) h9;
  h11 ← with_header h "Authorization" (fun v h => h <| authorization := v |>) h10;
  with_header h "X-Forwarded-For" (fun v h =>
    let first := trim (unwrap_or [] (head (split_on ","%char v))) in
    if is_empty first then h else h <| x_forwarded_for := first |>) h11.

(** ** Resolving the path *)

(** [config.dir.join] of a request path that starts with a slash. *)
Definition disk_path (dir path : bytes) : bytes :=
  if bytes_eqb path (B "/") then path_join dir (B "index.html")
  else path_join dir (drop 1 path).

(** The longest prefix of [path] that exists on disk, with the rest as path
    info.  Each round strips a component, so the length of the path is enough
    fuel. *)
Fixpoint pathinfo_loop (fuel : nat) (full : bytes -> bytes) (path info : bytes) : bytes * bytes :=
  match fuel with
  | O => (path, info)
  | S n =>
      if path_exists (full path) then (path, info)
      else match rsplit_once "/"%char path with
           | Some (before, stripped) =>
               if is_empty before then (path, info)
               else pathinfo_loop n full before (B "/" ++ stripped ++ info)
           | None => (path, info)
           end
  end.

(** The CGI pattern is tried on the path and on its shorter prefixes. *)
Fixpoint cgi_prefix_loop (fuel : nat) (pattern test : bytes) : bool :=
  match fuel with
  | O => false
  | S n =>
      match rsplit_once "/"%char test with
      | Some (before, _) =>
          if is_empty before then false
          else match_pattern pattern before || cgi_prefix_loop n pattern before
      | None => false
      end
  end.

Definition is_cgi_path (cfg : ServerConfig.t) (orig : bytes) : bool :=
  match ServerConfig.cgi_pattern cfg with
  | Some pattern => match_pattern pattern orig || cgi_prefix_loop (length orig) pattern orig
  | None => false
  end.

(** ** serve_static *)

(** [Path::starts_with] compares components. *)
Definition path_starts_with (p root : bytes) : bool :=
  bool_decide (is_absolute p = is_absolute root) &&
  bool_decide (take (length (path_parts root)) (path_parts p) = path_parts root).

(** The outcome of the symlink check. *)
Inductive Resolved := Serve (path : bytes) | NoRoot | Outside.

Definition resolve_static (cfg : ServerConfig.t) (file_path : bytes) : Resolved :=
  if ServerConfig.no_symlink_check cfg then Serve file_path
  else match canonicalize (ServerConfig.dir cfg) with
       | None => NoRoot
       | Some root =>
           match canonicalize file_path with
           | Some canonical => if path_starts_with canonical root then Serve canonical else Outside
           | None => Serve file_path
           end
       end.

(** The status of a file whose metadata cannot be read. *)
Definition stat_error (not_found : bool) (path : bytes) : Z * bytes * bytes :=
  if not_found then (404%Z, B "Not Found", not_found_form)
  else if existsb (fun c => 255 <? length c) (path_parts path)
  then (500%Z, B "Internal Error", unusual_form)
  else (403%Z, B "Forbidden", not_accessible_form).

Definition realm_of (encoded_url : bytes) : bytes :=
  match rsplit_once "/"%char encoded_url with
  | Some (d, _) => trim_start_by (fun c => c =c? "/"%char) d
  | None => []
  end.

Definition encoding_headers (m : MimeInfo) : list (bytes * bytes) :=
  match encoding m with Some e => [(B "Content-Encoding", e)] | None => [] end.

(** [http.last_byte_index] of an open range. *)
Definition fill_last_byte (file_size : Z) (h : HttpConn) : HttpConn :=
  if got_range h && ((last_byte_index h =? -1) || (file_size <=? last_byte_index h))%Z
  then h <| last_byte_index := (file_size - 1)%Z |> else h.

(** The body of a GET: [data[start..end]] panics when [start > end]. *)
Definition static_body (h : HttpConn) (data : bytes) : option bytes :=
  if got_range h then
    let start := wrap_usize (first_byte_index h) in
    let end_ := wrap_usize (wrap_usize (last_byte_index h) + 1) in
    let n := Z.of_nat (length data) in
    if ((start <? n) && (end_ <=? n))%Z then
      if (end_ <? start)%Z then None
      else Some (take (Z.to_nat (end_ - start)) (drop (Z.to_nat start) data))
    else Some data
  else Some data.

Definition static_header (st : Z) (text : bytes) (path : bytes) (len mtime : Z) (h : HttpConn) : bytes :=
  let mi := figure_mime (from_utf8_lossy path) in
  build_full_response now_ts h st text (mime_type_of mi) len mtime (encoding_headers mi).

(** The admission of a static request: [None] is a rejection. *)
Definition admit_static (k : nat) (request_path : bytes) (s : Server) : bool * Server :=
  match throttles s with
  | None => (true, s)
  | Some t =>
      match check_request (throttle_match_path request_path) t with
      | (Allow tnums max_l min_l, t') =>
          (true, upd_throttle k (fun ct => ct <| ConnThrottle.tnums := tnums |>
                   <| ConnThrottle.max_limit := max_l |> <| ConnThrottle.min_limit := min_l |>)
                   (s <| throttles := Some t' |>))
      | (Reject, t') => (false, s <| throttles := Some t' |>)
      | (Unlimited, t') => (true, s <| throttles := Some t' |>)
      end
  end.

(** The part after the admission: HEAD, 304, or the mapped file. *)
Definition serve_file (k : nat) (path : bytes) (file_size file_mtime : Z) (s : Server) : option Server :=
  sl ← conns s !! k;
  let h := ConnSlot.http sl in
  let header_only st text len :=
    let r := if mime_flag h then static_header st text path len file_mtime h else [] in
    Some (transition_to_sending k
      (upd_http k (fun h => (set_response r h) <| HttpConn.status_code := st |>) s)) in
  let not_modified := match if_modified_since h with Some t => (file_mtime <=? t)%Z | None => false end in
  if bool_decide (method h = Method.Head) then header_only 200%Z (B "OK") file_size
  else if not_modified then header_only 304%Z (B "Not Modified") (-1)%Z
  else
    let '(res, m') := Mmc.map (open_file path) (mmap_ok path) clock (mmc s) in
    let s := s <| mmc := m' |> in
    match res with
    | inl f =>
        b ← static_body h (mapping f);
        let hdr := static_header 200 (B "OK") path file_size file_mtime h in
        let r := if mime_flag h then hdr ++ b else b in
        Some (transition_to_sending k
          (upd_http k (fun h => (set_response r h) <| file_address := Some f |>
             <| response_header_len := (if mime_flag h then length hdr else 0) |>
             <| bytes_sent := 0%Z |>
             <| HttpConn.status_code := (if got_range h then 206 else 200)%Z |>) s))
    | inr _ =>
        Some (send_error k 404 (B "Not Found") not_found_form (encoded_url h) s)
    end.

Definition serve_regular (k : nat) (path : bytes) (md : Meta) (s : Server) : option Server :=
  sl ← conns s !! k;
  let h := ConnSlot.http sl in
  let url := encoded_url h in
  let forbidden form := Some (send_error k 403 (B "Forbidden") form url s) in
  if (Z.land (mode_bits md) 4 =? 0)%Z then forbidden world_readable_form
  else if negb (Z.land (mode_bits md) 1 =? 0)%Z then forbidden executable_form
  else if negb (is_empty (path_info h)) then forbidden pathinfo_form
  else
    let file_size := wrap_i64 (Dirlist.len md) in
    let s := upd_http k (fill_last_byte file_size) s in
    let request_path := orig_filename h in
    let '(admitted, s) := admit_static k request_path s in
    let checked := upd_throttle k (fun ct => ct <| ConnThrottle.checked := true |>) in
    if negb admitted then
      Some (transition_to_sending k (checked
        (upd_http k (fun h => (set_response (error_response 503 (B "Service Unavailable")
            over_limit_form request_path [] h) h) <| HttpConn.status_code := 503%Z |>) s)))
    else serve_file k path file_size (Dirlist.mtime md) (checked s).

Definition serve_directory (k : nat) (path : bytes) (md : Meta) (s : Server) : option Server :=
  sl ← conns s !! k;
  let h := ConnSlot.http sl in
  match generate_listing now_ts (list_dir path) (orig_filename h) with
  | Some page =>
      Some (send_response k (fun h =>
        if mime_flag h
        then build_full_response now_ts h 200 (B "OK") (B "text/html") (-1) (Dirlist.mtime md) [] ++ page
        else page) s)
  | None => Some (send_error k 500 (B "Internal Error") unusual_form (from_utf8_lossy path) s)
  end.

Definition serve_static (k : nat) (file_path : bytes) (s : Server) : option Server :=
  let s := upd_http k (fun h => h <| charset := ServerConfig.charset (config s) |>) s in
  sl ← conns s !! k;
  let h := ConnSlot.http sl in
  let url := encoded_url h in
  match resolve_static (config s) file_path with
  | NoRoot => Some (send_error k 500 (B "Internal Error") unusual_form
                      (from_utf8_lossy (ServerConfig.dir (config s))) s)
  | Outside => Some (send_error k 403 (B "Forbidden") outside_form url s)
  | Serve path =>
      match stat_file path with
      | inr not_found =>
          let '(st, title, form) := stat_error not_found path in
          Some (send_error k st title form url s)
      | inl md =>
          match auth_check2 path (authorization h) with
          | Unauthorized =>
              Some (send_response k (error_response 401 ERR_401_TITLE ERR_401_FORM url
                [(B "WWW-Authenticate", B "Basic realm=" ++ q (realm_of url))]) s)
          | Forbidden => Some (send_error k 403 (B "Forbidden") not_accessible_form url s)
          | NoAuthFile | AuthOk =>
              if Dirlist.is_dir md then serve_directory k path md s
              else serve_regular k path md s
          end
      end
  end.

(** ** dispatch_cgi *)

(** The script of a CGI request: the longest existing prefix, or the whole
    path when there is none. *)
Fixpoint cgi_script_loop (fuel : nat) (dir orig path info : bytes) : bytes * bytes :=
  match fuel with
  | O => (orig, [])
  | S n =>
      if path_exists (path_join dir (drop 1 path)) then (path, info)
      else match rsplit_once "/"%char path with
           | Some (before, stripped) =>
               if is_empty before then (orig, [])
               else cgi_script_loop n dir orig before (B "/" ++ stripped ++ info)
           | None => (orig, [])
           end
  end.

Definition cgi_script (dir : bytes) (h : HttpConn) : bytes * bytes :=
  let orig := orig_filename h in
  if is_empty (path_info h) then cgi_script_loop (S (length orig)) dir orig orig []
  else (orig, path_info h).

Definition cut_port (s : bytes) : bytes :=
  match rsplit_once ":"%char s with Some (ip, _) => ip | None => s end.

Definition cgi_headers (h : HttpConn) : gmap (list ascii) bytes :=
  let add name v (m : gmap (list ascii) bytes) := if is_empty v then m else <[name := v]> m in
  add (B "Cookie") (cookie h) (add (B "Accept-Language") (accept_language h)
    (add (B "Accept-Encoding") (accept_encoding h) (add (B "Accept") (accept h)
      (add (B "Referer") (referer h) (add (B "User-Agent") (user_agent h)
        (if is_empty (host h) then ∅ else <[B "Host" := cut_port (host h)]> ∅)))))).

Definition cgi_remote_addr (sl : ConnSlot.t) : bytes :=
  let h := ConnSlot.http sl in
  if negb (is_empty (x_forwarded_for h)) then x_forwarded_for h
  else
    let peer := match ConnSlot.peer_addr sl with Some (_, full) => full | None => [] end in
    let without_port := trim_end_by (fun c => c =c? "]"%char)
                          (trim_start_by (fun c => c =c? "["%char) (cut_port peer)) in
    unwrap_or without_port (strip_prefix (B "::ffff:") without_port).

Definition cgi_context (cfg : ServerConfig.t) (sl : ConnSlot.t) (script info : bytes) : CgiContext :=
  let h := ConnSlot.http sl in
  let some_if s := if is_empty s then None else Some s in
  mkCgi (B "sthttpd/2.27.0 03oct2014") hostname (B "CGI/1.1") (B "HTTP/1.0")
    (ServerConfig.port cfg) (Method.as_str (method h)) script (query h) (cgi_remote_addr sl)
    (some_if (content_type h)) (content_length h) (cgi_headers h) (some_if info)
    (if is_empty info then None
     else Some (from_utf8_lossy (path_join (ServerConfig.dir cfg) (drop 1 info))))
    None None.

(** Whether the request body has not arrived completely. *)
Definition body_missing (h : HttpConn) : bool :=
  match content_length h with
  | Some cl => (0 <? cl)%Z && (Z.of_nat (read_idx h) <? wrap_usize (Z.of_nat (checked_idx h) + cl))%Z
  | None => false
  end.

(** Everything buffered after the header, once [Content-Length] bytes are. *)
Definition post_body (h : HttpConn) : option bytes :=
  cl ← content_length h;
  if (wrap_usize (Z.of_nat (checked_idx h) + cl) <=? Z.of_nat (read_idx h))%Z
  then Some (take (read_idx h - checked_idx h) (drop (checked_idx h) (read_buf h)))
  else None.

(** The response made of the output of a script. *)
Definition cgi_response (script output : bytes) : bytes :=
  if is_nph_script script then output
  else let '(st, text) := extract_cgi_status output in
       B "HTTP/1.0 " ++ show_Z st ++ B " " ++ text ++ CRLF ++ output.

Definition add_cgis (n : Z) (s : Server) : Server := s <| active_cgis := wrap_i32 (active_cgis s + n) |>.

(** The admission of a script against the throttle table. *)
Definition admit_cgi (k : nat) (script : bytes) (s : Server) : bool * Server :=
  match throttles s with
  | None => (true, s)
  | Some t =>
      match check_request (throttle_match_path script) t with
      | (Reject, t') => (false, s <| throttles := Some t' |>)
      | (Allow tnums _ _, t') =>
          (true, upd_throttle k (fun ct => ct <| ConnThrottle.tnums := tnums |>)
                   (s <| throttles := Some t' |>))
      | (Unlimited, t') => (true, s <| throttles := Some t' |>)
      end
  end.

(** The charge of a finished script ([charge] bytes) and the release of its
    throttle entries. *)
Definition settle_cgi (k : nat) (charge : option Z) (s : Server) : Server :=
  match conns s !! k with
  | None => s
  | Some sl =>
      let ct := ConnSlot.throttle sl in
      if ConnThrottle.is_throttled ct then
        let tnums := ConnThrottle.tnums ct in
        let charged t := match charge with Some n => add_bytes tnums n t | None => t end in
        upd_throttle k ConnThrottle.reset
          (s <| throttles := (fun t => clear tnums (charged t)) <$> throttles s |>)
      else s
  end.

Definition execute_script (k : nat) (script info : bytes) (s : Server) : option Server :=
  sl ← conns s !! k;
  let cfg := config s in
  let resolved_path := path_join (ServerConfig.dir cfg) (drop 1 script) in
  let workdir := unwrap_or (ServerConfig.dir cfg) (head (ancestors resolved_path)) in
  let env := build_envp (cgi_context cfg sl script info) script
               (unwrap_or [] (ServerConfig.cgi_pattern cfg)) in
  let s := upd_slot k (fun sl => sl <| ConnSlot.is_cgi := true |>) s in
  match run_cgi resolved_path workdir env (post_body (ConnSlot.http sl)) with
  | Some output =>
      let s := settle_cgi k (Some CGI_BYTECOUNT) (add_cgis (-1) s) in
      Some (send_response k (fun _ => cgi_response resolved_path output) s)
  | None =>
      let s := settle_cgi k None (add_cgis (-1) s) in
      Some (send_error k 500 (B "Internal Error") unusual_form (encoded_url (ConnSlot.http sl)) s)
  end.

(** The script found for the request [h]: missing, over its limit, or run. *)
Definition resolve_script (k : nat) (h : HttpConn) (s : Server) : option Server :=
  let '(script, info) := cgi_script (ServerConfig.dir (config s)) h in
  let s := upd_http k (fun h => h <| path_info := info |>) s in
  let resolved_path := path_join (ServerConfig.dir (config s)) (drop 1 script) in
  if negb (path_exists resolved_path) || path_is_dir resolved_path then
    Some (send_error k 404 (B "Not Found") not_found_form (encoded_url h) (add_cgis (-1) s))
  else
    let '(admitted, s) := admit_cgi k script s in
    if negb admitted then
      Some (send_error k 503 (B "Service Unavailable") over_limit_form (encoded_url h) (add_cgis (-1) s))
    else execute_script k script info s.

Definition dispatch_cgi (k : nat) (s : Server) : option Server :=
  let s := upd_http k (fun h => h <| charset := ServerConfig.charset (config s) |>) s in
  sl ← conns s !! k;
  let h := ConnSlot.http sl in
  let url := encoded_url h in
  if body_missing h then
    Some (upd_slot k (fun sl => sl <| ConnSlot.pending_cgi_body := true |>) s)
  else if ((0 <? cgi_limit s) && (cgi_limit s <=? active_cgis s))%Z then
    Some (send_error k 503 (B "Service Unavailable") too_many_cgis_form url s)
  else
    resolve_script k h (add_cgis 1 s).

(** ** process_request *)

(** The virtual host directory, the host in lower case. *)
Definition apply_vhost (cfg : ServerConfig.t) (h : HttpConn) (file_path : bytes) : HttpConn * bytes :=
  if ServerConfig.vhost cfg && negb (is_empty (host h)) then
    let hostdir := to_lowercase (host h) in
    let new_orig := B "/" ++ hostdir ++ orig_filename h in
    (h <| orig_filename := new_orig |> <| vhost_dir := hostdir |>,
     disk_path (ServerConfig.dir cfg) new_orig)
  else (h, file_path).

Definition apply_pathinfo (cfg : ServerConfig.t) (h : HttpConn) : HttpConn :=
  if ServerConfig.vhost cfg && negb (is_empty (vhost_dir h)) then h
  else
    let orig := orig_filename h in
    let '(path, info) := pathinfo_loop (S (length orig)) (disk_path (ServerConfig.dir cfg)) orig [] in
    if is_empty info then h else h <| path_info := info |> <| orig_filename := path |>.

(** A CGI program, path info that leads to none, or a file. *)
Definition serve_path (k : nat) (h : HttpConn) (file_path : bytes) (s : Server) : option Server :=
  if is_cgi_path (config s) (orig_filename h) then dispatch_cgi k s
  else if negb (is_empty (path_info h)) then
    Some (send_error k 403 (B "Forbidden") pathinfo_form (encoded_url h) s)
  else serve_static k file_path s.

Definition route_request (k : nat) (normalized : bytes) (s : Server) : option Server :=
  sl ← conns s !! k;
  let cfg := config s in
  let file_path := disk_path (ServerConfig.dir cfg) normalized in
  let h := (ConnSlot.http sl) <| orig_filename := normalized |> in
  let '(h, file_path) := apply_vhost cfg h file_path in
  let h := apply_pathinfo cfg h in
  serve_path k h file_path (upd_http k (fun _ => h) s).

(** The target of the request, once the headers are parsed. *)
Definition process_target (k : nat) (h : HttpConn) (s : Server) : option Server :=
  if MAX_URL_LENGTH <? length (encoded_url h) then
    Some (send_error k 500 (B "Internal Error") unusual_form (encoded_url h) s)
  else
    let decoded := decoded_url h in
    match normalize_path decoded with
    | None =>
        if contains_sub (B "//") decoded
        then Some (send_error k 400 (B "Bad Request") bad_request_form decoded s)
        else Some (send_error k 404 (B "Not Found") not_found_form decoded s)
    | Some normalized => route_request k normalized s
    end.

Definition process_request (k : nat) (s : Server) : option Server :=
  sl ← conns s !! k;
  h ← parse_request_line (ConnSlot.http sl);
  let s := upd_http k (fun _ => h) s in
  if one_one h && is_empty (host h) then
    Some (send_error k 400 (B "Bad Request") bad_request_form (http_version h) s)
  else if bool_decide (method h = Method.Unknown) then
    Some (send_error k 501 (B "Not Implemented") method_form
            (unwrap_or (B "UNKNOWN") (head (request_words h))) s)
  else
    h ← parse_headers h;
    process_target k h (upd_http k (fun _ => h) s).

(** ** handle_read *)

Inductive ReadResult := ROk (data : bytes) | RWouldBlock | RErr.

(** [stream.read(&mut http.read_buf[http.read_idx..])]: at most what fits. *)
Definition store_read (data : bytes) (h : HttpConn) : HttpConn :=
  let data := take (READ_BUF_SIZE - read_idx h) data in
  h <| read_buf := take (read_idx h) (read_buf h) ++ data
                   ++ drop (read_idx h + length data) (read_buf h) |>
    <| read_idx := read_idx h + length data |>.

Definition send_bad_request (k : nat) : Server -> Server :=
  send_response k (fun h => build_error_response 400 (B "Bad Request") [] (Some (user_agent h))).

Definition handle_read (rr : ReadResult) (k : nat) (s : Server) : option Server :=
  sl ← conns s !! k;
  if READ_BUF_SIZE - read_idx (ConnSlot.http sl) =? 0 then Some (send_bad_request k s)
  else
    match ConnSlot.stream sl, rr with
    | None, _ => Some (close_connection k s)
    | _, RWouldBlock => Some s
    | _, RErr => Some (close_connection k s)
    | _, ROk [] => Some (close_connection k s)
    | _, ROk data =>
        let h := store_read data (ConnSlot.http sl) in
        let s := upd_http k (fun _ => h) s in
        if ConnSlot.pending_cgi_body sl then
          if body_missing h then Some s
          else dispatch_cgi k (upd_slot k (fun sl => sl <| ConnSlot.pending_cgi_body := false |>) s)
        else
          '(result, checked, st) ← got_request (read_buf h) (checked_idx h) (read_idx h) (parse_state h);
          let s := upd_http k (fun h => h <| checked_idx := checked |> <| parse_state := st |>) s in
          match result with
          | GotRequest.NoRequest => Some s
          | GotRequest.BadRequest => Some (send_bad_request k s)
          | GotRequest.GotRequest => process_request k s
          end
    end.

(** ** Accepting, waking and the loop *)

(** One connection taken from a listener: the peer, and whether the stream
    could be registered with the poll. *)
Definition accept_one (s : Server) (conn : (bytes * bytes) * bool) : Server :=
  let '(peer, registered) := conn in
  if MAX_CONNECTIONS <=? base.size (conns s) then s
  else if registered then
    let sl := ConnSlot.new <| ConnSlot.state := Reading |>
                <| ConnSlot.stream := Some (Some READABLE) |>
                <| ConnSlot.http := HttpConn.new |>
                <| ConnSlot.peer_addr := Some peer |> in
    s <| conns := <[vacant_key (conns s) := sl]> (conns s) |>
      <| stats := (stats s) <| st_connections := wrap_u64 (st_connections (stats s) + 1) |> |>
  else s.

(** [handle_accept], on the connections the listener yields before it would
    block or fail. *)
Definition handle_accept (accepted : list ((bytes * bytes) * bool)) (s : Server) : Server :=
  if draining s then s else foldl accept_one s accepted.

Definition handle_connection_event (rr : ReadResult) (wr : WriteResult) (k : nat) (s : Server) :
    option Server :=
  match conns s !! k with
  | None => Some s
  | Some sl =>
      match ConnSlot.state sl with
      | Reading => handle_read rr k s
      | Sending => handle_send wr k s
      | Lingering => Some (handle_linger k s)
      | Pausing => handle_pause wr k s
      | Free => Some s
      end
  end.

Definition next_pause_deadline (s : Server) : option Z :=
  map_fold (fun _ sl acc =>
    if bool_decide (ConnSlot.state sl = Pausing) then
      match ConnThrottle.pause_until (ConnSlot.throttle sl) with
      | Some d => let left := Z.max 0 (d - clock) in
                  Some (match acc with Some a => Z.min a left | None => left end)
      | None => acc
      end
    else acc) None (conns s).

Definition next_throttle_deadline (last_update : Z) (s : Server) : option Z :=
  match throttles s with
  | Some _ => Some (Z.max 0 (THROTTLE_TIME * SEC - Z.max 0 (clock - last_update)))
  | None => None
  end.

(** A paused connection whose window is over, and its wake-up. *)
Definition pause_over (sl : ConnSlot.t) : bool :=
  match ConnThrottle.pause_until (ConnSlot.throttle sl) with
  | Some d => (d <=? clock)%Z
  | None => true
  end.

(** [resume_ready_paused_connections], on the keys it collected first. *)
Fixpoint resume_all (wr : nat -> WriteResult) (ready : list nat) (s : Server) : option Server :=
  match ready with
  | [] => Some s
  | k :: ready' =>
      match conns s !! k with
      | Some sl =>
          if bool_decide (ConnSlot.state sl = Pausing) then
            s' ← handle_pause (wr k) k s; resume_all wr ready' s'
          else resume_all wr ready' s
      | None => resume_all wr ready' s
      end
  end.

Definition ready_keys (s : Server) : list nat :=
  List.map fst (filter (fun '(_, sl) => ConnSlot.state sl = Pausing /\ pause_over sl = true)
             (map_to_list (conns s))).

Definition resume_ready_paused_connections (wr : nat -> WriteResult) (s : Server) : option Server :=
  resume_all wr (ready_keys s) s.

(** The wake-ups of the periodic throttle update. *)
Definition wake_slot (thr : option ThrottleTable) (sl : ConnSlot.t) : ConnSlot.t :=
  let ct := ConnSlot.throttle sl in
  if bool_decide (ConnSlot.state sl = Pausing) && ConnThrottle.is_throttled ct
     && is_some (ConnThrottle.pause_until ct) && pause_over sl
  then register WRITABLE (resume_sending thr sl) else sl.

Definition throttle_tick (s : Server) : Server :=
  let thr := update_averages <$> throttles s in
  s <| throttles := thr |> <| conns := wake_slot thr <$> conns s |>.

(** *** One iteration of [run] *)

(** What the iteration sees: SIGUSR1, the connections of each ready listener,
    the ready connections with the outcome of the read or write their handler
    makes, and the outcome of the writes of resumed connections. *)
Record Polled := mkPolled {
  got_usr1 : bool;
  accepted : list (list ((bytes * bytes) * bool));
  ready : list (nat * ReadResult * WriteResult);
  resumed : nat -> WriteResult;
}.

Definition start_drain (p : Polled) (s : Server) : Server :=
  if negb (draining s) && got_usr1 p then s <| draining := true |> else s.

Definition drained (s : Server) : bool := draining s && bool_decide (conns s = ∅).

(** How long the poll may block, in nanoseconds. *)
Definition poll_timeout (last_update : Z) (s : Server) : Z :=
  unwrap_or (60 * SEC)%Z
    (foldl (fun acc d => match acc, d with
                         | Some a, Some b => Some (Z.min a b)
                         | None, d => d
                         | a, None => a
                         end) None
       [Timers.next_deadline clock (timers s); next_pause_deadline s;
        next_throttle_deadline last_update s]).

Definition handle_ready (s : option Server) (ev : nat * ReadResult * WriteResult) : option Server :=
  let '(k, rr, wr) := ev in s ≫= handle_connection_event rr wr k.

Definition run_timers (s : Server) : option Server :=
  '(_, w) ← Timers.run (fun _ => clock) clock (timers s);
  Some (s <| timers := w |>).

Definition tick_if_due (last_update : Z) (s : Server) : Z * Server :=
  if (THROTTLE_TIME * SEC <=? Z.max 0 (clock - last_update))%Z
  then (clock, throttle_tick s) else (last_update, s).

(** The state after the iteration, and the time of the last throttle update. *)
Definition iteration (p : Polled) (last_update : Z) (s : Server) : option (Z * Server) :=
  let s := start_drain p s in
  if drained s then Some (last_update, s)
  else
    let s := foldl (fun s l => handle_accept l s) s (accepted p) in
    s ← foldl handle_ready (Some s) (ready p);
    s ← resume_ready_paused_connections (resumed p) s;
    s ← run_timers s;
    Some (tick_if_due last_update (s <| mmc := Mmc.cleanup clock (mmc s) |>)).
End Dispatch.
