(* ===== verification/Invariants.v ===== *)
(** * Invariants of the event loop

    The server state between two events: throttle counts match the open
    connections, every connection can still be woken, no CGI is active. *)

From S2P Require Import Prelude RustStr Match Tdate Url Request HttpConn Response Wire.
From S2P Require Import Mime Mmc Throttle Auth Cgi Dirlist Server EventLoop Dispatch.

Abbreviation tnums_of sl := (ConnThrottle.tnums (ConnSlot.throttle sl)).

(** How many connections hold throttle entry [i]. *)
Definition holding (i : nat) (c : gmap nat ConnSlot.t) : Z :=
  Z.of_nat (base.size (filter (fun p : nat * ConnSlot.t => i ∈ tnums_of p.2) c)).

Definition holds (i : nat) (sl : ConnSlot.t) : Z := if decide (i ∈ tnums_of sl) then 1 else 0.

Lemma holding_insert_new i c k sl :
  c !! k = None -> holding i (<[k := sl]> c) = (holding i c + holds i sl)%Z.
Proof.
  intros Hk. unfold holding, holds. rewrite map_filter_insert. cbn [snd].
  case_decide.
  - rewrite map_size_insert_None; [lia|]. apply map_lookup_filter_None. by left.
  - rewrite delete_id by done. lia.
Qed.

Lemma holding_delete i c k sl :
  c !! k = Some sl -> holding i (delete k c) = (holding i c - holds i sl)%Z.
Proof.
  intros Hk. rewrite <- (insert_delete_id c k sl Hk) at 2.
  rewrite holding_insert_new by apply lookup_delete_eq. lia.
Qed.

Lemma holding_insert i c k sl sl' :
  c !! k = Some sl -> holding i (<[k := sl']> c) = (holding i c - holds i sl + holds i sl')%Z.
Proof.
  intros Hk. rewrite <- insert_delete_eq, holding_insert_new by apply lookup_delete_eq.
  rewrite (holding_delete i c k sl Hk). done.
Qed.

Lemma holding_range i c : (0 <= holding i c <= Z.of_nat (base.size c))%Z.
Proof.
  unfold holding. pose proof (map_size_filter (fun p : nat * ConnSlot.t => i ∈ tnums_of p.2) c). lia.
Qed.

(** ** Conservation of throttle counts *)

Definition conserved (thr : option ThrottleTable) (c : gmap nat ConnSlot.t) : Prop :=
  match thr with
  | Some t => forall i e, t !! i = Some e -> num_sending e = holding i c
  | None => forall k sl, c !! k = Some sl -> tnums_of sl = []
  end.

Definition few (c : gmap nat ConnSlot.t) : Prop := base.size c <= MAX_CONNECTIONS.

Lemma conserved_counts_ok t c : conserved (Some t) c -> few c -> counts_ok t.
Proof.
  intros H Hf. apply Forall_lookup_2. intros i e Hi. rewrite (H i e Hi).
  pose proof (holding_range i c). unfold few, MAX_CONNECTIONS in Hf. lia.
Qed.

Lemma holds_eq i sl sl' : tnums_of sl' = tnums_of sl -> holds i sl' = holds i sl.
Proof. unfold holds. by intros ->. Qed.

(** Replacing a slot by one with the same entries. *)
Lemma conserved_same thr c k sl sl' :
  conserved thr c -> c !! k = Some sl -> tnums_of sl' = tnums_of sl ->
  conserved thr (<[k := sl']> c).
Proof.
  intros H Hk E. destruct thr as [t|]; simpl.
  - intros i e Hi. rewrite (holding_insert i c k sl sl' Hk), (holds_eq i sl sl' E), (H i e Hi). lia.
  - intros j x. destruct (decide (j = k)) as [->|Hne].
    + rewrite lookup_insert_eq. intros [= <-]. rewrite E. by apply (H k).
    + rewrite lookup_insert_ne by done. apply H.
Qed.

(** The effect of [check_request] on the counts. *)
Lemma check_request_effect f t :
  counts_ok t ->
  match check_request f t with
  | (Allow tn _ _, t') => t' = bump_at tn t /\ NoDup tn /\ tn <> []
  | (_, t') => t' = t
  end.
Proof.
  intros Hok. rewrite check_request_unfold by done. cbv zeta. destruct (existsb _ _); [done|].
  unfold verdict. pose proof (governing_NoDup f t) as Hnd.
  destruct (governing f t) as [|x g]; cbn [is_empty]; [done|]. done.
Qed.

Lemma conserved_admit t c k sl sl' tn :
  conserved (Some t) c -> counts_ok t -> NoDup tn -> c !! k = Some sl -> tnums_of sl = [] ->
  tnums_of sl' = tn -> conserved (Some (bump_at tn t)) (<[k := sl']> c).
Proof.
  intros H Hok Hnd Hk Hn E. simpl. intros i e. rewrite lookup_bump_at by done.
  rewrite (holding_insert i c k sl sl' Hk). unfold holds. rewrite Hn, E.
  rewrite (decide_False (P := i ∈ [])) by apply not_elem_of_nil.
  destruct (decide (i ∈ tn)) as [Hin|].
  - intros (e0 & Hi & ->)%fmap_Some. pose proof (Forall_lookup_1 _ _ _ _ Hok Hi) as Ho.
    rewrite bump_counts by done. simpl. rewrite (H i e0 Hi). lia.
  - intros Hi. rewrite (H i e Hi). lia.
Qed.

Lemma holds_le_holding i c k sl : c !! k = Some sl -> (holds i sl <= holding i c)%Z.
Proof.
  intros Hk. pose proof (holding_delete i c k sl Hk). pose proof (holding_range i (delete k c)). lia.
Qed.

Lemma clear_count t c k sl i e :
  conserved (Some t) c -> few c -> NoDup (tnums_of sl) -> c !! k = Some sl ->
  clear (tnums_of sl) t !! i = Some e -> num_sending e = (holding i c - holds i sl)%Z.
Proof.
  intros H Hf Hnd Hk. rewrite lookup_clear by done.
  pose proof (holds_le_holding i c k sl Hk) as Hle. pose proof (holding_range i c) as Hr.
  unfold holds, few, MAX_CONNECTIONS in *. destruct (decide (i ∈ tnums_of sl)) as [Hin|].
  - intros (e0 & Hi & ->)%fmap_Some. simpl. rewrite (H i e0 Hi), wrap_s_small by lia. lia.
  - intros Hi. rewrite (H i e Hi). lia.
Qed.

Lemma conserved_delete sl thr c k :
  conserved thr c -> few c -> NoDup (tnums_of sl) -> c !! k = Some sl ->
  conserved (release_throttle sl thr) (delete k c).
Proof.
  intros H Hf Hnd Hk. unfold release_throttle, ConnThrottle.is_throttled. destruct thr as [t|].
  - destruct (tnums_of sl) as [|x l] eqn:E; cbn [is_empty negb fmap option_fmap option_map].
    + simpl. intros i e Hi. rewrite (holding_delete i c k sl Hk), (H i e Hi). unfold holds.
      rewrite E, decide_False by apply not_elem_of_nil. lia.
    + rewrite <- E in *. simpl. intros i e Hi. rewrite (holding_delete i c k sl Hk).
      by eapply clear_count.
  - assert (Hd : conserved None (delete k c)).
    { simpl. intros j x. rewrite lookup_delete_Some. intros [_ Hj]. by apply (H j). }
    by destruct (negb _).
Qed.

(** Releasing the entries of a connection that stays open. *)
Lemma conserved_release t c k sl sl' :
  conserved (Some t) c -> few c -> NoDup (tnums_of sl) -> c !! k = Some sl ->
  tnums_of sl' = [] -> conserved (Some (clear (tnums_of sl) t)) (<[k := sl']> c).
Proof.
  intros H Hf Hnd Hk E. simpl. intros i e Hi. rewrite (holding_insert i c k sl sl' Hk).
  rewrite (clear_count t c k sl i e H Hf Hnd Hk Hi). unfold holds at 3.
  rewrite E, decide_False by apply not_elem_of_nil. lia.
Qed.

Lemma conserved_add_bytes t c tn n : conserved (Some t) c -> conserved (Some (add_bytes tn n t)) c.
Proof.
  intros H. simpl. intros i e (e0 & Hi & -> & _)%lookup_add_bytes_num. by apply H.
Qed.

Lemma conserved_averages thr c : conserved thr c -> conserved (update_averages <$> thr) c.
Proof.
  intros H. destruct thr as [t|]; [|done]. simpl. intros i e. unfold update_averages.
  rewrite list_lookup_fmap. intros (e0 & Hi & ->)%fmap_Some. exact (H i e0 Hi).
Qed.

(** ** Slots *)

(** The read indices are inside the buffer. *)
Definition buf_ok (h : HttpConn) : Prop :=
  length (read_buf h) = READ_BUF_SIZE /\ checked_idx h <= read_idx h <= READ_BUF_SIZE.

Definition response_ok (h : HttpConn) : Prop :=
  response_len h = length (response h) /\ (0 <= bytes_sent h)%Z.

(** What each state promises: the registration that will wake the connection
    (or the deadline, when it is paused), and the data the handler needs. *)
Definition slot_ok (sl : ConnSlot.t) : Prop :=
  NoDup (tnums_of sl) /\
  match ConnSlot.state sl with
  | Reading =>
      ConnSlot.stream sl = Some (Some READABLE) /\ tnums_of sl = [] /\
      ConnThrottle.checked (ConnSlot.throttle sl) = false /\ ConnSlot.is_cgi sl = false /\
      buf_ok (ConnSlot.http sl)
  | Sending => ConnSlot.stream sl = Some (Some WRITABLE) /\ response_ok (ConnSlot.http sl)
  | Pausing =>
      ConnSlot.stream sl = Some None /\
      is_some (ConnThrottle.pause_until (ConnSlot.throttle sl)) = true /\
      response_ok (ConnSlot.http sl)
  | Lingering => ConnSlot.stream sl = Some (Some READABLE)
  | Free => False
  end.

(** Everything but connection [k]. *)
Record inv_but (k : nat) (s : Server) : Prop := {
  ib_conserved : conserved (throttles s) (conns s);
  ib_few : few (conns s);
  ib_slots : forall j sl, j <> k -> conns s !! j = Some sl -> slot_ok sl;
}.

Record inv (s : Server) : Prop := {
  inv_conserved : conserved (throttles s) (conns s);
  inv_few : few (conns s);
  inv_slots : forall k sl, conns s !! k = Some sl -> slot_ok sl;
  inv_cgis : active_cgis s = 0%Z;
}.

Lemma inv_but_of s k : inv s -> inv_but k s.
Proof. intros [H1 H2 H3 _]. constructor; eauto. Qed.

Lemma few_insert c k sl sl' : few c -> c !! k = Some sl -> few (<[k := sl']> c).
Proof. unfold few. intros H Hk. by rewrite map_size_insert_Some by (by eexists). Qed.

Lemma few_delete c k : few c -> few (delete k c).
Proof.
  unfold few. intros H. rewrite map_size_delete. destruct (c !! k); simpl; [|done].
  etransitivity; [apply Nat.le_pred_l|done].
Qed.

(** Rebuilding the invariant after slot [k] was replaced. *)
Lemma inv_insert k s s' sl' :
  inv_but k s -> active_cgis s' = 0%Z ->
  conns s' = <[k := sl']> (conns s) -> is_Some (conns s !! k) ->
  conserved (throttles s') (conns s') -> slot_ok sl' -> inv s'.
Proof.
  intros [_ Hf Hs] Ha Hc [sl Hk] Hcons Hok. constructor; [done|..|done].
  - rewrite Hc. by eapply few_insert.
  - intros j x. rewrite Hc. destruct (decide (j = k)) as [->|Hne].
    + rewrite lookup_insert_eq. by intros [= <-].
    + rewrite lookup_insert_ne by done. by apply Hs.
Qed.

(** The invariant without the slot at hand, and that slot. *)
Lemma inv_of_but k s sl :
  inv_but k s -> active_cgis s = 0%Z -> conns s !! k = Some sl -> slot_ok sl -> inv s.
Proof.
  intros [Hc Hf Hs] Ha Hk Hok. constructor; [done..| |done].
  intros j x Hj. destruct (decide (j = k)) as [->|]; [congruence|by eapply Hs].
Qed.

Lemma inv_but_frame k s s' :
  inv_but k s -> conns s' = conns s -> throttles s' = throttles s -> inv_but k s'.
Proof. intros [Hc Hf Hs] E1 E2. constructor; rewrite ?E1, ?E2; eauto. Qed.

Lemma inv_frame s s' :
  inv s -> conns s' = conns s -> throttles s' = throttles s -> active_cgis s' = active_cgis s -> inv s'.
Proof. intros [Hc Hf Hs Ha] E1 E2 E3. constructor; rewrite ?E1, ?E2, ?E3; eauto. Qed.

(** A slot that may start sending, once it has a response. *)
Record sendable (sl : ConnSlot.t) : Prop := {
  cs_stream : ConnSlot.stream sl = Some (Some READABLE);
  cs_nodup : NoDup (tnums_of sl);
  cs_fresh : ConnThrottle.checked (ConnSlot.throttle sl) = false -> ConnSlot.is_cgi sl = false ->
             tnums_of sl = [];
}.

Lemma alter_insert_Some {A} (f : A -> A) (m : gmap nat A) k x :
  m !! k = Some x -> alter f k m = <[k := f x]> m.
Proof.
  intros H. apply map_eq. intros j. destruct (decide (j = k)) as [->|Hne].
  - by rewrite lookup_alter_eq, lookup_insert_eq, H.
  - by rewrite lookup_alter_ne, lookup_insert_ne.
Qed.

(** Updating slot [k] without touching its entries. *)
Lemma upd_slot_but k f s sl :
  inv_but k s -> conns s !! k = Some sl -> tnums_of (f sl) = tnums_of sl ->
  inv_but k (upd_slot k f s) /\ conns (upd_slot k f s) !! k = Some (f sl).
Proof.
  intros [Hc Hf Hs] Hk E. unfold upd_slot. rewrite (alter_insert_Some f _ k sl Hk).
  split; [|apply lookup_insert_eq]. constructor; simpl.
  - by eapply conserved_same.
  - by eapply few_insert.
  - intros j x Hj. rewrite lookup_insert_ne by done. by apply Hs.
Qed.

Section Steps.
Context {W : World}.

Lemma fill_header_len_keeps sl :
  tnums_of (fill_header_len sl) = tnums_of sl /\
  ConnSlot.stream (fill_header_len sl) = ConnSlot.stream sl /\
  ConnSlot.throttle (fill_header_len sl) = ConnSlot.throttle sl /\
  ConnSlot.is_cgi (fill_header_len sl) = ConnSlot.is_cgi sl /\
  response (ConnSlot.http (fill_header_len sl)) = response (ConnSlot.http sl) /\
  response_len (ConnSlot.http (fill_header_len sl)) = response_len (ConnSlot.http sl).
Proof.
  unfold fill_header_len. destruct (_ && _ && _); [|done].
  by destruct (header_end_offset _).
Qed.

Lemma begin_sending_tnums d sl :
  tnums_of (begin_sending d sl) = match d with Allow tn _ _ => tn | _ => tnums_of sl end.
Proof.
  unfold begin_sending, reregister.
  destruct (_ && _), d; cbn; by destruct (ConnSlot.stream sl) as [[]|].
Qed.

(** The slot after [begin_sending]. *)
Lemma begin_sending_ok d sl :
  ConnSlot.stream sl = Some (Some READABLE) ->
  response_len (ConnSlot.http sl) = length (response (ConnSlot.http sl)) ->
  NoDup (match d with Allow tn _ _ => tn | _ => tnums_of sl end) ->
  slot_ok (begin_sending d sl).
Proof.
  intros Hs Hr Hnd. unfold slot_ok. rewrite begin_sending_tnums. split; [done|].
  unfold begin_sending, reregister.
  destruct (_ && _), d; cbn in *; rewrite Hs; cbn; repeat split; try done; try lia.
Qed.

Lemma admit_sending_conserved k s sl d thr sl' :
  inv_but k s -> conns s !! k = Some sl ->
  (ConnThrottle.checked (ConnSlot.throttle sl) = false -> ConnSlot.is_cgi sl = false ->
   tnums_of sl = []) ->
  NoDup (tnums_of sl) ->
  admit_sending sl (throttles s) = (d, thr) ->
  tnums_of sl' = match d with Allow tn _ _ => tn | _ => tnums_of sl end ->
  conserved thr (<[k := sl']> (conns s)) /\
  NoDup (match d with Allow tn _ _ => tn | _ => tnums_of sl end).
Proof.
  intros [Hc Hf _] Hk Hfresh Hnd. unfold admit_sending.
  destruct (ConnSlot.is_cgi sl); [|destruct (ConnThrottle.checked (ConnSlot.throttle sl))]; cbn [negb andb].
  - intros [= <- <-] E. split; [|done]. by eapply conserved_same.
  - intros [= <- <-] E. split; [|done]. by eapply conserved_same.
  - specialize (Hfresh eq_refl eq_refl). destruct (throttles s) as [t|].
    + pose proof (conserved_counts_ok t _ Hc Hf) as Hok.
      pose proof (check_request_effect
        (throttle_match_path (orig_filename (ConnSlot.http sl))) t Hok) as He.
      destruct (check_request _ t) as [d' t']. intros [= -> <-] E. destruct d.
      * subst t'. split; [|done]. by eapply conserved_same.
      * destruct He as (-> & Hn & _). split; [|done]. by eapply conserved_admit.
      * subst t'. split; [|done]. by eapply conserved_same.
    + intros [= <- <-] E. split; [|done]. by eapply conserved_same.
Qed.

Lemma transition_to_sending_inv k s sl :
  inv_but k s -> active_cgis s = 0%Z -> conns s !! k = Some sl -> sendable sl ->
  response_len (ConnSlot.http sl) = length (response (ConnSlot.http sl)) ->
  inv (transition_to_sending k s).
Proof.
  intros Hi Ha Hk [Hs Hnd Hfr] Hr. unfold transition_to_sending. rewrite Hk.
  destruct (fill_header_len_keeps sl) as (E1 & E2 & E3 & E4 & E5 & E6).
  destruct (admit_sending (fill_header_len sl) (throttles s)) as [d thr] eqn:Ea.
  assert (Ea' : admit_sending (fill_header_len sl) (throttles (s <| conns := <[k := fill_header_len sl]> (conns s) |>)) = (d, thr)) by done.
  set (s1 := s <| conns := <[k := fill_header_len sl]> (conns s) |>) in *.
  assert (Hi1 : inv_but k s1).
  { destruct Hi as [Hc Hf Hsl]. constructor.
    - by eapply conserved_same.
    - by eapply few_insert.
    - intros j x Hj. simpl. rewrite lookup_insert_ne by done. by apply Hsl. }
  assert (Hk1 : conns s1 !! k = Some (fill_header_len sl)) by apply lookup_insert_eq.
  assert (Hnd' : NoDup (match d with Allow tn _ _ => tn | _ => tnums_of (fill_header_len sl) end)).
  { eapply (admit_sending_conserved k s1); [exact Hi1|exact Hk1| |by rewrite E1|exact Ea'|
      apply begin_sending_tnums]. by rewrite E3, E4. }
  pose proof (begin_sending_tnums d (fill_header_len sl)) as Et.
  assert (Hok : slot_ok (begin_sending d (fill_header_len sl)))
    by (apply begin_sending_ok; [by rewrite E2|by rewrite E5, E6|done]).
  eapply (inv_insert k s1); [exact Hi1|done| |by eexists| |exact Hok].
  - simpl. by rewrite insert_insert_eq.
  - simpl. rewrite <- (insert_insert_eq (conns s) k _ (fill_header_len sl)).
    eapply (admit_sending_conserved k s1); [done|exact Hk1| |by rewrite E1|exact Ea'|exact Et].
    by rewrite E3, E4.
Qed.

Lemma upd_http_but k f s sl :
  inv_but k s -> conns s !! k = Some sl ->
  inv_but k (upd_http k f s) /\
  conns (upd_http k f s) !! k = Some (sl <| ConnSlot.http := f (ConnSlot.http sl) |>).
Proof.
  intros Hi Hk. unfold upd_http.
  pose proof (upd_slot_but k (fun sl => sl <| ConnSlot.http := f (ConnSlot.http sl) |>) s sl Hi Hk) as H'.
  by destruct (H' eq_refl) as [H1 H2].
Qed.

(** Every answer that goes through [send_response] restores the invariant. *)
Lemma send_response_inv k r s sl :
  inv_but k s -> active_cgis s = 0%Z -> conns s !! k = Some sl -> sendable sl ->
  inv (send_response k r s).
Proof.
  intros Hi Ha Hk Hs. unfold send_response.
  destruct (upd_http_but k (fun h => set_response (r h) h) s sl Hi Hk) as [Hi' Hk'].
  eapply transition_to_sending_inv; [exact Hi'|done|exact Hk'| |done].
  destruct Hs. by constructor.
Qed.

Lemma send_error_inv k st title form arg s sl :
  inv_but k s -> active_cgis s = 0%Z -> conns s !! k = Some sl -> sendable sl ->
  inv (send_error k st title form arg s).
Proof. intros. by eapply send_response_inv. Qed.

Lemma reading_sendable sl : slot_ok sl -> ConnSlot.state sl = Reading -> sendable sl.
Proof. intros [Hn H] E. rewrite E in H. destruct H as (H1 & H2 & H3 & H4 & _). by constructor. Qed.

Lemma close_connection_inv k s sl :
  inv_but k s -> active_cgis s = 0%Z -> conns s !! k = Some sl -> NoDup (tnums_of sl) ->
  inv (close_connection k s).
Proof.
  intros [Hc Hf Hs] Ha Hk Hn. unfold close_connection. rewrite Hk. constructor; simpl; [..|done].
  - by apply conserved_delete.
  - by apply few_delete.
  - intros j x. rewrite lookup_delete_Some. intros [Hne Hj]. by eapply Hs.
Qed.

Lemma transition_to_lingering_inv k s sl r :
  inv_but k s -> active_cgis s = 0%Z -> conns s !! k = Some sl -> NoDup (tnums_of sl) ->
  ConnSlot.stream sl = Some (Some r) -> inv (transition_to_lingering k s).
Proof.
  intros Hi Ha Hk Hn Hst. unfold transition_to_lingering. rewrite Hk.
  eapply (inv_insert k s); [done|done|reflexivity|by eexists|..].
  - eapply conserved_same; [apply Hi|exact Hk|]. unfold reregister. cbn. by rewrite Hst.
  - unfold reregister, slot_ok. cbn. rewrite Hst. done.
Qed.

Lemma account_sent_facts n sl thr sl' thr' :
  account_sent n sl thr = (sl', thr') ->
  tnums_of sl' = tnums_of sl /\ ConnSlot.stream sl' = ConnSlot.stream sl /\
  ConnSlot.state sl' = ConnSlot.state sl /\
  bytes_sent (ConnSlot.http sl') = (bytes_sent (ConnSlot.http sl) + n)%Z /\
  response (ConnSlot.http sl') = response (ConnSlot.http sl) /\
  response_len (ConnSlot.http sl') = response_len (ConnSlot.http sl) /\
  forall c, conserved thr c -> conserved thr' c.
Proof.
  unfold account_sent. destruct (_ && _); intros [= <- <-]; repeat split; try done.
  intros c. destruct thr; [|done]. apply conserved_add_bytes.
Qed.

(** [handle_send] on a sending connection always returns and keeps the
    invariant. *)
Lemma handle_send_inv wr k s sl :
  inv_but k s -> active_cgis s = 0%Z -> conns s !! k = Some sl ->
  ConnSlot.state sl = Sending -> slot_ok sl ->
  exists s', handle_send wr k s = Some s' /\ inv s'.
Proof.
  intros Hi Ha Hk Hst [Hnd Hok]. rewrite Hst in Hok. destruct Hok as [Hstr [Hlen Hpos]].
  unfold handle_send. rewrite Hk. cbn [mbind option_bind].
  destruct (Z.leb_spec (Z.of_nat (response_len (ConnSlot.http sl))) (bytes_sent (ConnSlot.http sl))) as [|Hlt].
  { eexists; split; [done|]. by eapply transition_to_lingering_inv. }
  destruct (write_limit sl =? 0)%Z.
  { eexists; split; [done|].
    assert (Hp : tnums_of (pause sl) = tnums_of sl) by (unfold pause, deregister; cbn; by rewrite Hstr).
    eapply (inv_insert k s _ (pause sl)); [done|done| |by eexists|..].
    - unfold upd_slot. simpl. by apply alter_insert_Some.
    - unfold upd_slot. simpl. rewrite (alter_insert_Some _ _ k sl Hk).
      eapply conserved_same; [apply Hi|exact Hk|done].
    - unfold slot_ok. rewrite Hp. unfold pause, deregister. cbn. rewrite Hstr. cbn. done. }
  rewrite Hstr. rewrite <- Hlen.
  destruct (Z.ltb_spec (Z.of_nat (response_len (ConnSlot.http sl))) (bytes_sent (ConnSlot.http sl))); [lia|].
  destruct wr as [n| |].
  - set (n' := Z.min (Z.of_nat n) _).
    destruct (account_sent n' sl (throttles s)) as [sl' thr] eqn:E.
    apply account_sent_facts in E as (E1 & E2 & E3 & E4 & E5 & E6 & E7).
    assert (0 <= n')%Z.
    { subst n'. unfold write_limit. destruct (_ && _); lia. }
    destruct (Z.leb_spec (Z.of_nat (response_len (ConnSlot.http sl))) (bytes_sent (ConnSlot.http sl'))).
    + eexists; split; [done|].
      eapply (transition_to_lingering_inv _ _ sl' WRITABLE); simpl; [|done|apply lookup_insert_eq|
        by rewrite E1|by rewrite E2].
      destruct Hi as [Hc Hf Hs]. constructor; simpl.
      * apply E7. by eapply conserved_same.
      * by eapply few_insert.
      * intros j x Hj. rewrite lookup_insert_ne by done. by apply Hs.
    + eexists; split; [done|].
      assert (Hr : tnums_of (reregister WRITABLE sl') = tnums_of sl)
        by (unfold reregister; by rewrite E2, Hstr).
      eapply (inv_insert k s); [done|done|reflexivity|by eexists|..].
      * simpl. apply E7. eapply conserved_same; [apply Hi|exact Hk|done].
      * unfold slot_ok. rewrite Hr. unfold reregister. rewrite E2, Hstr. cbn. rewrite E3, Hst.
        unfold response_ok. rewrite E4, E5, E6. repeat split; try done; lia.
  - exists s. split; [done|]. eapply inv_of_but; [done..|]. split; [done|]. by rewrite Hst.
  - eexists; split; [done|]. by eapply close_connection_inv.
Qed.

(** [handle_pause] on a paused connection always returns. *)
Lemma handle_pause_inv wr k s sl :
  inv s -> conns s !! k = Some sl -> ConnSlot.state sl = Pausing ->
  exists s', handle_pause wr k s = Some s' /\ inv s'.
Proof.
  intros Hi Hk Hst. pose proof (inv_slots _ Hi k sl Hk) as Hok. destruct Hok as [Hnd Hok].
  rewrite Hst in Hok. destruct Hok as (Hstr & Hpu & Hr). unfold handle_pause. rewrite Hk. cbn [mbind option_bind].
  destruct (match ConnThrottle.pause_until _ with Some _ => _ | None => _ end); [by eexists|].
  rewrite Hstr.
  destruct (upd_slot_but k (resume_sending (throttles s)) s sl) as [Hi1 Hk1];
    [by apply inv_but_of|done|by unfold resume_sending; destruct (throttles s)|].
  set (s1 := upd_slot k _ s) in *. set (sl1 := resume_sending _ sl) in *.
  assert (Hstr1 : ConnSlot.stream sl1 = Some None) by done.
  destruct (upd_slot_but k (register WRITABLE) s1 sl1 Hi1 Hk1) as [Hi2 Hk2].
  { unfold register. by rewrite Hstr1. }
  eapply handle_send_inv; [exact Hi2|apply (inv_cgis _ Hi)|exact Hk2|..];
    unfold register; rewrite Hstr1; [done|].
  split; [by subst sl1; unfold resume_sending; destruct (throttles s)|]. done.
Qed.

(** *** Reading *)

(** Connection [k] is being read. *)
Definition reading (k : nat) (s : Server) : Prop :=
  inv s /\ exists sl, conns s !! k = Some sl /\ ConnSlot.state sl = Reading.

Lemma reading_upd k f s :
  reading k s ->
  (forall sl, slot_ok sl -> ConnSlot.state sl = Reading ->
     slot_ok (f sl) /\ ConnSlot.state (f sl) = Reading /\ tnums_of (f sl) = tnums_of sl) ->
  reading k (upd_slot k f s).
Proof.
  intros [Hi (sl & Hk & Hst)] Hf.
  destruct (Hf sl (inv_slots _ Hi k sl Hk) Hst) as (Hok & Hst' & Ht).
  destruct (upd_slot_but k f s sl (inv_but_of s k Hi) Hk Ht) as [Hi' Hk'].
  split; [|by eexists]. eapply inv_of_but; [exact Hi'|apply (inv_cgis _ Hi)|exact Hk'|done].
Qed.

Lemma reading_upd_http k f s :
  reading k s -> (forall h, buf_ok h -> buf_ok (f h)) -> reading k (upd_http k f s).
Proof.
  intros Hr Hf. apply reading_upd; [done|]. intros sl [Hnd Hok] E. rewrite E in Hok.
  destruct Hok as (H1 & H2 & H3 & H4 & H5). split; [|done]. split; [done|]. cbn. rewrite E.
  repeat split; try done; by apply Hf.
Qed.

Lemma reading_send_response k r s : reading k s -> inv (send_response k r s).
Proof.
  intros [Hi (sl & Hk & Hst)]. pose proof (inv_slots _ Hi k sl Hk) as Hok.
  eapply send_response_inv; [by apply inv_but_of|apply Hi|exact Hk|by apply reading_sendable].
Qed.

Lemma reading_send_error k st title form arg s : reading k s -> inv (send_error k st title form arg s).
Proof. apply reading_send_response. Qed.

Lemma reading_close k s : reading k s -> inv (close_connection k s).
Proof.
  intros [Hi (sl & Hk & Hst)]. pose proof (inv_slots _ Hi k sl Hk) as [Hnd _].
  eapply close_connection_inv; [by apply inv_but_of|apply Hi|exact Hk|done].
Qed.

(** *** Static files *)

Lemma answer_with k f s sl :
  inv_but k s -> active_cgis s = 0%Z -> conns s !! k = Some sl -> sendable sl ->
  (forall h, response_len (f h) = length (response (f h))) ->
  inv (transition_to_sending k (upd_http k f s)).
Proof.
  intros Hi Ha Hk Hs Hf. destruct (upd_http_but k f s sl Hi Hk) as [Hi' Hk'].
  eapply transition_to_sending_inv; [exact Hi'|done|exact Hk'| |apply Hf].
  destruct Hs. by constructor.
Qed.

(** Storing the verdict of [check_request] in a connection without entries. *)
Lemma admitted_but k s sl t p d t' (f : ConnThrottle.t -> ConnThrottle.t) :
  inv_but k s -> throttles s = Some t -> conns s !! k = Some sl -> tnums_of sl = [] ->
  check_request p t = (d, t') ->
  match d with
  | Allow tn _ _ =>
      (forall ct, ConnThrottle.tnums (f ct) = tn) ->
      inv_but k (upd_throttle k f (s <| throttles := Some t' |>)) /\
      conns (upd_throttle k f (s <| throttles := Some t' |>)) !! k =
        Some (sl <| ConnSlot.throttle := f (ConnSlot.throttle sl) |>) /\ NoDup tn
  | _ => inv_but k (s <| throttles := Some t' |>)
  end.
Proof.
  intros [Hc Hf Hs] Ht Hk Hn Hd. rewrite Ht in Hc.
  pose proof (conserved_counts_ok t _ Hc Hf) as Hok.
  pose proof (check_request_effect p t Hok) as He. rewrite Hd in He.
  destruct d; [subst t'; by constructor| |subst t'; by constructor].
  destruct He as (-> & Hnd & _). intros Hft. unfold upd_throttle, upd_slot. simpl.
  rewrite (alter_insert_Some _ _ k sl Hk). split_and!; [|apply lookup_insert_eq|done].
  constructor; simpl.
  - eapply conserved_admit; [done..|]. apply Hft.
  - by eapply few_insert.
  - intros j x Hj. rewrite lookup_insert_ne by done. by apply Hs.
Qed.

(** A slot whose response may be prepared: readable, its entries distinct. *)
Definition held (k : nat) (s : Server) : Prop :=
  inv_but k s /\ active_cgis s = 0%Z /\
  exists sl, conns s !! k = Some sl /\ ConnSlot.stream sl = Some (Some READABLE) /\ NoDup (tnums_of sl).

Lemma held_upd_http k f s : held k s -> held k (upd_http k f s).
Proof.
  intros (Hi & Ha & sl & Hk & Hs & Hn). destruct (upd_http_but k f s sl Hi Hk) as [Hi' Hk'].
  split_and!; [done|done|]. eexists. split; [exact Hk'|done].
Qed.

(** Once marked as checked, a held connection can be answered. *)
Lemma held_checked k s :
  held k s -> exists sl,
    let s' := upd_throttle k (fun ct => ct <| ConnThrottle.checked := true |>) s in
    inv_but k s' /\ active_cgis s' = 0%Z /\ conns s' !! k = Some sl /\ sendable sl /\
    forall sl0, conns s !! k = Some sl0 -> ConnSlot.http sl = ConnSlot.http sl0.
Proof.
  intros (Hi & Ha & sl & Hk & Hs & Hn).
  pose proof (upd_slot_but k (fun sl => sl <| ConnSlot.throttle :=
    (ConnSlot.throttle sl) <| ConnThrottle.checked := true |> |>) s sl Hi Hk) as H.
  destruct (H eq_refl) as [Hi' Hk']. eexists. split_and!; [exact Hi'|done|exact Hk'|by constructor|].
  intros sl0. rewrite Hk. by intros [= <-].
Qed.

Lemma admit_static_held k p s b s' : reading k s -> admit_static k p s = (b, s') -> held k s'.
Proof.
  intros [Hi (sl & Hk & Hst)]. pose proof (inv_slots _ Hi k sl Hk) as [_ Hok]. rewrite Hst in Hok.
  destruct Hok as (Hs & Hn & _). pose proof (inv_but_of s k Hi) as Hb. pose proof (inv_cgis _ Hi) as Ha.
  unfold admit_static. destruct (throttles s) as [t|] eqn:Ht.
  - destruct (check_request _ t) as [d t'] eqn:Hd.
    assert (Hnd : NoDup (tnums_of sl)) by (rewrite Hn; constructor).
    destruct d as [|tn mx mn|]; intros [= <- <-].
    + pose proof (admitted_but k s sl t _ _ _ (fun ct => ct) Hb Ht Hk Hn Hd).
      split_and!; [done|done|by eexists].
    + pose proof (admitted_but k s sl t _ _ _ (fun ct => ct <| ConnThrottle.tnums := tn |>
        <| ConnThrottle.max_limit := mx |> <| ConnThrottle.min_limit := mn |>) Hb Ht Hk Hn Hd) as H.
      cbv beta iota in H. destruct (H (fun _ => eq_refl)) as (H1 & H2 & H3).
      split_and!; [exact H1|done|]. eexists. split; [exact H2|done].
    + pose proof (admitted_but k s sl t _ _ _ (fun ct => ct) Hb Ht Hk Hn Hd).
      split_and!; [done|done|by eexists].
  - intros [= <- <-]. split_and!; [done|done|]. exists sl. rewrite Hn. split_and!; [done|done|constructor].
Qed.

Lemma serve_file_inv k path size mt s sl s' :
  inv_but k s -> active_cgis s = 0%Z -> conns s !! k = Some sl -> sendable sl ->
  serve_file k path size mt s = Some s' -> inv s'.
Proof.
  intros Hi Ha Hk Hs. unfold serve_file. rewrite Hk. cbn [mbind option_bind]. cbv zeta.
  destruct (bool_decide _); [intros [= <-]; by eapply answer_with|].
  destruct (match if_modified_since _ with Some _ => _ | None => _ end);
    [intros [= <-]; by eapply answer_with|].
  destruct (Mmc.map _ _ _ _) as [[f|err] m'].
  - destruct (static_body _ _); cbn [mbind option_bind]; [|done]. intros [= <-].
    eapply answer_with; [by eapply inv_but_frame|done|exact Hk|done|done].
  - intros [= <-]. eapply send_error_inv; [by eapply inv_but_frame|done|exact Hk|done].
Qed.

Lemma serve_regular_inv k path md s s' :
  reading k s -> serve_regular k path md s = Some s' -> inv s'.
Proof.
  intros Hr. unfold serve_regular. destruct (conns s !! k) as [sl|] eqn:Hk; [|done].
  cbn [mbind option_bind]. cbv zeta.
  destruct (_ =? _)%Z; [intros [= <-]; by apply reading_send_error|].
  destruct (negb _); [intros [= <-]; by apply reading_send_error|].
  destruct (negb _); [intros [= <-]; by apply reading_send_error|].
  assert (Hr' : reading k (upd_http k (fill_last_byte (wrap_i64 (Dirlist.len md))) s)).
  { apply reading_upd_http; [done|]. intros h Hh. unfold fill_last_byte. by destruct (_ && _). }
  destruct (admit_static _ _ _) as [b s1] eqn:E. apply admit_static_held in E; [|done].
  destruct b; cbn [negb].
  - destruct (held_checked k s1 E) as (sl1 & H1 & H2 & H3 & H4 & _).
    intros Hs'. by eapply serve_file_inv.
  - intros [= <-].
    destruct (held_checked k _ (held_upd_http k (fun h => (set_response (error_response 503
      (B "Service Unavailable") over_limit_form (orig_filename (ConnSlot.http sl)) [] h) h)
      <| HttpConn.status_code := 503%Z |>) s1 E)) as (sl1 & H1 & H2 & H3 & H4 & H5).
    eapply transition_to_sending_inv; [exact H1|done|exact H3|done|].
    destruct E as (Hb & _ & sl2 & Hk2 & _).
    pose proof (upd_http_but k (fun h => (set_response (error_response 503
      (B "Service Unavailable") over_limit_form (orig_filename (ConnSlot.http sl)) [] h) h)
      <| HttpConn.status_code := 503%Z |>) s1 sl2 Hb Hk2) as [_ Hk3].
    by rewrite (H5 _ Hk3).
Qed.

Lemma serve_static_inv k path s s' : reading k s -> serve_static k path s = Some s' -> inv s'.
Proof.
  intros Hr. unfold serve_static. cbv zeta.
  assert (Hr' : reading k (upd_http k (fun h => h <| charset := ServerConfig.charset (config s) |>) s))
    by (by apply reading_upd_http).
  set (s1 := upd_http k _ s) in *. destruct (conns s1 !! k) as [sl|] eqn:Hk; [|done].
  cbn [mbind option_bind]. destruct (resolve_static _ _) as [p| |].
  - destruct (stat_file p) as [md|nf].
    + destruct (auth_check2 _ _); try (intros [= <-]; by apply reading_send_response);
        (destruct (Dirlist.is_dir md); [|by apply serve_regular_inv]);
        unfold serve_directory; rewrite Hk; cbn [mbind option_bind];
        destruct (generate_listing _ _ _); intros [= <-]; by apply reading_send_response.
    + destruct (stat_error nf p) as [[st title] form]. intros [= <-]. by apply reading_send_error.
  - intros [= <-]. by apply reading_send_error.
  - intros [= <-]. by apply reading_send_error.
Qed.

(** *** CGI *)

Lemma settle_cgi_ok k charge s sl :
  inv_but k s -> conns s !! k = Some sl -> ConnSlot.stream sl = Some (Some READABLE) ->
  NoDup (tnums_of sl) -> ConnSlot.is_cgi sl = true ->
  exists sl', inv_but k (settle_cgi k charge s) /\ conns (settle_cgi k charge s) !! k = Some sl' /\
    sendable sl' /\ tnums_of sl' = [] /\ active_cgis (settle_cgi k charge s) = active_cgis s.
Proof.
  intros [Hc Hf Hs] Hk Hst Hnd Hcgi. unfold settle_cgi. rewrite Hk. unfold ConnThrottle.is_throttled.
  destruct (is_empty (tnums_of sl)) eqn:He; cbn [negb].
  { exists sl. split_and!; [done|done|constructor; [done..|congruence]| |done].
    by destruct (tnums_of sl). }
  set (sl' := sl <| ConnSlot.throttle := ConnThrottle.reset (ConnSlot.throttle sl) |>).
  exists sl'. unfold upd_throttle, upd_slot. simpl. rewrite (alter_insert_Some _ _ k sl Hk).
  split_and!; [|apply lookup_insert_eq| |done|done].
  - constructor; simpl.
    + destruct (throttles s) as [t|]; cbn [fmap option_fmap option_map].
      * eapply conserved_release; [|done..|exact Hk|done].
        destruct charge; [by apply conserved_add_bytes|done].
      * eapply conserved_same; [done|exact Hk|]. by rewrite (Hc k sl Hk).
    + by eapply few_insert.
    + intros j x Hj. rewrite lookup_insert_ne by done. by apply Hs.
  - constructor; [done|constructor|done].
Qed.

Lemma execute_script_inv k script info s sl s' :
  inv_but k s -> active_cgis s = 1%Z -> conns s !! k = Some sl ->
  ConnSlot.stream sl = Some (Some READABLE) -> NoDup (tnums_of sl) ->
  execute_script k script info s = Some s' -> inv s'.
Proof.
  intros Hi Ha Hk Hst Hnd. unfold execute_script. rewrite Hk. cbn [mbind option_bind]. cbv zeta.
  pose proof (upd_slot_but k (fun sl => sl <| ConnSlot.is_cgi := true |>) s sl Hi Hk) as Hb.
  destruct (Hb eq_refl) as [Hi1 Hk1].
  set (s1 := upd_slot k _ s) in *.
  assert (Hi2 : inv_but k (add_cgis (-1) s1)) by (by eapply inv_but_frame).
  assert (Ha2 : active_cgis (add_cgis (-1) s1) = 0%Z) by (subst s1; unfold add_cgis; simpl; by rewrite Ha).
  assert (Hc : ConnSlot.is_cgi (sl <| ConnSlot.is_cgi := true |>) = true) by done.
  destruct (run_cgi _ _ _ _) as [out|]; intros [= <-].
  - destruct (settle_cgi_ok k (Some CGI_BYTECOUNT) _ _ Hi2 Hk1 Hst Hnd Hc) as (sl' & H1 & H2 & H3 & _ & H5).
    eapply send_response_inv; [exact H1|congruence|exact H2|done].
  - destruct (settle_cgi_ok k None _ _ Hi2 Hk1 Hst Hnd Hc) as (sl' & H1 & H2 & H3 & _ & H5).
    eapply send_error_inv; [exact H1|congruence|exact H2|done].
Qed.

Lemma admit_cgi_but k p s sl b s' :
  inv_but k s -> conns s !! k = Some sl -> tnums_of sl = [] -> admit_cgi k p s = (b, s') ->
  exists sl', inv_but k s' /\ conns s' !! k = Some sl' /\ active_cgis s' = active_cgis s /\
    ConnSlot.stream sl' = ConnSlot.stream sl /\ NoDup (tnums_of sl') /\
    (b = false -> sl' = sl).
Proof.
  intros Hi Hk Hn. assert (Hnd : NoDup (tnums_of sl)) by (rewrite Hn; constructor).
  unfold admit_cgi. destruct (throttles s) as [t|] eqn:Ht.
  - destruct (check_request _ t) as [d t'] eqn:Hd. destruct d as [|tn mx mn|]; intros [= <- <-].
    + exists sl. pose proof (admitted_but k s sl t _ _ _ (fun ct => ct) Hi Ht Hk Hn Hd). done.
    + pose proof (admitted_but k s sl t _ _ _ (fun ct => ct <| ConnThrottle.tnums := tn |>)
        Hi Ht Hk Hn Hd) as H. cbv beta iota in H. destruct (H (fun _ => eq_refl)) as (H1 & H2 & H3).
      eexists. split_and!; [exact H1|exact H2|done..].
    + exists sl. pose proof (admitted_but k s sl t _ _ _ (fun ct => ct) Hi Ht Hk Hn Hd). done.
  - intros [= <- <-]. by exists sl.
Qed.

Lemma dispatch_cgi_inv k s s' : reading k s -> dispatch_cgi k s = Some s' -> inv s'.
Proof.
  intros Hr0. unfold dispatch_cgi, resolve_script. cbv zeta.
  assert (Hr : reading k (upd_http k (fun h => h <| charset := ServerConfig.charset (config s) |>) s))
    by (by apply reading_upd_http).
  set (s1 := upd_http k _ s) in *. destruct (conns s1 !! k) as [sl|] eqn:Hk; [|done].
  cbn [mbind option_bind].
  destruct (body_missing _).
  { intros [= <-]. apply (reading_upd k (fun sl => sl <| ConnSlot.pending_cgi_body := true |>)); [done|].
    by intros sl0 [H1 H2] E. }
  destruct (_ && _)%Z; [intros [= <-]; by apply reading_send_error|].
  destruct Hr as [Hi (sl0 & Hk0 & Hst)]. rewrite Hk0 in Hk. injection Hk as ->.
  pose proof (reading_sendable sl (inv_slots _ Hi k sl Hk0) Hst) as Hsend.
  pose proof (inv_slots _ Hi k sl Hk0) as [Hnd Hok]. rewrite Hst in Hok. destruct Hok as (Hs & Hn & Hok).
  assert (Ha1 : active_cgis (add_cgis 1 s1) = 1%Z) by (pose proof (inv_cgis _ Hi) as Hz; unfold add_cgis; cbn in Hz |- *; by rewrite Hz).
  assert (Hi1 : inv_but k (add_cgis 1 s1)) by (eapply inv_but_frame; [by apply inv_but_of|done..]).
  destruct (cgi_script _ _) as [script info].
  destruct (upd_http_but k (fun h => h <| path_info := info |>) _ sl Hi1 Hk0) as [Hi2 Hk2].
  set (s2 := upd_http k _ (add_cgis 1 s1)) in *. assert (Ha2 : active_cgis s2 = 1%Z) by done.
  assert (Hback : forall s sl, inv_but k s -> active_cgis s = 1%Z -> conns s !! k = Some sl ->
            inv_but k (add_cgis (-1) s) /\ active_cgis (add_cgis (-1) s) = 0%Z).
  { intros s0 sl0' Hb Ha Hl. split; [by eapply inv_but_frame|]. unfold add_cgis. simpl. by rewrite Ha. }
  destruct (_ || _).
  { intros [= <-]. destruct (Hback s2 _ Hi2 Ha2 Hk2) as [H1 H2].
    eapply send_error_inv; [done|done|exact Hk2|destruct Hsend; by constructor]. }
  destruct (admit_cgi k script s2) as [b s3] eqn:E.
  destruct (admit_cgi_but k script s2 _ b s3 Hi2 Hk2 Hn E) as (sl3 & H1 & H2 & H3 & H4 & H5 & H6).
  destruct b; cbn [negb].
  - intros Hx. eapply execute_script_inv; [exact H1|congruence|exact H2|by rewrite H4|done|exact Hx].
  - intros [= <-]. destruct (Hback s3 sl3 H1) as [H7 H8]; [congruence|done|]. specialize (H6 eq_refl).
    subst sl3. eapply send_error_inv; [done|done|exact H2|destruct Hsend; by constructor].
Qed.

(** *** Requests *)

Definition same_buf (h h' : HttpConn) : Prop :=
  read_buf h' = read_buf h /\ read_idx h' = read_idx h /\ checked_idx h' = checked_idx h.

Lemma same_buf_ok h h' : same_buf h h' -> buf_ok h -> buf_ok h'.
Proof. intros (E1 & E2 & E3). unfold buf_ok. by rewrite E1, E2, E3. Qed.

Lemma same_buf_trans h1 h2 h3 : same_buf h1 h2 -> same_buf h2 h3 -> same_buf h1 h3.
Proof. unfold same_buf. intros (-> & -> & ->). done. Qed.

Lemma parse_request_line_buf h h' : parse_request_line h = Some h' -> same_buf h h'.
Proof.
  unfold parse_request_line. destruct (extract_header _ _); cbn [mbind option_bind]; [|done].
  destruct (parse_method _ _); cbn [mbind option_bind]; [|done].
  destruct (split_once _ _) as [[]|]; by intros [= <-].
Qed.

Lemma with_header_buf h0 name f h h' :
  (forall v h, same_buf h (f v h)) -> with_header h0 name f h = Some h' -> same_buf h h'.
Proof.
  intros Hf. unfold with_header. destruct (extract_header _ _) as [[v|]|]; cbn [mbind option_bind];
    [|by intros [= <-]|done]. intros [= <-]. apply Hf.
Qed.

Lemma parse_range_buf v h : same_buf h (parse_range v h).
Proof.
  unfold parse_range. destruct (contains_char _ _); [done|].
  destruct (split_once _ _) as [[? spec]|]; [|done].
  destruct (split_once _ _) as [[f r]|]; [|done].
  destruct (is_empty f); [done|]. destruct (parse_i 64 f); [|done].
  destruct (is_empty r); [done|]. by destruct (parse_i 64 r).
Qed.

Lemma parse_headers_buf h h' : parse_headers h = Some h' -> same_buf h h'.
Proof.
  unfold parse_headers. intros H.
  repeat match type of H with
  | (mbind _ (with_header ?h0 ?n ?f ?h1)) = _ =>
      let E := fresh "E" in let h2 := fresh "h" in
      destruct (with_header h0 n f h1) as [h2|] eqn:E; cbn [mbind option_bind] in H; [|done];
      apply with_header_buf in E; [|first [apply parse_range_buf | done]]
  end.
  apply with_header_buf in H; [|intros v x; cbv zeta; by destruct (is_empty _)].
  repeat (eapply same_buf_trans; [eassumption|]). done.
Qed.

Lemma route_request_inv k n s s' : reading k s -> route_request k n s = Some s' -> inv s'.
Proof.
  intros Hr. unfold route_request, serve_path. destruct (conns s !! k) as [sl|] eqn:Hk; [|done].
  cbn [mbind option_bind]. cbv zeta.
  destruct (apply_vhost _ _ _) as [h1 fp] eqn:Ev.
  assert (H1 : same_buf (ConnSlot.http sl) h1).
  { revert Ev. unfold apply_vhost. destruct (_ && _); by intros [= <- <-]. }
  assert (H2 : same_buf h1 (apply_pathinfo (config s) h1)).
  { unfold apply_pathinfo. destruct (_ && _); [done|]. destruct (pathinfo_loop _ _ _ _) as [p i].
    by destruct (is_empty i). }
  assert (Hok : buf_ok (apply_pathinfo (config s) h1)).
  { eapply same_buf_ok; [eapply same_buf_trans; [exact H1|exact H2]|].
    destruct Hr as [Hi (sl0 & Hk0 & Hst)]. rewrite Hk in Hk0. injection Hk0 as ->.
    pose proof (inv_slots _ Hi k _ Hk) as [_ Hs]. rewrite Hst in Hs. apply Hs. }
  assert (Hr' : reading k (upd_http k (fun _ => apply_pathinfo (config s) h1) s))
    by (by apply reading_upd_http).
  destruct (is_cgi_path _ _); [by apply dispatch_cgi_inv|].
  destruct (negb _); [intros [= <-]; by apply reading_send_error|]. by apply serve_static_inv.
Qed.

Lemma reading_buf k s sl : reading k s -> conns s !! k = Some sl -> buf_ok (ConnSlot.http sl).
Proof.
  intros [Hi (sl0 & Hk0 & Hst)] Hk. rewrite Hk in Hk0. injection Hk0 as <-.
  pose proof (inv_slots _ Hi k _ Hk) as [_ Hs]. rewrite Hst in Hs. apply Hs.
Qed.

Lemma process_request_inv k s s' : reading k s -> process_request k s = Some s' -> inv s'.
Proof.
  intros Hr. unfold process_request, process_target. destruct (conns s !! k) as [sl|] eqn:Hk; [|done].
  cbn [mbind option_bind]. pose proof (reading_buf k s sl Hr Hk) as Hb.
  destruct (parse_request_line _) as [h1|] eqn:E1; cbn [mbind option_bind]; [|done].
  apply parse_request_line_buf in E1. apply (same_buf_ok _ _ E1) in Hb. cbv zeta.
  assert (Hr1 : reading k (upd_http k (fun _ => h1) s)) by (by apply reading_upd_http).
  destruct (_ && _); [intros [= <-]; by apply reading_send_error|].
  destruct (bool_decide _); [intros [= <-]; by apply reading_send_error|].
  destruct (parse_headers h1) as [h2|] eqn:E2; cbn [mbind option_bind]; [|done].
  apply parse_headers_buf in E2. apply (same_buf_ok _ _ E2) in Hb.
  assert (Hr2 : reading k (upd_http k (fun _ => h2) (upd_http k (fun _ => h1) s)))
    by (by apply reading_upd_http).
  destruct (_ <? _); [intros [= <-]; by apply reading_send_error|].
  destruct (normalize_path _) as [n|]; [by apply route_request_inv|].
  destruct (contains_sub _ _); intros [= <-]; by apply reading_send_error.
Qed.

Lemma store_read_ok d h : buf_ok h -> buf_ok (store_read d h).
Proof.
  unfold buf_ok, store_read. intros [Hl Hc]. cbn [read_buf read_idx checked_idx].
  cbn. rewrite !length_app, !length_take, length_drop. lia.
Qed.

Lemma upd_http_twice k f g s : upd_http k f (upd_http k g s) = upd_http k (fun h => f (g h)) s.
Proof. unfold upd_http, upd_slot, update_field. cbn. f_equal. by rewrite alter_alter_eq. Qed.

Lemma handle_read_inv rr k s s' : reading k s -> handle_read rr k s = Some s' -> inv s'.
Proof.
  intros Hr. unfold handle_read. destruct (conns s !! k) as [sl|] eqn:Hk; [|done].
  cbn [mbind option_bind]. pose proof (reading_buf k s sl Hr Hk) as Hb.
  destruct (_ =? 0); [intros [= <-]; by apply reading_send_response|].
  destruct (ConnSlot.stream sl); [|intros [= <-]; by apply reading_close].
  destruct rr as [[|b d]| |]; try (intros [= <-]; by first [apply reading_close | apply Hr]).
  cbv zeta. apply (store_read_ok (b :: d)) in Hb. set (h1 := store_read (b :: d) _) in *.
  assert (Hr1 : reading k (upd_http k (fun _ => h1) s)) by (by apply reading_upd_http).
  destruct (ConnSlot.pending_cgi_body sl).
  - destruct (body_missing h1); [intros [= <-]; apply Hr1|]. apply dispatch_cgi_inv.
    apply reading_upd; [done|]. by intros sl0 [H1 H2] E.
  - destruct Hb as [Hl Hc].
    destruct (got_request_in_bounds (read_buf h1) (checked_idx h1) (read_idx h1) (parse_state h1))
      as (r & j & st & E & Hj); [lia|]. rewrite E. cbn [mbind option_bind].
    assert (Hr2 : reading k (upd_http k (fun h => h <| checked_idx := j |> <| parse_state := st |>)
                               (upd_http k (fun _ => h1) s))).
    { rewrite upd_http_twice. apply reading_upd_http; [done|]. intros _ _. split; [done|].
      change (j <= read_idx h1 <= READ_BUF_SIZE). lia. }
    destruct r; [intros [= <-]; apply Hr2|by apply process_request_inv|].
    intros [= <-]. by apply reading_send_response.
Qed.
End Steps.
