(* ===== verification/Run.v ===== *)
(** * Runs of the event loop

    The invariant of [Invariants] holds initially and is kept by every
    iteration of [run]; what follows from it for every reachable state. *)

From S2P Require Import Prelude RustStr Match Tdate Url Request HttpConn Response Wire.
From S2P Require Import Timers Mime Mmc Throttle Auth Cgi Dirlist Server EventLoop Dispatch Invariants.

(** What the slab promises: the key of an insertion is vacant. *)
Class SlabLaw (W : World) : Prop := vacant_key_free : forall c, c !! vacant_key c = None.

Lemma holding_empty i : holding i ∅ = 0%Z.
Proof. unfold holding. by rewrite map_filter_empty, map_size_empty. Qed.

Lemma conserved_fmap thr c f :
  (forall sl, tnums_of (f sl) = tnums_of sl) -> conserved thr c -> conserved thr (f <$> c).
Proof.
  intros Hf H. destruct thr as [t|]; simpl in *.
  - intros i e Hi. rewrite (H i e Hi). unfold holding. f_equal.
    rewrite map_filter_fmap, map_size_fmap. f_equal. apply map_filter_ext.
    intros k x _. cbn. by rewrite Hf.
  - intros k sl. rewrite lookup_fmap. intros (x & Hx & ->)%fmap_Some. rewrite Hf. by apply (H k).
Qed.

Section Iteration.
Context {W : World} {Slab : SlabLaw W}.

Lemma new_slot_ok peer :
  slot_ok (ConnSlot.new <| ConnSlot.state := Reading |> <| ConnSlot.stream := Some (Some READABLE) |>
             <| ConnSlot.http := HttpConn.new |> <| ConnSlot.peer_addr := Some peer |>).
Proof.
  split; [constructor|]. split_and!; [done..|].
  split; [exact (length_replicate READ_BUF_SIZE (chr 0))|].
  split; apply Nat.le_0_l.
Qed.

Lemma accept_one_inv s c : inv s -> inv (accept_one s c).
Proof.
  intros Hi. destruct c as [peer reg]. unfold accept_one.
  destruct (Nat.leb_spec MAX_CONNECTIONS (base.size (conns s))) as [|Hlt]; [done|].
  destruct reg; [|done]. cbv zeta. pose proof (vacant_key_free (conns s)) as Hv.
  destruct Hi as [Hc Hf Hs Ha]. constructor; simpl; [..|done].
  - destruct (throttles s) as [t|]; simpl in *.
    + intros i e Hi. rewrite holding_insert_new by done. rewrite (Hc i e Hi).
      unfold holds. rewrite decide_False by apply not_elem_of_nil. lia.
    + intros k sl. rewrite lookup_insert_Some. intros [[<- <-]|[_ Hk]]; [done|by apply (Hc k)].
  - unfold few. rewrite map_size_insert_None by done. lia.
  - intros k sl. rewrite lookup_insert_Some. intros [[<- <-]|[_ Hk]]; [apply new_slot_ok|by apply (Hs k)].
Qed.

Lemma handle_accept_inv l s : inv s -> inv (handle_accept l s).
Proof.
  unfold handle_accept. destruct (draining s); [done|]. revert s.
  induction l as [|c l IH]; intros s Hi; simpl; [done|]. apply IH. by apply accept_one_inv.
Qed.

Lemma event_inv rr wr k s s' :
  inv s -> handle_connection_event rr wr k s = Some s' -> inv s'.
Proof.
  intros Hi. unfold handle_connection_event. destruct (conns s !! k) as [sl|] eqn:Hk; [|by intros [= <-]].
  pose proof (inv_slots _ Hi k sl Hk) as Hok. pose proof (inv_cgis _ Hi) as Ha.
  destruct (ConnSlot.state sl) eqn:Hst.
  - by intros [= <-].
  - apply handle_read_inv. split; [done|by eexists].
  - intros E. destruct (handle_send_inv wr k s sl (inv_but_of s k Hi) Ha Hk Hst Hok) as (s1 & E1 & H1).
    congruence.
  - intros E. destruct (handle_pause_inv wr k s sl Hi Hk Hst) as (s1 & E1 & H1). congruence.
  - intros [= <-]. eapply close_connection_inv; [by apply inv_but_of|done|exact Hk|apply Hok].
Qed.

Lemma resume_all_inv wr l s : inv s -> exists s', resume_all wr l s = Some s' /\ inv s'.
Proof.
  revert s. induction l as [|k l IH]; intros s Hi; simpl; [by eexists|].
  destruct (conns s !! k) as [sl|] eqn:Hk; [|by apply IH].
  destruct (decide (ConnSlot.state sl = Pausing)) as [Hp|].
  - rewrite bool_decide_true by done. destruct (handle_pause_inv (wr k) k s sl Hi Hk Hp) as (s1 & -> & H1).
    cbn. by apply IH.
  - rewrite bool_decide_false by done. by apply IH.
Qed.

Lemma wake_slot_tnums thr sl : tnums_of (wake_slot thr sl) = tnums_of sl.
Proof.
  unfold wake_slot. destruct (_ && _); [|done]. unfold register, resume_sending.
  destruct thr; cbn; by destruct (ConnSlot.stream sl) as [[]|].
Qed.

Lemma wake_slot_ok thr sl : slot_ok sl -> slot_ok (wake_slot thr sl).
Proof.
  intros Hok. pose proof (wake_slot_tnums thr sl) as Ht. unfold wake_slot in *.
  destruct (decide (ConnSlot.state sl = Pausing)) as [Hp|]; [|by rewrite bool_decide_false].
  rewrite bool_decide_true in * by done. destruct (_ && _); [|done].
  destruct Hok as [Hn Hok]. split; [by rewrite Ht|]. rewrite Hp in Hok. destruct Hok as (Hs & _ & Hr).
  unfold register, resume_sending. destruct thr; cbn; rewrite Hs; done.
Qed.

Lemma throttle_tick_inv s : inv s -> inv (throttle_tick s).
Proof.
  intros [Hc Hf Hs Ha]. constructor; simpl; [..|done].
  - apply conserved_fmap; [apply wake_slot_tnums|]. by apply conserved_averages.
  - unfold few. by rewrite map_size_fmap.
  - intros k sl. rewrite lookup_fmap. intros (x & Hx & ->)%fmap_Some. apply wake_slot_ok. by apply (Hs k).
Qed.

Lemma handle_ready_none l : foldl handle_ready None l = None.
Proof. induction l as [|[[k rr] wr] l IH]; [done|]. exact IH. Qed.

Lemma handle_ready_inv l s s' : inv s -> foldl handle_ready (Some s) l = Some s' -> inv s'.
Proof.
  revert s. induction l as [|[[k rr] wr] l IH]; intros s Hi; simpl; [by intros [= <-]|].
  destruct (handle_connection_event rr wr k s) as [s1|] eqn:E; [|by rewrite handle_ready_none].
  apply IH. by eapply event_inv.
Qed.

Lemma iteration_inv p last s last' s' :
  inv s -> iteration p last s = Some (last', s') -> inv s'.
Proof.
  intros Hi. unfold iteration. cbv zeta.
  assert (H0 : inv (start_drain p s)) by (unfold start_drain; destruct (_ && _); [by eapply inv_frame|done]).
  destruct (drained _); [by intros [= <- <-]|].
  assert (H1 : inv (foldl (fun s l => handle_accept l s) (start_drain p s) (accepted p))).
  { revert H0. generalize (start_drain p s). induction (accepted p) as [|l ls IH]; intros x Hx; simpl; [done|].
    apply IH. by apply handle_accept_inv. }
  destruct (foldl handle_ready _ _) as [s2|] eqn:E2; cbn [mbind option_bind]; [|done].
  apply handle_ready_inv in E2; [|done].
  destruct (resume_all_inv (resumed p) (ready_keys s2) s2 E2) as (s3 & E3 & H3).
  unfold resume_ready_paused_connections. rewrite E3. cbn [mbind option_bind].
  unfold run_timers. destruct (Timers.run _ _ _) as [[fired w]|]; cbn [mbind option_bind]; [|done].
  unfold tick_if_due. destruct (_ <=? _)%Z; intros [= <- <-]; [apply throttle_tick_inv|]; by eapply inv_frame.
Qed.
End Iteration.

(** ** Reachable states *)

(** The server starts without connections, with the throttle table of the
    throttle file if there is one; each iteration may see another clock, file
    system and outcome of its system calls. *)
Inductive reachable : Server -> Prop :=
| reach_start cfg n : reachable (Server_new cfg n)
| reach_start_throttled cfg n content t :
    load (E := unit) (inl content) = inl t ->
    reachable ((Server_new cfg n) <| throttles := Some t |>)
| reach_next (W : World) p last s last' s' :
    SlabLaw W -> reachable s -> iteration p last s = Some (last', s') -> reachable s'.

Lemma parse_line_count line e : parse_line line = Some e -> num_sending e = 0%Z.
Proof.
  unfold parse_line. intros ([pat rest] & _ & (f & _ & ([lo hi] & _ & H)%bind_Some)%bind_Some)%bind_Some.
  case_match; [done|]. by injection H as <-.
Qed.

Lemma load_line_count line e : load_line line = Some e -> num_sending e = 0%Z.
Proof.
  unfold load_line. intros H. repeat (case_match; simplify_eq/=; try done); eauto using parse_line_count.
Qed.

Lemma start_inv cfg n thr :
  (forall t, thr = Some t -> Forall (fun e => num_sending e = 0%Z) t) ->
  inv ((Server_new cfg n) <| throttles := thr |>).
Proof.
  intros H. constructor; simpl; [|unfold few; rewrite map_size_empty; apply Nat.le_0_l|done|done].
  destruct thr as [t|]; simpl; [|done].
  intros i e Hi. rewrite holding_empty. by apply (Forall_lookup_1 _ _ _ _ (H t eq_refl) Hi).
Qed.

Lemma reachable_inv s : reachable s -> inv s.
Proof.
  induction 1 as [cfg n|cfg n content t H|W p last s last' s' Hs _ IH H].
  - exact (start_inv cfg n None (fun t E => ltac:(discriminate))).
  - apply start_inv. intros t' [= <-]. simpl in H. injection H as <-.
    apply Forall_forall. intros e (line & _ & He)%list_elem_of_omap. by eapply load_line_count.
  - by eapply iteration_inv.
Qed.

(** ** A concrete world *)

Lemma unwrap_or_is_some {A} (d : A) o : is_some o = true -> o = Some (unwrap_or d o).
Proof. by destruct o. Qed.

(** One regular file of twenty bytes, world-readable, under "/w"; no
    directories, no password files, no CGI programs. *)
Definition demo_path : bytes := B "/w/a.txt".
Definition demo_data : bytes := B "0123456789abcdefghij".

Definition demo_world (now : Z) : World := {|
  w_lower := ascii_lowercase;
  w_auth := {| file_exists _ := false; read_to_string _ := None; base64_decode _ := None;
               crypt _ _ := None |};
  clock := now;
  now_ts := 0;
  canonicalize p := Some p;
  stat_file p := if bytes_eqb p demo_path then inl (mkMeta false false 420 1 20 0) else inr true;
  path_exists p := bytes_eqb p demo_path;
  path_is_dir _ := false;
  list_dir _ := None;
  open_file p := if bytes_eqb p demo_path then Opened (mkKey 1 1 0 0 20) else OpenFailed;
  mmap_ok _ := true;
  mapping _ := demo_data;
  hostname := B "localhost";
  vacant_key c := fresh (dom c : gset nat);
  run_cgi _ _ _ _ := None;
|}.

#[export] Instance demo_slab now : SlabLaw (demo_world now).
Proof. intros c. apply (not_elem_of_dom (D := gset nat)). exact (is_fresh (dom c : gset nat)). Qed.

Definition demo_config : ServerConfig.t := ServerConfig.default <| ServerConfig.dir := B "/w" |>.

Definition demo_rules : bytes := B "**.txt 0-1000" ++ [LF].

Definition demo_table : ThrottleTable := [ThrottleEntry_new (B "**.txt") 1000 0].

Definition demo_start : Server := (Server_new demo_config 1) <| throttles := Some demo_table |>.

Lemma demo_start_reachable : reachable demo_start.
Proof. apply (reach_start_throttled demo_config 1 demo_rules). by vm_compute. Qed.

Definition demo_peer : bytes * bytes := (B "10.0.0.1", B "10.0.0.1:4000").

Definition demo_poll (req : bytes) : Polled :=
  mkPolled false [[(demo_peer, true)]] [(0, ROk req, WWouldBlock)] (fun _ => WWouldBlock).

(** The state after one iteration that accepts a connection and reads [req]. *)
Definition demo_run (req : bytes) : option (Z * Server) :=
  @iteration (demo_world 0) (demo_poll req) 0 demo_start.

Definition header_block (s : bytes) : bytes := s ++ CRLF ++ CRLF.

Definition demo_state (req : bytes) : Server :=
  match demo_run req with Some (_, s) => s | None => demo_start end.

Lemma demo_state_reachable req : is_some (demo_run req) = true -> reachable (demo_state req).
Proof.
  unfold demo_state. destruct (demo_run req) as [[last s]|] eqn:E; [|done]. intros _.
  exact (reach_next _ _ _ _ _ _ _ demo_start_reachable E).
Qed.

Definition demo_get : bytes := header_block (B "GET /a.txt HTTP/1.0").

(** ** Throttle accounting *)

(** C1: in every state the server can reach, whatever the clients, the
    file system and the CGI programs do, the sender count of a throttle entry
    is the number of open connections that hold the entry, and only
    connections still open hold one: no admission is leaked or counted twice
    on any path (static files, CGI, errors, pauses, closes). *)
Theorem throttle_counts_match s t i e :
  reachable s -> throttles s = Some t -> t !! i = Some e ->
  num_sending e = holding i (conns s) /\ (conns s = ∅ -> num_sending e = 0%Z).
Proof.
  intros Hr Ht Hi. pose proof (inv_conserved _ (reachable_inv s Hr)) as Hc. rewrite Ht in Hc.
  rewrite (Hc i e Hi). split; [done|]. intros ->. apply holding_empty.
Qed.

Lemma throttle_counts_match_witness :
  exists t e, throttles (demo_state demo_get) = Some t /\ t !! 0 = Some e /\ num_sending e = 1%Z /\
    num_sending e = holding 0 (conns (demo_state demo_get)).
Proof.
  destruct (throttles (demo_state demo_get)) as [t|] eqn:Et; [|vm_compute in Et; discriminate].
  destruct (t !! 0) as [e|] eqn:Ee.
  - exists t, e. split_and!; [done|done| |].
    + assert (H : (num_sending <$> (throttles (demo_state demo_get) ≫= fun t => t !! 0)) = Some 1%Z)
        by (by vm_compute). rewrite Et in H. cbn [mbind option_bind] in H. rewrite Ee in H.
      by injection H.
    + apply (throttle_counts_match (demo_state demo_get) t 0 e); [|done|done].
      apply demo_state_reachable. by vm_compute.
  - exfalso. assert (H : is_some (throttles (demo_state demo_get) ≫= fun t => t !! 0) = true)
      by (by vm_compute). rewrite Et in H. cbn [mbind option_bind] in H. rewrite Ee in H. discriminate.
Defined.

(** ** Wake-ups *)

Section Wakeups.
Context {W : World}.

Lemma pause_deadline_le s k sl d :
  conns s !! k = Some sl -> ConnSlot.state sl = Pausing ->
  ConnThrottle.pause_until (ConnSlot.throttle sl) = Some d ->
  exists a, next_pause_deadline s = Some a /\ (a <= Z.max 0 (d - clock))%Z.
Proof.
  unfold next_pause_deadline. revert k sl d.
  apply (map_fold_weak_ind (fun acc (m : gmap nat ConnSlot.t) => forall k sl d,
    m !! k = Some sl -> ConnSlot.state sl = Pausing ->
    ConnThrottle.pause_until (ConnSlot.throttle sl) = Some d ->
    exists a, acc = Some a /\ (a <= Z.max 0 (d - clock))%Z)); [done|].
  intros j x m acc Hj IH k sl d. rewrite lookup_insert_Some. intros [[-> ->]|[_ Hk]] Hst Hd.
  - rewrite bool_decide_true by done. rewrite Hd. eexists. split; [done|]. destruct acc; lia.
  - destruct (IH k sl d Hk Hst Hd) as (a & -> & Ha).
    destruct (bool_decide _); [|by exists a].
    destruct (ConnThrottle.pause_until (ConnSlot.throttle x)); [|by exists a].
    eexists. split; [done|]. lia.
Qed.

Lemma poll_timeout_le last s a : next_pause_deadline s = Some a -> (poll_timeout last s <= a)%Z.
Proof.
  intros E. unfold poll_timeout. cbn [foldl]. rewrite E.
  destruct (Timers.next_deadline _ _), (next_throttle_deadline _ _); cbn; lia.
Qed.
End Wakeups.

(** C2: no connection can hang: in every reachable state each connection
    is registered for the event its state waits for, except a paused one,
    which has a deadline; the poll then never sleeps past that deadline, and
    once it has passed the connection is among those the loop resumes. *)
Theorem every_connection_wakes (W : World) s k sl last :
  reachable s -> conns s !! k = Some sl ->
  match ConnSlot.state sl with
  | Reading | Lingering => ConnSlot.stream sl = Some (Some READABLE)
  | Sending => ConnSlot.stream sl = Some (Some WRITABLE)
  | Pausing => exists d, ConnThrottle.pause_until (ConnSlot.throttle sl) = Some d /\
      (poll_timeout last s <= Z.max 0 (d - clock))%Z /\ ((d <= clock)%Z -> k ∈ ready_keys s)
  | Free => False
  end.
Proof.
  intros Hr Hk. pose proof (inv_slots _ (reachable_inv s Hr) k sl Hk) as [_ Hok].
  destruct (ConnSlot.state sl) eqn:Hst; [done|apply Hok|apply Hok| |done].
  destruct Hok as (_ & Hp & _). destruct (ConnThrottle.pause_until _) as [d|] eqn:Hd; [|done].
  exists d. split; [done|]. split.
  - destruct (pause_deadline_le s k sl d Hk Hst Hd) as (a & Ea & Ha).
    pose proof (poll_timeout_le last s a Ea). lia.
  - intros Hle. unfold ready_keys. apply list_elem_of_In, in_map_iff. exists (k, sl). split; [done|].
    apply list_elem_of_In, list_elem_of_filter. split; [|by apply elem_of_map_to_list].
    split; [done|]. unfold pause_over. rewrite Hd. by apply Z.leb_le.
Qed.

Lemma every_connection_wakes_witness :
  exists sl, conns (demo_state demo_get) !! 0 = Some sl /\ ConnSlot.stream sl = Some (Some WRITABLE).
Proof.
  destruct (conns (demo_state demo_get) !! 0) as [sl|] eqn:E.
  - exists sl. split; [done|].
    pose proof (every_connection_wakes (demo_world 0) (demo_state demo_get) 0 sl 0) as H.
    assert (Hst : (ConnSlot.state <$> conns (demo_state demo_get) !! 0) = Some Sending) by (by vm_compute).
    rewrite E in Hst. injection Hst as Hst. rewrite Hst in H.
    apply H; [|done]. apply demo_state_reachable. by vm_compute.
  - exfalso. assert (H : is_some (conns (demo_state demo_get) !! 0) = true) by (by vm_compute).
    rewrite E in H. discriminate.
Defined.

(** ** CGI limit *)

(** No CGI process is counted as active between two events, since each
    script runs to its end inside its handler: with any limit the answer to a
    request that finds the limit reached is never sent. *)
Theorem cgi_limit_never_reached (W : World) s :
  reachable s ->
  active_cgis s = 0%Z /\ ((0 <? cgi_limit s) && (cgi_limit s <=? active_cgis s))%Z = false.
Proof.
  intros Hr. rewrite (inv_cgis _ (reachable_inv s Hr)). split; [done|].
  destruct (Z.ltb_spec 0 (cgi_limit s)); [|done]. apply Z.leb_gt. lia.
Qed.

Lemma cgi_limit_never_reached_witness : active_cgis (demo_state demo_get) = 0%Z.
Proof.
  apply (cgi_limit_never_reached (demo_world 0)). apply demo_state_reachable. by vm_compute.
Defined.

(** ** Panics *)

(** C39: in a reachable state only a connection that is being read can crash
    the server: every event on a sending, paused or lingering connection and
    the resumption of all paused ones return. *)
Theorem only_reading_panics (W : World) s k rr wr :
  reachable s -> (ConnSlot.state <$> conns s !! k) <> Some Reading ->
  is_Some (handle_connection_event rr wr k s) /\
  (forall resumed, is_Some (resume_ready_paused_connections resumed s)).
Proof.
  intros Hr Hn. pose proof (reachable_inv s Hr) as Hi. split.
  - unfold handle_connection_event. destruct (conns s !! k) as [sl|] eqn:Hk; [|by eexists].
    destruct (ConnSlot.state sl) eqn:Hst; [by eexists|simpl in Hn; congruence|..|by eexists].
    + destruct (handle_send_inv wr k s sl (inv_but_of s k Hi) (inv_cgis _ Hi) Hk Hst
        (inv_slots _ Hi k sl Hk)) as (s1 & -> & _). by eexists.
    + destruct (handle_pause_inv wr k s sl Hi Hk Hst) as (s1 & -> & _). by eexists.
  - intros r. destruct (resume_all_inv r (ready_keys s) s Hi) as (s1 & E & _). by exists s1.
Qed.

Lemma only_reading_panics_witness :
  is_Some (@handle_connection_event (demo_world 0) RErr (WOk 100) 0 (demo_state demo_get)).
Proof.
  refine (proj1 (only_reading_panics (demo_world 0) (demo_state demo_get) 0 RErr (WOk 100) _ _)).
  - apply demo_state_reachable. by vm_compute.
  - assert (H : (ConnSlot.state <$> conns (demo_state demo_get) !! 0) = Some Sending) by (by vm_compute).
    rewrite H. discriminate.
Defined.
