(* ===== verification/CgiExec.v ===== *)
(** * Running a CGI program (rust/crates/thttpd-http/src/cgi.rs, [execute_cgi],
      and its caller in thttpd-core/src/eventloop.rs, [dispatch_cgi])

    The server and the program run side by side, connected by three pipes of a
    bounded capacity: the server writes the request body to the standard input
    of the program and closes it, reads its standard output to the end, its
    standard error too when there was no output, and waits for its exit.  Each
    side is deterministic and blocks on a full or empty pipe; the two interleave
    in any way.  The program is a tree of what it does next, depending on the
    bytes it reads; it always ends when it is not blocked.  A program closes its
    ends of the pipes when it exits, and standard output possibly earlier. *)

From S2P Require Import Prelude RustStr Auth Cgi HttpConn Server EventLoop Dispatch Invariants Run.

(** ** What is started *)

Record Spawn := mkSpawn { program : bytes; current_dir : bytes; environment : gmap (list ascii) bytes }.

(** The [Command] of [execute_cgi]: [cwd] is [std::env::current_dir()], which
    the program inherits without a working directory.  [cmd.env] after
    [env_clear] keeps the last value of a name. *)
Definition command (cwd script_path : bytes) (working_dir : option bytes) (env : list (bytes * bytes)) : Spawn :=
  mkSpawn (if is_some working_dir && negb (is_absolute script_path) then path_join cwd script_path else script_path)
    (unwrap_or cwd working_dir)
    (foldl (fun m kv => <[kv.1 := kv.2]> m) ∅ env).

(** ** Programs *)

Inductive Child :=
| Exit
| WriteOut (b : byte) (k : Child)
| WriteErr (b : byte) (k : Child)
| CloseOut (k : Child)
| ReadIn (k : option byte -> Child).

(** What a program writes when it is never blocked, to standard output and to
    standard error. *)
Fixpoint child_run (c : Child) (closed : bool) (input : bytes) : bytes * bytes :=
  match c with
  | Exit => ([], [])
  | WriteOut b k => let '(o, e) := child_run k closed input in (if closed then o else b :: o, e)
  | WriteErr b k => let '(o, e) := child_run k closed input in (o, b :: e)
  | CloseOut k => child_run k true input
  | ReadIn k =>
      match input with
      | [] => child_run (k None) closed []
      | b :: input' => child_run (k (Some b)) closed input'
      end
  end.

(** Standard error counts when there is no output. *)
Definition script_output (o e : bytes) : bytes := if is_empty o then e else o.

(** ** The two processes *)

Inductive Phase :=
| Feeding (body : bytes)
| ReadingOut (output : bytes)
| ReadingErr (output : bytes)
| Waiting (output : bytes)
| Done (output : bytes).

Record Procs := mkProcs {
  phase : Phase;
  child : Child;
  out_closed : bool;
  pipe_in : bytes;
  pipe_out : bytes;
  pipe_err : bytes;
}.

#[export] Instance Procs_settable : Settable Procs := fun s =>
  mkProcs (phase s) (child s) (out_closed s) (pipe_in s) (pipe_out s) (pipe_err s).

Definition exited (c : Child) : bool := match c with Exit => true | _ => false end.

(** The write end of standard input is dropped after the body. *)
Definition feeding (s : Procs) : bool := match phase s with Feeding _ => true | _ => false end.

Section Pipes.
Context (cap : nat).

(** What the server does next, [None] when it is blocked or done.  Writing to
    a program that is gone is an error, which is ignored. *)
Definition server_step (s : Procs) : option Procs :=
  match phase s with
  | Feeding [] => Some (s <| phase := ReadingOut [] |>)
  | Feeding (b :: body) =>
      if exited (child s) then Some (s <| phase := ReadingOut [] |>)
      else if length (pipe_in s) <? cap
      then Some (s <| phase := Feeding body |> <| pipe_in := pipe_in s ++ [b] |>) else None
  | ReadingOut output =>
      match pipe_out s with
      | b :: rest => Some (s <| phase := ReadingOut (output ++ [b]) |> <| pipe_out := rest |>)
      | [] =>
          if out_closed s || exited (child s)
          then Some (s <| phase := if is_empty output then ReadingErr [] else Waiting output |>) else None
      end
  | ReadingErr output =>
      match pipe_err s with
      | b :: rest => Some (s <| phase := ReadingErr (output ++ [b]) |> <| pipe_err := rest |>)
      | [] => if exited (child s) then Some (s <| phase := Waiting output |>) else None
      end
  | Waiting output => if exited (child s) then Some (s <| phase := Done output |>) else None
  | Done _ => None
  end.

Definition child_step (s : Procs) : option Procs :=
  match child s with
  | Exit => None
  | WriteOut b k =>
      if out_closed s then Some (s <| child := k |>)
      else if length (pipe_out s) <? cap
      then Some (s <| child := k |> <| pipe_out := pipe_out s ++ [b] |>) else None
  | WriteErr b k =>
      if length (pipe_err s) <? cap
      then Some (s <| child := k |> <| pipe_err := pipe_err s ++ [b] |>) else None
  | CloseOut k => Some (s <| child := k |> <| out_closed := true |>)
  | ReadIn k =>
      match pipe_in s with
      | b :: rest => Some (s <| child := k (Some b) |> <| pipe_in := rest |>)
      | [] => if feeding s then None else Some (s <| child := k None |>)
      end
  end.

Inductive step (s s' : Procs) : Prop :=
| step_server : server_step s = Some s' -> step s s'
| step_child : child_step s = Some s' -> step s s'.

Definition steps : Procs -> Procs -> Prop := rtc step.

Definition stuck (s : Procs) : bool := negb (is_some (server_step s)) && negb (is_some (child_step s)).
End Pipes.

(** [execute_cgi] has spawned [c]. *)
Definition started (c : Child) (body : option bytes) : Procs :=
  mkProcs (Feeding (unwrap_or [] body)) c false [] [] [].

(** One schedule, for examples: the server goes first when it can. *)
Fixpoint run_eager (cap n : nat) (s : Procs) : Procs :=
  match n with
  | O => s
  | S n' =>
      match server_step cap s with
      | Some s' => run_eager cap n' s'
      | None => match child_step cap s with Some s' => run_eager cap n' s' | None => s end
      end
  end.

(** Programs that copy their input, and that write to standard error or output
    before anything else. *)
Fixpoint cat (n : nat) : Child :=
  match n with
  | O => Exit
  | S n' => ReadIn (fun o => match o with Some b => WriteOut b (cat n') | None => Exit end)
  end.

Fixpoint write_errs (bs : bytes) (k : Child) : Child :=
  match bs with [] => k | b :: bs' => WriteErr b (write_errs bs' k) end.

Example run_eager_examples :
  phase (run_eager 4 40 (started (cat 10) (Some (B "abcdef")))) = Done (B "abcdef") /\
  phase (run_eager 4 40 (started (write_errs (B "oops") Exit) None)) = Done (B "oops") /\
  phase (run_eager 4 40 (started (write_errs (B "oops!") Exit) None)) = ReadingOut [].
Proof. repeat split. Qed.

(** ** Every execution is finite *)

(** The child does not go back, and between two of its steps the server only
    shortens this. *)
Definition server_left (s : Procs) : nat :=
  length (pipe_out s) + length (pipe_err s) +
  match phase s with
  | Feeding body => 4 + length body
  | ReadingOut _ => 3
  | ReadingErr _ => 2
  | Waiting _ => 1
  | Done _ => 0
  end.

Section Runs.
Context (cap : nat).
#[local] Arguments Nat.ltb : simpl never.

Lemma server_step_shrinks s s' :
  server_step cap s = Some s' -> child s' = child s /\ server_left s' < server_left s.
Proof.
  unfold server_step, server_left. destruct s as [ph c oc pi po pe]; cbn.
  destruct ph as [[|b body]|o|o|o|o]; cbn; intros H; simplify_eq/=; repeat (case_match; simplify_eq/=); split; try done;
    repeat match goal with |- context [is_empty ?x] => destruct (is_empty x) end; lia.
Qed.

Abbreviation finite_from := (Acc (fun s' s => step cap s s')).

Lemma finite_by_child c :
  (forall s s', child s = c -> child_step cap s = Some s' -> finite_from s') ->
  forall s, child s = c -> finite_from s.
Proof.
  intros Hc s. induction s as [s IH] using (well_founded_ind (well_founded_ltof _ server_left)).
  intros Hs. constructor. intros s' [H|H]; [|by eapply Hc].
  apply server_step_shrinks in H as [Hk Hlt]. apply IH; [exact Hlt|congruence].
Qed.

Lemma runs_finite s : finite_from s.
Proof.
  enough (H : forall c s, child s = c -> finite_from s) by by apply (H (child s)).
  clear s. intros c. induction c as [|b k IH|b k IH|k IH|k IH]; apply finite_by_child; intros s s' Hs;
    unfold child_step; rewrite Hs; intros H; repeat case_match; simplify_eq; by first [apply IH | eapply IH].
Qed.

(** ** The result *)

(** What the server has still to write. *)
Definition unfed (s : Procs) : bytes := match phase s with Feeding body => body | _ => [] end.

(** What the program will write from here on. *)
Definition future (s : Procs) : bytes * bytes := child_run (child s) (out_closed s) (pipe_in s ++ unfed s).

(** Together with what the pipes and the server hold, it is what the program
    writes alone, [o] and [e]. *)
Definition consistent (o e : bytes) (s : Procs) : Prop :=
  let '(fo, fe) := future s in
  match phase s with
  | Feeding _ => pipe_out s ++ fo = o /\ pipe_err s ++ fe = e
  | ReadingOut acc => acc ++ pipe_out s ++ fo = o /\ pipe_err s ++ fe = e
  | ReadingErr acc => o = [] /\ out_closed s || exited (child s) = true /\ acc ++ pipe_err s ++ fe = e
  | Waiting acc => acc = script_output o e /\ (out_closed s || exited (child s) = true) /\ length (pipe_err s ++ fe) <= length e
  | Done acc => acc = script_output o e /\ exited (child s) = true
  end.

Lemma child_run_closed c input : (child_run c true input).1 = [].
Proof.
  revert input. induction c as [|b k IH|b k IH|k IH|k IH]; intros input; cbn; [done| | |apply IH|].
  - specialize (IH input). by destruct (child_run k true input).
  - specialize (IH input). by destruct (child_run k true input).
  - destruct input; apply IH.
Qed.

Lemma future_closed s : out_closed s || exited (child s) = true -> (future s).1 = [].
Proof.
  unfold future. intros H. destruct (out_closed s); [apply child_run_closed|]. by destruct (child s).
Qed.

Lemma script_output_out o e : o <> [] -> script_output o e = o.
Proof. by destruct o. Qed.

Lemma server_step_consistent o e s s' :
  server_step cap s = Some s' -> consistent o e s -> consistent o e s'.
Proof.
  intros H. pose proof (future_closed s) as Hc. revert H Hc.
  unfold server_step, consistent, future, unfed. destruct s as [ph c oc pi po pe]; cbn.
  destruct ph as [[|b body]|acc|acc|acc|acc]; cbn; intros H Hc; simplify_eq/=.
  - done.
  - destruct (exited c) eqn:Ec; [by destruct c; simplify_eq/=|]. destruct (_ <? _); simplify_eq/=. by rewrite <- app_assoc.
  - destruct po as [|b po]; simplify_eq/=; [|by destruct (child_run _ _ _); rewrite <- app_assoc].
    destruct (oc || exited c) eqn:Ec; simplify_eq/=. specialize (Hc eq_refl).
    destruct (child_run c oc (pi ++ [])) as [fo fe] eqn:Er. cbn in Hc. subst fo. rewrite app_nil_r.
    intros [-> <-]. destruct o as [|x o]; cbn; rewrite Er; by split_and!.
  - destruct pe as [|b pe]; simplify_eq/=; [|by destruct (child_run _ _ _); rewrite <- app_assoc].
    destruct (exited c) eqn:Ec; simplify_eq/=. destruct c; try done. cbn. rewrite !app_nil_r.
    intros (-> & _ & ->). split_and!; [done|by destruct oc|lia].
  - destruct (exited c) eqn:Ec; simplify_eq/=. by destruct (child_run _ _ _) as [fo fe]; intros [-> _].
Qed.

Lemma child_step_consistent o e s s' :
  child_step cap s = Some s' -> consistent o e s -> consistent o e s'.
Proof.
  unfold child_step, consistent, future, feeding. destruct s as [ph c oc pi po pe]; cbn.
  destruct c as [|b k|b k|k|k]; intros H; simplify_eq/=.
  - destruct oc; [|destruct (_ <? _)]; simplify_eq/=; unfold unfed; cbn;
      destruct (child_run k _ _) as [fo fe]; destruct ph; rewrite <- ?app_assoc; cbn; rewrite ?orb_true_r; naive_solver.
  - destruct (_ <? _); simplify_eq/=. unfold unfed; cbn.
    destruct (child_run k _ _) as [fo fe]; destruct ph; rewrite <- ?app_assoc; cbn; rewrite ?orb_false_r; intuition.
    all: first [done|apply orb_true_intro; auto].
  - unfold unfed; cbn. destruct (child_run k _ _) as [fo fe]; destruct ph; cbn; naive_solver.
  - destruct pi as [|b pi]; [destruct ph|]; simplify_eq/=; unfold unfed; cbn;
      destruct (child_run _ _ _) as [fo fe]; try destruct ph; cbn; rewrite ?orb_false_r; naive_solver.
Qed.
Lemma step_consistent o e s s' : step cap s s' -> consistent o e s -> consistent o e s'.
Proof. intros [H|H]; [by eapply server_step_consistent|by eapply child_step_consistent]. Qed.

(** The body that is not read yet fits the pipe. *)
Definition fits (s : Procs) : Prop := length (pipe_in s) + length (unfed s) <= cap.

Lemma step_fits s s' : step cap s s' -> fits s -> fits s'.
Proof.
  unfold fits, unfed. destruct s as [ph c oc pi po pe].
  intros [H|H]; [unfold server_step in H|unfold child_step, feeding in H]; cbn in H.
  - destruct ph as [[|b body]|acc|acc|acc|acc]; simplify_eq/=; [lia|..].
    { destruct (exited c); [|destruct (_ <? _)]; simplify_eq/=; rewrite ?length_app; cbn; lia. }
    all: repeat (case_match; simplify_eq/=); lia.
  - destruct c; simplify_eq/=; repeat (case_match; simplify_eq/=); lia.
Qed.

(** A program that has not ended is blocked by a full pipe or an open, empty
    standard input. *)
Lemma child_can_step s :
  0 < cap -> exited (child s) = false -> feeding s = false -> out_closed s = true \/ pipe_out s = [] ->
  pipe_err s = [] \/ length (pipe_err s ++ (future s).2) <= cap ->
  is_some (child_step cap s) = true.
Proof.
  unfold child_step, future. destruct s as [ph c oc pi po pe]; cbn. intros Hcap Hx Hf Ho He.
  destruct c as [|b k|b k|k|k]; [done|..]; cbn in He.
  - destruct oc; [done|]. destruct Ho as [Ho| ->]; [done|]. by rewrite (proj2 (Nat.ltb_lt _ _)) by (cbn; lia).
  - destruct (child_run k _ _) as [fo fe]. cbn in He. rewrite length_app in He. cbn in He.
    rewrite (proj2 (Nat.ltb_lt _ _)); [done|]. destruct He as [-> |He]; cbn; lia.
  - done.
  - destruct pi; [by rewrite Hf|done].
Qed.

(** Nobody waits for the other for ever, unless all is done. *)
Lemma consistent_progress o e s :
  0 < cap -> length e <= cap -> fits s -> consistent o e s ->
  stuck cap s = true <-> phase s = Done (script_output o e).
Proof.
  unfold consistent, fits, unfed. intros Hcap He Hf Hc. pose proof (child_can_step s Hcap) as Hstep.
  split.
  2:{ intros Hd. rewrite Hd in Hc. destruct (future s), Hc as [_ Hx]. unfold stuck, server_step, child_step.
      rewrite Hd. by destruct (child s). }
  unfold stuck. rewrite andb_true_iff, !negb_true_iff. intros [Hs Hk]. unfold server_step in Hs.
  unfold feeding in Hstep. rewrite Hk in Hstep.
  destruct (future s) as [fo fe]; cbn in Hstep.
  destruct (phase s) as [[|b body]|acc|acc|acc|acc]; cbn in *; [done|exfalso..|].
  - destruct (exited (child s)); [done|]. by rewrite (proj2 (Nat.ltb_lt _ _)) in Hs by lia.
  - destruct (pipe_out s) as [|x po]; [|done]. destruct (out_closed s || _) eqn:Ec; [done|].
    apply orb_false_elim in Ec as [_ Ec]. destruct Hc as [_ <-].
    discriminate Hstep; auto.
  - destruct (pipe_err s) as [|x pe]; [|done]. destruct (exited (child s)) eqn:Ec; [done|].
    destruct Hc as (_ & Ho & _). rewrite orb_false_r in Ho. discriminate Hstep; auto.
  - destruct (exited (child s)) eqn:Ec; [done|]. destruct Hc as (_ & Ho & Hl). rewrite orb_false_r in Ho.
    discriminate Hstep; auto. right. lia.
  - by destruct Hc as [-> _].
Qed.
End Runs.

(** ** Results *)

(** What [execute_cgi] and the reading of its output give: [scripts] are the
    programs that can be started.  This is an instance of [run_cgi]. *)
Definition cgi_outcome (scripts : Spawn -> option Child) (cwd script_path working_dir : bytes)
    (env : list (bytes * bytes)) (body : option bytes) : option bytes :=
  c ← scripts (command cwd script_path (Some working_dir) env);
  let '(o, e) := child_run c false (unwrap_or [] body) in Some (script_output o e).

Lemma started_consistent c body :
  let '(o, e) := child_run c false (unwrap_or [] body) in consistent o e (started c body).
Proof. unfold consistent, future, unfed. cbn. by destruct (child_run _ _ _). Qed.

Lemma post_body_fits h : buf_ok h -> length (unwrap_or [] (post_body h)) <= READ_BUF_SIZE.
Proof.
  intros (Hb & Hi & Hr). unfold post_body. destruct (content_length h) as [cl|]; cbn; [|lia].
  destruct (_ <=? _)%Z; cbn; [|lia]. rewrite length_take. lia.
Qed.

(** A stuck state is always reached. *)
Lemma stuck_reached cap p : exists q, steps cap p q /\ stuck cap q = true.
Proof.
  induction (runs_finite cap p) as [p _ IH]. destruct (stuck cap p) eqn:E.
  { exists p. split; [apply rtc_refl|done]. }
  unfold stuck in E. apply andb_false_iff in E as [E|E]; apply negb_false_iff in E.
  - destruct (server_step cap p) as [p'|] eqn:H; [|done].
    destruct (IH p' (step_server _ _ _ H)) as (q & Hq & Hs). exists q. split; [|done].
    eapply rtc_l; [by apply step_server|done].
  - destruct (child_step cap p) as [p'|] eqn:H; [|done].
    destruct (IH p' (step_child _ _ _ H)) as (q & Hq & Hs). exists q. split; [|done].
    eapply rtc_l; [by apply step_child|done].
Qed.

(** C7: running a program through pipes gives what the program writes: for
    every request body the server can have buffered and every program whose
    standard error fits a pipe, however the server and the program are
    scheduled, the run ends, neither of them waits for ever, and the server ends
    up with exactly the standard output of the program, or its standard error
    when there is no output; the body never blocks the server, since the
    request buffer is smaller than a pipe. *)
Theorem cgi_completes scripts cwd path dir env h c cap :
  buf_ok h -> READ_BUF_SIZE <= cap -> scripts (command cwd path (Some dir) env) = Some c ->
  length (child_run c false (unwrap_or [] (post_body h))).2 <= cap ->
  exists output,
    cgi_outcome scripts cwd path dir env (post_body h) = Some output /\
    Acc (fun p' p => step cap p p') (started c (post_body h)) /\
    forall p, steps cap (started c (post_body h)) p -> (stuck cap p = true <-> phase p = Done output).
Proof.
  intros Hb Hcap Hc He. unfold cgi_outcome. rewrite Hc. cbn.
  pose proof (started_consistent c (post_body h)) as Hs. pose proof (post_body_fits h Hb) as Hf.
  destruct (child_run c false _) as [o e]. cbn in *. eexists. split_and!; [done|apply runs_finite|].
  assert (H0 : fits cap (started c (post_body h))) by (unfold fits, unfed; cbn; lia).
  revert Hs H0. generalize (started c (post_body h)). intros p0 Hs H0 p Hp.
  apply consistent_progress; [|lia|..].
  - eapply Nat.lt_le_trans; [|exact Hcap]. apply (Nat.ltb_lt 0 READ_BUF_SIZE). by vm_compute.
  - induction Hp as [|p0 p1 p Hp _ IH]; [done|]. apply IH; [by eapply step_consistent|by eapply step_fits].
  - induction Hp as [|p0 p1 p Hp _ IH]; [done|]. apply IH; [by eapply step_consistent|by eapply step_fits].
Qed.

(** What a program that begins with too much standard error leaves the system
    in. *)
Definition err_blocked (bs : bytes) (k : Child) (p : Procs) : Prop :=
  (exists bs', child p = write_errs bs' k /\ pipe_err p ++ bs' = bs) /\
  out_closed p = false /\ pipe_out p = [] /\
  match phase p with Feeding _ | ReadingOut [] => True | _ => False end.

Lemma err_blocked_bound cap bs k p : err_blocked bs k p -> length (pipe_err p) <= cap < length bs ->
  exists b bs', child p = WriteErr b (write_errs bs' k) /\ (pipe_err p ++ [b]) ++ bs' = bs.
Proof.
  intros ((bs' & Hc & <-) & _) Hl. rewrite length_app in Hl. destruct bs' as [|b bs']; [cbn in Hl; lia|].
  exists b, bs'. by rewrite <- app_assoc.
Qed.

Lemma step_err_blocked cap bs k p p' :
  cap < length bs -> step cap p p' -> err_blocked bs k p /\ length (pipe_err p) <= cap ->
  err_blocked bs k p' /\ length (pipe_err p') <= cap.
Proof.
  intros Hcap Hst [H Hl]. destruct (err_blocked_bound cap bs k p H) as (b & bs' & Hc & Hbs); [lia|].
  destruct H as (He & Ho & Hp & Hph). destruct Hst as [H|H]; revert H.
  - unfold server_step. rewrite Ho, Hp, Hc. destruct (phase p) as [[|x body]|[|x o]|o|o|o] eqn:Eph; try done.
    + intros [= <-]. split; [|done]. by repeat split.
    + cbn [exited]. destruct (_ <? _); [|done]. intros [= <-]. split; [|done]. by repeat split.
  - unfold child_step. rewrite Hc. destruct (Nat.ltb_spec (length (pipe_err p)) cap) as [Hlt|]; [|done].
    intros [= <-]. unfold err_blocked. cbn. rewrite length_app. cbn. split; [|lia]. split_and!; [by eexists|done..].
Qed.

(** A program that writes more to its standard error than a pipe holds
    before it ends its standard output hangs the server, whatever else it does:
    no schedule gives a response, and every run ends with the server and the
    program waiting for each other. *)
Theorem stderr_hangs_server cap bs k body p :
  cap < length bs -> steps cap (started (write_errs bs k) body) p ->
  (forall output, phase p <> Done output) /\ exists q, steps cap p q /\ stuck cap q = true /\ forall output, phase q <> Done output.
Proof.
  intros Hcap Hp.
  assert (Hinv : forall p0 p, steps cap p0 p -> err_blocked bs k p0 /\ length (pipe_err p0) <= cap ->
            forall output, phase p <> Done output).
  { clear p Hp. intros p0 p Hp H0. assert (H : err_blocked bs k p /\ length (pipe_err p) <= cap).
    { induction Hp as [|p0 p1 p Hs _ IH]; [done|]. apply IH. by eapply step_err_blocked. }
    intros output E. destruct H as [(_ & _ & _ & H) _]. by rewrite E in H. }
  assert (H0 : err_blocked bs k (started (write_errs bs k) body) /\ 0 <= cap).
  { split; [|lia]. by repeat split; [eexists|..]. }
  split; [by eapply Hinv|]. destruct (stuck_reached cap p) as (q & Hq & Hs). exists q. split_and!; [done..|].
  eapply Hinv; [|exact H0]. unfold steps in *. by etrans.
Qed.

Lemma stderr_hangs_server_witness :
  exists q, steps 4 (started (write_errs (B "oops!") Exit) None) q /\ stuck 4 q = true /\
            forall output, phase q <> Done output.
Proof. apply (stderr_hangs_server 4 (B "oops!") Exit None); [cbn; lia|apply rtc_refl]. Defined.

Module DemoCgi.
Definition http : HttpConn :=
  HttpConn.new <| content_length := Some 3%Z |> <| read_idx := 3 |>
    <| read_buf := B "abc" ++ replicate (READ_BUF_SIZE - 3) (chr 0) |>.

Lemma http_buf_ok : buf_ok http.
Proof.
  assert (H : 3 <= READ_BUF_SIZE) by (apply Nat.leb_le; by vm_compute).
  split; [|cbn; lia]. change (length (B "abc" ++ replicate (READ_BUF_SIZE - 3) (chr 0)) = READ_BUF_SIZE).
  rewrite length_app, length_replicate. cbn [length B String.list_ascii_of_string]. lia.
Qed.
End DemoCgi.

Lemma cgi_completes_witness :
  exists output,
    cgi_outcome (fun _ => Some (cat 8)) (B "/") (B "/cgi-bin/cat") (B "/cgi-bin") [] (post_body DemoCgi.http) = Some output /\
    output = B "abc" /\
    forall p, steps READ_BUF_SIZE (started (cat 8) (post_body DemoCgi.http)) p ->
      (stuck READ_BUF_SIZE p = true <-> phase p = Done output).
Proof.
  destruct (cgi_completes (fun _ => Some (cat 8)) (B "/") (B "/cgi-bin/cat") (B "/cgi-bin") [] DemoCgi.http (cat 8)
              READ_BUF_SIZE DemoCgi.http_buf_ok (le_n _) eq_refl) as (output & H & _ & Hp).
  { apply (Nat.le_trans _ 0); [apply Nat.leb_le; by vm_compute|apply Nat.le_0_l]. }
  exists output. split_and!; [done| |done].
  assert (E : Some output = Some (B "abc")) by (rewrite <- H; by vm_compute). by injection E.
Defined.

(** ** The environment *)

Lemma foldl_insert_lookup (l : list (bytes * bytes)) (m : gmap (list ascii) bytes) n v :
  NoDup l.*1 -> (forall k, k ∈ l.*1 -> m !! k = None) ->
  foldl (fun m kv => <[kv.1 := kv.2]> m) m l !! n = Some v <-> m !! n = Some v \/ (n, v) ∈ l.
Proof.
  revert m. induction l as [|[k x] l IH]; intros m Hd Hm; cbn; [set_solver|].
  cbn in Hd. apply NoDup_cons in Hd as [Hk Hd]. rewrite IH; [|done|].
  - rewrite lookup_insert_Some, elem_of_cons. cbn in *. split.
    + intros [[[<- <-]|[_ H]]|H]; auto.
    + intros [H|[[= -> ->]|H]]; auto. left. right. split; [|done]. intros <-. specialize (Hm k). set_solver.
  - intros j Hj. rewrite lookup_insert_ne by set_solver. apply Hm. cbn. set_solver.
Qed.

(** A program is started with exactly the variables of [build_envp], and
    nothing of the server's own environment. *)
Theorem spawned_environment ctx script_path cgi_pattern cwd path dir n v :
  environment (command cwd path (Some dir) (build_envp ctx script_path cgi_pattern)) !! n = Some v <->
  (n, v) ∈ build_envp ctx script_path cgi_pattern.
Proof.
  unfold command. cbn [environment].
  rewrite foldl_insert_lookup; [|apply build_envp_names|intros; apply lookup_empty].
  rewrite lookup_empty. naive_solver.
Qed.
