(* ===== verification/Serving.v ===== *)
(** * What clients receive

    The bytes put on the wire by [handle_send] and [handle_pause], and the rate
    of a throttled connection. *)

From S2P Require Import Prelude RustStr Match Tdate Url Request HttpConn Response Wire.
From S2P Require Import Timers Mime Mmc Throttle Auth Cgi Dirlist Server EventLoop Dispatch Invariants Run.

(** ** Delivery *)

Section Delivery.
Context {W : World}.

(** The bytes the write of [handle_send] puts on the wire. *)
Definition wire (wr : WriteResult) (sl : ConnSlot.t) : bytes :=
  match wr with WOk n => take n (write_slice sl) | _ => [] end.

(** Those of an event on connection [k]. *)
Definition emitted (wr : WriteResult) (k : nat) (s : Server) : bytes :=
  match conns s !! k with
  | Some sl =>
      match ConnSlot.state sl with
      | Sending => wire wr sl
      | Pausing => if pause_over sl then wire wr (register WRITABLE (resume_sending (throttles s) sl)) else []
      | _ => []
      end
  | None => []
  end.

(** A response of which [bytes_sent] bytes went out. *)
Record in_flight (sl : ConnSlot.t) : Prop := {
  if_len : response_len (ConnSlot.http sl) = length (response (ConnSlot.http sl));
  if_sent : (0 <= bytes_sent (ConnSlot.http sl) <= Z.of_nat (length (response (ConnSlot.http sl))))%Z;
}.

(** [sl'] is [sl] after [n] more bytes. *)
Definition advanced (n : nat) (sl sl' : ConnSlot.t) : Prop :=
  response (ConnSlot.http sl') = response (ConnSlot.http sl) /\
  response_len (ConnSlot.http sl') = response_len (ConnSlot.http sl) /\
  bytes_sent (ConnSlot.http sl') = (bytes_sent (ConnSlot.http sl) + Z.of_nat n)%Z.

Definition complete (sl : ConnSlot.t) : Prop :=
  bytes_sent (ConnSlot.http sl) = Z.of_nat (length (response (ConnSlot.http sl))).

Lemma write_limit_nonneg sl : in_flight sl -> (0 <= write_limit sl)%Z.
Proof. intros [Hl Hs]. unfold write_limit. destruct (_ && _); [lia|]. rewrite Hl. lia. Qed.

Lemma wire_length n sl :
  in_flight sl ->
  Z.of_nat (length (wire (WOk n) sl)) =
  Z.min (Z.of_nat n) (Z.min (write_limit sl)
    (Z.of_nat (length (response (ConnSlot.http sl))) - bytes_sent (ConnSlot.http sl))).
Proof.
  intros Hf. pose proof (write_limit_nonneg sl Hf). destruct Hf as [_ Hs]. unfold wire, write_slice.
  rewrite !length_take, length_drop. lia.
Qed.

Lemma wire_prefix wr sl :
  wire wr sl = take (length (wire wr sl))
    (drop (Z.to_nat (bytes_sent (ConnSlot.http sl))) (response (ConnSlot.http sl))).
Proof.
  destruct wr as [n| |]; [|done..]. unfold wire, write_slice. rewrite take_take.
  set (l := drop _ _). rewrite length_take. symmetry.
  destruct (Nat.le_ge_cases (n `min` Z.to_nat (write_limit sl)) (length l)).
  - by rewrite Nat.min_l.
  - rewrite Nat.min_r by done. rewrite !take_ge; done.
Qed.

Lemma advanced_flight n sl sl' :
  in_flight sl -> advanced n sl sl' ->
  (bytes_sent (ConnSlot.http sl) + Z.of_nat n <= Z.of_nat (length (response (ConnSlot.http sl))))%Z ->
  in_flight sl'.
Proof. intros [Hl Hs] (E1 & E2 & E3) Hn. constructor; rewrite ?E1, ?E2, ?E3; [done|lia]. Qed.

Lemma lingering_slot k s sl sl' :
  conns s !! k = Some sl -> conns (transition_to_lingering k s) !! k = Some sl' ->
  advanced 0 sl sl' /\ ConnSlot.state sl' = Lingering.
Proof.
  intros Hk. unfold transition_to_lingering. rewrite Hk. simpl. rewrite lookup_insert_eq.
  intros [= <-]. unfold reregister, advanced. cbn. by destruct (ConnSlot.stream sl) as [[]|]; cbn; rewrite Z.add_0_r.
Qed.

Lemma advanced_trans n m sl1 sl2 sl3 : advanced n sl1 sl2 -> advanced m sl2 sl3 -> advanced (n + m) sl1 sl3.
Proof. unfold advanced. intros (-> & -> & E) (-> & -> & ->). rewrite E. split_and!; [done|done|lia]. Qed.

Lemma advanced_refl sl : advanced 0 sl sl.
Proof. unfold advanced. by rewrite Z.add_0_r. Qed.

Lemma closed_slot k s sl : conns s !! k = Some sl -> conns (close_connection k s) !! k = None.
Proof. intros Hk. unfold close_connection. rewrite Hk. simpl. apply lookup_delete_eq. Qed.

(** One [handle_send] advances the response by what it writes. *)
Lemma handle_send_delivers wr k s sl s1 sl1 :
  conns s !! k = Some sl -> in_flight sl -> ConnSlot.state sl = Sending ->
  handle_send wr k s = Some s1 -> conns s1 !! k = Some sl1 ->
  advanced (length (wire wr sl)) sl sl1 /\
  (ConnSlot.state sl1 = Sending \/ ConnSlot.state sl1 = Pausing \/
   ConnSlot.state sl1 = Lingering /\ complete sl1).
Proof.
  intros Hk Hf Hst. pose proof Hf as [Hl Hs]. unfold handle_send. rewrite Hk. cbn [mbind option_bind].
  rewrite Hl. set (len := Z.of_nat (length (response (ConnSlot.http sl)))) in *.
  set (sent := bytes_sent (ConnSlot.http sl)) in *.
  destruct (Z.leb_spec len sent) as [Hle|Hlt].
  { intros [= <-] Hk1. destruct (lingering_slot k s sl sl1 Hk Hk1) as [Ha Hst1].
    assert (Hw : wire wr sl = []).
    { rewrite wire_prefix. rewrite drop_ge; [apply take_nil|]. fold sent. lia. }
    rewrite Hw. split; [done|]. right. right. split; [done|]. destruct Ha as (E1 & _ & E3).
    unfold complete. rewrite E1, E3. fold sent len. simpl. lia. }
  destruct (Z.eqb_spec (write_limit sl) 0) as [Hz|Hnz].
  { intros [= <-]. unfold upd_slot. simpl. rewrite (alter_insert_Some _ _ k sl Hk), lookup_insert_eq.
    intros [= <-]. assert (Hw : wire wr sl = []).
    { destruct wr as [n| |]; [|done..]. unfold wire, write_slice. rewrite Hz. simpl. apply take_nil. }
    rewrite Hw. unfold pause, deregister, advanced. cbn.
    destruct (ConnSlot.stream sl) as [[]|]; cbn; rewrite Z.add_0_r; auto. }
  destruct (ConnSlot.stream sl) as [o|] eqn:Hstr.
  2:{ intros [= <-]. by rewrite (closed_slot k s sl Hk). }
  destruct (Z.ltb_spec len sent); [lia|]. destruct wr as [n| |].
  - pose proof (wire_length n sl Hf) as Hw. fold len sent in Hw. rewrite <- Hw.
    destruct (account_sent _ sl _) as [sl' thr] eqn:Ea.
    apply account_sent_facts in Ea as (_ & E2 & E3 & E4 & E5 & E6 & _).
    assert (Hadv : advanced (length (wire (WOk n) sl)) sl sl') by done.
    destruct (Z.leb_spec len (bytes_sent (ConnSlot.http sl'))) as [Hd|Hd]; intros [= <-] Hk1.
    + apply (lingering_slot k _ sl') in Hk1 as [Ha Hst1]; [|simpl; apply lookup_insert_eq].
      pose proof (advanced_trans _ _ _ _ _ Hadv Ha) as Ht. rewrite Nat.add_0_r in Ht.
      split; [done|]. right. right. split; [done|].
      unfold complete. destruct Ha as (-> & _ & ->). rewrite E5, E4 in *. fold sent len in Hd |- *. lia.
    + simpl in Hk1. rewrite lookup_insert_eq in Hk1. injection Hk1 as <-.
      unfold reregister. rewrite E2, Hstr. destruct o; (split; [done|left; cbn; congruence]).
  - intros [= <-] Hk1. rewrite Hk in Hk1. injection Hk1 as <-. split; [apply advanced_refl|by left].
  - intros [= <-]. by rewrite (closed_slot k s sl Hk).
Qed.

(** The same for an event on a connection that sends or is paused. *)
Lemma event_delivers rr wr k s sl s1 sl1 :
  conns s !! k = Some sl -> in_flight sl ->
  ConnSlot.state sl = Sending \/ ConnSlot.state sl = Pausing ->
  handle_connection_event rr wr k s = Some s1 -> conns s1 !! k = Some sl1 ->
  advanced (length (emitted wr k s)) sl sl1 /\
  emitted wr k s = take (length (emitted wr k s))
    (drop (Z.to_nat (bytes_sent (ConnSlot.http sl))) (response (ConnSlot.http sl))) /\
  (ConnSlot.state sl1 = Sending \/ ConnSlot.state sl1 = Pausing \/
   ConnSlot.state sl1 = Lingering /\ complete sl1).
Proof.
  intros Hk Hf Hst. unfold handle_connection_event, emitted. rewrite Hk.
  destruct Hst as [Hst|Hst]; rewrite Hst.
  - intros E Hk1. destruct (handle_send_delivers wr k s sl s1 sl1 Hk Hf Hst E Hk1) as [Ha Hs].
    split; [done|]. split; [apply wire_prefix|done].
  - unfold handle_pause, pause_over. rewrite Hk. cbn [mbind option_bind].
    set (sl' := register WRITABLE (resume_sending (throttles s) sl)).
    assert (Hwait : match ConnThrottle.pause_until (ConnSlot.throttle sl) with
        | Some d => (clock <? d)%Z | None => false end =
      negb match ConnThrottle.pause_until (ConnSlot.throttle sl) with
        | Some d => (d <=? clock)%Z | None => true end).
    { destruct (ConnThrottle.pause_until _); [apply Z.ltb_antisym|done]. }
    rewrite Hwait. destruct (match ConnThrottle.pause_until _ with Some _ => _ | None => true end); cbn [negb].
    2:{ intros [= <-] Hk1. rewrite Hk in Hk1. injection Hk1 as <-.
        split; [apply advanced_refl|]. split; [done|]. auto. }
    destruct (ConnSlot.stream sl) as [o|] eqn:Hstr.
    2:{ intros [= <-]. rewrite (closed_slot k _ (resume_sending (throttles s) sl)); [done|].
        unfold upd_slot. simpl. rewrite (alter_insert_Some _ _ k sl Hk). apply lookup_insert_eq. }
    intros E Hk1.
    assert (Hsame : ConnSlot.http sl' = ConnSlot.http sl /\ ConnSlot.state sl' = Sending).
    { subst sl'. unfold register, resume_sending. by destruct (throttles s); cbn; rewrite Hstr; destruct o. }
    destruct Hsame as [Hh Hst'].
    assert (Hf' : in_flight sl') by (destruct Hf; constructor; by rewrite Hh).
    assert (Hk' : conns (upd_slot k (register WRITABLE) (upd_slot k (resume_sending (throttles s)) s)) !! k
                  = Some sl').
    { unfold upd_slot. simpl. rewrite lookup_alter_eq, lookup_alter_eq, Hk. done. }
    destruct (handle_send_delivers wr k _ sl' s1 sl1 Hk' Hf' Hst' E Hk1) as [Ha Hs].
    unfold advanced in *. rewrite Hh in Ha. split; [done|]. split; [|done]. rewrite <- Hh. apply wire_prefix.
Qed.
End Delivery.

(** A run of events on one connection while its response is sent, each with
    its own clock, with the bytes put on the wire. *)
Inductive delivery (k : nat) : Server -> bytes -> Server -> Prop :=
| delivery_done s : delivery k s [] s
| delivery_event (W : World) rr wr s s1 out s2 sl :
    conns s !! k = Some sl -> ConnSlot.state sl = Sending \/ ConnSlot.state sl = Pausing ->
    handle_connection_event rr wr k s = Some s1 -> delivery k s1 out s2 ->
    delivery k s (emitted wr k s ++ out) s2.

Lemma delivery_closed k s out s2 : delivery k s out s2 -> conns s !! k = None -> out = [] /\ s2 = s.
Proof. intros [] Hk; [done|congruence]. Qed.

Lemma delivery_lingering k s out s2 sl :
  delivery k s out s2 -> conns s !! k = Some sl -> ConnSlot.state sl = Lingering -> out = [] /\ s2 = s.
Proof. intros [|W rr wr s' s1 o s2' sl' Hk' Hst'] Hk Hst; [done|]. simplify_eq. destruct Hst'; congruence. Qed.

Lemma delivery_advances k s out s2 sl sl2 :
  delivery k s out s2 -> conns s !! k = Some sl -> in_flight sl ->
  conns s2 !! k = Some sl2 -> (ConnSlot.state sl = Lingering -> complete sl) ->
  advanced (length out) sl sl2 /\
  out = take (length out) (drop (Z.to_nat (bytes_sent (ConnSlot.http sl))) (response (ConnSlot.http sl))) /\
  (ConnSlot.state sl2 = Lingering -> complete sl2).
Proof.
  intros Hd. revert sl. induction Hd as [s|W rr wr s s1 out s2 sl' Hk' Hst He Hd IH]; intros sl Hk Hf Hk2 Hl.
  - simplify_eq. split; [apply advanced_refl|]. done.
  - assert (sl' = sl) as -> by congruence. destruct (conns s1 !! k) as [sl1|] eqn:Hk1.
    2:{ destruct (delivery_closed k s1 out s2 Hd Hk1) as [-> ->]. congruence. }
    destruct (event_delivers rr wr k s sl s1 sl1 Hk Hf Hst He Hk1) as (Ha & Hp & Hs).
    set (e := emitted wr k s) in *.
    assert (Hlen : (bytes_sent (ConnSlot.http sl) + Z.of_nat (length e)
                    <= Z.of_nat (length (response (ConnSlot.http sl))))%Z).
    { apply (f_equal length) in Hp. rewrite length_take, length_drop in Hp. destruct Hf as [_ Hb]. lia. }
    destruct (IH sl1 eq_refl) as (Ha2 & Hp2 & Hl2); [by eapply advanced_flight|done| |].
    { intros E. destruct Hs as [E'|[E'|[_ ?]]]; [congruence..|done]. }
    rewrite length_app. split; [by eapply advanced_trans|]. split; [|done].
    destruct Ha as (E1 & _ & E3). rewrite E1, E3 in Hp2. rewrite Hp at 1. rewrite Hp2 at 1.
    destruct Hf as [_ Hb]. rewrite Z2Nat.inj_add, Nat2Z.id by lia.
    rewrite <- drop_drop. by rewrite take_take_drop.
Qed.

(** C4: a client receives its response in order, without gap or repetition:
    however the socket cuts the writes, and through any pauses of the
    throttle, the bytes put on the wire are the first [bytes_sent] bytes of
    the response, and all of it when the connection lingers. *)
Theorem response_delivered k s out s2 sl sl2 :
  conns s !! k = Some sl -> ConnSlot.state sl = Sending ->
  bytes_sent (ConnSlot.http sl) = 0%Z ->
  response_len (ConnSlot.http sl) = length (response (ConnSlot.http sl)) ->
  delivery k s out s2 -> conns s2 !! k = Some sl2 ->
  out = take (Z.to_nat (bytes_sent (ConnSlot.http sl2))) (response (ConnSlot.http sl)) /\
  (ConnSlot.state sl2 = Lingering -> out = response (ConnSlot.http sl)).
Proof.
  intros Hk Hst Hz Hl Hd Hk2.
  assert (Hf : in_flight sl) by (constructor; [done|lia]).
  destruct (delivery_advances k s out s2 sl sl2 Hd Hk Hf Hk2) as ((E1 & _ & E3) & Hp & Hc); [congruence|].
  rewrite Hz in Hp, E3. rewrite drop_0 in Hp. rewrite E3, Z.add_0_l, Nat2Z.id. split; [done|].
  intros Hs. specialize (Hc Hs). unfold complete in Hc. rewrite E1, E3, Z.add_0_l in Hc.
  apply Nat2Z.inj in Hc. rewrite Hp, Hc. apply take_ge. done.
Qed.

(** A connection with a response of six bytes, unthrottled. *)
Definition six_slot : ConnSlot.t :=
  ConnSlot.new <| ConnSlot.state := Sending |> <| ConnSlot.stream := Some (Some WRITABLE) |>
    <| ConnSlot.http := set_response (B "abcdef") HttpConn.new |>.

Definition six_server (sl : ConnSlot.t) : Server := (Server_new demo_config 1) <| conns := {[0 := sl]} |>.

Lemma response_delivered_witness :
  exists out s2 sl2, delivery 0 (six_server six_slot) out s2 /\ conns s2 !! 0 = Some sl2 /\
    ConnSlot.state sl2 = Lingering /\ out = B "abcdef".
Proof.
  pose (s0 := six_server six_slot).
  pose (s1 := unwrap_or s0 (@handle_connection_event (demo_world 0) RErr (WOk 4) 0 s0)).
  pose (s2 := unwrap_or s1 (@handle_connection_event (demo_world 0) RErr (WOk 4) 0 s1)).
  destruct (conns s1 !! 0) as [sl1|] eqn:E1;
    [|exfalso; assert (H : is_some (conns s1 !! 0) = true) by (by vm_compute); by rewrite E1 in H].
  destruct (conns s2 !! 0) as [sl2|] eqn:E2;
    [|exfalso; assert (H : is_some (conns s2 !! 0) = true) by (by vm_compute); by rewrite E2 in H].
  assert (Hst1 : (ConnSlot.state <$> conns s1 !! 0) = Some Sending) by (by vm_compute).
  assert (Hst2 : (ConnSlot.state <$> conns s2 !! 0) = Some Lingering) by (by vm_compute).
  rewrite E1 in Hst1. injection Hst1 as Hst1. rewrite E2 in Hst2. injection Hst2 as Hst2.
  assert (Hd : delivery 0 s0 (@emitted (demo_world 0) (WOk 4) 0 s0 ++
                              @emitted (demo_world 0) (WOk 4) 0 s1 ++ []) s2).
  { apply (delivery_event 0 (demo_world 0) RErr (WOk 4) s0 s1 _ s2 six_slot);
      [apply lookup_singleton_eq|by left|apply unwrap_or_is_some; by vm_compute|].
    apply (delivery_event 0 (demo_world 0) RErr (WOk 4) s1 s2 [] s2 sl1);
      [done|by left|apply unwrap_or_is_some; by vm_compute|]. constructor. }
  eexists _, s2, sl2. split; [exact Hd|]. split; [done|]. split; [done|].
  apply (response_delivered 0 s0 _ s2 six_slot sl2); [apply lookup_singleton_eq|done|done|done|exact Hd|exact E2|exact Hst2].
Defined.

(** ** Progress *)

(** Writes of [ns] bytes offered while the connection sends. *)
Fixpoint send_rounds {W : World} (ns : list nat) (k : nat) (s : Server) : option Server :=
  match ns with
  | [] => Some s
  | n :: ns' => s1 ← handle_send (WOk n) k s; send_rounds ns' k s1
  end.

Lemma unthrottled_limit {W : World} sl :
  tnums_of sl = [] -> write_limit sl = (Z.of_nat (response_len (ConnSlot.http sl)) - bytes_sent (ConnSlot.http sl))%Z.
Proof. intros E. unfold write_limit, ConnThrottle.is_throttled. by rewrite E. Qed.

(** One round of a connection that may write all it has left. *)
Lemma send_round {W : World} n k s sl :
  conns s !! k = Some sl -> in_flight sl -> ~ complete sl -> ConnSlot.state sl = Sending ->
  write_limit sl = (Z.of_nat (response_len (ConnSlot.http sl)) - bytes_sent (ConnSlot.http sl))%Z ->
  ConnSlot.stream sl = Some (Some WRITABLE) -> 0 < n ->
  exists s1 sl1, handle_send (WOk n) k s = Some s1 /\ conns s1 !! k = Some sl1 /\
    response (ConnSlot.http sl1) = response (ConnSlot.http sl) /\
    (ConnSlot.state sl1 = Lingering /\ complete sl1 \/
     in_flight sl1 /\ ~ complete sl1 /\ ConnSlot.state sl1 = Sending /\ tnums_of sl1 = tnums_of sl /\
     ConnSlot.stream sl1 = Some (Some WRITABLE) /\
     bytes_sent (ConnSlot.http sl1) = (bytes_sent (ConnSlot.http sl) + Z.of_nat n)%Z).
Proof.
  intros Hk Hf Hc Hst Ht Hstr Hn. pose proof Hf as [Hl Hs]. unfold complete in Hc.
  unfold handle_send. rewrite Hk. cbn [mbind option_bind]. rewrite Ht, Hl.
  set (len := Z.of_nat (length (response (ConnSlot.http sl)))) in *.
  set (sent := bytes_sent (ConnSlot.http sl)) in *.
  rewrite (proj2 (Z.leb_gt len sent)), (proj2 (Z.eqb_neq (len - sent) 0)) by lia.
  rewrite Hstr, (proj2 (Z.ltb_ge len sent)) by lia. rewrite Z.min_id.
  destruct (account_sent _ sl _) as [sl' thr] eqn:Ea.
  apply account_sent_facts in Ea as (E1 & E2 & E3 & E4 & E5 & E6 & _). fold sent in E4.
  destruct (Z.leb_spec len (bytes_sent (ConnSlot.http sl'))) as [Hd|Hd].
  - match goal with |- context [transition_to_lingering k ?x] => set (s1 := x) end.
    assert (Hk1 : conns s1 !! k = Some sl') by apply lookup_insert_eq.
    destruct (conns (transition_to_lingering k s1) !! k) as [sl1|] eqn:Hk2.
    + destruct (lingering_slot k s1 sl' sl1 Hk1 Hk2) as [(A1 & A2 & A3) Hst1].
      eexists _, sl1. split; [reflexivity|]. split; [done|]. split; [congruence|]. left. split; [done|].
      unfold complete. rewrite A1, A3, E4, E5. fold len. lia.
    + unfold transition_to_lingering in Hk2. rewrite Hk1 in Hk2. simpl in Hk2.
      by rewrite lookup_insert_eq in Hk2.
  - eexists _, (reregister WRITABLE sl'). split; [reflexivity|]. split; [simpl; apply lookup_insert_eq|].
    unfold reregister. rewrite E2, Hstr. cbn. split; [done|]. right. unfold complete.
    split_and!; [constructor|..]; cbn; rewrite ?E1, ?E3, ?E5, ?E6; try done; fold len; lia.
Qed.

(** Sending terminates: an unthrottled connection whose socket accepts
    at least a byte in each round has sent its whole response, and lingers,
    after at most as many rounds as there are bytes left. *)
Theorem sending_terminates (W : World) ns k s sl :
  conns s !! k = Some sl -> in_flight sl -> ~ complete sl -> ConnSlot.state sl = Sending ->
  tnums_of sl = [] -> ConnSlot.stream sl = Some (Some WRITABLE) -> Forall (fun n => 0 < n) ns ->
  (Z.of_nat (length (response (ConnSlot.http sl))) - bytes_sent (ConnSlot.http sl) <= Z.of_nat (length ns))%Z ->
  exists m s' sl', m <= length ns /\ send_rounds (take m ns) k s = Some s' /\
    conns s' !! k = Some sl' /\ ConnSlot.state sl' = Lingering /\ complete sl'.
Proof.
  intros Hk Hf Hc Hst Ht Hstr Hns. revert s sl Hk Hf Hc Hst Ht Hstr.
  induction Hns as [|n ns Hn _ IH]; intros s sl Hk Hf Hc Hst Ht Hstr Hlen.
  { destruct Hf as [_ Hs]. unfold complete in Hc. simpl in Hlen. lia. }
  destruct (send_round n k s sl Hk Hf Hc Hst (unthrottled_limit sl Ht) Hstr Hn) as (s1 & sl1 & E & Hk1 & Er & Hcase).
  destruct Hcase as [[H1 H2]|(H1 & H2 & H3 & H4 & H5 & H6)].
  - exists 1, s1, sl1. split_and!; [simpl; lia| |done..]. simpl. by rewrite E.
  - destruct (IH s1 sl1 Hk1 H1 H2 H3 ltac:(congruence) H5) as (m & s' & sl' & Hm & E' & Hr); [rewrite Er; simpl in Hlen; lia|].
    exists (S m), s', sl'. split_and!; [simpl; lia| |apply Hr..]. simpl. by rewrite E.
Qed.

Lemma sending_terminates_witness :
  exists m s' sl', m <= 6 /\ @send_rounds (demo_world 0) (take m (replicate 6 1)) 0 (six_server six_slot) = Some s' /\
    conns s' !! 0 = Some sl' /\ ConnSlot.state sl' = Lingering /\ complete sl'.
Proof.
  apply (sending_terminates (demo_world 0) (replicate 6 1) 0 (six_server six_slot) six_slot);
    [apply lookup_singleton_eq|constructor; by vm_compute|by vm_compute|done|done|done| |by vm_compute].
  repeat constructor.
Defined.

(** ** Rate *)

(** The body bytes among the bytes that went out. *)
Definition body_sent (sl : ConnSlot.t) : Z :=
  Z.max (bytes_sent (ConnSlot.http sl) - Z.of_nat (ConnThrottle.header_len (ConnSlot.throttle sl))) 0.

(** The counter of the throttle is the number of body bytes on the wire. *)
Definition accounted (sl : ConnSlot.t) : Prop := ConnThrottle.body_bytes (ConnSlot.throttle sl) = body_sent sl.

Lemma lingering_throttle k s sl sl' :
  conns s !! k = Some sl -> conns (transition_to_lingering k s) !! k = Some sl' ->
  ConnSlot.throttle sl' = ConnSlot.throttle sl.
Proof.
  intros Hk. unfold transition_to_lingering. rewrite Hk. simpl. rewrite lookup_insert_eq.
  intros [= <-]. unfold reregister. cbn. by destruct (ConnSlot.stream sl) as [[]|].
Qed.

Lemma account_sent_accounted {W : World} n sl thr :
  (0 <= n)%Z -> ConnThrottle.is_throttled (ConnSlot.throttle sl) = true -> accounted sl ->
  accounted (account_sent n sl thr).1.
Proof.
  unfold accounted, account_sent, body_sent, body_delta. intros Hn -> Ha. cbn [andb].
  destruct (Z.ltb_spec 0 (Z.max (bytes_sent (ConnSlot.http sl) + n - Z.of_nat (ConnThrottle.header_len (ConnSlot.throttle sl))) 0
    - Z.max (bytes_sent (ConnSlot.http sl) - Z.of_nat (ConnThrottle.header_len (ConnSlot.throttle sl))) 0)); cbn; lia.
Qed.

(** A write keeps the account of a throttled connection. *)
Lemma handle_send_accounted {W : World} wr k s sl s' sl' :
  conns s !! k = Some sl -> in_flight sl -> ConnThrottle.is_throttled (ConnSlot.throttle sl) = true ->
  accounted sl -> handle_send wr k s = Some s' -> conns s' !! k = Some sl' ->
  accounted sl' /\ ConnThrottle.header_len (ConnSlot.throttle sl') = ConnThrottle.header_len (ConnSlot.throttle sl).
Proof.
  intros Hk Hf Ht Ha. pose proof (write_limit_nonneg sl Hf) as Hlim. pose proof Hf as [Hl Hs].
  assert (Hsame : forall sl1, bytes_sent (ConnSlot.http sl1) = bytes_sent (ConnSlot.http sl) ->
    ConnThrottle.body_bytes (ConnSlot.throttle sl1) = ConnThrottle.body_bytes (ConnSlot.throttle sl) ->
    ConnThrottle.header_len (ConnSlot.throttle sl1) = ConnThrottle.header_len (ConnSlot.throttle sl) ->
    accounted sl1 /\ ConnThrottle.header_len (ConnSlot.throttle sl1) = ConnThrottle.header_len (ConnSlot.throttle sl)).
  { intros sl1 E1 E2 E3. split; [|done]. unfold accounted, body_sent in *. by rewrite E1, E2, E3. }
  unfold handle_send. rewrite Hk. cbn [mbind option_bind].
  destruct (_ <=? _)%Z.
  { intros [= <-] Hk'. pose proof (lingering_throttle k s sl sl' Hk Hk') as E.
    apply (lingering_slot k s sl) in Hk' as [(_ & _ & E3) _]; [|done]. apply Hsame; [|by rewrite E..]. rewrite E3. simpl. lia. }
  destruct (write_limit sl =? 0)%Z.
  { intros [= <-]. unfold upd_slot. simpl. rewrite (alter_insert_Some _ _ k sl Hk), lookup_insert_eq.
    intros [= <-]. apply Hsame; unfold pause, deregister; cbn; by destruct (ConnSlot.stream sl) as [[]|]. }
  destruct (ConnSlot.stream sl) as [o|] eqn:Hstr; [|intros [= <-]; by rewrite (closed_slot k s sl Hk)].
  destruct (_ <? _)%Z; [done|]. destruct wr as [n| |];
    [|intros [= <-] Hk'; rewrite Hk in Hk'; injection Hk' as <-; by apply Hsame
     |intros [= <-]; by rewrite (closed_slot k s sl Hk)].
  set (n' := Z.min _ _). assert (Hn' : (0 <= n')%Z) by lia.
  pose proof (account_sent_accounted n' sl (throttles s) Hn' Ht Ha) as Hacc.
  assert (Hhl : ConnThrottle.header_len (ConnSlot.throttle (account_sent n' sl (throttles s)).1) =
                ConnThrottle.header_len (ConnSlot.throttle sl)) by (unfold account_sent; by destruct (_ && _)).
  assert (Hstr1 : ConnSlot.stream (account_sent n' sl (throttles s)).1 = Some o)
    by (unfold account_sent; by destruct (_ && _)).
  destruct (account_sent n' sl (throttles s)) as [sl1 thr]. cbn [fst] in *.
  destruct (_ <=? _)%Z; intros [= <-] Hk'.
  - match type of Hk' with context [transition_to_lingering k ?x] => set (s2 := x) in Hk' end.
    assert (H2 : conns s2 !! k = Some sl1) by apply lookup_insert_eq.
    pose proof (lingering_throttle k s2 sl1 sl' H2 Hk') as E.
    apply (lingering_slot k _ sl1) in Hk' as [(_ & _ & E3) _]; [|simpl; apply lookup_insert_eq].
    unfold accounted, body_sent in *. rewrite E, E3. simpl. rewrite Z.add_0_r. done.
  - simpl in Hk'. rewrite lookup_insert_eq in Hk'. injection Hk' as <-. unfold reregister. rewrite Hstr1. by destruct o.
Qed.

(** So it is kept through the whole delivery of a response. *)
Lemma event_accounted {W : World} rr wr k s sl s1 sl1 :
  conns s !! k = Some sl -> in_flight sl -> ConnSlot.state sl = Sending \/ ConnSlot.state sl = Pausing ->
  ConnThrottle.is_throttled (ConnSlot.throttle sl) = true -> accounted sl ->
  handle_connection_event rr wr k s = Some s1 -> conns s1 !! k = Some sl1 -> accounted sl1.
Proof.
  intros Hk Hf Hst Ht Ha. unfold handle_connection_event. rewrite Hk. destruct Hst as [-> | ->].
  - intros E Hk1. by apply (handle_send_accounted wr k s sl s1 sl1).
  - unfold handle_pause. rewrite Hk. cbn [mbind option_bind]. cbv zeta.
    destruct (match ConnThrottle.pause_until _ with Some _ => _ | None => false end);
      [intros [= <-] Hk1; by rewrite Hk in Hk1; injection Hk1 as <-|].
    destruct (ConnSlot.stream sl) as [o|] eqn:Hstr.
    2:{ intros [= <-]. rewrite (closed_slot k _ (resume_sending (throttles s) sl)); [done|].
        unfold upd_slot. simpl. rewrite (alter_insert_Some _ _ k sl Hk). apply lookup_insert_eq. }
    intros E Hk1. set (sl' := register WRITABLE (resume_sending (throttles s) sl)).
    assert (Hsame : ConnSlot.http sl' = ConnSlot.http sl /\
      ConnThrottle.tnums (ConnSlot.throttle sl') = ConnThrottle.tnums (ConnSlot.throttle sl) /\
      ConnThrottle.body_bytes (ConnSlot.throttle sl') = ConnThrottle.body_bytes (ConnSlot.throttle sl) /\
      ConnThrottle.header_len (ConnSlot.throttle sl') = ConnThrottle.header_len (ConnSlot.throttle sl)).
    { subst sl'. unfold register, resume_sending. by destruct (throttles s); cbn; rewrite Hstr; destruct o. }
    destruct Hsame as (E1 & E2 & E3 & E4).
    apply (handle_send_accounted wr k _ sl' s1 sl1) in E as [? _]; [done| | | | |done].
    + unfold upd_slot. simpl. by rewrite lookup_alter_eq, lookup_alter_eq, Hk.
    + destruct Hf. constructor; by rewrite E1.
    + unfold ConnThrottle.is_throttled in *. by rewrite E2.
    + unfold accounted, body_sent in *. by rewrite E1, E3, E4.
Qed.

(** C14: a throttled connection with a positive share stays within it.  When
    the counter of the throttle is the number of body bytes on the wire, then
    after any write it still is, the response has advanced by the bytes
    written, and the body bytes on the wire are at most [max_limit] for each
    second since sending started (the first one counted in full), unless there
    were more before; header bytes are free.  A share of zero is not enforced
    ([zero_share_unlimited]). *)
Theorem send_within_limit (W : World) wr k s sl s' sl' :
  conns s !! k = Some sl -> in_flight sl -> ConnSlot.state sl = Sending ->
  ConnThrottle.is_throttled (ConnSlot.throttle sl) = true ->
  (0 < ConnThrottle.max_limit (ConnSlot.throttle sl))%Z -> accounted sl ->
  let allowance := (ConnThrottle.max_limit (ConnSlot.throttle sl)
                    * elapsed_secs (ConnThrottle.started_at (ConnSlot.throttle sl)))%Z in
  (allowance < 2 ^ 63)%Z -> (body_sent sl < 2 ^ 63)%Z ->
  handle_send wr k s = Some s' -> conns s' !! k = Some sl' ->
  advanced (length (wire wr sl)) sl sl' /\ accounted sl' /\
  (body_sent sl <= body_sent sl' <= Z.max (body_sent sl) allowance)%Z.
Proof.
  intros Hk Hf Hst Ht Hm Hacc allowance Ha Hb E Hk'.
  destruct (handle_send_delivers wr k s sl s' sl' Hk Hf Hst E Hk') as [Hadv _].
  destruct (handle_send_accounted wr k s sl s' sl' Hk Hf Ht Hacc E Hk') as [Hacc' Hh].
  split; [done|]. split; [done|]. unfold body_sent in *. rewrite Hh. destruct Hadv as (_ & _ & ->).
  assert (Hn : (Z.of_nat (length (wire wr sl)) <= write_limit sl)%Z).
  { destruct wr as [n| |]; [rewrite wire_length by done; lia|..]; simpl; by apply write_limit_nonneg. }
  revert Hn. unfold write_limit. rewrite Ht, (proj2 (Z.ltb_lt _ _) Hm). cbn [andb]. fold allowance.
  assert (0 <= allowance)%Z.
  { apply Z.mul_nonneg_nonneg; [lia|]. unfold elapsed_secs.
    destruct (ConnThrottle.started_at _); [|lia]. apply Z.le_trans with 1%Z; [lia|apply Z.le_max_r]. }
  unfold accounted, body_sent in Hacc. rewrite (wrap_s_small 64 allowance), Hacc, wrap_s_small by lia. lia.
Qed.

Definition slow_slot : ConnSlot.t :=
  six_slot <| ConnSlot.throttle := ConnThrottle.new <| ConnThrottle.tnums := [0] |>
                <| ConnThrottle.max_limit := 4%Z |> |>.

Lemma send_within_limit_witness :
  exists s' sl', @handle_send (demo_world 0) (WOk 10) 0 (six_server slow_slot) = Some s' /\
    conns s' !! 0 = Some sl' /\ @wire (demo_world 0) (WOk 10) slow_slot = B "abcd" /\
    accounted sl' /\ (body_sent sl' <= 4)%Z.
Proof.
  assert (H1 : in_flight slow_slot) by (constructor; by vm_compute).
  pose (s1 := unwrap_or (six_server slow_slot) (@handle_send (demo_world 0) (WOk 10) 0 (six_server slow_slot))).
  assert (E : @handle_send (demo_world 0) (WOk 10) 0 (six_server slow_slot) = Some s1)
    by (apply unwrap_or_is_some; by vm_compute).
  destruct (conns s1 !! 0) as [sl1|] eqn:E1;
    [|exfalso; assert (H : is_some (conns s1 !! 0) = true) by (by vm_compute); by rewrite E1 in H].
  exists s1, sl1. split; [done|]. split; [done|]. split; [by vm_compute|].
  destruct (send_within_limit (demo_world 0) (WOk 10) 0 (six_server slow_slot) slow_slot s1 sl1
    (lookup_singleton_eq _ _) H1) as (_ & Hacc & Hb); [done|done|by vm_compute|by vm_compute|by vm_compute|by vm_compute|exact E|exact E1|].
  split; [exact Hacc|]. exact (proj2 Hb).
Defined.

(** A share of zero does not slow a connection down: the rate is only
    enforced for a positive limit, so a throttled connection whose fair share
    was rounded down to zero sends all it has left as soon as the socket
    takes it. *)
Theorem zero_share_unlimited (W : World) n k s sl :
  conns s !! k = Some sl -> in_flight sl -> ~ complete sl -> ConnSlot.state sl = Sending ->
  ConnThrottle.is_throttled (ConnSlot.throttle sl) = true ->
  ConnThrottle.max_limit (ConnSlot.throttle sl) = 0%Z ->
  ConnSlot.stream sl = Some (Some WRITABLE) ->
  (Z.of_nat (length (response (ConnSlot.http sl))) <= Z.of_nat n)%Z ->
  exists s' sl', handle_send (WOk n) k s = Some s' /\ conns s' !! k = Some sl' /\
    ConnSlot.state sl' = Lingering /\ complete sl'.
Proof.
  intros Hk Hf Hc Hst Ht Hm Hstr Hn. pose proof Hf as [Hl Hs].
  assert (Hlim : write_limit sl = (Z.of_nat (response_len (ConnSlot.http sl)) - bytes_sent (ConnSlot.http sl))%Z)
    by (unfold write_limit; rewrite Hm, andb_false_r; done).
  unfold complete in Hc.
  destruct (send_round n k s sl Hk Hf Hc Hst Hlim Hstr) as (s1 & sl1 & E & Hk1 & Er & [[H1 H2]|H]); [lia|..].
  - by exists s1, sl1.
  - destruct H as ([_ Hb] & H2 & _ & _ & _ & H6). unfold complete in H2. rewrite Er in *. lia.
Qed.

(** Two clients of an entry of one byte per second: the second one gets a
    share of zero. *)
Example crowded_share_zero :
  let t := [ThrottleEntry_new (B "**") 1 0] in
  let '(d1, t1) := check_request (B "x") t in
  let '(d2, t2) := check_request (B "x") t1 in
  d1 = Allow [0] 1 0 /\ d2 = Allow [0] 0 0.
Proof. by vm_compute. Qed.

Definition zero_slot : ConnSlot.t :=
  six_slot <| ConnSlot.throttle := ConnThrottle.new <| ConnThrottle.tnums := [0] |>
                <| ConnThrottle.max_limit := 0%Z |> |>.

Lemma zero_share_unlimited_witness :
  exists s' sl', @handle_send (demo_world 0) (WOk 10) 0 (six_server zero_slot) = Some s' /\
    conns s' !! 0 = Some sl' /\ ConnSlot.state sl' = Lingering /\ complete sl'.
Proof.
  apply (zero_share_unlimited (demo_world 0) 10 0 (six_server zero_slot) zero_slot);
    [apply lookup_singleton_eq|constructor; by vm_compute|by vm_compute|done..|by vm_compute].
Defined.
