(* ===== verification/Frame.v ===== *)
(** * What an event of one connection leaves alone

    Every handler changes the slot of its own connection only, keeps the
    configuration, never makes up a throttle table and only adds to the access
    log: a frame rule for the handlers of [EventLoop] and [Dispatch]. *)

From S2P Require Import Prelude RustStr Match Tdate Url Request HttpConn Response Wire.
From S2P Require Import Timers Mime Mmc Throttle Auth Cgi Dirlist Server EventLoop Dispatch Invariants Run.

(** [s'] is [s] up to connection [j] and what all connections share. *)
Record frames (j : nat) (s s' : Server) : Prop := {
  fr_conns : forall k, k <> j -> conns s' !! k = conns s !! k;
  fr_config : config s' = config s;
  fr_throttles : throttles s = None -> throttles s' = None;
  fr_log : exists l, access_log s' = access_log s ++ l;
}.

#[export] Instance frames_preorder j : PreOrder (frames j).
Proof.
  split.
  - intros s. constructor; try done. exists []. by rewrite app_nil_r.
  - intros s1 s2 s3 [A1 A2 A3 [l1 A4]] [B1 B2 B3 [l2 B4]]. constructor.
    + intros k Hk. by rewrite B1, A1.
    + congruence.
    + auto.
    + exists (l1 ++ l2). by rewrite B4, A4, app_assoc.
Qed.

(** The slot of [j], with any change of what is shared. *)
Lemma frames_conns j s s' :
  (forall k, k <> j -> conns s' !! k = conns s !! k) -> config s' = config s ->
  (throttles s = None -> throttles s' = None) -> access_log s' = access_log s -> frames j s s'.
Proof. intros. constructor; try done. exists []. by rewrite app_nil_r. Qed.

(** A handler that may panic. *)
Definition oframes (j : nat) (s : Server) (o : option Server) : Prop :=
  forall s', o = Some s' -> frames j s s'.

Lemma oframes_panic j s : oframes j s None.
Proof. intros s' [=]. Qed.

Create HintDb frame.

Section Frames.
Context {W : World}.

Lemma frames_upd_slot j f s : frames j s (upd_slot j f s).
Proof. apply frames_conns; try done. intros k Hk. unfold upd_slot. simpl. by rewrite lookup_alter_ne. Qed.

Lemma frames_upd_http j f s : frames j s (upd_http j f s).
Proof. apply frames_upd_slot. Qed.

Lemma frames_upd_throttle j f s : frames j s (upd_throttle j f s).
Proof. apply frames_upd_slot. Qed.

Lemma frames_add_cgis j n s : frames j s (add_cgis n s).
Proof. by apply frames_conns. Qed.

Lemma frames_sending j s : frames j s (transition_to_sending j s).
Proof.
  unfold transition_to_sending. destruct (conns s !! j) as [sl|]; [|reflexivity].
  destruct (admit_sending _ _) as [d thr] eqn:E. apply frames_conns; simpl; try done.
  - intros k Hk. by rewrite lookup_insert_ne.
  - intros Ht. revert E. unfold admit_sending. rewrite Ht. by destruct (_ && _); intros [= _ <-].
Qed.

Lemma frames_send_response j r s : frames j s (send_response j r s).
Proof. unfold send_response. etrans; [apply frames_upd_http|apply frames_sending]. Qed.

Lemma frames_send_error j st title form arg s : frames j s (send_error j st title form arg s).
Proof. apply frames_send_response. Qed.

Lemma frames_lingering j s : frames j s (transition_to_lingering j s).
Proof.
  unfold transition_to_lingering. destruct (conns s !! j) as [sl|]; [|reflexivity].
  apply frames_conns; simpl; try done. intros k Hk. by rewrite lookup_insert_ne.
Qed.

Lemma frames_close j s : frames j s (close_connection j s).
Proof.
  unfold close_connection. destruct (conns s !! j) as [sl|]; [|reflexivity]. constructor; simpl.
  - intros k Hk. by rewrite lookup_delete_ne.
  - done.
  - intros Ht. unfold release_throttle. rewrite Ht. by destruct (ConnThrottle.is_throttled _).
  - destruct (_ <? _)%Z; [by eexists|]. exists []. by rewrite app_nil_r.
Qed.

Lemma frames_settle j n s : frames j s (settle_cgi j n s).
Proof.
  unfold settle_cgi. destruct (conns s !! j) as [sl|]; [|reflexivity].
  destruct (ConnThrottle.is_throttled _); [|reflexivity].
  etrans; [|apply frames_upd_throttle]. apply frames_conns; simpl; try done. by intros ->.
Qed.
End Frames.

#[export] Hint Resolve frames_upd_slot frames_upd_http frames_upd_throttle frames_add_cgis frames_sending
  frames_send_response frames_send_error frames_lingering frames_close frames_settle : frame.
#[export] Hint Extern 1 (frames _ ?s ?s) => reflexivity : frame.

(** Peels the outermost update of the new state. *)
Ltac frame_peel :=
  repeat first
    [ reflexivity
    | solve [auto with frame]
    | (etrans; [|solve [apply frames_sending | apply frames_send_response | apply frames_send_error | apply frames_close
                        | apply frames_lingering | apply frames_settle | apply frames_upd_throttle | apply frames_upd_http
                        | apply frames_upd_slot | apply frames_add_cgis]]) ].

(** A result [Some s'] by computation, then [frame_peel]. *)
Ltac frame_some := intros ? [= <-]; frame_peel.

Section Handlers.
Context {W : World}.

Lemma oframes_trans j s s1 o : frames j s s1 -> oframes j s1 o -> oframes j s o.
Proof. intros H1 H2 s' E. etrans; [exact H1|]. by apply H2. Qed.

Lemma frames_shared j s m : frames j s (s <| mmc := m |>).
Proof. by apply frames_conns. Qed.

Lemma admit_static_frames j p s : frames j s (admit_static j p s).2.
Proof.
  unfold admit_static. destruct (throttles s) as [t|] eqn:Ht; [|reflexivity].
  destruct (check_request _ t) as [[|tn mx mn|] t']; cbn [snd]; try (by apply frames_conns; simpl; rewrite ?Ht).
  etrans; [|apply frames_upd_throttle]. by apply frames_conns; simpl; rewrite ?Ht.
Qed.

Lemma admit_cgi_frames j p s : frames j s (admit_cgi j p s).2.
Proof.
  unfold admit_cgi. destruct (throttles s) as [t|] eqn:Ht; [|reflexivity].
  destruct (check_request _ t) as [[|tn mx mn|] t']; cbn [snd]; try (by apply frames_conns; simpl; rewrite ?Ht).
  etrans; [|apply frames_upd_throttle]. by apply frames_conns; simpl; rewrite ?Ht.
Qed.

Lemma serve_file_frames j path size mt s : oframes j s (serve_file j path size mt s).
Proof.
  unfold serve_file. destruct (conns s !! j) as [sl|]; [|done]. cbn [mbind option_bind]. cbv zeta.
  destruct (bool_decide _); [frame_some|].
  destruct (match if_modified_since _ with Some _ => _ | None => _ end); [frame_some|].
  destruct (Mmc.map _ _ _ _) as [[f|e] m']; (eapply oframes_trans; [apply (frames_shared j s m')|]).
  - destruct (static_body _ _); cbn [mbind option_bind]; [frame_some|done].
  - frame_some.
Qed.

Lemma serve_regular_frames j path md s : oframes j s (serve_regular j path md s).
Proof.
  unfold serve_regular. destruct (conns s !! j) as [sl|]; [|done]. cbn [mbind option_bind]. cbv zeta.
  destruct (_ =? _)%Z; [frame_some|]. destruct (negb _); [frame_some|]. destruct (negb _); [frame_some|].
  set (s1 := upd_http j _ s). pose proof (admit_static_frames j (orig_filename (ConnSlot.http sl)) s1) as Ha.
  destruct (admit_static _ _ _) as [b s2]. cbn [snd] in Ha.
  eapply oframes_trans; [etrans; [apply frames_upd_http|exact Ha]|].
  destruct b; cbn [negb]; [|frame_some]. eapply oframes_trans; [apply frames_upd_throttle|apply serve_file_frames].
Qed.

Lemma serve_directory_frames j path md s : oframes j s (serve_directory j path md s).
Proof.
  unfold serve_directory. destruct (conns s !! j) as [sl|]; [|done]. cbn [mbind option_bind]. cbv zeta.
  destruct (generate_listing _ _ _); frame_some.
Qed.

Lemma serve_static_frames j path s : oframes j s (serve_static j path s).
Proof.
  unfold serve_static. cbv zeta. set (s1 := upd_http j _ s).
  apply (oframes_trans j s s1); [apply frames_upd_http|]. destruct (conns s1 !! j) as [sl|]; cbn [mbind option_bind]; [|apply oframes_panic].
  destruct (resolve_static _ _) as [p| |]; [|frame_some..].
  destruct (stat_file p) as [md|nf]; [|destruct (stat_error nf p) as [[st title] form]; frame_some].
  destruct (auth_check2 _ _); try frame_some;
    (destruct (Dirlist.is_dir md); [apply serve_directory_frames|apply serve_regular_frames]).
Qed.

Lemma execute_script_frames j script info s : oframes j s (execute_script j script info s).
Proof.
  unfold execute_script. destruct (conns s !! j) as [sl|]; [|done]. cbn [mbind option_bind]. cbv zeta.
  destruct (run_cgi _ _ _ _); frame_some.
Qed.

Lemma dispatch_cgi_frames j s : oframes j s (dispatch_cgi j s).
Proof.
  unfold dispatch_cgi. cbv zeta. set (s1 := upd_http j _ s).
  apply (oframes_trans j s s1); [apply frames_upd_http|]. destruct (conns s1 !! j) as [sl|]; cbn [mbind option_bind]; [|apply oframes_panic].
  destruct (body_missing _); [frame_some|]. destruct (_ && _)%Z; [frame_some|].
  unfold resolve_script. destruct (cgi_script _ _) as [script info]. set (s2 := upd_http j _ (add_cgis 1 s1)).
  apply (oframes_trans j s1 s2); [etrans; [apply (frames_add_cgis j 1)|apply frames_upd_http]|].
  destruct (_ || _); [frame_some|].
  pose proof (admit_cgi_frames j script s2) as Ha. destruct (admit_cgi _ _ _) as [b s3]. cbn [snd] in Ha.
  eapply oframes_trans; [exact Ha|]. destruct b; cbn [negb]; [apply execute_script_frames|frame_some].
Qed.

Lemma route_request_frames j n s : oframes j s (route_request j n s).
Proof.
  unfold route_request, serve_path. destruct (conns s !! j) as [sl|]; [|done]. cbn [mbind option_bind]. cbv zeta.
  destruct (apply_vhost _ _ _) as [h fp]. set (s1 := upd_http j _ s).
  apply (oframes_trans j s s1); [apply frames_upd_http|].
  destruct (is_cgi_path _ _); [apply dispatch_cgi_frames|]. destruct (negb _); [frame_some|apply serve_static_frames].
Qed.

Lemma process_request_frames j s : oframes j s (process_request j s).
Proof.
  unfold process_request. destruct (conns s !! j) as [sl|]; [|done]. cbn [mbind option_bind].
  destruct (parse_request_line _) as [h|]; [|done]. cbn [mbind option_bind]. cbv zeta.
  set (s1 := upd_http j _ s). apply (oframes_trans j s s1); [apply frames_upd_http|].
  destruct (_ && _); [frame_some|]. destruct (bool_decide _); [frame_some|].
  destruct (parse_headers h) as [h'|]; [|done]. cbn [mbind option_bind]. unfold process_target.
  set (s2 := upd_http j _ s1). apply (oframes_trans j s1 s2); [apply frames_upd_http|]. destruct (_ <? _); [frame_some|].
  destruct (normalize_path _); [apply route_request_frames|]. destruct (contains_sub _ _); frame_some.
Qed.

Lemma handle_read_frames rr j s : oframes j s (handle_read rr j s).
Proof.
  unfold handle_read. destruct (conns s !! j) as [sl|]; [|done]. cbn [mbind option_bind].
  destruct (_ =? _); [frame_some|]. destruct (ConnSlot.stream sl) as [o|]; [|frame_some].
  destruct rr as [[|c data]| |]; [frame_some| |frame_some..]. cbv zeta. set (s1 := upd_http j _ s).
  apply (oframes_trans j s s1); [apply frames_upd_http|].
  destruct (ConnSlot.pending_cgi_body sl).
  - destruct (body_missing _); [frame_some|]. set (s2 := upd_slot j _ s1).
    apply (oframes_trans j s1 s2); [apply frames_upd_slot|apply dispatch_cgi_frames].
  - destruct (got_request _ _ _ _) as [[[r i] st]|]; [|done]. cbn [mbind option_bind]. set (s2 := upd_http j _ s1).
    apply (oframes_trans j s1 s2); [apply frames_upd_http|].
    destruct r; [frame_some|apply process_request_frames|]. intros ? [= <-]. apply frames_send_response.
Qed.

Lemma handle_send_frames wr j s : oframes j s (handle_send wr j s).
Proof.
  unfold handle_send. destruct (conns s !! j) as [sl|]; [|done]. cbn [mbind option_bind]. cbv zeta.
  destruct (_ <=? _)%Z; [frame_some|]. destruct (_ =? _)%Z; [frame_some|].
  destruct (ConnSlot.stream sl); [|frame_some]. destruct (_ <? _)%Z; [done|].
  destruct wr as [n| |]; [|frame_some..].
  destruct (account_sent _ sl (throttles s)) as [sl' thr] eqn:Ea.
  assert (Ht : throttles s = None -> thr = None).
  { intros Ht. revert Ea. unfold account_sent. rewrite Ht. by destruct (_ && _); intros [= _ <-]. }
  match goal with |- context [transition_to_lingering j ?x] => set (s1 := x) end.
  assert (H1 : frames j s s1).
  { apply frames_conns; simpl; try done. intros k Hk. by rewrite lookup_insert_ne. }
  destruct (_ <=? _)%Z; intros ? [= <-].
  - etrans; [exact H1|apply frames_lingering].
  - apply frames_conns; simpl; try done. intros k Hk. by rewrite lookup_insert_ne.
Qed.

Lemma handle_pause_frames wr j s : oframes j s (handle_pause wr j s).
Proof.
  unfold handle_pause. destruct (conns s !! j) as [sl|]; [|done]. cbn [mbind option_bind]. cbv zeta.
  destruct (match ConnThrottle.pause_until _ with Some _ => _ | None => false end); [frame_some|].
  set (s1 := upd_slot j _ s). apply (oframes_trans j s s1); [apply frames_upd_slot|].
  destruct (ConnSlot.stream sl); [|frame_some]. set (s2 := upd_slot j _ s1).
  apply (oframes_trans j s1 s2); [apply frames_upd_slot|apply handle_send_frames].
Qed.

(** The frame rule of an event. *)
Lemma event_frames rr wr j s : oframes j s (handle_connection_event rr wr j s).
Proof.
  unfold handle_connection_event. destruct (conns s !! j) as [sl|]; [|frame_some].
  destruct (ConnSlot.state sl); [frame_some|apply handle_read_frames|apply handle_send_frames|
    apply handle_pause_frames|frame_some].
Qed.
End Handlers.

(** ** Steps that do not concern a connection *)

(** Connection [k] is [sl] in both states of a server without throttles. *)
Record keeps (k : nat) (sl : ConnSlot.t) (s s' : Server) : Prop := {
  kp_conn : conns s' !! k = Some sl;
  kp_throttles : throttles s' = None;
  kp_config : config s' = config s;
  kp_log : exists l, access_log s' = access_log s ++ l;
}.

(** [f] leaves connection [k] as it is, on a server without throttles and as
    long as the connection is not paused. *)
Definition quiet (k : nat) (f : Server -> Server) : Prop :=
  forall s sl, conns s !! k = Some sl -> throttles s = None -> ConnSlot.state sl <> Pausing -> keeps k sl s (f s).

Lemma keeps_same k sl s s' :
  conns s !! k = Some sl -> throttles s = None ->
  conns s' = conns s -> throttles s' = throttles s -> config s' = config s -> access_log s' = access_log s ->
  keeps k sl s s'.
Proof. intros Hk Ht E1 E2 E3 E4. constructor; try congruence. exists []. by rewrite app_nil_r. Qed.

Lemma keeps_trans k sl s1 s2 s3 : keeps k sl s1 s2 -> keeps k sl s2 s3 -> keeps k sl s1 s3.
Proof.
  intros [_ _ A3 [l1 A4]] [B1 B2 B3 [l2 B4]]. constructor; try congruence.
  exists (l1 ++ l2). by rewrite B4, A4, app_assoc.
Qed.

Lemma frames_keeps j k sl s s' :
  j <> k -> conns s !! k = Some sl -> throttles s = None -> frames j s s' -> keeps k sl s s'.
Proof. intros Hj Hk Ht [F1 F2 F3 F4]. constructor; auto. by rewrite F1. Qed.

Lemma quiet_compose k f g : quiet k f -> quiet k g -> quiet k (fun s => g (f s)).
Proof.
  intros Hf Hg s sl Hk Ht Hp. pose proof (Hf s sl Hk Ht Hp) as A.
  eapply keeps_trans; [exact A|]. apply Hg; [apply A|apply A|done].
Qed.

Section Quiet.
Context {W : World}.

(** Events of other connections. *)
Lemma quiet_event rr wr j k : j <> k -> quiet k (fun s => unwrap_or s (handle_connection_event rr wr j s)).
Proof.
  intros Hj s sl Hk Ht _. destruct (handle_connection_event rr wr j s) as [s'|] eqn:E; cbn [unwrap_or].
  - eapply frames_keeps; [exact Hj|done|done|]. by eapply event_frames.
  - by apply keeps_same.
Qed.

Lemma quiet_accept_one {Slab : SlabLaw W} c k : quiet k (fun s => accept_one s c).
Proof.
  intros s sl Hk Ht _. destruct c as [peer ok]. unfold accept_one.
  destruct (_ <=? _); [by apply keeps_same|]. destruct ok; [|by apply keeps_same].
  constructor; simpl; try done; [|exists []; by rewrite app_nil_r].
  rewrite lookup_insert_ne; [done|]. intros E. pose proof (vacant_key_free (conns s)). congruence.
Qed.

(** Accepting more connections. *)
Lemma quiet_accept {Slab : SlabLaw W} l k : quiet k (handle_accept l).
Proof.
  intros s. unfold handle_accept. destruct (draining s); [intros sl Hk Ht _; by apply keeps_same|].
  revert s. induction l as [|c l IH]; [intros s sl Hk Ht _; by apply keeps_same|].
  exact (quiet_compose k (fun s => accept_one s c) _ (quiet_accept_one c k) IH).
Qed.

(** The sweep over the paused connections. *)
Lemma quiet_resume_all wr k l : quiet k (fun s => unwrap_or s (resume_all wr l s)).
Proof.
  induction l as [|j l IH]; intros s sl Hk Ht Hp; cbn [resume_all]; [by apply keeps_same|].
  destruct (conns s !! j) as [sj|] eqn:Hj; [|by apply IH].
  destruct (bool_decide (ConnSlot.state sj = Pausing)) eqn:Hb; [|by apply IH].
  apply bool_decide_eq_true in Hb. assert (Hne : j <> k) by (intros ->; congruence).
  destruct (handle_pause (wr j) j s) as [s1|] eqn:E; cbn [mbind option_bind unwrap_or]; [|by apply keeps_same].
  apply handle_pause_frames in E. pose proof (frames_keeps j k sl s s1 Hne Hk Ht E) as A.
  pose proof (IH s1 sl (kp_conn _ _ _ _ A) (kp_throttles _ _ _ _ A) Hp) as B.
  cbn beta in B. revert B. destruct (resume_all wr l s1) as [s2|]; cbn [unwrap_or]; intros B;
    [exact (keeps_trans _ _ _ _ _ A B)|by apply keeps_same].
Qed.

Lemma quiet_resume wr k : quiet k (fun s => unwrap_or s (resume_ready_paused_connections wr s)).
Proof. intros s. apply quiet_resume_all. Qed.

(** The clean-up of the file cache, the timers and the tick. *)
Lemma quiet_cleanup k : quiet k (fun s => s <| mmc := Mmc.cleanup clock (mmc s) |>).
Proof. intros s sl Hk Ht _. by apply keeps_same. Qed.

Lemma quiet_timers k : quiet k (fun s => unwrap_or s (run_timers s)).
Proof.
  intros s sl Hk Ht _. unfold run_timers. destruct (Timers.run _ _ _) as [[o w]|]; by apply keeps_same.
Qed.

Lemma quiet_tick k : quiet k throttle_tick.
Proof.
  intros s sl Hk Ht Hp. constructor; simpl; [|by rewrite Ht|done|exists []; by rewrite app_nil_r].
  rewrite lookup_fmap, Hk. cbn. f_equal. unfold wake_slot. by rewrite bool_decide_false.
Qed.
End Quiet.

(** ** What else the loop does between two events of a connection *)

(** The other steps of the loop, each in the world of its moment: an event of
    another connection, the connections accepted, the sweep over the paused
    ones, the timers, the clean-up of the file cache, the throttle tick, and
    the start of a drain. *)
Inductive Other : Type :=
  | OEvent (W : World) (rr : ReadResult) (wr : WriteResult) (j : nat)
  | OAccept (W : World) (l : list ((bytes * bytes) * bool))
  | OResume (W : World) (wr : nat -> WriteResult)
  | OTimers (W : World)
  | OCleanup (W : World)
  | OTick (W : World)
  | ODrain (p : Polled).

(** A step that panics ends the program, so that it is not one of the steps
    between two events: here it changes nothing. *)
Definition other_step (o : Other) (s : Server) : Server :=
  match o with
  | OEvent W rr wr j => unwrap_or s (handle_connection_event rr wr j s)
  | OAccept W l => handle_accept l s
  | OResume W wr => unwrap_or s (resume_ready_paused_connections wr s)
  | OTimers W => unwrap_or s (run_timers s)
  | OCleanup W => s <| mmc := Mmc.cleanup clock (mmc s) |>
  | OTick W => throttle_tick s
  | ODrain p => start_drain p s
  end.

Definition others (os : list Other) (s : Server) : Server := foldl (fun s o => other_step o s) s os.

(** The step is not an event of connection [k], and an accepted connection
    gets a vacant slot. *)
Definition spares (k : nat) (o : Other) : Prop :=
  match o with
  | OEvent _ _ _ j => j <> k
  | OAccept W _ => SlabLaw W
  | _ => True
  end.

Lemma quiet_drain p k : quiet k (start_drain p).
Proof. intros s sl Hk Ht _. unfold start_drain. destruct (_ && _); by apply keeps_same. Qed.

Lemma quiet_other k o : spares k o -> quiet k (other_step o).
Proof.
  destruct o; cbn [spares other_step]; intros H.
  - by apply (@quiet_event W).
  - by apply (@quiet_accept W H).
  - apply (@quiet_resume W).
  - apply (@quiet_timers W).
  - apply (@quiet_cleanup W).
  - apply (@quiet_tick W).
  - apply quiet_drain.
Qed.

Lemma quiet_others k os : Forall (spares k) os -> quiet k (others os).
Proof.
  induction 1 as [|o os Ho _ IH]; [intros s sl Hk Ht _; by apply keeps_same|].
  exact (quiet_compose k (other_step o) (others os) (quiet_other k o Ho) IH).
Qed.
