(* ===== verification/StaticFiles.v ===== *)
(** * Static files and requests

    Which files a request can reach, how the response is framed, and when the
    handling of a request panics. *)

From S2P Require Import Prelude RustStr Match Tdate Url Request HttpConn Response Wire.
From S2P Require Import Timers Mime Mmc Throttle Auth Cgi Dirlist Server EventLoop Dispatch Invariants Run.

(** ** Paths *)

Lemma split_by_app_sep {A} (p : A -> bool) s x t :
  p x = true -> split_by p (s ++ x :: t) = split_by p s ++ split_by p t.
Proof.
  intros Hx. induction s as [|y s IH]; cbn [app split_by].
  - by rewrite Hx.
  - rewrite IH. destruct (p y); [done|].
    destruct (split_by p s) as [|h r] eqn:E; [by apply split_by_nonempty in E|done].
Qed.

Lemma path_parts_app s t : path_parts (s ++ "/"%char :: t) = path_parts s ++ path_parts t.
Proof.
  unfold path_parts, split_on. rewrite split_by_app_sep by done. apply filter_app.
Qed.

Lemma path_parts_join dir rel :
  starts_with (B "/") rel = false -> path_parts (path_join dir rel) = path_parts dir ++ path_parts rel.
Proof.
  intros Hr. unfold path_join. rewrite Hr. destruct dir as [|c dir]; [done|]. cbn [is_empty].
  destruct (last (c :: dir)) as [x|] eqn:El; [|by apply last_None in El].
  apply last_Some in El as [d E]. rewrite E. destruct (Ascii.eqb_spec x "/"%char) as [->|].
  - rewrite <- app_assoc. cbn [app]. rewrite !path_parts_app. by rewrite app_nil_r.
  - change (B "/" ++ rel) with ("/"%char :: rel). apply path_parts_app.
Qed.

Lemma is_absolute_join dir rel :
  starts_with (B "/") rel = false -> is_absolute (path_join dir rel) = is_absolute dir.
Proof.
  intros Hr. unfold path_join, is_absolute. rewrite Hr. destruct dir as [|c dir]; [done|]. cbn [is_empty].
  destruct (last (c :: dir)) as [x|] eqn:E; [|by apply last_None in E]. by destruct (x =c? "/"%char).
Qed.

Lemma plain_parts comps :
  Forall plain_component comps -> path_parts (join (B "/") comps) = comps.
Proof.
  intros H. destruct comps as [|c comps]; [done|]. unfold path_parts.
  rewrite split_on_join; [|done|].
  - induction H as [|x l Hx _ IH]; [done|]. rewrite filter_cons, decide_True, IH; [done|].
    destruct Hx as (? & ? & _). done.
  - eapply Forall_impl; [exact H|]. intros x (_ & _ & _ & Hx). exact Hx.
Qed.

(** The components below the root that a request path names. *)
Lemma disk_path_parts dir path n :
  normalize_path path = Some n ->
  exists comps, Forall plain_component comps /\
    path_parts (disk_path dir n) = path_parts dir ++ comps /\ is_absolute (disk_path dir n) = is_absolute dir.
Proof.
  intros H. apply normalize_path_shape in H as (comps & Hc & ->). unfold disk_path.
  destruct comps as [|c comps].
  - exists [B "index.html"]. split.
    { constructor; [|done]. split_and!; [done..|]. repeat constructor. }
    cbn [join app]. split; [by apply path_parts_join|by apply is_absolute_join].
  - assert (Hr : starts_with (B "/") (drop 1 (B "/" ++ join (B "/") (c :: comps))) = false).
    { cbn [drop app]. apply Forall_cons in Hc as [(Hne & _ & _ & Hs) _].
      destruct c as [|x c]; [done|]. apply Forall_cons in Hs as [Hx _].
      assert (E : exists t, join (B "/") ((x :: c) :: comps) = x :: t) by (destruct comps; by eexists).
      destruct E as [t ->]. destruct (starts_with _ _) eqn:E; [|done].
      apply starts_with_spec in E as [t' E]. by injection E as -> _. }
    exists (c :: comps). split; [done|]. destruct (bytes_eqb _ _) eqn:E.
    + exfalso. apply bytes_eqb_true in E. apply (f_equal (drop 1)) in E.
      assert (Hp : path_parts (join (B "/") (c :: comps)) = [])
        by (change (join (B "/") (c :: comps)) with (drop 1 (B "/" ++ join (B "/") (c :: comps))); by rewrite E).
      rewrite plain_parts in Hp; done.
    + split; [|by apply is_absolute_join]. rewrite path_parts_join by done. f_equal. by apply plain_parts.
Qed.

(** [p] is [comps] below [root]. *)
Definition below (root : bytes) (comps : list bytes) (p : bytes) : Prop :=
  path_parts p = path_parts root ++ comps /\ is_absolute p = is_absolute root.

(** C5: on a server without virtual hosts, the file that a request for a
    file or directory (not for a CGI program) makes the server look up lies
    below the document root: either it is the path itself, whose components
    below the root are ordinary names (no `..`), or, when symbolic links are
    resolved, a canonical path below the canonical root.  With virtual hosts
    this can fail ([vhost_leaves_root]); scripts are not checked for links. *)
Theorem served_path_inside_root (W : World) cfg path n p :
  normalize_path path = Some n ->
  resolve_static cfg (disk_path (ServerConfig.dir cfg) n) = Serve p ->
  (exists comps, Forall plain_component comps /\ below (ServerConfig.dir cfg) comps p) \/
  (exists root comps, canonicalize (ServerConfig.dir cfg) = Some root /\
     canonicalize (disk_path (ServerConfig.dir cfg) n) = Some p /\ below root comps p).
Proof.
  intros Hn. pose proof (disk_path_parts (ServerConfig.dir cfg) path n Hn) as Hd. unfold resolve_static.
  destruct (ServerConfig.no_symlink_check cfg); [intros [= <-]; by left|].
  destruct (canonicalize (ServerConfig.dir cfg)) as [root|] eqn:Er; [|done].
  destruct (canonicalize (disk_path _ _)) as [c|] eqn:Ec; [|intros [= <-]; by left].
  destruct (path_starts_with c root) eqn:Es; [|done]. intros [= <-]. right.
  unfold path_starts_with in Es. apply andb_prop in Es as [Ha Hp].
  apply bool_decide_eq_true in Ha, Hp.
  exists root, (drop (length (path_parts root)) (path_parts c)). split_and!; [done|done|]. split; [|done].
  symmetry. rewrite <- (take_drop (length (path_parts root)) (path_parts c)) at 2. by rewrite Hp.
Qed.

Lemma served_path_inside_root_witness :
  exists root comps, @canonicalize (demo_world 0) (B "/w") = Some root /\
     @canonicalize (demo_world 0) demo_path = Some demo_path /\ below root comps demo_path.
Proof.
  destruct (served_path_inside_root (demo_world 0) demo_config (B "/x/../a.txt") (B "/a.txt") demo_path)
    as [(comps & _ & H1)|H]; [by vm_compute|by vm_compute| |exact H].
  exists (B "/w"), comps. split_and!; [done|done|exact H1].
Defined.

(** With virtual hosts the host name is part of the path: without the symlink
    check a [Host: ..] header reaches the directory above the root. *)
Example vhost_leaves_root :
  let cfg := demo_config <| ServerConfig.vhost := true |> <| ServerConfig.no_symlink_check := true |> in
  let h := HttpConn.new <| host := B ".." |> <| orig_filename := B "/a.txt" |> in
  let fp := (@apply_vhost (demo_world 0) cfg h (B "/w/a.txt")).2 in
  fp = B "/w/../a.txt" /\ @resolve_static (demo_world 0) cfg fp = Serve fp.
Proof. by vm_compute. Qed.

(** ** Framing *)

(** A connection whose admission was decided keeps the prepared response. *)
Lemma transition_checked {W : World} k s sl :
  conns s !! k = Some sl -> ConnThrottle.checked (ConnSlot.throttle sl) = true ->
  exists sl', conns (transition_to_sending k s) !! k = Some sl' /\ ConnSlot.state sl' = Sending /\
    response (ConnSlot.http sl') = response (ConnSlot.http sl) /\
    HttpConn.status_code (ConnSlot.http sl') = HttpConn.status_code (ConnSlot.http sl).
Proof.
  intros Hk Hc. unfold transition_to_sending. rewrite Hk.
  assert (Hf : ConnSlot.throttle (fill_header_len sl) = ConnSlot.throttle sl /\
    response (ConnSlot.http (fill_header_len sl)) = response (ConnSlot.http sl) /\
    HttpConn.status_code (ConnSlot.http (fill_header_len sl)) = HttpConn.status_code (ConnSlot.http sl)).
  { unfold fill_header_len. destruct (_ && _ && _); [|done]. by destruct (header_end_offset _). }
  destruct Hf as (E1 & E2 & E3). unfold admit_sending. rewrite E1, Hc, andb_false_r. simpl.
  rewrite lookup_insert_eq. eexists. split; [reflexivity|]. rewrite <- E2, <- E3.
  unfold begin_sending, reregister. destruct (_ && _); cbn; by destruct (ConnSlot.stream _) as [[]|].
Qed.

(** The outcome of a GET of [data]: the bytes that follow the header and the
    length that the header announces, or a panic. *)
Inductive Outcome := Sends (body : bytes) (announced : Z) | Panics.

(** Without a range, or with one that starts after the end: the whole file.
    Otherwise the bytes from the first to the last one; nothing, but with the
    length of the file, when the range ends just before it starts; and a panic
    when it ends before that. *)
Definition get_outcome (h : HttpConn) (data : bytes) : Outcome :=
  let n := Z.of_nat (length data) in
  let first := first_byte_index h in
  let last := last_byte_index h in
  if negb (got_range h) || (n <=? first)%Z then Sends data n
  else if (first <=? last)%Z
  then Sends (take (Z.to_nat (last - first + 1)) (drop (Z.to_nat first) data)) (last - first + 1)
  else if (first =? last + 1)%Z then Sends [] n
  else Panics.

(** A range as [parse_range] and [fill_last_byte] leave it. *)
Definition filled_range (h : HttpConn) (size : Z) : Prop :=
  got_range h = true -> (0 <= first_byte_index h < 2 ^ 63)%Z /\ (-1 <= last_byte_index h < size)%Z.

Lemma static_body_outcome h data :
  filled_range h (Z.of_nat (length data)) -> (Z.of_nat (length data) < 2 ^ 63)%Z ->
  static_body h data = match get_outcome h data with Sends b _ => Some b | Panics => None end.
Proof.
  unfold filled_range, static_body, get_outcome. destruct (got_range h); [|done]. intros H Hb.
  destruct (H eq_refl) as [Hf Hl]. cbn [negb orb].
  assert (Ee : wrap_usize (wrap_usize (last_byte_index h) + 1) = (last_byte_index h + 1)%Z).
  { destruct (Z.eq_dec (last_byte_index h) (-1)%Z) as [->|]; [done|].
    rewrite (wrap_u_small 64 (last_byte_index h)), wrap_u_small by lia. done. }
  rewrite Ee, (wrap_u_small 64 (first_byte_index h)) by lia.
  rewrite (proj2 (Z.leb_le (last_byte_index h + 1) _)) by lia. rewrite andb_true_r.
  destruct (Z.leb_spec (Z.of_nat (length data)) (first_byte_index h)).
  { by rewrite (proj2 (Z.ltb_ge _ _)). }
  rewrite (proj2 (Z.ltb_lt (first_byte_index h) _)) by done.
  destruct (Z.leb_spec (first_byte_index h) (last_byte_index h)).
  { rewrite (proj2 (Z.ltb_ge _ _)) by lia. do 2 f_equal. lia. }
  destruct (Z.eqb_spec (first_byte_index h) (last_byte_index h + 1)) as [E|].
  - rewrite (proj2 (Z.ltb_ge _ _)) by lia. by rewrite E, Z.sub_diag.
  - by rewrite (proj2 (Z.ltb_lt _ _)) by lia.
Qed.

(** The length line of the header of a 200 response. *)
Lemma length_line now_ts h text ty data mt extra b a :
  filled_range h (Z.of_nat (length data)) -> (Z.of_nat (length data) < 2 ^ 63)%Z -> range_if h = None ->
  get_outcome h data = Sends b a ->
  (B "Content-Length: " ++ show_Z a) ∈ response_lines now_ts h 200 text ty (Z.of_nat (length data)) mt extra.
Proof.
  intros Hr Hb Hif Ho. unfold response_lines, partial_content.
  rewrite Hif, andb_true_r. cbn [Z.eqb andb]. rewrite andb_true_r.
  do 3 (apply elem_of_app; right). apply elem_of_app. left.
  unfold get_outcome, filled_range in *. destruct (got_range h) eqn:Hg; cbn [andb negb orb] in *.
  2:{ injection Ho as _ <-. rewrite (proj2 (Z.leb_le 0 _)) by lia. by left. }
  destruct (Hr eq_refl) as [Hf Hl]. rewrite wrap_s_small by lia.
  destruct (Z.leb_spec (first_byte_index h) (last_byte_index h)); cbn [andb].
  2:{ rewrite (proj2 (Z.leb_le 0 _)) by lia.
      destruct (Z.of_nat (length data) <=? first_byte_index h)%Z; [injection Ho as _ <-; by left|].
      destruct (_ =? _)%Z; [|done]. injection Ho as _ <-. by left. }
  rewrite (proj2 (Z.leb_gt _ _)) in Ho by lia. injection Ho as _ <-.
  destruct (Z.eqb_spec (last_byte_index h) (Z.of_nat (length data) - 1)) as [El|];
    [destruct (Z.eqb_spec (first_byte_index h) 0) as [Ef|]|]; cbn [negb orb].
  - rewrite El, Ef. rewrite (proj2 (Z.leb_le 0 _)) by lia.
    replace (Z.of_nat (length data) - 1 - 0 + 1)%Z with (Z.of_nat (length data)) by lia. by left.
  - rewrite wrap_s_small by lia. by right; left.
  - rewrite wrap_s_small by lia. by right; left.
Qed.

(** C12: how a GET of a file is answered, for every range, once it is
    admitted and found modified, when the file did not change between [stat]
    and [mmap] and there is no If-Range.  Without a range, or with one that
    starts after the end of the file, the whole file follows a header block
    that announces its length; a range inside the file is answered with exactly
    its bytes and their number.  For a range that ends just before it starts
    nothing follows a header that announces the whole file, and one that ends
    before that makes the handler panic.  An HTTP/0.9 request gets the bytes
    alone.  The logged status is 206 for every range. *)
Theorem static_response_framed (W : World) k path size mt s sl f m' :
  conns s !! k = Some sl -> ConnThrottle.checked (ConnSlot.throttle sl) = true ->
  let h := ConnSlot.http sl in
  method h <> Method.Head -> (forall t, if_modified_since h = Some t -> (t < mt)%Z) -> range_if h = None ->
  Mmc.map (open_file path) (mmap_ok path) clock (mmc s) = (inl f, m') ->
  size = Z.of_nat (length (mapping f)) -> (size < 2 ^ 63)%Z -> filled_range h size ->
  match get_outcome h (mapping f) with
  | Panics => serve_file k path size mt s = None
  | Sends body announced =>
      exists s' sl' lines, serve_file k path size mt s = Some s' /\ conns s' !! k = Some sl' /\
        ConnSlot.state sl' = Sending /\
        response (ConnSlot.http sl') = (if mime_flag h then crlf_lines lines ++ CRLF else []) ++ body /\
        (B "Content-Length: " ++ show_Z announced) ∈ lines /\
        HttpConn.status_code (ConnSlot.http sl') = (if got_range h then 206 else 200)%Z
  end.
Proof.
  intros Hk Hc h Hm Hims Hif Hmap Hsz Hb Hr. subst size. unfold serve_file. rewrite Hk.
  cbn [mbind option_bind]. fold h. cbv zeta. rewrite bool_decide_false by done.
  assert (Hnm : match if_modified_since h with Some t => (mt <=? t)%Z | None => false end = false).
  { destruct (if_modified_since h) as [t|]; [|done]. apply Z.leb_gt. by apply Hims. }
  rewrite Hnm, Hmap, static_body_outcome by done.
  destruct (get_outcome h (mapping f)) as [body announced|] eqn:Ho; [|done]. cbn [mbind option_bind].
  match goal with |- context [upd_http k ?F ?S] => set (g := F); set (s1 := S) end.
  assert (Hk1 : conns (upd_http k g s1) !! k = Some (sl <| ConnSlot.http := g h |>)).
  { unfold upd_http, upd_slot. simpl. by rewrite lookup_alter_eq, Hk. }
  destruct (transition_checked k (upd_http k g s1) _ Hk1 Hc) as (sl' & Hk' & Hst & Er & Es).
  eexists _, sl', _. split; [reflexivity|]. split; [exact Hk'|]. split; [exact Hst|].
  rewrite Er, Es. subst g. split_and!; [|by eapply (length_line now_ts h (B "OK"))|done].
  cbn. unfold static_header, build_full_response. destruct (mime_flag h); [|done]. cbn [negb]. reflexivity.
Qed.

Definition range_slot (first last : Z) : ConnSlot.t :=
  ConnSlot.new <| ConnSlot.state := Reading |> <| ConnSlot.stream := Some (Some READABLE) |>
    <| ConnSlot.throttle := ConnThrottle.new <| ConnThrottle.checked := true |> |>
    <| ConnSlot.http := HttpConn.new <| method := Method.Get |> <| got_range := true |>
         <| first_byte_index := first |> <| last_byte_index := last |> |>.

Definition range_server (first last : Z) : Server :=
  (Server_new demo_config 1) <| conns := {[0 := range_slot first last]} |>.

Lemma static_response_framed_witness :
  (exists s' sl' lines, @serve_file (demo_world 0) 0 demo_path 20 0 (range_server 5 9) = Some s' /\
    conns s' !! 0 = Some sl' /\ ConnSlot.state sl' = Sending /\
    response (ConnSlot.http sl') = (crlf_lines lines ++ CRLF) ++ B "56789" /\
    (B "Content-Length: " ++ show_Z 5) ∈ lines /\ HttpConn.status_code (ConnSlot.http sl') = 206%Z) /\
  @serve_file (demo_world 0) 0 demo_path 20 0 (range_server 10 5) = None.
Proof.
  assert (H : forall first last, filled_range (ConnSlot.http (range_slot first last)) 20 ->
    match get_outcome (ConnSlot.http (range_slot first last)) demo_data with
    | Panics => @serve_file (demo_world 0) 0 demo_path 20 0 (range_server first last) = None
    | Sends body announced =>
        exists s' sl' lines, @serve_file (demo_world 0) 0 demo_path 20 0 (range_server first last) = Some s' /\
          conns s' !! 0 = Some sl' /\ ConnSlot.state sl' = Sending /\
          response (ConnSlot.http sl') = (crlf_lines lines ++ CRLF) ++ body /\
          (B "Content-Length: " ++ show_Z announced) ∈ lines /\ HttpConn.status_code (ConnSlot.http sl') = 206%Z
    end).
  { intros first last Hr.
    apply (static_response_framed (demo_world 0) 0 demo_path 20 0 (range_server first last) (range_slot first last) 0
      (snd (@Mmc.map (@open_file (demo_world 0) demo_path) true 0 Mmc.new)));
      [apply lookup_singleton_eq|done|done|done|done|by vm_compute|done|done|exact Hr]. }
  split.
  - apply (H 5 9)%Z. intros _. by vm_compute.
  - apply (H 10 5)%Z. intros _. by vm_compute.
Defined.

(** A range that ends just before it starts: the header announces the whole
    file and nothing follows. *)
Example empty_range_misframed :
  get_outcome (ConnSlot.http (range_slot 10 9)) demo_data = Sends [] 20%Z.
Proof. by vm_compute. Qed.

(** ** Panics *)

(** A range that starts after its end, both inside a file of [n] bytes. *)
Definition inverted_range (h : HttpConn) (n : Z) : Prop :=
  got_range h = true /\ (first_byte_index h < n)%Z /\ (last_byte_index h < n)%Z /\
  (last_byte_index h + 1 < first_byte_index h)%Z.

(** When a mapped file is served, the handler panics exactly for an
    inverted range inside the file, [last + 1 < first]: every client can stop
    the server with one request. *)
Theorem inverted_range_panics (W : World) k path size mt s sl f m' :
  conns s !! k = Some sl ->
  let h := ConnSlot.http sl in
  method h <> Method.Head -> if_modified_since h = None ->
  Mmc.map (open_file path) (mmap_ok path) clock (mmc s) = (inl f, m') ->
  (0 <= first_byte_index h < 2 ^ 63)%Z -> (0 <= last_byte_index h < 2 ^ 63)%Z ->
  serve_file k path size mt s = None <-> inverted_range h (Z.of_nat (length (mapping f))).
Proof.
  intros Hk h Hm Hims Hmap Hf Hl. set (n := Z.of_nat (length (mapping f))). unfold serve_file. rewrite Hk. cbn [mbind option_bind].
  fold h. cbv zeta. rewrite bool_decide_false, Hims, Hmap by done.
  assert (Hb : static_body h (mapping f) = None <-> inverted_range h n).
  { unfold static_body, inverted_range. destruct (got_range h); [|split; [done|by intros [? _]]].
    rewrite (wrap_u_small 64 (first_byte_index h)), (wrap_u_small 64 (last_byte_index h)),
      (wrap_u_small 64 (last_byte_index h + 1)) by lia. fold n.
    destruct (Z.ltb_spec (first_byte_index h) n), (Z.leb_spec (last_byte_index h + 1) n); cbn [andb];
      try (split; [done|lia]).
    destruct (Z.ltb_spec (last_byte_index h + 1) (first_byte_index h)); split; try done; lia. }
  rewrite <- Hb. by destruct (static_body h (mapping f)).
Qed.

Lemma inverted_range_panics_witness :
  @serve_file (demo_world 0) 0 demo_path 20 0 (range_server 10 5) = None.
Proof.
  apply (inverted_range_panics (demo_world 0) 0 demo_path 20 0 (range_server 10 5) (range_slot 10 5) 0
    (snd (@Mmc.map (@open_file (demo_world 0) demo_path) true 0 Mmc.new)));
    [apply lookup_singleton_eq|done|done|by vm_compute|by vm_compute|by vm_compute|by vm_compute].
Defined.

(** The whole path, from the accepted connection to the panic. *)
Example inverted_range_crashes_server :
  demo_run (header_block (B "GET /a.txt HTTP/1.0" ++ CRLF ++ B "Range: bytes=10-5")) = None /\
  is_some (demo_run (header_block (B "GET /a.txt HTTP/1.0" ++ CRLF ++ B "Range: bytes=5-10"))) = true.
Proof. by vm_compute. Qed.

(** The response of the only connection of a run, and its logged status. *)
Definition demo_response (req : bytes) : bytes * Z :=
  match conns (demo_state req) !! 0 with
  | Some sl => (response (ConnSlot.http sl), HttpConn.status_code (ConnSlot.http sl))
  | None => ([], 0%Z)
  end.

(** A range that covers the whole file: the client sees 200, the log 206. *)
Example whole_range_status :
  let r := demo_response (header_block (B "GET /a.txt HTTP/1.0" ++ CRLF ++ B "Range: bytes=0-19")) in
  starts_with (B "HTTP/1.0 200 OK") r.1 = true /\ r.2 = 206%Z.
Proof. by vm_compute. Qed.

(** A file that is missing in a missing directory is answered with the 403 of
    a CGI-style path, one that is missing in the root with a 404. *)
Example missing_file_status :
  starts_with (B "HTTP/1.0 403 Forbidden") (demo_response (header_block (B "GET /x/y HTTP/1.0"))).1 = true /\
  starts_with (B "HTTP/1.0 404 Not Found") (demo_response (header_block (B "GET /x HTTP/1.0"))).1 = true.
Proof. by vm_compute. Qed.

(** *** Requests that cannot panic *)

Section Returns.
Context {W : World}.

Lemma lines_ascii s : ascii_only s -> Forall ascii_only (lines s).
Proof. apply lines_Forall. Qed.

(** On ASCII lines the slice after the header name is in range. *)
Lemma extract_loop_ascii search ls :
  ascii_only search -> Forall ascii_only ls -> is_Some (extract_loop search ls).
Proof.
  intros Hs. induction 1 as [|l ls Hl _ IH]; cbn [extract_loop]; [by eexists|].
  destruct (starts_with _ _) eqn:E; [|done]. rewrite !to_lowercase_ascii in E by done.
  apply starts_with_spec in E as [t E]. apply (f_equal length) in E. rewrite length_app, !length_fmap in E.
  unfold str_from. rewrite (proj2 (Nat.leb_le _ _)) by lia.
  assert (Hb : is_char_boundary l (length search) = true).
  { unfold is_char_boundary. destruct (l !! length search) as [c|] eqn:Ec.
    - pose proof (Forall_lookup_1 _ _ _ _ Hl Ec) as Hc. simpl in Hc.
      destruct (Z.leb_spec 128 (code c)); [lia|done].
    - apply Nat.eqb_eq. apply lookup_ge_None in Ec. lia. }
  rewrite Hb. cbn. by eexists.
Qed.

Lemma header_bytes_ascii h : ascii_only (request_bytes h) -> ascii_only (header_bytes h).
Proof. intros H. unfold header_bytes. destruct (position _ _); [by apply Forall_drop|done]. Qed.

Lemma extract_header_ascii h name :
  ascii_only (request_bytes h) -> ascii_only name -> is_Some (extract_header (header_bytes h) name).
Proof.
  intros H Hn. apply header_bytes_ascii in H. unfold extract_header.
  rewrite from_utf8_lossy_ascii by done. apply extract_loop_ascii; [|by apply lines_ascii].
  apply ascii_only_app. split; [done|]. repeat constructor.
Qed.

Lemma with_header_returns h0 name f h :
  ascii_only (request_bytes h0) -> ascii_only (B name) -> is_Some (with_header h0 name f h).
Proof.
  intros H Hn. destruct (extract_header_ascii h0 (B name) H Hn) as [v E].
  unfold with_header. rewrite E. by eexists.
Qed.

Lemma parse_request_line_returns h :
  ascii_only (request_bytes h) -> checked_idx h <= length (read_buf h) ->
  exists h', parse_request_line h = Some h' /\ same_buf h h' /\ got_range h' = got_range h.
Proof.
  intros H Hc. unfold parse_request_line.
  destruct (extract_header_ascii h (B "Host") H) as [v E]; [repeat constructor|]. rewrite E.
  cbn [mbind option_bind]. unfold parse_method. rewrite (proj2 (Nat.ltb_ge _ _)) by done.
  cbn [mbind option_bind]. destruct (split_once _ _) as [[]|]; by eexists.
Qed.

Lemma with_header_range h0 name f h h' :
  (forall v h, got_range (f v h) = got_range h) -> with_header h0 name f h = Some h' ->
  got_range h' = got_range h.
Proof.
  intros Hf. unfold with_header. destruct (extract_header _ _) as [[v|]|]; cbn [mbind option_bind];
    [|by intros [= <-]|done]. intros [= <-]. apply Hf.
Qed.

Ltac header_step Hstep :=
  match goal with
  | |- exists h', mbind _ (with_header ?h ?n ?f ?x) = Some h' /\ _ =>
      let y := fresh "y" in let E := fresh "E" in let G := fresh "G" in
      destruct (Hstep n f x) as (y & E & G); [repeat constructor|done|];
      rewrite E; cbn [mbind option_bind]; try rewrite <- G; clear E
  end.

Lemma parse_headers_returns h :
  ascii_only (request_bytes h) -> extract_header (header_bytes h) (B "Range") = Some None ->
  exists h', parse_headers h = Some h' /\ got_range h' = got_range h.
Proof.
  intros H Hr. unfold parse_headers.
  assert (Hrange : forall x, with_header h "Range" parse_range x = Some x)
    by (intros x; unfold with_header; by rewrite Hr).
  assert (Hstep : forall name f x, ascii_only (B name) -> (forall v y, got_range (f v y) = got_range y) ->
    exists y, with_header h name f x = Some y /\ got_range y = got_range x).
  { intros name f x Hn Hf. destruct (with_header_returns h name f x H Hn) as [y E].
    exists y. split; [done|]. by eapply with_header_range. }
  header_step Hstep. rewrite Hrange. cbn [mbind option_bind].
  do 9 header_step Hstep.
  match goal with |- exists h', with_header _ ?n ?f ?x = _ /\ _ =>
    destruct (Hstep n f x) as (z & Ez & Gz); [repeat constructor| |by exists z] end.
  intros v y'. cbv zeta. by destruct (is_empty _).
Qed.

(** Connection [k] is open and asks for no range. *)
Definition unranged (k : nat) (s : Server) : Prop :=
  exists sl, conns s !! k = Some sl /\ got_range (ConnSlot.http sl) = false.

Lemma unranged_upd k f s :
  (forall sl, got_range (ConnSlot.http (f sl)) = got_range (ConnSlot.http sl)) ->
  unranged k s -> unranged k (upd_slot k f s).
Proof.
  intros Hf (sl & Hk & Hg). exists (f sl). split; [|by rewrite Hf].
  unfold upd_slot. simpl. by rewrite lookup_alter_eq, Hk.
Qed.

Lemma unranged_upd_http k f s :
  (forall h, got_range (f h) = got_range h) -> unranged k s -> unranged k (upd_http k f s).
Proof. intros Hf. apply unranged_upd. intros sl. apply Hf. Qed.

Lemma unranged_upd_throttle k f s : unranged k s -> unranged k (upd_throttle k f s).
Proof. by apply unranged_upd. Qed.

Lemma serve_file_returns k path size mt s : unranged k s -> is_Some (serve_file k path size mt s).
Proof.
  intros (sl & Hk & Hg). unfold serve_file. rewrite Hk. cbn [mbind option_bind]. cbv zeta.
  destruct (bool_decide _); [by eexists|].
  destruct (match if_modified_since _ with Some _ => _ | None => _ end); [by eexists|].
  destruct (Mmc.map _ _ _ _) as [[f|e] m']; [|by eexists].
  unfold static_body. rewrite Hg. cbn [mbind option_bind]. by eexists.
Qed.

Lemma admit_static_unranged k p s b s' : admit_static k p s = (b, s') -> unranged k s -> unranged k s'.
Proof.
  unfold admit_static. destruct (throttles s); [|by intros [= <- <-]].
  destruct (check_request _ _) as [[|tn mx mn|] t']; intros [= <- <-] (sl & Hk & Hg); [by exists sl| |by exists sl].
  apply unranged_upd_throttle. by exists sl.
Qed.

Lemma serve_regular_returns k path md s : unranged k s -> is_Some (serve_regular k path md s).
Proof.
  intros Hu. pose proof Hu as (sl & Hk & Hg). unfold serve_regular. rewrite Hk. cbn [mbind option_bind]. cbv zeta.
  destruct (_ =? _)%Z; [by eexists|]. destruct (negb _); [by eexists|]. destruct (negb _); [by eexists|].
  destruct (admit_static _ _ _) as [b s1] eqn:E. destruct b; cbn [negb]; [|by eexists].
  apply serve_file_returns. apply unranged_upd_throttle. apply admit_static_unranged in E; [done|].
  apply unranged_upd_http; [|done]. intros h. unfold fill_last_byte. by destruct (_ && _).
Qed.

Lemma serve_static_returns k path s : unranged k s -> is_Some (serve_static k path s).
Proof.
  intros Hu. unfold serve_static. cbv zeta.
  assert (Hu' : unranged k (upd_http k (fun h => h <| charset := ServerConfig.charset (config s) |>) s))
    by (by apply unranged_upd_http).
  set (s1 := upd_http k _ s) in *. pose proof Hu' as (sl & Hk & Hg). rewrite Hk. cbn [mbind option_bind].
  destruct (resolve_static _ _) as [p| |]; [|by eexists..].
  destruct (stat_file p) as [md|nf]; [|destruct (stat_error nf p) as [[st title] form]; by eexists].
  destruct (auth_check2 _ _); try (by eexists); (destruct (Dirlist.is_dir md); [|by apply serve_regular_returns]);
    unfold serve_directory; rewrite Hk; cbn [mbind option_bind]; destruct (generate_listing _ _ _); by eexists.
Qed.

Lemma execute_script_returns k script info s :
  is_Some (conns s !! k) -> is_Some (execute_script k script info s).
Proof.
  intros [sl Hk]. unfold execute_script. rewrite Hk. cbn [mbind option_bind]. cbv zeta.
  destruct (run_cgi _ _ _ _); by eexists.
Qed.

Lemma upd_slot_open k j f s : is_Some (conns (upd_slot j f s) !! k) <-> is_Some (conns s !! k).
Proof. unfold upd_slot. simpl. apply lookup_alter_is_Some. Qed.

Lemma dispatch_cgi_returns k s : is_Some (conns s !! k) -> is_Some (dispatch_cgi k s).
Proof.
  intros Ho. unfold dispatch_cgi, resolve_script. cbv zeta. set (s1 := upd_http k _ s).
  assert (Ho1 : is_Some (conns s1 !! k)) by (by apply upd_slot_open).
  pose proof Ho1 as [sl Hk]. rewrite Hk. cbn [mbind option_bind].
  destruct (body_missing _); [by eexists|]. destruct (_ && _)%Z; [by eexists|].
  destruct (cgi_script _ _) as [script info]. destruct (_ || _); [by eexists|].
  destruct (admit_cgi _ _ _) as [b s2] eqn:E. destruct b; cbn [negb]; [|by eexists].
  apply execute_script_returns. revert E. unfold admit_cgi. destruct (throttles _).
  - destruct (check_request _ _) as [[|tn mx mn|] t']; intros [= <-]; repeat apply upd_slot_open; exact Ho.
  - intros [= <-]. repeat apply upd_slot_open. exact Ho.
Qed.

Lemma route_request_returns k n s : unranged k s -> is_Some (route_request k n s).
Proof.
  intros (sl & Hk & Hg). unfold route_request, serve_path. rewrite Hk. cbn [mbind option_bind]. cbv zeta.
  destruct (apply_vhost _ _ _) as [h1 fp] eqn:Ev.
  assert (H1 : got_range h1 = false).
  { revert Ev. unfold apply_vhost. destruct (_ && _); by intros [= <- <-]. }
  assert (H2 : got_range (apply_pathinfo (config s) h1) = false).
  { unfold apply_pathinfo. destruct (_ && _); [done|]. destruct (pathinfo_loop _ _ _ _) as [p i].
    by destruct (is_empty i). }
  set (s1 := upd_http k _ s).
  assert (Hk1 : conns s1 !! k = Some (sl <| ConnSlot.http := apply_pathinfo (config s) h1 |>)).
  { subst s1. unfold upd_http, upd_slot. simpl. by rewrite lookup_alter_eq, Hk. }
  destruct (is_cgi_path _ _); [apply dispatch_cgi_returns; by eexists|].
  destruct (negb _); [by eexists|]. apply serve_static_returns. by eexists.
Qed.
End Returns.

(** A request that was read completely: ASCII, without a [Range] header. *)
Record plain_request {W : World} (h : HttpConn) : Prop := {
  pr_read : checked_idx h <= length (read_buf h);
  pr_ascii : ascii_only (request_bytes h);
  pr_new : got_range h = false;
  pr_range : extract_header (header_bytes h) (B "Range") = Some None;
}.

(** C31: a complete request in ASCII without a [Range] header is always
    answered: whatever the method, the URL, the headers, the file system and
    the scripts, [process_request] returns. *)
Theorem plain_request_answered (W : World) k s sl :
  conns s !! k = Some sl -> plain_request (ConnSlot.http sl) -> is_Some (process_request k s).
Proof.
  set (h := ConnSlot.http sl). intros Hk [Hc Ha Hg Hr]. unfold process_request, process_target. rewrite Hk. cbn [mbind option_bind]. fold h.
  destruct (parse_request_line_returns h Ha Hc) as (h1 & -> & Hb & Hg1). cbn [mbind option_bind]. cbv zeta.
  destruct (_ && _); [by eexists|]. destruct (bool_decide _); [by eexists|].
  assert (Hrb : request_bytes h1 = request_bytes h)
    by (destruct Hb as (E1 & _ & E3); unfold request_bytes; by rewrite E1, E3).
  destruct (parse_headers_returns h1) as (h2 & -> & Hg2); [by rewrite Hrb|unfold header_bytes in *; by rewrite Hrb|].
  cbn [mbind option_bind]. destruct (_ <? _); [by eexists|].
  destruct (normalize_path _); [|by destruct (contains_sub _ _); eexists].
  apply route_request_returns. exists (sl <| ConnSlot.http := h2 |>). split; [|cbn; congruence].
  rewrite upd_http_twice. unfold upd_http, upd_slot. simpl. by rewrite lookup_alter_eq, Hk.
Qed.

(** The request line is all the buffer holds. *)
Definition asked_slot : ConnSlot.t :=
  ConnSlot.new <| ConnSlot.state := Reading |> <| ConnSlot.stream := Some (Some READABLE) |>
    <| ConnSlot.http := HttpConn.new <| read_buf := demo_get |> <| read_idx := length demo_get |>
         <| checked_idx := length demo_get |> |>.

Lemma plain_request_answered_witness :
  is_Some (@process_request (demo_world 0) 0 ((Server_new demo_config 1) <| conns := {[0 := asked_slot]} |>)).
Proof.
  apply (plain_request_answered (demo_world 0) 0 _ asked_slot);
    [apply lookup_singleton_eq|].
  constructor; [by vm_compute|by repeat constructor|done|by vm_compute].
Defined.
