(* ===== verification/EndToEnd.v ===== *)
(** * From the request to the log line

    The life of a connection that asks for a file: the read that completes the
    request ([handle_read] to [serve_file]), the writes of the response
    ([handle_send]) and the close ([handle_linger]), put together, with the
    other steps of the loop ([Frame.Other]) in between. *)

From S2P Require Import Prelude RustStr Match Tdate Url Request HttpConn Response Wire.
From S2P Require Import Timers Mime Mmc Throttle Auth Cgi Dirlist Server EventLoop Dispatch Invariants Run.
From S2P Require Import StaticFiles Serving Frame.

(** ** The request *)

(** A character of a request target that is taken as it is: ASCII, not white
    space, not [%], [+] or [?]. *)
Definition target_char (c : byte) : bool :=
  token_char c && negb (c =c? "%"%char) && negb (c =c? "+"%char) && negb (c =c? "?"%char).

(** A target that names a file by its path: [/a/b.txt]. *)
Record plain_target (t : bytes) : Prop := {
  pt_chars : forallb target_char t = true;
  pt_length : length t <= MAX_URL_LENGTH;
  pt_path : exists comps, Forall plain_component comps /\ t = B "/" ++ join (B "/") comps;
}.

Definition get_line (t : bytes) : list bytes := [B "GET"; t; B "HTTP/1.0"].

(** The whole request: its line and the blank line. *)
Definition get_request (t : bytes) : bytes := header_block (spaced (get_line t)).

Lemma plain_target_token t : plain_target t -> token t = true.
Proof.
  intros [Hc _ (comps & _ & ->)]. unfold token. change (is_empty (B "/" ++ _)) with false. cbn [negb andb].
  rewrite forallb_Forall_true in Hc |- *. eapply Forall_impl; [exact Hc|].
  intros c H. unfold target_char in H. rewrite !andb_true_iff in H. tauto.
Qed.

Lemma get_line_tokens t : plain_target t -> Forall (fun w => token w = true) (get_line t).
Proof. intros H. repeat constructor. by apply plain_target_token. Qed.

Lemma target_free t c :
  (c = "%"%char \/ c = "+"%char \/ c = "?"%char) -> plain_target t -> Forall (fun x => (x =c? c) = false) t.
Proof.
  intros Hc [H _ _]. apply forallb_Forall_true in H. eapply Forall_impl; [exact H|].
  intros x Hx. unfold target_char in Hx.
  apply andb_prop in Hx as [Hx H3]. apply andb_prop in Hx as [Hx H2]. apply andb_prop in Hx as [_ H1].
  destruct Hc as [-> | [-> | ->]]; by apply negb_true_iff.
Qed.

(** A word of a request line is a token. *)
Lemma token_word w : token w = true -> is_word w.
Proof.
  intros (Hne & _ & Hw)%token_spec. split; [done|]. eapply Forall_impl; [exact Hw|].
  intros c Hc. unfold word_char, is_ws, is_eol. repeat case_eqb; subst; done.
Qed.

Lemma get_line_request_line t : plain_target t -> request_line (spaced (get_line t)).
Proof.
  intros H. exists (B "GET"), [SP], t, [SP], (B "HTTP/1.0"), [].
  split; [by rewrite app_nil_r|]. split_and!; try (by apply token_word);
    [split; [done|by repeat constructor]| |split; [done|by repeat constructor]|by left].
  by apply token_word, plain_target_token.
Qed.

(** The loop reads the bytes it was given, whatever the rest of the buffer holds. *)
Lemma got_request_resume pre l rest st :
  got_request (pre ++ l ++ rest) (length pre) (length (pre ++ l)) st = Some (scan (length pre) st l).
Proof.
  unfold got_request. rewrite length_app. replace (length pre + length l - length pre) with (length l) by lia.
  revert pre st. induction l as [|c l IH]; intros pre st; cbn [length got_request_loop scan]; [done|].
  cbn [app]. rewrite list_lookup_middle by done. cbn [mbind option_bind].
  destruct (fsm_step st c) as [st'|]; [|done].
  specialize (IH (pre ++ [c]) st'). rewrite length_app, Nat.add_1_r, <- app_assoc in IH. exact IH.
Qed.

(** The request is complete at its last byte. *)
Lemma get_request_complete t rest :
  plain_target t ->
  got_request (get_request t ++ rest) 0 (length (get_request t)) ParseState.initial =
    Some (GotRequest.GotRequest, length (get_request t), ParseState.GotRequest).
Proof.
  intros Ht. etrans; [exact (got_request_resume [] (get_request t) rest _)|]. unfold get_request, header_block, ParseState.initial.
  change (CRLF ++ CRLF) with (CR :: [LF; CR; LF]).
  rewrite scan_request_line by (done || by apply get_line_request_line).
  rewrite (scan_block_end _ 3); [|done|done|done|].
  - rewrite length_app. simpl. do 3 f_equal. lia.
  - intros j Hj. destruct j as [|[|[|j]]]; [done|done|done|lia].
Qed.

(** ** Parsing it *)

Section Parse.
Context {W : World}.

Lemma position_skip {A} (p : A -> bool) l x r :
  Forall (fun y => p y = false) l -> p x = true -> position p (l ++ x :: r) = Some (length l).
Proof. intros H Hx. induction H as [|y l Hy _ IH]; cbn; [by rewrite Hx|]. by rewrite Hy, IH. Qed.

(** No token contains a line end. *)
Lemma spaced_no_eol ws :
  Forall (fun w => token w = true) ws -> Forall (fun c => is_eol c = false) (spaced ws).
Proof.
  induction 1 as [|w ws Hw Hws IH]; [constructor|].
  assert (Hl : Forall (fun c => is_eol c = false) w).
  { apply token_word in Hw as [_ Hw]. eapply Forall_impl; [exact Hw|].
    intros c Hc. unfold word_char in Hc. apply andb_prop in Hc as [_ Hc]. by apply negb_true_iff. }
  destruct ws; [exact Hl|]. apply Forall_app. split; [exact Hl|]. by constructor.
Qed.

Lemma get_first_line t h :
  plain_target t -> request_bytes h = get_request t -> first_line h = spaced (get_line t).
Proof.
  intros Ht E. unfold first_line. cbv zeta. rewrite E. unfold get_request, header_block.
  change (CRLF ++ CRLF) with (CR :: [LF; CR; LF]).
  rewrite position_skip; [|eapply Forall_impl; [exact (spaced_no_eol _ (get_line_tokens t Ht))|]|done].
  - cbn [unwrap_or]. rewrite take_app_length. apply from_utf8_lossy_ascii, spaced_ascii, get_line_tokens, Ht.
  - intros c Hc. unfold is_eol in Hc. by apply orb_false_iff in Hc as [? _].
Qed.

Lemma get_header_bytes t h :
  plain_target t -> request_bytes h = get_request t -> header_bytes h = CRLF.
Proof.
  intros Ht E. unfold header_bytes. cbv zeta. rewrite E. unfold get_request, header_block.
  assert (Hl : Forall (fun c => (c =c? LF) = false) (spaced (get_line t) ++ [CR])).
  { apply Forall_app. split; [|by repeat constructor].
    eapply Forall_impl; [exact (spaced_no_eol _ (get_line_tokens t Ht))|].
    intros c Hc. unfold is_eol in Hc. by apply orb_false_iff in Hc as [_ ?]. }
  replace (spaced (get_line t) ++ CRLF ++ CRLF) with ((spaced (get_line t) ++ [CR]) ++ LF :: CRLF)
    by (by rewrite <- app_assoc).
  rewrite position_skip by done. rewrite (cons_middle LF), app_assoc. apply drop_app_length'.
  rewrite (length_app _ [LF]). simpl. lia.
Qed.

(** A block without headers has none of them. *)
Lemma no_headers name : ascii_only name -> extract_header CRLF name = Some None.
Proof.
  intros Hn. unfold extract_header. change (lines (from_utf8_lossy CRLF)) with [@nil byte].
  cbn [extract_loop]. rewrite (to_lowercase_ascii (name ++ B ":")), (to_lowercase_ascii []); [|constructor|].
  - by destruct name.
  - apply ascii_only_app. split; [done|]. repeat constructor.
Qed.

(** What the request line sets. *)
Definition asked (t : bytes) (h : HttpConn) : HttpConn :=
  h <| method := Method.Get |> <| http_version := B "HTTP/1.0" |> <| one_one := false |>
    <| encoded_url := t |> <| host := [] |> <| mime_flag := true |> <| decoded_url := t |>.

Lemma split_once_none c s : Forall (fun x => (x =c? c) = false) s -> split_once c s = None.
Proof.
  intros H. unfold split_once.
  assert (E : position (fun x => x =c? c) s = None).
  { induction H as [|x s Hx _ IH]; cbn; [done|]. by rewrite Hx, IH. }
  by rewrite E.
Qed.

Lemma percent_decode_target t : plain_target t -> percent_decode t = t.
Proof.
  intros Ht. unfold percent_decode. rewrite decode_bytes_plain.
  - apply from_utf8_lossy_ascii. pose proof (plain_target_token t Ht) as Hk. by apply token_spec in Hk as (_ & ? & _).
  - apply Forall_and. split; apply target_free; auto.
Qed.

Lemma parse_get_line t h :
  plain_target t -> request_bytes h = get_request t -> checked_idx h <= length (read_buf h) ->
  parse_request_line h = Some (asked t h).
Proof.
  intros Ht E Hc. unfold parse_request_line. cbv zeta.
  assert (Hw : request_words h = get_line t).
  { unfold request_words. rewrite (get_first_line t) by done.
    apply split_whitespace_spaced; [done|by apply get_line_tokens]. }
  rewrite Hw, (get_header_bytes t), no_headers by (done || (repeat constructor)).
  cbn [mbind option_bind get_line lookup list_lookup unwrap_or is_some].
  unfold parse_method. rewrite (proj2 (Nat.ltb_ge _ _)) by done. cbn [mbind option_bind].
  change (take (checked_idx h) (read_buf h)) with (request_bytes h). rewrite E.
  change (take_while _ (get_request t)) with (B "GET").
  rewrite percent_decode_target, split_once_none by (done || (apply target_free; auto)). done.
Qed.

Lemma parse_no_headers t h :
  plain_target t -> request_bytes h = get_request t -> parse_headers h = Some h.
Proof.
  intros Ht E. unfold parse_headers.
  assert (Hh : forall name f x, ascii_only (B name) -> with_header h name f x = Some x).
  { intros name f x Hn. unfold with_header. by rewrite (get_header_bytes t), no_headers. }
  repeat (rewrite Hh by repeat constructor; cbn [mbind option_bind]). done.
Qed.
End Parse.

(** ** The response *)

Definition typed (charset ty : bytes) : bytes :=
  if starts_with (B "text/") ty && negb (contains_sub (B "charset=") ty)
  then ty ++ B "; charset=" ++ (if is_empty charset then B "iso-8859-1" else charset) else ty.

(** The header lines of the answer to a GET of the file [p], written out. *)
Definition file_lines {W : World} (cfg : ServerConfig.t) (p : bytes) (md : Meta) : list bytes :=
  let mi := figure_mime (from_utf8_lossy p) in
  [ B "HTTP/1.0 200 OK";
    B "Server: " ++ SERVER_SOFTWARE;
    B "Content-Type: " ++ typed (ServerConfig.charset cfg) (mime_type_of mi);
    B "Date: " ++ format_http_date now_ts;
    B "Last-Modified: " ++ format_http_date (if (Dirlist.mtime md =? 0)%Z then now_ts else Dirlist.mtime md);
    B "Accept-Ranges: bytes";
    B "Connection: close" ]
  ++ match encoding mi with Some e => [B "Content-Encoding: " ++ e] | None => [] end
  ++ [B "Content-Length: " ++ show_Z (Dirlist.len md)].

Definition file_header {W : World} (cfg : ServerConfig.t) (p : bytes) (md : Meta) : bytes :=
  crlf_lines (file_lines cfg p md) ++ CRLF.

(** A file the configuration lets everybody fetch: no virtual hosts, no CGI
    program, no password file; [p] is the file [t] resolves to. *)
Record servable {W : World} (cfg : ServerConfig.t) (t p : bytes) (md : Meta) : Prop := {
  sv_vhost : ServerConfig.vhost cfg = false;
  sv_cgi : is_cgi_path cfg t = false;
  sv_exists : path_exists (disk_path (ServerConfig.dir cfg) t) = true;
  sv_resolve : resolve_static cfg (disk_path (ServerConfig.dir cfg) t) = Serve p;
  sv_stat : stat_file p = inl md;
  sv_auth : auth_check2 p [] = NoAuthFile;
  sv_file : Dirlist.is_dir md = false;
  sv_readable : Z.land (mode_bits md) 4 <> 0%Z;
  sv_no_exec : Z.land (mode_bits md) 1 = 0%Z;
  sv_size : (0 <= Dirlist.len md < 2 ^ 63)%Z;
}.

(** What the log line takes from the request. *)
Definition log_fields (h : HttpConn) : Method.t * bytes * bool * bytes * bytes * bytes * bytes :=
  (method h, encoded_url h, mime_flag h, http_version h, referer h, user_agent h, x_forwarded_for h).

Definition get_fields (t : bytes) : Method.t * bytes * bool * bytes * bytes * bytes * bytes :=
  (Method.Get, t, true, B "HTTP/1.0", [], [], []).

(** Connection [sl] of [peer] that asked for [t], with [sent] bytes of the
    response [hdr ++ body] on the wire. *)
Record answering (peer : bytes * bytes) (t hdr body : bytes) (sent : nat) (sl : ConnSlot.t) : Prop := {
  an_peer : ConnSlot.peer_addr sl = Some peer;
  an_free : tnums_of sl = [];
  an_response : response (ConnSlot.http sl) = hdr ++ body;
  an_len : response_len (ConnSlot.http sl) = length (hdr ++ body);
  an_header : response_header_len (ConnSlot.http sl) = length hdr;
  an_sent : bytes_sent (ConnSlot.http sl) = Z.of_nat sent;
  an_status : HttpConn.status_code (ConnSlot.http sl) = 200%Z;
  an_fields : log_fields (ConnSlot.http sl) = get_fields t;
}.

(** Connection [sl] of [peer] holds the parsed request for [t]. *)
Record asking (peer : bytes * bytes) (t : bytes) (sl : ConnSlot.t) : Prop := {
  ak_peer : ConnSlot.peer_addr sl = Some peer;
  ak_stream : ConnSlot.stream sl = Some (Some READABLE);
  ak_free : tnums_of sl = [];
  ak_fields : log_fields (ConnSlot.http sl) = get_fields t;
  ak_auth : authorization (ConnSlot.http sl) = [];
  ak_info : path_info (ConnSlot.http sl) = [];
  ak_range : got_range (ConnSlot.http sl) = false;
  ak_since : if_modified_since (ConnSlot.http sl) = None;
}.

Section Answer.
Context {W : World}.
Variables (cfg : ServerConfig.t) (peer : bytes * bytes) (t p : bytes) (md : Meta).
Hypothesis Hsv : servable cfg t p md.

Lemma file_header_ok h :
  log_fields h = get_fields t -> got_range h = false -> charset h = ServerConfig.charset cfg ->
  static_header 200 (B "OK") p (Dirlist.len md) (Dirlist.mtime md) h = file_header cfg p md.
Proof.
  intros [= Hm Hu Hf Hv _ _ _] Hr Hc. unfold static_header, build_full_response, file_header, file_lines.
  rewrite Hf. cbn [negb]. f_equal. f_equal. unfold response_lines, partial_content. rewrite Hr. cbn [andb].
  unfold protocol, fixed_type, typed. rewrite Hv, Hc. cbn [is_empty].
  rewrite (proj2 (Z.leb_le 0 _)) by (destruct (sv_size _ _ _ _ Hsv); lia).
  unfold encoding_headers. destruct (encoding (figure_mime (from_utf8_lossy p))) as [e|]; done.
Qed.

(** Sending starts with nothing on the wire. *)
Lemma transition_answering k s sl hdr body :
  conns s !! k = Some sl -> ConnThrottle.checked (ConnSlot.throttle sl) = true ->
  ConnSlot.stream sl = Some (Some READABLE) -> response_header_len (ConnSlot.http sl) <> 0 ->
  answering peer t hdr body 0 sl ->
  exists sl', conns (transition_to_sending k s) !! k = Some sl' /\ ConnSlot.state sl' = Sending /\
    ConnSlot.stream sl' = Some (Some WRITABLE) /\ answering peer t hdr body 0 sl' /\
    access_log (transition_to_sending k s) = access_log s.
Proof.
  intros Hk Hc Hs Hh Ha. unfold transition_to_sending. rewrite Hk.
  assert (E : fill_header_len sl = sl).
  { unfold fill_header_len. destruct (response_header_len _) eqn:E0; [done|]. by rewrite andb_false_r. }
  rewrite E. unfold admit_sending. rewrite Hc, andb_false_r. cbn [count_request conns].
  unfold count_request. cbn. rewrite lookup_insert_eq. eexists. split; [reflexivity|].
  destruct Ha as [H1 H2 H3 H4 H5 H6 H7 H8]. unfold begin_sending, reregister. rewrite Hc. cbn [andb].
  assert (Hu : ConnThrottle.is_throttled (ConnSlot.throttle sl) = false).
  { unfold ConnThrottle.is_throttled. by rewrite H2. }
  destruct sl as [st str h pa ct cg pb]. cbn in *. rewrite Hu. cbn. rewrite Hs. cbn.
  split_and!; [done|done| |done]. by constructor.
Qed.

(** The connection is being answered with the file [f]. *)
Definition starts_answer (k : nat) (f : nat) (s s' : Server) : Prop :=
  exists sl', conns s' !! k = Some sl' /\ ConnSlot.state sl' = Sending /\
    ConnSlot.stream sl' = Some (Some WRITABLE) /\
    answering peer t (file_header cfg p md) (mapping f) 0 sl' /\ access_log s' = access_log s.

Lemma file_header_nonempty : length (file_header cfg p md) <> 0.
Proof. unfold file_header. rewrite length_app. simpl. lia. Qed.

Lemma serve_file_answers k s sl f m' :
  conns s !! k = Some sl -> asking peer t sl -> charset (ConnSlot.http sl) = ServerConfig.charset cfg ->
  ConnThrottle.checked (ConnSlot.throttle sl) = true ->
  Mmc.map (open_file p) (mmap_ok p) clock (mmc s) = (inl f, m') ->
  exists s', serve_file k p (Dirlist.len md) (Dirlist.mtime md) s = Some s' /\ starts_answer k f s s'.
Proof.
  intros Hk Ha Hcs Hc Hmap. destruct Ha as [A1 A2 A3 A4 _ _ A7 A8]. pose proof A4 as A4'.
  injection A4' as Hm _ Hf _ _ _ _. unfold serve_file. rewrite Hk. cbn [mbind option_bind]. cbv zeta.
  rewrite bool_decide_false, A8, Hmap by congruence. unfold static_body. rewrite A7. cbn [mbind option_bind].
  rewrite Hf, file_header_ok by done.
  match goal with |- context [upd_http k ?F ?S] => set (g := F); set (s1 := S) end.
  assert (Hk1 : conns (upd_http k g s1) !! k = Some (sl <| ConnSlot.http := g (ConnSlot.http sl) |>)).
  { unfold upd_http, upd_slot. simpl. by rewrite lookup_alter_eq, Hk. }
  eexists. split; [reflexivity|].
  destruct (transition_answering k (upd_http k g s1) _ (file_header cfg p md) (mapping f) Hk1) as (sl' & H);
    [done|done| |constructor; subst g; cbn; rewrite ?Hf, ?A7; done|exists sl'; exact H].
  subst g. cbn. rewrite Hf. apply file_header_nonempty.
Qed.

Lemma serve_regular_answers k s sl f m' :
  conns s !! k = Some sl -> asking peer t sl -> charset (ConnSlot.http sl) = ServerConfig.charset cfg ->
  throttles s = None -> Mmc.map (open_file p) (mmap_ok p) clock (mmc s) = (inl f, m') ->
  exists s', serve_regular k p md s = Some s' /\ starts_answer k f s s'.
Proof.
  intros Hk Ha Hcs Ht Hmap. destruct Hsv as [_ _ _ _ _ _ _ H8 H9 [Hz1 Hz2]].
  unfold serve_regular. rewrite Hk. cbn [mbind option_bind]. cbv zeta.
  rewrite (proj2 (Z.eqb_neq _ _) H8), H9, (ak_info _ _ _ Ha). cbn [Z.eqb negb is_empty].
  rewrite wrap_s_small by lia. set (s1 := upd_http k _ s).
  assert (Ht1 : throttles s1 = None) by done. unfold admit_static. rewrite Ht1. cbn [negb].
  match goal with |- context [upd_throttle k ?F ?S] => set (g := F) end.
  assert (Hfill : fill_last_byte (Dirlist.len md) (ConnSlot.http sl) = ConnSlot.http sl).
  { unfold fill_last_byte. by rewrite (ak_range _ _ _ Ha). }
  assert (Hk1 : conns (upd_throttle k g s1) !! k =
    Some (sl <| ConnSlot.http := ConnSlot.http sl |> <| ConnSlot.throttle := g (ConnSlot.throttle sl) |>)).
  { subst s1. unfold upd_throttle, upd_http, upd_slot. simpl. rewrite !lookup_alter_eq, Hk. simpl. by rewrite Hfill. }
  apply (serve_file_answers k (upd_throttle k g s1) _ f m' Hk1); [|done|done|exact Hmap].
  by destruct Ha; constructor.
Qed.

Lemma serve_static_answers k s sl f m' :
  conns s !! k = Some sl -> asking peer t sl -> config s = cfg -> throttles s = None ->
  Mmc.map (open_file p) (mmap_ok p) clock (mmc s) = (inl f, m') ->
  exists s', serve_static k (disk_path (ServerConfig.dir cfg) t) s = Some s' /\ starts_answer k f s s'.
Proof.
  intros Hk Ha Hcfg Ht Hmap. unfold serve_static. cbv zeta. set (s1 := upd_http k _ s).
  assert (Hk1 : conns s1 !! k =
    Some (sl <| ConnSlot.http := (ConnSlot.http sl) <| charset := ServerConfig.charset (config s) |> |>)).
  { subst s1. unfold upd_http, upd_slot. simpl. by rewrite lookup_alter_eq, Hk. }
  rewrite Hcfg in Hk1. set (sl1 := sl <| ConnSlot.http := _ |>) in Hk1.
  assert (Ha1 : asking peer t sl1) by (by destruct Ha; constructor).
  rewrite Hk1. cbn [mbind option_bind]. change (config s1) with (config s). rewrite Hcfg.
  rewrite (sv_resolve _ _ _ _ Hsv), (sv_stat _ _ _ _ Hsv).
  rewrite (ak_auth _ _ _ Ha1), (sv_auth _ _ _ _ Hsv), (sv_file _ _ _ _ Hsv).
  by apply (serve_regular_answers k s1 sl1 f m').
Qed.

Lemma route_answers k s sl f m' :
  conns s !! k = Some sl -> asking peer t sl -> host (ConnSlot.http sl) = [] -> config s = cfg -> throttles s = None ->
  Mmc.map (open_file p) (mmap_ok p) clock (mmc s) = (inl f, m') ->
  exists s', route_request k t s = Some s' /\ starts_answer k f s s'.
Proof.
  intros Hk Ha Hh Hcfg Ht Hmap. unfold route_request, serve_path. rewrite Hk. cbn [mbind option_bind]. cbv zeta.
  unfold apply_vhost, apply_pathinfo. rewrite Hcfg, (sv_vhost _ _ _ _ Hsv). cbn [andb pathinfo_loop].
  change (orig_filename (_ <| orig_filename := t |>)) with t. rewrite (sv_exists _ _ _ _ Hsv). cbn [is_empty].
  change (orig_filename (_ <| orig_filename := t |>)) with t.
  change (config (upd_http _ _ s)) with (config s). rewrite Hcfg, (sv_cgi _ _ _ _ Hsv).
  change (path_info (_ <| orig_filename := t |>)) with (path_info (ConnSlot.http sl)).
  rewrite (ak_info _ _ _ Ha). cbn [is_empty negb].
  set (s1 := upd_http k _ s).
  assert (Hk1 : conns s1 !! k = Some (sl <| ConnSlot.http := (ConnSlot.http sl) <| orig_filename := t |> |>)).
  { subst s1. unfold upd_http, upd_slot. simpl. by rewrite lookup_alter_eq, Hk. }
  apply (serve_static_answers k s1 _ f m' Hk1); [|exact Hcfg|exact Ht|exact Hmap].
  by destruct Ha; constructor.
Qed.
End Answer.

(** ** The reads *)

(** A scan goes on where it stopped, unless it stopped before the end. *)
Lemma scan_app l1 l2 i st :
  scan i st (l1 ++ l2) =
    match scan i st l1 with
    | (GotRequest.NoRequest, j, st') => if j =? i + length l1 then scan j st' l2 else (GotRequest.NoRequest, j, st')
    | res => res
    end.
Proof.
  revert i st. induction l1 as [|c l1 IH]; intros i st; cbn [app scan length].
  { by rewrite Nat.add_0_r, Nat.eqb_refl. }
  destruct (fsm_step st c) as [st'|r adv st'] eqn:E.
  - rewrite IH. by rewrite Nat.add_succ_r.
  - destruct r; try done. destruct (Nat.eqb_spec (if adv then S i else i) (i + S (length l1))) as [Hj|]; [|done].
    assert (adv = false) as ->; [|lia].
    destruct st; simpl in E; repeat (case_match; try done); by simplify_eq.
Qed.

Lemma scan_bound l i st : (scan i st l).1.2 <= i + length l.
Proof.
  revert i st. induction l as [|c l IH]; intros i st; cbn [scan length]; [simpl; lia|].
  destruct (fsm_step st c) as [st'|r adv st']; [specialize (IH (S i) st'); lia|]. destruct adv; simpl; lia.
Qed.

(** A prefix of a request that ends with its last byte is not yet a request. *)
Lemma scan_unfinished l1 l2 i st :
  l2 <> [] -> scan i st (l1 ++ l2) = (GotRequest.GotRequest, i + length (l1 ++ l2), ParseState.GotRequest) ->
  exists st', scan i st l1 = (GotRequest.NoRequest, i + length l1, st') /\
    scan (i + length l1) st' l2 = (GotRequest.GotRequest, i + length l1 + length l2, ParseState.GotRequest).
Proof.
  intros Hne. rewrite scan_app, length_app. pose proof (scan_bound l1 i st) as Hb.
  destruct (scan i st l1) as [[[] j] st']; simpl in Hb.
  - destruct (Nat.eqb_spec j (i + length l1)) as [->|]; [|done]. intros E. exists st'. split; [done|].
    rewrite E. by rewrite Nat.add_assoc.
  - intros [= E _]. destruct l2; [done|]. simpl in E. lia.
  - done.
Qed.

(** A connection that has read [pre], and nothing of it parsed. *)
Record received (pre : bytes) (st : ParseState.t) (h : HttpConn) : Prop := {
  rc_buf : take (length pre) (read_buf h) = pre;
  rc_size : length (read_buf h) = READ_BUF_SIZE;
  rc_read : read_idx h = length pre;
  rc_checked : checked_idx h = length pre;
  rc_state : parse_state h = st;
  rc_auth : authorization h = [];
  rc_info : path_info h = [];
  rc_range : got_range h = false;
  rc_since : if_modified_since h = None;
  rc_log : (referer h, user_agent h, x_forwarded_for h) = ([], [], []);
}.

Record receiving (peer : bytes * bytes) (pre : bytes) (st : ParseState.t) (sl : ConnSlot.t) : Prop := {
  rg_state : ConnSlot.state sl = Reading;
  rg_peer : ConnSlot.peer_addr sl = Some peer;
  rg_stream : ConnSlot.stream sl = Some (Some READABLE);
  rg_free : tnums_of sl = [];
  rg_body : ConnSlot.pending_cgi_body sl = false;
  rg_http : received pre st (ConnSlot.http sl);
}.

(** What a read leaves alone. *)
Definition same_server (s s' : Server) : Prop :=
  config s' = config s /\ throttles s' = throttles s /\ mmc s' = mmc s /\ access_log s' = access_log s.

(** The buffer after one more read. *)
Lemma store_read_buf pre c st h :
  received pre st h -> length (pre ++ c) <= READ_BUF_SIZE ->
  exists rest, read_buf (store_read c h) = pre ++ c ++ rest /\ read_idx (store_read c h) = length (pre ++ c) /\
    length (read_buf (store_read c h)) = READ_BUF_SIZE.
Proof.
  intros H Hl. rewrite length_app in Hl. destruct H as [Hb Hs Hr _ _ _ _ _ _ _]. unfold store_read. cbv zeta.
  rewrite Hr. rewrite (take_ge c) by lia. cbn. rewrite Hb.
  eexists. split; [reflexivity|]. split; [by rewrite length_app|]. rewrite !length_app, length_drop. lia.
Qed.

(** The connection after the bytes [c] were read and scanned. *)
Definition read_slot (c : bytes) (j : nat) (st : ParseState.t) (sl : ConnSlot.t) : ConnSlot.t :=
  sl <| ConnSlot.http := (store_read c (ConnSlot.http sl)) <| checked_idx := j |> <| parse_state := st |> |>.

Lemma read_slot_receiving peer pre c st st' sl :
  receiving peer pre st sl -> length (pre ++ c) <= READ_BUF_SIZE ->
  receiving peer (pre ++ c) st' (read_slot c (length (pre ++ c)) st' sl).
Proof.
  intros [H1 H2 H3 H4 H5 H6] Hl. constructor; [done..|].
  destruct (store_read_buf pre c st _ H6 Hl) as (rest & E1 & E2 & E3). destruct H6 as [_ _ _ _ _ R6 R7 R8 R9 R10].
  constructor; cbn; try done. cbn in E1. rewrite E1, app_assoc. apply take_app_length.
Qed.

Lemma handle_read_scans {W : World} k s sl peer pre c st :
  conns s !! k = Some sl -> receiving peer pre st sl -> c <> [] -> length (pre ++ c) <= READ_BUF_SIZE ->
  let '(r, j, st') := scan (length pre) st c in
  exists s1, conns s1 !! k = Some (read_slot c j st' sl) /\ same_server s s1 /\
    handle_read (ROk c) k s =
      match r with
      | GotRequest.NoRequest => Some s1
      | GotRequest.BadRequest => Some (send_bad_request k s1)
      | GotRequest.GotRequest => process_request k s1
      end.
Proof.
  intros Hk [_ _ H3 _ H5 H6] Hc Hl.
  destruct (scan (length pre) st c) as [[r j] st'] eqn:E. unfold handle_read. rewrite Hk. cbn [mbind option_bind].
  assert (Hfull : (READ_BUF_SIZE - read_idx (ConnSlot.http sl) =? 0) = false).
  { rewrite (rc_read _ _ _ H6). apply Nat.eqb_neq. rewrite length_app in Hl. destruct c; [done|]. simpl in Hl. lia. }
  rewrite Hfull, H3, H5. destruct c as [|x c']; [done|]. set (c := x :: c') in *.
  destruct (store_read_buf pre c st _ H6 Hl) as (rest & E1 & E2 & _).
  rewrite E1, E2. change (checked_idx (store_read c _)) with (checked_idx (ConnSlot.http sl)).
  change (parse_state (store_read c _)) with (parse_state (ConnSlot.http sl)).
  rewrite (rc_checked _ _ _ H6), (rc_state _ _ _ H6), got_request_resume, E. cbn [mbind option_bind].
  match goal with |- exists _, _ /\ _ /\ match r with GotRequest.NoRequest => Some ?S | _ => _ end = _ =>
    exists S end.
  split; [|split; [done|by destruct r]].
  rewrite upd_http_twice. unfold upd_http, upd_slot. simpl. by rewrite lookup_alter_eq, Hk.
Qed.

Lemma get_request_length t : plain_target t -> length (get_request t) <= READ_BUF_SIZE.
Proof.
  intros [_ Hl _]. unfold get_request, header_block. rewrite !length_app. cbn [get_line spaced].
  rewrite length_app. cbn [length]. rewrite length_app. cbn -[READ_BUF_SIZE].
  unfold READ_BUF_SIZE. unfold MAX_URL_LENGTH in Hl. lia.
Qed.

Lemma get_request_scan t :
  plain_target t ->
  scan 0 ParseState.initial (get_request t) =
    (GotRequest.GotRequest, 0 + length (get_request t), ParseState.GotRequest).
Proof.
  intros Ht. pose proof (got_request_resume [] (get_request t) [] ParseState.initial) as E.
  cbn [app length] in E. rewrite get_request_complete in E by done. by injection E.
Qed.

(** A parsed request without errors is routed. *)
Lemma process_routes {W : World} k s sl h n :
  conns s !! k = Some sl -> parse_request_line (ConnSlot.http sl) = Some h -> parse_headers h = Some h ->
  one_one h = false -> method h <> Method.Unknown -> length (encoded_url h) <= MAX_URL_LENGTH ->
  normalize_path (decoded_url h) = Some n ->
  process_request k s = route_request k n (upd_http k (fun _ => h) s).
Proof.
  intros Hk E1 E2 Ho Hm Hl Hn. unfold process_request, process_target. rewrite Hk. cbn [mbind option_bind]. rewrite E1.
  cbn [mbind option_bind]. rewrite Ho. cbn [andb]. rewrite bool_decide_false by done. rewrite E2.
  cbn [mbind option_bind]. rewrite (proj2 (Nat.ltb_ge _ _) Hl), Hn, upd_http_twice. reflexivity.
Qed.

Lemma process_get {W : World} cfg peer t p md k s sl st f m' :
  servable cfg t p md -> plain_target t ->
  conns s !! k = Some sl -> receiving peer (get_request t) st sl -> config s = cfg -> throttles s = None ->
  Mmc.map (open_file p) (mmap_ok p) clock (mmc s) = (inl f, m') ->
  exists s', process_request k s = Some s' /\ starts_answer cfg peer t p md k f s s'.
Proof.
  intros Hsv Ht Hk Hg Hcfg Hthr Hmap. destruct Hg as [_ G2 G3 G4 _ G6].
  assert (Hb : request_bytes (ConnSlot.http sl) = get_request t).
  { unfold request_bytes. rewrite (rc_checked _ _ _ G6). apply (rc_buf _ _ _ G6). }
  assert (Hb' : request_bytes (asked t (ConnSlot.http sl)) = get_request t) by (rewrite <- Hb; reflexivity).
  assert (Hc : checked_idx (ConnSlot.http sl) <= length (read_buf (ConnSlot.http sl))).
  { rewrite (rc_checked _ _ _ G6), (rc_size _ _ _ G6). by apply get_request_length. }
  assert (Hn : normalize_path t = Some t).
  { destruct (pt_path t Ht) as (comps & Hp & ->). by apply normalize_path_plain. }
  rewrite (process_routes k s sl (asked t (ConnSlot.http sl)) t Hk (parse_get_line t _ Ht Hb Hc)
    (parse_no_headers t _ Ht Hb') eq_refl ltac:(done) (pt_length t Ht) Hn).
  set (s1 := upd_http k _ s).
  assert (Hk1 : conns s1 !! k = Some (sl <| ConnSlot.http := asked t (ConnSlot.http sl) |>)).
  { subst s1. unfold upd_http, upd_slot. simpl. by rewrite lookup_alter_eq, Hk. }
  apply (route_answers cfg peer t p md Hsv k s1 _ f m' Hk1); [|done..].
  destruct G6 as [_ _ _ _ _ R6 R7 R8 R9 R10]. injection R10 as R10 R11 R12.
  constructor; try done. unfold log_fields, get_fields. cbn. by rewrite R10, R11, R12.
Qed.

(** ** The writes and the close *)

(** The log line of a file sent completely. *)
Definition served_entry (peer : bytes * bytes) (t body : bytes) : LogEntry :=
  mkLog peer.1 (B "-") (B "GET") t (B "HTTP/1.0") 200 (Z.of_nat (length body)) [] [].

Section Writes.
Context {W : World}.
Variables (peer : bytes * bytes) (t hdr body : bytes).

Definition total : nat := length (hdr ++ body).

Lemma answering_log sl :
  (Z.of_nat total < 2 ^ 63)%Z -> answering peer t hdr body total sl -> log_entry sl = served_entry peer t body.
Proof.
  unfold total. intros Hb [H1 _ _ _ H5 H6 H7 [= H8 H9 H10 H11 H12 H13 H14]].
  unfold log_entry, served_entry. cbv zeta. rewrite H8, H9, H10, H11, H12, H13, H14, H1. cbn [is_empty].
  unfold logged_status_code, entity_bytes_sent. rewrite H7, H5, H6, length_app. destruct peer as [ip addr].
  rewrite length_app in Hb. rewrite wrap_s_small by lia. cbn [Method.as_str fst Z.ltb]. f_equal. lia.
Qed.

Lemma reregister_on i j sl :
  ConnSlot.stream sl = Some (Some j) -> reregister i sl = sl <| ConnSlot.stream := Some (Some i) |>.
Proof. intros H. unfold reregister. by rewrite H. Qed.

(** One write: the bytes that follow those sent, and the next state. *)
Lemma send_answer n k s sl sent :
  conns s !! k = Some sl -> ConnSlot.state sl = Sending -> ConnSlot.stream sl = Some (Some WRITABLE) ->
  answering peer t hdr body sent sl -> sent < total -> 0 < n ->
  emitted (WOk n) k s = take n (drop sent (hdr ++ body)) /\
  exists s1 sl1, handle_connection_event RErr (WOk n) k s = Some s1 /\ conns s1 !! k = Some sl1 /\
    access_log s1 = access_log s /\ answering peer t hdr body (Nat.min (sent + n) total) sl1 /\
    if total <=? sent + n then ConnSlot.state sl1 = Lingering
    else ConnSlot.state sl1 = Sending /\ ConnSlot.stream sl1 = Some (Some WRITABLE).
Proof.
  intros Hk Hst Hstr Ha Hs Hn. pose proof Ha as [H1 H2 H3 H4 H5 H6 H7 H8].
  assert (Hlim : write_limit sl = Z.of_nat (total - sent)).
  { rewrite unthrottled_limit by done. rewrite H4, H6. fold total. lia. }
  unfold emitted, handle_connection_event. rewrite Hk, Hst. split.
  { unfold wire, write_slice. rewrite Hlim, H3, H6, !Nat2Z.id. f_equal. apply take_ge.
    rewrite length_drop. fold total. lia. }
  unfold handle_send. rewrite Hk. cbn [mbind option_bind]. rewrite Hlim, H3, H4, H6, Hstr. fold total.
  rewrite (proj2 (Z.leb_gt _ _)), (proj2 (Z.eqb_neq _ _)), (proj2 (Z.ltb_ge _ _)) by lia.
  unfold account_sent, ConnThrottle.is_throttled. rewrite H2. cbn [is_empty negb andb].
  set (m := Z.min _ _). assert (Hm : (bytes_sent (ConnSlot.http sl) + m = Z.of_nat (Nat.min (sent + n) total))%Z) by lia.
  rewrite Hm. set (sl' := sl <| ConnSlot.http := _ |>).
  assert (Ha' : answering peer t hdr body (Nat.min (sent + n) total) sl') by (by constructor).
  change (bytes_sent (ConnSlot.http sl')) with (Z.of_nat (Nat.min (sent + n) total)).
  destruct (Nat.leb_spec total (sent + n)).
  - rewrite (proj2 (Z.leb_le _ _)) by lia.
    match goal with |- context [transition_to_lingering k ?x] => set (s1 := x) end.
    assert (Hk1 : conns s1 !! k = Some sl') by apply lookup_insert_eq.
    unfold transition_to_lingering. rewrite Hk1.
    eexists _, _. split; [reflexivity|]. split; [simpl; apply lookup_insert_eq|]. split; [done|].
    rewrite (reregister_on READABLE WRITABLE) by exact Hstr.
    split; [|done]. by destruct Ha'; constructor.
  - rewrite (proj2 (Z.leb_gt _ _)) by lia. eexists _, _. split; [reflexivity|].
    split; [simpl; apply lookup_insert_eq|]. split; [done|].
    rewrite (reregister_on WRITABLE WRITABLE) by exact Hstr.
    split; [|done]. by destruct Ha'; constructor.
Qed.

(** The close writes the log line. *)
Lemma linger_logs rr wr k s sl :
  (Z.of_nat total < 2 ^ 63)%Z ->
  conns s !! k = Some sl -> ConnSlot.state sl = Lingering -> answering peer t hdr body total sl ->
  emitted wr k s = [] /\
  exists s1, handle_connection_event rr wr k s = Some s1 /\ conns s1 !! k = None /\
    access_log s1 = access_log s ++ [served_entry peer t body].
Proof.
  intros Hb Hk Hst Ha. unfold emitted, handle_connection_event, handle_linger, close_connection.
  rewrite Hk, Hst. cbv zeta. rewrite (answering_log sl Hb Ha). split; [done|].
  eexists. split; [reflexivity|]. simpl. split; [apply lookup_delete_eq|done].
Qed.
End Writes.

(** ** The exchange *)

(** When an event happens: after which other steps of the loop, and in which
    world. *)
Definition Moment : Type := list Other * World.

Definition undisturbed (k : nat) (m : Moment) : Prop := Forall (spares k) m.1.

(** The events of one connection, each at its moment; the bytes they put on
    the wire and the lines they add to the access log. *)
Fixpoint exchange (evs : list (Moment * ReadResult * WriteResult)) (k : nat) (s : Server) :
    option (bytes * list LogEntry * Server) :=
  match evs with
  | [] => Some ([], [], s)
  | (m, rr, wr) :: evs' =>
      let s0 := others m.1 s in
      s1 ← @handle_connection_event m.2 rr wr k s0;
      '(out, lg, s2) ← exchange evs' k s1;
      Some (@emitted m.2 wr k s0 ++ out, drop (length (access_log s0)) (access_log s1) ++ lg, s2)
  end.

Definition reads_of (reads : list (Moment * bytes)) : list (Moment * ReadResult * WriteResult) :=
  List.map (fun r => (r.1, ROk r.2, WWouldBlock)) reads.

Definition writes_of (writes : list (Moment * nat)) : list (Moment * ReadResult * WriteResult) :=
  List.map (fun w => (w.1, RErr, WOk w.2)) writes.

Lemma exchange_cons (m : Moment) rr wr evs k s s1 o l out lg s2 :
  let s0 := others m.1 s in
  @handle_connection_event m.2 rr wr k s0 = Some s1 -> @emitted m.2 wr k s0 = o ->
  access_log s1 = access_log s0 ++ l -> exchange evs k s1 = Some (out, lg, s2) ->
  exchange ((m, rr, wr) :: evs) k s = Some (o ++ out, l ++ lg, s2).
Proof.
  cbv zeta. intros E1 <- El E2. cbn [exchange]. cbv zeta. rewrite E1. cbn [mbind option_bind]. rewrite E2.
  cbn [mbind option_bind]. by rewrite El, drop_app_length.
Qed.

Lemma exchange_app evs1 evs2 k s out1 lg1 s1 out2 lg2 s2 :
  exchange evs1 k s = Some (out1, lg1, s1) -> exchange evs2 k s1 = Some (out2, lg2, s2) ->
  exchange (evs1 ++ evs2) k s = Some (out1 ++ out2, lg1 ++ lg2, s2).
Proof.
  revert s out1 lg1. induction evs1 as [|[[m rr] wr] evs1 IH]; intros s out1 lg1 E1 E2.
  - by injection E1 as <- <- <-.
  - cbn [exchange app] in *. cbv zeta in *. destruct (handle_connection_event rr wr k _) as [s'|]; [|done].
    cbn [mbind option_bind] in *. destruct (exchange evs1 k s') as [[[o l] s'']|] eqn:E; [|done].
    injection E1 as <- <- <-. rewrite (IH s' o l E E2). cbn [mbind option_bind]. by rewrite !app_assoc.
Qed.

(** Connection [k] of an unthrottled server with configuration [cfg]. *)
Record open_conn (cfg : ServerConfig.t) (k : nat) (sl : ConnSlot.t) (s : Server) : Prop := {
  oc_conn : conns s !! k = Some sl;
  oc_throttles : throttles s = None;
  oc_config : config s = cfg;
}.

(** The steps in between do not change that. *)
Lemma open_undisturbed cfg k sl (m : Moment) s :
  undisturbed k m -> ConnSlot.state sl <> Pausing -> open_conn cfg k sl s -> open_conn cfg k sl (others m.1 s).
Proof.
  intros Hm Hp [Hk Ht Hc]. destruct (quiet_others k m.1 Hm s sl Hk Ht Hp) as [K1 K2 K3 _].
  constructor; congruence.
Qed.

(** Nor does an event of the connection itself, as long as it is there. *)
Lemma event_open {W : World} cfg rr wr k sl sl1 s s1 :
  open_conn cfg k sl s -> handle_connection_event rr wr k s = Some s1 -> conns s1 !! k = Some sl1 ->
  open_conn cfg k sl1 s1.
Proof.
  intros [Hk Ht Hc] E Hk1. destruct (event_frames rr wr k s s1 E) as [_ F2 F3 _]. constructor; [done|auto|congruence].
Qed.

(** Reads that do not complete the request. *)
Lemma exchange_reads cfg peer k reads pre st s sl st' :
  open_conn cfg k sl s -> receiving peer pre st sl ->
  Forall (fun r => undisturbed k r.1 /\ r.2 <> []) reads ->
  let all := concat (List.map snd reads) in
  length (pre ++ all) <= READ_BUF_SIZE ->
  scan (length pre) st all = (GotRequest.NoRequest, length pre + length all, st') ->
  exists s' sl', exchange (reads_of reads) k s = Some ([], [], s') /\ open_conn cfg k sl' s' /\
    receiving peer (pre ++ all) st' sl'.
Proof.
  revert pre st s sl. induction reads as [|[m c] reads IH]; intros pre st s sl Ho Hg Hne; cbn [List.map concat snd].
  { intros _ [= _ ->]. exists s, sl. rewrite app_nil_r. done. }
  apply Forall_cons in Hne as [[Hm Hc] Hne]. cbn in Hm, Hc. cbv zeta. set (rest := concat _) in *. intros Hl Hs.
  apply (open_undisturbed cfg k sl m s Hm) in Ho; [|by rewrite (rg_state _ _ _ _ Hg)].
  pose proof (oc_conn _ _ _ _ Ho) as Hk.
  rewrite app_assoc in Hl. assert (Hl1 : length (pre ++ c) <= READ_BUF_SIZE) by (rewrite length_app in Hl; lia).
  rewrite scan_app in Hs. pose proof (@handle_read_scans m.2 k _ sl peer pre c st Hk Hg Hc Hl1) as Hr.
  pose proof (scan_bound c (length pre) st) as Hb. rewrite length_app in Hs.
  destruct (scan (length pre) st c) as [[r j] st1]. destruct r; [|done|done]. cbn [length fst snd] in *.
  destruct (Nat.eqb_spec j (length pre + length c)) as [->|Hj]; [|injection Hs as -> ->; lia].
  destruct Hr as (s1 & Hk1 & (_ & _ & _ & F4) & E1). rewrite <- length_app in Hk1, Hs.
  assert (Hev : @handle_connection_event m.2 (ROk c) WWouldBlock k (others m.1 s) = Some s1).
  { unfold handle_connection_event. rewrite Hk, (rg_state _ _ _ _ Hg). exact E1. }
  pose proof (read_slot_receiving peer pre c st st1 sl Hg Hl1) as Hg1.
  destruct (IH _ _ s1 _ (event_open cfg _ _ k sl _ _ s1 Ho Hev Hk1) Hg1 Hne Hl) as (s' & sl' & E2 & Ho' & Hg').
  { rewrite Hs. f_equal. f_equal. rewrite length_app. fold rest. lia. }
  exists s', sl'. rewrite app_assoc. split; [|done].
  change (reads_of ((m, c) :: reads)) with ((m, ROk c, WWouldBlock) :: reads_of reads).
  apply (exchange_cons m _ _ _ k s s1 [] [] [] [] s' Hev); [|by rewrite app_nil_r|exact E2].
  unfold emitted. by rewrite Hk, (rg_state _ _ _ _ Hg).
Qed.

(** Writes of at least a byte each, as many as there are bytes left. *)
Lemma exchange_writes cfg peer t hdr body k writes s sl sent :
  open_conn cfg k sl s -> ConnSlot.state sl = Sending -> ConnSlot.stream sl = Some (Some WRITABLE) ->
  answering peer t hdr body sent sl -> sent < length (hdr ++ body) ->
  Forall (fun w => undisturbed k w.1 /\ 0 < w.2) writes -> length (hdr ++ body) - sent <= length writes ->
  exists m s' sl', m <= length writes /\
    exchange (writes_of (take m writes)) k s = Some (drop sent (hdr ++ body), [], s') /\
    open_conn cfg k sl' s' /\ ConnSlot.state sl' = Lingering /\ answering peer t hdr body (length (hdr ++ body)) sl'.
Proof.
  intros Ho Hst Hstr Ha Hs Hw. revert s sl sent Ho Hst Hstr Ha Hs.
  induction Hw as [|[mo n] writes [Hm Hn] Hw IH]; intros s sl sent Ho Hst Hstr Ha Hs Hl; cbn in Hl; [lia|].
  cbn in Hm, Hn. apply (open_undisturbed cfg k sl mo s Hm) in Ho; [|by rewrite Hst].
  destruct (@send_answer mo.2 peer t hdr body n k _ sl sent (oc_conn _ _ _ _ Ho) Hst Hstr Ha Hs Hn)
    as (Ew & s1 & sl1 & E1 & Hk1 & El & Ha1 & Hcase). unfold total in *.
  pose proof (event_open cfg _ _ k sl sl1 _ s1 Ho E1 Hk1) as Ho1. rewrite <- (app_nil_r (access_log (others _ _))) in El.
  destruct (Nat.leb_spec (length (hdr ++ body)) (sent + n)) as [Hd|Hd].
  - exists 1, s1, sl1. rewrite Nat.min_r in Ha1 by done. split; [simpl; lia|]. split_and!; [|done..].
    change (writes_of (take 1 ((mo, n) :: writes))) with [(mo, RErr, WOk n)].
    rewrite (exchange_cons mo RErr (WOk n) [] k s s1 _ [] [] [] s1 E1 Ew El eq_refl), !app_nil_r.
    rewrite take_ge by (rewrite length_drop; lia). done.
  - destruct Hcase as [Hst1 Hstr1]. rewrite Nat.min_l in Ha1 by lia.
    destruct (IH s1 sl1 (sent + n) Ho1 Hst1 Hstr1 Ha1 Hd) as (m & s' & sl' & Hm' & E2 & Ho' & Hst' & Ha'); [lia|].
    exists (S m), s', sl'. split; [simpl; lia|]. split_and!; [|done..].
    change (writes_of (take (S m) ((mo, n) :: writes))) with ((mo, RErr, WOk n) :: writes_of (take m writes)).
    rewrite (exchange_cons mo RErr (WOk n) _ k s s1 _ [] _ [] s' E1 Ew El E2), <- drop_drop, take_drop. done.
Qed.

Lemma new_received : received [] ParseState.initial HttpConn.new.
Proof. constructor; reflexivity. Qed.

(** The connection just accepted has read nothing. *)
Lemma accept_one_receiving {W : World} s peer :
  base.size (conns s) < MAX_CONNECTIONS ->
  exists sl, conns (accept_one s (peer, true)) !! vacant_key (conns s) = Some sl /\
    receiving peer [] ParseState.initial sl /\ same_server s (accept_one s (peer, true)).
Proof.
  intros Hn. unfold accept_one. rewrite (proj2 (Nat.leb_gt _ _) Hn).
  eexists. split; [apply lookup_insert_eq|]. split; [|done].
  constructor; [done..|exact new_received].
Qed.

(** The last read of the request starts the answer. *)
Lemma last_read_answers {W : World} cfg peer t p md k s sl pre c st f m' :
  servable cfg t p md -> plain_target t ->
  conns s !! k = Some sl -> receiving peer pre st sl -> pre ++ c = get_request t -> c <> [] ->
  scan (length pre) st c = (GotRequest.GotRequest, length pre + length c, ParseState.GotRequest) ->
  config s = cfg -> throttles s = None -> Mmc.map (open_file p) (mmap_ok p) clock (mmc s) = (inl f, m') ->
  exists s', handle_connection_event (ROk c) WWouldBlock k s = Some s' /\
    emitted WWouldBlock k s = [] /\ starts_answer cfg peer t p md k f s s'.
Proof.
  intros Hsv Ht Hk Hg Hpc Hc Hs Hcfg Hthr Hmap.
  assert (Hl : length (pre ++ c) <= READ_BUF_SIZE) by (rewrite Hpc; by apply get_request_length).
  pose proof (handle_read_scans k s sl peer pre c st Hk Hg Hc Hl) as Hr. rewrite Hs in Hr.
  destruct Hr as (s1 & Hk1 & (F1 & F2 & F3 & F4) & E1). rewrite <- length_app in Hk1.
  pose proof (read_slot_receiving peer pre c st ParseState.GotRequest sl Hg Hl) as Hg1.
  rewrite Hpc in Hg1, Hk1. rewrite <- F3 in Hmap.
  destruct (process_get cfg peer t p md k s1 _ _ f m' Hsv Ht Hk1 Hg1) as (s' & E2 & Hans); [congruence..|done|].
  exists s'. unfold handle_connection_event, emitted. rewrite Hk, (rg_state _ _ _ _ Hg). split; [congruence|].
  split; [done|]. unfold starts_answer in *. by rewrite <- F4.
Qed.

(** C3: the whole life of a plain request for a file, on a server without a
    throttle table and without virtual hosts, with other clients: a client
    connects and sends a GET in HTTP/1.0 without headers, for the path of a
    file that is world-readable, not executable, not a CGI program and not
    governed by a password file.  The request arrives in reads cut in any way,
    and the socket takes at least a byte in each write; before each of these
    events the loop may have done any number of other steps (events of other
    connections, new connections, the sweep over the paused ones, timers,
    clean-up, ticks, the start of a drain).  Then the client has received
    exactly the header lines of the file, with its length, and its bytes, after
    at most as many writes as there are bytes; when the connection lingers it
    is closed, and its events have added one line to the access log, with the
    address, the URL, status 200 and the size of the file. *)
Theorem file_served (Wa : World) s0 peer t p md f m' reads last c writes mc rr wr :
  let W := last.2 in
  let k := @vacant_key Wa (conns s0) in
  let s := @accept_one Wa s0 (peer, true) in
  let hdr := @file_header W (config s0) p md in
  let data := @mapping W f in
  base.size (conns s0) < MAX_CONNECTIONS -> throttles s0 = None ->
  plain_target t -> @servable W (config s0) t p md ->
  (forall out lg s1, exchange (reads_of reads) k s = Some (out, lg, s1) ->
    Mmc.map (@open_file W p) (@mmap_ok W p) (@clock W) (mmc (others last.1 s1)) = (inl f, m')) ->
  Dirlist.len md = Z.of_nat (length data) -> (Z.of_nat (length (hdr ++ data)) < 2 ^ 63)%Z ->
  Forall (fun r => undisturbed k r.1 /\ r.2 <> []) reads -> undisturbed k last -> c <> [] ->
  concat (List.map snd reads) ++ c = get_request t ->
  Forall (fun w => undisturbed k w.1 /\ 0 < w.2) writes -> length (hdr ++ data) <= length writes ->
  undisturbed k mc ->
  (B "Content-Length: " ++ show_Z (Z.of_nat (length data))) ∈ @file_lines W (config s0) p md /\
  exists m s',
    exchange (reads_of (reads ++ [(last, c)]) ++ writes_of (take m writes) ++ [(mc, rr, wr)]) k s =
      Some (hdr ++ data, [served_entry peer t data], s') /\
    conns s' !! k = None.
Proof.
  intros W k s hdr data Hroom Hthr Ht Hsv Hmap Hlen Hb Hr Hlast Hc Hreq Hw Hn Hmc. split.
  { rewrite <- Hlen. unfold file_lines. do 2 (apply elem_of_app; right). by left. }
  destruct (@accept_one_receiving Wa s0 peer Hroom) as (sl & Hk & Hg & F1 & F2 & _ & _). fold k s in Hk, F1, F2.
  assert (Ho : open_conn (config s0) k sl s) by (constructor; congruence).
  destruct (scan_unfinished (concat (List.map snd reads)) c 0 ParseState.initial Hc) as (st & Es1 & Es2).
  { rewrite Hreq. by apply get_request_scan. }
  assert (Hfit : length ([] ++ concat (List.map snd reads)) <= READ_BUF_SIZE).
  { pose proof (get_request_length t Ht) as Hl. rewrite <- Hreq, length_app in Hl. simpl. lia. }
  destruct (exchange_reads (config s0) peer k reads [] ParseState.initial s sl st Ho Hg Hr Hfit Es1)
    as (s1 & sl1 & E1 & Ho1 & Hg1). specialize (Hmap _ _ _ E1).
  apply (open_undisturbed _ k sl1 last s1 Hlast) in Ho1; [|by rewrite (rg_state _ _ _ _ Hg1)].
  destruct (@last_read_answers W (config s0) peer t p md k _ sl1 _ c st f m' Hsv Ht (oc_conn _ _ _ _ Ho1) Hg1 Hreq
    Hc Es2 (oc_config _ _ _ _ Ho1) (oc_throttles _ _ _ _ Ho1) Hmap)
    as (s2 & E2 & Em & sl2 & Hk2 & Hst2 & Hstr2 & Ha2 & El2).
  fold hdr data in Ha2. pose proof (event_open _ _ _ k sl1 sl2 _ s2 Ho1 E2 Hk2) as Ho2.
  assert (Hpos : 0 < length (hdr ++ data)).
  { pose proof (@file_header_nonempty W (config s0) p md) as Hp. fold hdr in Hp. rewrite length_app. lia. }
  destruct (exchange_writes _ peer t hdr data k writes s2 sl2 0 Ho2 Hst2 Hstr2 Ha2 Hpos Hw) as
    (m & s3 & sl3 & _ & E3 & Ho3 & Hst3 & Ha3); [lia|].
  apply (open_undisturbed _ k sl3 mc s3 Hmc) in Ho3; [|by rewrite Hst3].
  destruct (@linger_logs mc.2 peer t hdr data rr wr k _ sl3 Hb (oc_conn _ _ _ _ Ho3) Hst3 Ha3)
    as (Em4 & s4 & E4 & Hk4 & El4).
  exists m, s4. split; [|done].
  pose proof (exchange_cons mc rr wr [] k s3 s4 _ _ [] [] s4 E4 Em4 El4 eq_refl) as X4.
  pose proof (exchange_app _ _ k s2 _ _ s3 _ _ s4 E3 X4) as X3. rewrite drop_0, !app_nil_r in X3.
  rewrite <- (app_nil_r (access_log (others _ _))) in El2.
  pose proof (exchange_cons last (ROk c) WWouldBlock _ k s1 s2 _ _ _ _ s4 E2 Em El2 X3) as X2.
  unfold reads_of. rewrite map_app, <- app_assoc. exact (exchange_app _ _ k s [] [] s1 _ _ s4 E1 X2).
Qed.

Lemma demo_target : plain_target (B "/a.txt").
Proof.
  constructor; [done|unfold MAX_URL_LENGTH; change (length _) with 6; lia|].
  exists [B "a.txt"]. split; [|done]. constructor; [|done]. split_and!; [done..|]. by repeat constructor.
Qed.

Definition demo_meta : Meta := mkMeta false false 420 1 20 0.

Lemma demo_servable : @servable (demo_world 7) demo_config (B "/a.txt") demo_path demo_meta.
Proof. constructor; by vm_compute. Qed.

(** Between its two reads another client connects, asks for the same file and
    gets it; the writes take up to 100 bytes each, with a tick and a clean-up
    before each one. *)
Definition demo_between : list Other :=
  [OAccept (demo_world 4) [((B "10.0.0.2", B "10.0.0.2:4001"), true)];
   OEvent (demo_world 5) (ROk demo_get) WWouldBlock 1; OEvent (demo_world 6) RErr (WOk 1000) 1;
   OEvent (demo_world 6) RErr WErr 1].

Definition demo_reads : list (Moment * bytes) := [(([], demo_world 3), B "GET /a")].

Definition demo_last : Moment := (demo_between, demo_world 7).

Definition demo_writes : list (Moment * nat) :=
  replicate 400 (([OTick (demo_world 8); OCleanup (demo_world 8)], demo_world 8), 100).

Definition demo_close : Moment := ([ODrain (mkPolled true [] [] (fun _ => WErr))], demo_world 9).

Definition demo_accepted : Server := @accept_one (demo_world 0) (Server_new demo_config 1) (demo_peer, true).

(** The server when the last read comes. *)
Definition demo_asked : Server :=
  match exchange (reads_of demo_reads) 0 demo_accepted with
  | Some (_, _, s1) => others demo_between s1
  | None => demo_accepted
  end.

Lemma file_served_witness :
  exists m s',
    exchange (reads_of (demo_reads ++ [(demo_last, header_block (B ".txt HTTP/1.0"))]) ++
      writes_of (take m demo_writes) ++ [(demo_close, RErr, WErr)]) 0 demo_accepted =
        Some (@file_header (demo_world 7) demo_config demo_path demo_meta ++ demo_data,
          [mkLog (B "10.0.0.1") (B "-") (B "GET") (B "/a.txt") (B "HTTP/1.0") 200 20 [] []], s') /\
    conns s' !! 0 = None.
Proof.
  apply (file_served (demo_world 0) (Server_new demo_config 1) demo_peer (B "/a.txt") demo_path demo_meta 0
    (snd (@Mmc.map (@open_file (demo_world 7) demo_path) true 7 (mmc demo_asked)))
    demo_reads demo_last (header_block (B ".txt HTTP/1.0")) demo_writes demo_close RErr WErr);
    [|done|exact demo_target|exact demo_servable| |done|by vm_compute| | |done|done| | |].
  - apply Nat.leb_le. by vm_compute.
  - intros out lg s1 E. assert (Ek : @vacant_key (demo_world 0) (conns (Server_new demo_config 1)) = 0) by (by vm_compute).
    rewrite Ek in E. assert (others demo_last.1 s1 = demo_asked) as ->.
    { unfold demo_asked, demo_accepted. by rewrite E. }
    by vm_compute.
  - by repeat constructor.
  - repeat constructor; [apply demo_slab|done..].
  - apply Forall_replicate. split; [by repeat constructor|simpl; lia].
  - apply Nat.leb_le. by vm_compute.
  - by repeat constructor.
Defined.

(** The other client was served in between: its line is in the log, its
    connection is closed. *)
Example between_served :
  length (access_log demo_asked) = 1 /\ conns demo_asked !! 1 = None /\ is_some (conns demo_asked !! 0) = true.
Proof. by vm_compute. Qed.
