(* ===== verification/Config.v ===== *)
(** * Configuration of the server (rust/crates/thttpd-core/src/config.rs)

    The legacy spellings of the command line, the configuration file and how
    they are combined.  The parser of the command line (clap) is not part of
    the model: [Cli.t] is what it returns.  Reading the file is the parameter
    [read_to_string], which gives the text or the text of the error. *)

From S2P Require Import Prelude RustStr Server.

(** ** Legacy arguments *)

Definition SERVER_SOFTWARE : bytes := B "sthttpd/2.27.0 03oct2014".

(** The long form that takes the next argument as its value, or the long form
    of a switch. *)
Definition legacy_value_flag (arg : bytes) : option bytes :=
  if bytes_eqb arg (B "-h") then Some (B "--hostname")
  else if bytes_eqb arg (B "-dd") then Some (B "--data-dir")
  else None.

Definition legacy_switch (arg : bytes) : bytes :=
  if bytes_eqb arg (B "-nor") then B "--nor"
  else if bytes_eqb arg (B "-nov") then B "--nov"
  else if bytes_eqb arg (B "-g") then B "--global-passwd"
  else if bytes_eqb arg (B "-nog") || bytes_eqb arg (B "-noP") then B "--no-global-passwd"
  else if bytes_eqb arg (B "-s") then B "--symlinks"
  else if bytes_eqb arg (B "-nos") then B "--no-symlinks"
  else arg.

Fixpoint normalize_legacy_args (args : list bytes) : list bytes :=
  match args with
  | [] => []
  | arg :: rest =>
      match legacy_value_flag arg with
      | Some long =>
          match rest with
          | next :: rest' => long :: next :: normalize_legacy_args rest'
          | [] => [long]
          end
      | None => legacy_switch arg :: normalize_legacy_args rest
      end
  end.

Inductive LegacyToggle := Chroot (on : bool) | SymlinkCheck (on : bool) | Vhost (on : bool) | GlobalPasswd (on : bool).

#[export] Instance LegacyToggle_eq_dec : EqDecision LegacyToggle.
Proof. solve_decision. Defined.

Definition toggle_of (arg : bytes) : option LegacyToggle :=
  if bytes_eqb arg (B "-r") || bytes_eqb arg (B "--chroot") then Some (Chroot true)
  else if bytes_eqb arg (B "--nor") then Some (Chroot false)
  else if bytes_eqb arg (B "--symlinks") then Some (SymlinkCheck true)
  else if bytes_eqb arg (B "--no-symlinks") then Some (SymlinkCheck false)
  else if bytes_eqb arg (B "-v") || bytes_eqb arg (B "--vhost") then Some (Vhost true)
  else if bytes_eqb arg (B "--nov") then Some (Vhost false)
  else if bytes_eqb arg (B "--global-passwd") then Some (GlobalPasswd true)
  else if bytes_eqb arg (B "--no-global-passwd") then Some (GlobalPasswd false)
  else None.

Definition VALUE_FLAGS : list bytes :=
  [B "-p"; B "--port"; B "-d"; B "--dir"; B "--data-dir"; B "-u"; B "--user"; B "-l"; B "--log"; B "-c"; B "--cgipat";
   B "-T"; B "--charset"; B "-P"; B "--p3p"; B "-M"; B "--maxage"; B "-C"; B "--config"; B "-t"; B "--throttle-file";
   B "-H"; B "--hostname"; B "-i"; B "--pidfile"; B "--cgi-limit"].

Definition takes_value (arg : bytes) : bool := existsb (bytes_eqb arg) VALUE_FLAGS.

Fixpoint toggle_events_from (skip_next : bool) (args : list bytes) : list LegacyToggle :=
  match args with
  | [] => []
  | arg :: rest =>
      if skip_next then toggle_events_from false rest
      else match toggle_of arg with
           | Some ev => ev :: toggle_events_from false rest
           | None => toggle_events_from (takes_value arg) rest
           end
  end.

Definition legacy_toggle_events (args : list bytes) : list LegacyToggle := toggle_events_from false (drop 1 args).

Module Cli.
Record t := mk {
  port : option Z;
  dir : option bytes;
  chroot : bool;
  no_chroot : bool;
  data_dir : option bytes;
  symlinks : bool;
  no_symlinks : bool;
  user : option bytes;
  logfile : option bytes;
  cgipat : option bytes;
  charset : option bytes;
  p3p : option bytes;
  max_age : option Z;
  no_vhost : bool;
  vhost : bool;
  global_passwd : bool;
  no_global_passwd : bool;
  config_file : option bytes;
  debug : bool;
  throttle_file : option bytes;
  hostname : option bytes;
  pidfile : option bytes;
  cgi_limit : option Z;
  legacy_version : bool;
}.
End Cli.

Import ServerConfig.

Definition apply_toggle (config : t) (ev : LegacyToggle) : t :=
  match ev with
  | Chroot true => config <| do_chroot := true |> <| no_symlink_check := true |>
  | Chroot false => config <| do_chroot := false |> <| no_symlink_check := false |>
  | SymlinkCheck true => config <| no_symlink_check := false |>
  | SymlinkCheck false => config <| no_symlink_check := true |>
  | Vhost enabled => config <| vhost := enabled |>
  | GlobalPasswd enabled => config <| global_passwd := enabled |>
  end.

Definition apply_legacy_toggle_order (config : t) (events : list LegacyToggle) : t := foldl apply_toggle config events.

(** ** The configuration file *)

Definition ConfigResult : Type := t + bytes.

(** The value of an option that needs one, and an option that takes none. *)
Definition required (name : bytes) (value : option bytes) (k : bytes -> ConfigResult) : ConfigResult :=
  match value with
  | Some v => k v
  | None => inr (B "value required for " ++ name ++ B " option")
  end.

Definition no_value (name : bytes) (value : option bytes) (c : t) : ConfigResult :=
  match value with
  | Some _ => inr (B "no value required for " ++ name ++ B " option")
  | None => inl c
  end.

Definition parsed (name what : bytes) (v : option Z) (k : Z -> t) : ConfigResult :=
  match v with
  | Some z => inl (k z)
  | None => inr (B "invalid " ++ what ++ B " for " ++ name ++ B " option")
  end.

Definition apply_config_option (name : bytes) (value : option bytes) (c : t) : ConfigResult :=
  let key := map ascii_lower name in
  let key_is := bytes_eqb key in
  let required := required name value in
  let no_value := no_value name value in
  if key_is (B "debug") then no_value (c <| daemonize := false |>)
  else if key_is (B "port") then required (fun v => parsed name (B "port") (parse_u 16 v) (fun z => c <| port := z |>))
  else if key_is (B "dir") then required (fun v => inl (c <| dir := v |>))
  else if key_is (B "chroot") then no_value (c <| do_chroot := true |> <| no_symlink_check := true |>)
  else if key_is (B "nochroot") then no_value (c <| do_chroot := false |> <| no_symlink_check := false |>)
  else if key_is (B "data_dir") then required (fun v => inl (c <| data_dir := Some v |>))
  else if key_is (B "symlink") || key_is (B "symlinks") then no_value (c <| no_symlink_check := false |>)
  else if key_is (B "nosymlink") || key_is (B "nosymlinks") then no_value (c <| no_symlink_check := true |>)
  else if key_is (B "user") then required (fun v => inl (c <| user := Some v |>))
  else if key_is (B "cgipat") then required (fun v => inl (c <| cgi_pattern := Some v |>))
  else if key_is (B "cgilimit") then
    required (fun v => parsed name (B "integer") (parse_i 32 v) (fun z => c <| cgi_limit := Some z |>))
  else if key_is (B "urlpat") then required (fun v => inl (c <| url_pattern := Some v |>))
  else if key_is (B "noemptyreferers") then no_value (c <| no_empty_referers := true |>)
  else if key_is (B "localpat") then required (fun v => inl (c <| local_pattern := Some v |>))
  else if key_is (B "throttles") then required (fun v => inl (c <| throttle_file := Some v |>))
  else if key_is (B "host") then required (fun v => inl (c <| hostname := Some v |>))
  else if key_is (B "logfile") then required (fun v => inl (c <| logfile := Some v |>))
  else if key_is (B "vhost") then no_value (c <| vhost := true |>)
  else if key_is (B "novhost") then no_value (c <| vhost := false |>)
  else if key_is (B "globalpasswd") then no_value (c <| global_passwd := true |>)
  else if key_is (B "noglobalpasswd") then no_value (c <| global_passwd := false |>)
  else if key_is (B "pidfile") then required (fun v => inl (c <| pidfile := Some v |>))
  else if key_is (B "charset") then required (fun v => inl (c <| charset := v |>))
  else if key_is (B "p3p") then required (fun v => inl (c <| p3p := Some v |>))
  else if key_is (B "max_age") then
    required (fun v => parsed name (B "integer") (parse_i 32 v) (fun z => c <| max_age := z |>))
  else inr (B "unknown config option '" ++ name ++ B "'").

Definition apply_word (option : bytes) (c : t) : ConfigResult :=
  match split_once "="%char option with
  | Some (name, value) => apply_config_option name (Some value) c
  | None => apply_config_option option None c
  end.

Fixpoint apply_words (ws : list bytes) (c : t) : ConfigResult :=
  match ws with
  | [] => inl c
  | w :: ws' => match apply_word w c with inl c' => apply_words ws' c' | inr e => inr e end
  end.

(** The options of a line, without its comment. *)
Definition line_words (raw_line : bytes) : list bytes :=
  split_whitespace (match split_on "#"%char raw_line with l :: _ => l | [] => [] end).

(** [line_no] counts from 1. *)
Fixpoint apply_lines (path : bytes) (line_no : Z) (ls : list bytes) (c : t) : ConfigResult :=
  match ls with
  | [] => inl c
  | l :: ls' =>
      match apply_words (line_words l) c with
      | inl c' => apply_lines path (line_no + 1) ls' c'
      | inr e => inr (from_utf8_lossy path ++ B ":" ++ show_Z line_no ++ B ": " ++ e)
      end
  end.

Section File.
Context (read_to_string : bytes -> bytes + bytes).

Definition apply_config_file (path : bytes) (c : t) : ConfigResult :=
  match read_to_string path with
  | inr e => inr (from_utf8_lossy path ++ B ": " ++ e)
  | inl contents => apply_lines path 1 (lines contents) c
  end.

(** The configuration before the command line is applied. *)
Definition file_config (cli : Cli.t) : ConfigResult :=
  match Cli.config_file cli with
  | Some path => apply_config_file path default
  | None => inl default
  end.

(** [if let Some(v) = o] and [if flag]. *)
Definition when_some {A} (o : option A) (f : A -> t -> t) (c : t) : t :=
  match o with Some v => f v c | None => c end.

Definition when (b : bool) (f : t -> t) (c : t) : t := if b then f c else c.

Definition from_cli (cli : Cli.t) : ConfigResult :=
  match file_config cli with
  | inr e => inr e
  | inl c =>
      let c := when_some (Cli.port cli) (fun v c => c <| port := v |>) c in
      let c := when_some (Cli.dir cli) (fun v c => c <| dir := v |>) c in
      let c := when (Cli.chroot cli) (fun c => c <| do_chroot := true |> <| no_symlink_check := true |>) c in
      let c := when (Cli.no_chroot cli) (fun c => c <| do_chroot := false |> <| no_symlink_check := false |>) c in
      let c := when_some (Cli.data_dir cli) (fun v c => c <| data_dir := Some v |>) c in
      let c := when (Cli.symlinks cli) (fun c => c <| no_symlink_check := false |>) c in
      let c := when (Cli.no_symlinks cli) (fun c => c <| no_symlink_check := true |>) c in
      let c := when_some (Cli.user cli) (fun v c => c <| user := Some v |>) c in
      let c := when_some (Cli.logfile cli) (fun v c => c <| logfile := Some v |>) c in
      let c := when_some (Cli.cgipat cli) (fun v c => c <| cgi_pattern := Some v |>) c in
      let c := when_some (Cli.cgi_limit cli) (fun v c => c <| cgi_limit := Some v |>) c in
      let c := when_some (Cli.charset cli) (fun v c => c <| charset := v |>) c in
      let c := when_some (Cli.p3p cli) (fun v c => c <| p3p := Some v |>) c in
      let c := when_some (Cli.max_age cli) (fun v c => c <| max_age := v |>) c in
      let c := when (Cli.vhost cli) (fun c => c <| vhost := true |>) c in
      let c := when (Cli.no_vhost cli) (fun c => c <| vhost := false |>) c in
      let c := when (Cli.global_passwd cli) (fun c => c <| global_passwd := true |>) c in
      let c := when (Cli.no_global_passwd cli) (fun c => c <| global_passwd := false |>) c in
      let c := when_some (Cli.hostname cli) (fun v c => c <| hostname := Some v |>) c in
      let c := when_some (Cli.throttle_file cli) (fun v c => c <| throttle_file := Some v |>) c in
      let c := when_some (Cli.pidfile cli) (fun v c => c <| pidfile := Some v |>) c in
      let c := when (Cli.debug cli) (fun c => c <| daemonize := false |>) c in
      inl c
  end.

(** The configuration of [main]: the parsed arguments, then the toggles in
    their order. *)
Definition config_from_argv (parse : list bytes -> Cli.t + bytes) (argv : list bytes) : ConfigResult :=
  let args := normalize_legacy_args argv in
  let events := legacy_toggle_events args in
  match parse args with
  | inr e => inr e
  | inl cli =>
      match from_cli cli with
      | inr e => inr e
      | inl config => inl (apply_legacy_toggle_order config events)
      end
  end.
End File.

(** ** The configuration file can say everything *)

(** The words of a file that describes a configuration. *)
Definition word (key value : bytes) : bytes := key ++ B "=" ++ value.

Definition opt_word (key : bytes) (o : option bytes) : list bytes :=
  match o with Some v => [word key v] | None => [] end.

Definition config_words (c : t) : list bytes :=
  (if daemonize c then [] else [B "debug"]) ++
  [word (B "port") (show_Z (port c)); word (B "dir") (dir c);
   if do_chroot c then B "chroot" else B "nochroot";
   if no_symlink_check c then B "nosymlinks" else B "symlinks"] ++
  opt_word (B "data_dir") (data_dir c) ++ opt_word (B "user") (user c) ++ opt_word (B "logfile") (logfile c) ++
  opt_word (B "cgipat") (cgi_pattern c) ++ opt_word (B "cgilimit") (show_Z <$> cgi_limit c) ++
  [word (B "charset") (charset c)] ++ opt_word (B "p3p") (p3p c) ++
  [word (B "max_age") (show_Z (max_age c));
   if vhost c then B "vhost" else B "novhost";
   if global_passwd c then B "globalpasswd" else B "noglobalpasswd"] ++
  opt_word (B "urlpat") (url_pattern c) ++ opt_word (B "localpat") (local_pattern c) ++
  (if no_empty_referers c then [B "noemptyreferers"] else []) ++
  opt_word (B "host") (hostname c) ++ opt_word (B "throttles") (throttle_file c) ++ opt_word (B "pidfile") (pidfile c).

(** Values a file can carry: ASCII words, possibly empty, without a comment
    sign. *)
Definition plain_value (v : bytes) : bool := forallb (fun c => token_char c && negb (c =c? "#"%char)) v.

Definition plain_option (o : option bytes) : bool := match o with Some v => plain_value v | None => true end.

Definition is_i32 (z : Z) : bool := (- 2 ^ 31 <=? z)%Z && (z <? 2 ^ 31)%Z.

Record expressible (c : t) : Prop := {
  ex_port : (0 <= port c < 2 ^ 16)%Z;
  ex_max_age : is_i32 (max_age c) = true;
  ex_cgi_limit : match cgi_limit c with Some z => is_i32 z = true | None => True end;
  ex_dir : plain_value (dir c) = true;
  ex_charset : plain_value (charset c) = true;
  ex_texts : forallb plain_option [data_dir c; user c; logfile c; cgi_pattern c; p3p c; url_pattern c; local_pattern c;
                                   hostname c; throttle_file c; pidfile c] = true;
}.

Lemma parse_i_show w z : (0 < w)%Z -> (- 2 ^ (w - 1) <= z < 2 ^ (w - 1))%Z -> parse_i w (show_Z z) = Some z.
Proof.
  intros Hw Hz. unfold show_Z. destruct (Z.ltb_spec z 0).
  - cbn [B app String.list_ascii_of_string parse_i]. rewrite Ascii.eqb_refl. unfold parse_digits.
    pose proof (show_nonneg_nonempty (- z)). destruct (show_nonneg (- z)) eqn:E; [done|]. rewrite <- E.
    rewrite parse_acc_show by lia. cbn. rewrite (proj2 (Z.leb_le _ _)) by lia. f_equal. lia.
  - apply parse_i_digits; [auto with thttpd|apply show_nonneg_digits; lia|apply parse_acc_show; lia|lia].
Qed.

Lemma parse_u_show w z : (0 <= z < 2 ^ w)%Z -> parse_u w (show_Z z) = Some z.
Proof.
  intros Hz. unfold show_Z. rewrite (proj2 (Z.ltb_ge _ _)) by lia.
  apply parse_u_digits; [auto with thttpd|apply show_nonneg_digits; lia|apply parse_acc_show; lia|lia].
Qed.

Lemma apply_word_value key v c :
  forallb (fun x => negb (x =c? "="%char)) key = true ->
  apply_word (word key v) c = apply_config_option key (Some v) c.
Proof.
  intros Hk%forallb_Forall_true. unfold apply_word, word. cbn [B app String.list_ascii_of_string].
  rewrite split_once_app; [done|]. eapply Forall_impl; [exact Hk|]. intros x. apply negb_true_iff.
Qed.

Lemma apply_words_app ws1 ws2 c :
  apply_words (ws1 ++ ws2) c = match apply_words ws1 c with inl c' => apply_words ws2 c' | inr e => inr e end.
Proof.
  revert c. induction ws1 as [|w ws IH]; intros c; cbn; [done|]. destruct (apply_word w c); [apply IH|done].
Qed.

Lemma apply_words_cons w ws c c' : apply_word w c = inl c' -> apply_words (w :: ws) c = apply_words ws c'.
Proof. intros E. cbn. by rewrite E. Qed.

Lemma apply_opt key o ws c g :
  forallb (fun x => negb (x =c? "="%char)) key = true -> c = g None ->
  (forall v, o = Some v -> apply_config_option key (Some v) c = inl (g (Some v))) ->
  apply_words (opt_word key o ++ ws) c = apply_words ws (g o).
Proof.
  intros Hk Hn H. destruct o as [v|]; [|by rewrite <- Hn]. cbn [opt_word app].
  apply apply_words_cons. by rewrite apply_word_value, H.
Qed.

Lemma apply_integer key z ws c c' :
  forallb (fun x => negb (x =c? "="%char)) key = true -> is_i32 z = true ->
  apply_config_option key (Some (show_Z z)) c = parsed key (B "integer") (parse_i 32 (show_Z z)) (fun _ => c') ->
  apply_words (word key (show_Z z) :: ws) c = apply_words ws c'.
Proof.
  intros Hk Hz E. apply apply_words_cons. rewrite apply_word_value, E by done. unfold is_i32 in Hz.
  by rewrite parse_i_show by lia.
Qed.

Lemma apply_cgilimit o ws c :
  cgi_limit c = None -> match o with Some z => is_i32 z = true | None => True end ->
  apply_words (opt_word (B "cgilimit") (show_Z <$> o) ++ ws) c = apply_words ws (c <| cgi_limit := o |>).
Proof.
  intros Hn Ho. destruct o as [z|]; [|by destruct c; cbn in Hn; subst]. cbn [opt_word fmap option_fmap option_map app].
  apply apply_integer; [done|done|]. unfold is_i32 in Ho. cbv [apply_config_option required].
  by rewrite parse_i_show by lia.
Qed.

(** Reads the next word when it carries an optional text. *)
Ltac take_opt key o g :=
  match goal with
  | |- apply_words _ ?c = _ =>
      let c' := eval cbv in c in
      change c with c'; rewrite (apply_opt key o _ c' (g c') eq_refl eq_refl) by (intros; reflexivity)
  end.

Lemma config_words_applied c :
  (0 <= port c < 2 ^ 16)%Z -> is_i32 (max_age c) = true ->
  match cgi_limit c with Some z => is_i32 z = true | None => True end ->
  apply_words (config_words c) default = inl c.
Proof.
  destruct c as [pt dr ch sy dd us lo cg cl cs pp ma vh gp up lp ne ho th pi dm]. unfold is_i32, config_words.
  cbn [ServerConfig.port ServerConfig.dir do_chroot no_symlink_check data_dir user logfile cgi_pattern cgi_limit charset
    p3p max_age vhost global_passwd url_pattern local_pattern no_empty_referers hostname throttle_file pidfile daemonize].
  intros Hp Hm Hc.
  assert (Hpt : parse_u 16 (show_Z pt) = Some pt) by (apply parse_u_show; lia).
  assert (Hma : parse_i 32 (show_Z ma) = Some ma) by (apply parse_i_show; lia).
  rewrite apply_words_app.
  assert (E1 : apply_words (if dm then [] else [B "debug"]) default = inl (default <| daemonize := dm |>))
    by by destruct dm.
  rewrite E1. cbn [app].
  erewrite apply_words_cons by (rewrite apply_word_value by done; cbv [apply_config_option required parsed]; rewrite Hpt; reflexivity).
  erewrite apply_words_cons by (rewrite apply_word_value by done; reflexivity).
  set (c2 := default <| daemonize := dm |> <| ServerConfig.port := pt |> <| ServerConfig.dir := dr |>).
  erewrite (apply_words_cons (if ch then _ else _) _ _ (c2 <| do_chroot := ch |> <| no_symlink_check := ch |>))
    by by destruct ch.
  erewrite (apply_words_cons (if sy then _ else _) _ _ (c2 <| do_chroot := ch |> <| no_symlink_check := sy |>))
    by by destruct sy.
  unfold c2.
  take_opt (B "data_dir") dd (fun c o => c <| data_dir := o |>).
  take_opt (B "user") us (fun c o => c <| user := o |>).
  take_opt (B "logfile") lo (fun c o => c <| logfile := o |>).
  take_opt (B "cgipat") cg (fun c o => c <| cgi_pattern := o |>).
  rewrite apply_cgilimit by done. cbn [app].
  erewrite apply_words_cons by (rewrite apply_word_value by done; reflexivity).
  take_opt (B "p3p") pp (fun c o => c <| p3p := o |>). cbn [app].
  match goal with |- apply_words (_ :: ?ws) ?c = _ => set (rest := ws); set (c3 := c) end.
  erewrite (apply_integer _ _ _ _ (c3 <| max_age := ma |>)); [|done|done|by cbv [apply_config_option required]; rewrite Hma].
  unfold rest. clear rest.
  erewrite (apply_words_cons (if vh then _ else _) _ _ (c3 <| max_age := ma |> <| vhost := vh |>)) by by destruct vh.
  erewrite (apply_words_cons (if gp then _ else _) _ _ (c3 <| max_age := ma |> <| vhost := vh |> <| global_passwd := gp |>))
    by by destruct gp.
  unfold c3. clear c3.
  take_opt (B "urlpat") up (fun c o => c <| url_pattern := o |>).
  take_opt (B "localpat") lp (fun c o => c <| local_pattern := o |>).
  match goal with |- apply_words _ ?c = _ => rewrite apply_words_app; assert (E2 :
    apply_words (if ne then [B "noemptyreferers"] else []) c = inl (c <| no_empty_referers := ne |>)) by by destruct ne end.
  rewrite E2. clear E1 E2.
  take_opt (B "host") ho (fun c o => c <| hostname := o |>).
  take_opt (B "throttles") th (fun c o => c <| throttle_file := o |>).
  rewrite <- (app_nil_r (opt_word (B "pidfile") pi)).
  take_opt (B "pidfile") pi (fun c o => c <| pidfile := o |>).
  reflexivity.
Qed.

(** A text of lines, each with some words and perhaps a comment. *)
Definition conf_line (l : list bytes * option bytes) : bytes :=
  spaced l.1 ++ match l.2 with Some comment => B "#" ++ comment | None => [] end.

Definition conf_text (layout : list (list bytes * option bytes)) : bytes :=
  concat (map (fun l => conf_line l ++ [LF]) layout).

(** Words and comments that keep their line together. *)
Definition conf_word (w : bytes) : bool := token w && forallb (fun c => negb (c =c? "#"%char)) w.

Definition conf_comment (o : option bytes) : bool :=
  match o with Some s => forallb (fun c => negb (c =c? LF) && negb (c =c? CR)) s | None => true end.

Lemma conf_word_token w : conf_word w = true -> token w = true.
Proof. unfold conf_word. by intros [? _]%andb_true_iff. Qed.

Lemma conf_words_tokens ws : Forall (fun w => conf_word w = true) ws -> Forall (fun w => token w = true) ws.
Proof. intros H. eapply Forall_impl; [exact H|]. apply conf_word_token. Qed.

Lemma spaced_Forall (P : byte -> Prop) ws : P SP -> Forall (Forall P) ws -> Forall P (spaced ws).
Proof.
  intros Hsp H. induction H as [|w ws Hw Hws IH]; [constructor|]. destruct ws as [|w' ws]; [exact Hw|].
  apply Forall_app. split; [exact Hw|]. by constructor.
Qed.

Lemma spaced_clean ws x :
  Forall (fun w => conf_word w = true) ws -> x = "#"%char \/ x = LF \/ x = CR ->
  Forall (fun c => (c =c? x) = false) (spaced ws).
Proof.
  intros Hws Hx. apply spaced_Forall; [by destruct Hx as [-> |[-> | ->]]|].
  eapply Forall_impl; [exact Hws|]. intros w Hw. cbn in Hw. unfold conf_word in Hw.
  apply andb_true_iff in Hw as [(_ & _ & Hw1)%token_spec Hw2%forallb_Forall_true].
  pose proof (proj2 (Forall_and _ _) (conj Hw1 Hw2)) as Hw.
  eapply Forall_impl; [exact Hw|]. intros c [Hc1 Hc2]. cbn in *.
  destruct Hx as [-> |[-> | ->]]; [by apply negb_true_iff|..]; apply Ascii.eqb_neq; by intros ->.
Qed.

Lemma conf_line_words ws o :
  Forall (fun w => conf_word w = true) ws -> line_words (conf_line (ws, o)) = ws.
Proof.
  intros Hws. unfold line_words, conf_line, split_on. cbn [fst snd].
  assert (E : match split_by (fun x => x =c? "#"%char)
                (spaced ws ++ match o with Some comment => B "#" ++ comment | None => [] end)
              with l :: _ => l | [] => [] end = spaced ws).
  { destruct o as [comment|].
    - cbn [B app String.list_ascii_of_string]. rewrite split_by_app; [done|by apply spaced_clean; auto|done].
    - rewrite app_nil_r, split_by_no_sep; [done|]. apply spaced_clean; auto. }
  rewrite E. destruct ws as [|w ws]; [by vm_compute|]. apply split_whitespace_spaced; [done|]. by apply conf_words_tokens.
Qed.

Lemma strip_cr_clean l : Forall (fun c => (c =c? CR) = false) l -> strip_cr l = l.
Proof.
  intros H. unfold strip_cr. destruct (reverse l) as [|c r] eqn:E; [done|].
  assert (Hc : c ∈ l) by (rewrite <- elem_of_reverse, E; left). by rewrite (proj1 (Forall_forall _ _) H c Hc).
Qed.

Lemma lines_terminated ls :
  Forall (fun l => Forall (fun c => (c =c? LF) = false) l /\ Forall (fun c => (c =c? CR) = false) l) ls ->
  lines (concat (map (fun l => l ++ [LF]) ls)) = ls.
Proof.
  unfold lines, split_on. induction 1 as [|l ls [Hl Hr] Hls IH]; [done|]. cbn [map concat].
  rewrite <- app_assoc. change ([LF] ++ ?x) with (LF :: x). rewrite split_by_app by done.
  destruct (split_by _ (concat _)) as [|h t] eqn:E; [exfalso; revert E; apply split_by_nonempty|].
  change (lines_of (l :: h :: t)) with (strip_cr l :: lines_of (h :: t)). by rewrite IH, strip_cr_clean.
Qed.

Lemma conf_text_lines layout :
  Forall (fun l => Forall (fun w => conf_word w = true) l.1 /\ conf_comment l.2 = true) layout ->
  lines (conf_text layout) = map conf_line layout.
Proof.
  intros H. unfold conf_text. rewrite <- (List.map_map conf_line (fun l => l ++ [LF])). apply lines_terminated.
  apply Forall_fmap. eapply Forall_impl; [exact H|]. intros [ws o] [Hws Ho]. cbn in *. unfold conf_line. cbn.
  assert (Hc : forall x, x = LF \/ x = CR ->
            Forall (fun c => (c =c? x) = false) (match o with Some comment => B "#" ++ comment | None => [] end)).
  { intros x Hx. destruct o as [s|]; [|constructor]. constructor; [by destruct Hx as [-> | ->]|].
    apply forallb_Forall_true in Ho. eapply Forall_impl; [exact Ho|]. intros c [H1 H2]%andb_true_iff.
    apply negb_true_iff in H1, H2. by destruct Hx as [-> | ->]. }
  split; apply Forall_app; (split; [apply spaced_clean|apply Hc]); auto.
Qed.

Lemma apply_lines_words path n layout c c' :
  Forall (fun l => Forall (fun w => conf_word w = true) l.1 /\ conf_comment l.2 = true) layout ->
  apply_words (concat (map fst layout)) c = inl c' -> apply_lines path n (map conf_line layout) c = inl c'.
Proof.
  intros H. revert n c. induction H as [|[ws o] layout [Hws _] _ IH]; intros n c; [done|].
  cbn [map concat fst apply_lines]. rewrite apply_words_app, conf_line_words by done.
  destruct (apply_words ws c); [apply IH|done].
Qed.

Lemma forallb_and {A} (f g : A -> bool) l : forallb (fun x => f x && g x) l = forallb f l && forallb g l.
Proof. induction l as [|x l IH]; cbn; [done|]. rewrite IH. by destruct (f x), (g x), (forallb f l). Qed.

Lemma plain_word key v : conf_word key = true -> plain_value v = true -> conf_word (word key v) = true.
Proof.
  unfold conf_word, word, plain_value, token. rewrite forallb_and, !forallb_app, !andb_true_iff.
  intros [[Hne Hk] Hk'] [Hv Hv']. split_and!; try done. by destruct key.
Qed.

Lemma plain_show z : plain_value (show_Z z) = true.
Proof.
  assert (Hd : forall y, (0 <= y)%Z -> plain_value (show_nonneg y) = true).
  { intros y Hy. unfold plain_value. apply forallb_Forall_true. eapply Forall_impl; [by apply show_nonneg_digits|].
    intros c Hc. cbn. unfold token_char. rewrite digit_not_ws by done. apply is_ascii_digit_code in Hc as Hr.
    rewrite (proj2 (Z.ltb_lt _ _)) by lia. cbn. apply negb_true_iff, Ascii.eqb_neq. by intros ->. }
  unfold show_Z. destruct (Z.ltb_spec z 0); [|by apply Hd]. specialize (Hd (- z)%Z ltac:(lia)).
  unfold plain_value in *. rewrite forallb_app, Hd. done.
Qed.

Lemma opt_words_plain key o :
  conf_word key = true -> plain_option o = true -> Forall (fun w => conf_word w = true) (opt_word key o).
Proof. intros Hk Ho. destruct o as [v|]; repeat constructor. by apply plain_word. Qed.

Lemma config_words_plain c : expressible c -> Forall (fun w => conf_word w = true) (config_words c).
Proof.
  intros [_ _ _ Hd Hc Ht]. cbn [forallb] in Ht. rewrite !andb_true_iff in Ht.
  destruct Ht as (H1 & H2 & H3 & H4 & H5 & H6 & H7 & H8 & H9 & H10 & _).
  pose proof plain_show. unfold config_words.
  repeat first [ apply Forall_app; split | apply Forall_cons; split | apply Forall_nil; exact I
               | apply opt_words_plain; [done|]; assumption | apply plain_word; [done|]; auto ].
  all: try (by destruct (daemonize c); repeat constructor).
  all: try (by destruct (no_empty_referers c); repeat constructor).
  all: try (by case_match).
  apply opt_words_plain; [done|]. destruct (cgi_limit c); cbn; auto.
Qed.

(** C28: the configuration file can express every configuration, and is
    read exactly: the options of any configuration with plain values, laid out
    on lines in any way, with comments and blank lines, give back that
    configuration; every option has its effect and none disturbs another. *)
Theorem config_file_roundtrip read_to_string path c layout :
  expressible c -> Forall (fun l => conf_comment l.2 = true) layout -> concat (map fst layout) = config_words c ->
  read_to_string path = inl (conf_text layout) ->
  apply_config_file read_to_string path default = inl c.
Proof.
  intros Hc Hcom Hl Hr. unfold apply_config_file. rewrite Hr.
  assert (Hlay : Forall (fun l => Forall (fun w => conf_word w = true) l.1 /\ conf_comment l.2 = true) layout).
  { pose proof (config_words_plain c Hc) as Hw. rewrite <- Hl in Hw. clear -Hcom Hw.
    induction Hcom as [|l layout Hl _ IH]; [constructor|]. cbn in Hw. apply Forall_app in Hw as [H1 H2].
    constructor; [by split|by apply IH]. }
  rewrite conf_text_lines by done. apply apply_lines_words; [done|]. rewrite Hl. by apply config_words_applied; destruct Hc.
Qed.

(** ** Errors *)

(** What is wrong with a configuration file is reported with its place:
    the error names the file and the line, counted from 1, of the first option
    that cannot be applied, with every option before it accepted. *)
Theorem config_error_located read_to_string path text c e :
  read_to_string path = inl text -> apply_config_file read_to_string path c = inr e ->
  exists i l c' ws1 w ws2 msg,
    lines text !! i = Some l /\ line_words l = ws1 ++ w :: ws2 /\
    apply_words (concat (map line_words (take i (lines text))) ++ ws1) c = inl c' /\ apply_word w c' = inr msg /\
    e = from_utf8_lossy path ++ B ":" ++ show_Z (Z.of_nat i + 1) ++ B ": " ++ msg.
Proof.
  intros Hr. unfold apply_config_file. rewrite Hr. change 1%Z with (Z.of_nat 0 + 1)%Z. clear Hr.
  enough (H : forall ls n c, apply_lines path (Z.of_nat n + 1) ls c = inr e ->
    exists i l c' ws1 w ws2 msg,
      ls !! i = Some l /\ line_words l = ws1 ++ w :: ws2 /\
      apply_words (concat (map line_words (take i ls)) ++ ws1) c = inl c' /\ apply_word w c' = inr msg /\
      e = from_utf8_lossy path ++ B ":" ++ show_Z (Z.of_nat (n + i) + 1) ++ B ": " ++ msg) by apply (H _ 0).
  clear text c. intros ls. induction ls as [|l ls IH]; intros n c; [done|]. cbn [apply_lines].
  assert (Hw : forall ws c msg, apply_words ws c = inr msg ->
            exists c' ws1 w ws2, ws = ws1 ++ w :: ws2 /\ apply_words ws1 c = inl c' /\ apply_word w c' = inr msg).
  { clear. intros ws. induction ws as [|w ws IH]; intros c msg; [done|]. cbn. destruct (apply_word w c) as [c1|m] eqn:E.
    - intros (c' & ws1 & w' & ws2 & -> & H1 & H2)%IH. exists c', (w :: ws1), w', ws2. cbn. by rewrite E.
    - intros [= <-]. by exists c, [], w, ws. }
  destruct (apply_words (line_words l) c) as [c1|msg] eqn:E.
  - replace (Z.of_nat n + 1 + 1)%Z with (Z.of_nat (S n) + 1)%Z by lia.
    intros (i & l' & c' & ws1 & w & ws2 & msg & H1 & H2 & H3 & H4 & ->)%IH.
    exists (S i), l', c', ws1, w, ws2, msg. split_and!; [done|done| |done|by rewrite <- Nat.add_succ_comm].
    cbn [take map concat]. rewrite <- app_assoc, apply_words_app, E. done.
  - intros [= <-]. apply Hw in E as (c' & ws1 & w & ws2 & H1 & H2 & H3).
    exists 0, l, c', ws1, w, ws2, msg. rewrite Nat.add_0_r. done.
Qed.

(** ** The order of the toggles *)

(** The toggles of a configuration. *)
Definition toggles (c : t) : bool * bool * bool * bool := (do_chroot c, no_symlink_check c, vhost c, global_passwd c).

(** The switches that clap reports are on the command line. *)
Record switches_listed (cli : Cli.t) (events : list LegacyToggle) : Prop := {
  sl_chroot : Cli.chroot cli = true -> Chroot true ∈ events;
  sl_no_chroot : Cli.no_chroot cli = true -> Chroot false ∈ events;
  sl_symlinks : Cli.symlinks cli = true -> SymlinkCheck true ∈ events;
  sl_no_symlinks : Cli.no_symlinks cli = true -> SymlinkCheck false ∈ events;
  sl_vhost : Cli.vhost cli = true -> Vhost true ∈ events;
  sl_no_vhost : Cli.no_vhost cli = true -> Vhost false ∈ events;
  sl_global : Cli.global_passwd cli = true -> GlobalPasswd true ∈ events;
  sl_no_global : Cli.no_global_passwd cli = true -> GlobalPasswd false ∈ events;
}.

Definition sets_chroot (ev : LegacyToggle) : Prop := exists b, ev = Chroot b.
Definition sets_symlink (ev : LegacyToggle) : Prop := exists b, ev = Chroot b \/ ev = SymlinkCheck b.
Definition sets_vhost (ev : LegacyToggle) : Prop := exists b, ev = Vhost b.
Definition sets_global (ev : LegacyToggle) : Prop := exists b, ev = GlobalPasswd b.

(** A field ends up the same if it starts the same or some event sets it. *)
Lemma toggle_forgets {A} (field : t -> A) (sets : LegacyToggle -> Prop) events :
  (forall ev c1 c2, sets ev \/ field c1 = field c2 -> field (apply_toggle c1 ev) = field (apply_toggle c2 ev)) ->
  forall c1 c2, (exists ev, ev ∈ events /\ sets ev) \/ field c1 = field c2 ->
  field (apply_legacy_toggle_order c1 events) = field (apply_legacy_toggle_order c2 events).
Proof.
  intros Hs. induction events as [|ev events IH]; intros c1 c2 [(x & Hx & Hsx)|He].
  - by apply not_elem_of_nil in Hx.
  - done.
  - cbn. apply IH. apply elem_of_cons in Hx as [->|Hx]; [right|left; eauto]. apply Hs. by left.
  - cbn. apply IH. right. apply Hs. by right.
Qed.

(** A step of [from_cli] seen through one field. *)
Lemma when_some_skip {A T} (field : t -> T) (o : option A) f c :
  (forall v c, field (f v c) = field c) -> field (when_some o f c) = field c.
Proof. intros H. destruct o; [apply H|done]. Qed.

Lemma when_skip {T} (field : t -> T) b f c : (forall c, field (f c) = field c) -> field (when b f c) = field c.
Proof. intros H. destruct b; [apply H|done]. Qed.

Lemma when_sets {T} (field : t -> T) b f c k :
  (forall c, field (f c) = k) -> field (when b f c) = if b then k else field c.
Proof. intros H. destruct b; [apply H|done]. Qed.

Ltac through field :=
  repeat first [ rewrite (when_some_skip field) by (intros ? []; reflexivity)
               | rewrite (when_skip field) by (intros []; reflexivity)
               | rewrite (when_sets field _ _ _ true) by (intros []; reflexivity)
               | rewrite (when_sets field _ _ _ false) by (intros []; reflexivity) ].

Lemma from_cli_toggles read_to_string cli c0 c :
  file_config read_to_string cli = inl c0 -> from_cli read_to_string cli = inl c ->
  do_chroot c = (if Cli.no_chroot cli then false else if Cli.chroot cli then true else do_chroot c0) /\
  no_symlink_check c =
    (if Cli.no_symlinks cli then true else if Cli.symlinks cli then false
     else if Cli.no_chroot cli then false else if Cli.chroot cli then true else no_symlink_check c0) /\
  vhost c = (if Cli.no_vhost cli then false else if Cli.vhost cli then true else vhost c0) /\
  global_passwd c = (if Cli.no_global_passwd cli then false else if Cli.global_passwd cli then true else global_passwd c0).
Proof.
  intros E. unfold from_cli. rewrite E. cbv zeta. intros [= <-]. split_and!.
  - by through do_chroot.
  - by through no_symlink_check.
  - by through vhost.
  - by through global_passwd.
Qed.

(** A switch that is on is among the events. *)
Ltac listed flag H :=
  destruct flag; [left; eexists; split; [by apply H|]; eexists; first [reflexivity | left; reflexivity | right; reflexivity]|].

(** Switches act in the order they are written, as in the original
    server: whatever their order on the command line, the toggles of the final
    configuration are those of the configuration file with the switches applied
    one after the other, each overriding the earlier ones; a switch that is not
    given leaves what the file says. *)
Theorem toggles_in_order read_to_string cli events c0 c :
  switches_listed cli events -> file_config read_to_string cli = inl c0 -> from_cli read_to_string cli = inl c ->
  toggles (apply_legacy_toggle_order c events) = toggles (apply_legacy_toggle_order c0 events).
Proof.
  intros [H1 H2 H3 H4 H5 H6 H7 H8] E0 E. destruct (from_cli_toggles _ _ _ _ E0 E) as (Ec & Es & Ev & Eg). clear E0 E.
  unfold toggles. f_equal; [f_equal; [f_equal|]|].
  - apply (toggle_forgets do_chroot sets_chroot); [by intros [[]|[]| |] c1 c2 [[b ?]|?]|]. rewrite Ec.
    listed (Cli.no_chroot cli) H2. listed (Cli.chroot cli) H1. by right.
  - apply (toggle_forgets no_symlink_check sets_symlink); [by intros [[]|[]| |] c1 c2 [[b [?|?]]|?]|]. rewrite Es.
    listed (Cli.no_symlinks cli) H4. listed (Cli.symlinks cli) H3.
    listed (Cli.no_chroot cli) H2. listed (Cli.chroot cli) H1. by right.
  - apply (toggle_forgets vhost sets_vhost); [by intros [[]|[]| |] c1 c2 [[b ?]|?]|]. rewrite Ev.
    listed (Cli.no_vhost cli) H6. listed (Cli.vhost cli) H5. by right.
  - apply (toggle_forgets global_passwd sets_global); [by intros [[]|[]| |] c1 c2 [[b ?]|?]|]. rewrite Eg.
    listed (Cli.no_global_passwd cli) H8. listed (Cli.global_passwd cli) H7. by right.
Qed.

(** Every argument has one counterpart; values of [-h] and [-dd] are not
    rewritten. *)
Lemma normalize_length args : length (normalize_legacy_args args) = length args.
Proof.
  assert (H : forall n args, length args <= n -> length (normalize_legacy_args args) = length args).
  { clear. induction n as [|n IH]; intros [|a args] Hn; [done|cbn in Hn; lia|done|]. cbn [length] in Hn.
    cbn [normalize_legacy_args]. destruct (legacy_value_flag a).
    - destruct args as [|v args]; [done|]. cbn in *. rewrite IH; lia.
    - cbn. rewrite IH; lia. }
  by apply (H (length args)).
Qed.

Example legacy_arguments :
  normalize_legacy_args (map B ["thttpd"; "-h"; "-s"; "-dd"; "/srv/data"; "-noP"; "-nos"; "-p"; "80"])%string =
    map B ["thttpd"; "--hostname"; "-s"; "--data-dir"; "/srv/data"; "--no-global-passwd"; "--no-symlinks"; "-p"; "80"]%string /\
  legacy_toggle_events (map B ["thttpd"; "-r"; "-d"; "--nor"; "--symlinks"; "-v"]%string) =
    [Chroot true; SymlinkCheck true; Vhost true].
Proof. by vm_compute. Qed.

(** ** Concrete configurations *)

Module Demo.
Definition config : t :=
  default <| port := 8080%Z |> <| dir := B "/srv/www" |> <| do_chroot := true |> <| cgi_limit := Some (-5)%Z |>
    <| cgi_pattern := Some (B "**.cgi") |> <| user := Some (B "nobody") |> <| daemonize := false |> <| p3p := Some [] |>.

Definition layout : list (list bytes * option bytes) :=
  [([], Some (B " thttpd.conf")); (take 4 (config_words config), None); ([], None);
   (drop 4 (config_words config), Some (B " the rest = #"))].

Definition cli : Cli.t :=
  Cli.mk (Some 9090%Z) None true true None false false None None None None None None false false false false
    (Some (B "thttpd.conf")) false None None None None false.
End Demo.

Lemma config_file_roundtrip_witness :
  apply_config_file (fun _ => inl (conf_text Demo.layout)) (B "thttpd.conf") default = inl Demo.config.
Proof.
  apply (config_file_roundtrip _ _ Demo.config Demo.layout).
  - constructor; cbn; lia || done.
  - repeat constructor.
  - cbn [Demo.layout map concat fst app]. rewrite app_nil_r. apply take_drop.
  - reflexivity.
Defined.

Lemma config_error_located_witness :
  exists i l c' ws1 w ws2 msg,
    lines (B "port=80 # ok" ++ [LF] ++ B "vhost port=x") !! i = Some l /\ line_words l = ws1 ++ w :: ws2 /\
    apply_word w c' = inr msg /\ B "f:2: invalid port for port option" = B "f:" ++ show_Z (Z.of_nat i + 1) ++ B ": " ++ msg.
Proof.
  destruct (config_error_located (fun _ => inl (B "port=80 # ok" ++ [LF] ++ B "vhost port=x")) (B "f") _ default
    (B "f:2: invalid port for port option") eq_refl ltac:(by vm_compute))
    as (i & l & c' & ws1 & w & ws2 & msg & H1 & H2 & _ & H3 & H4).
  exists i, l, c', ws1, w, ws2, msg. split; [exact H1|]. split; [exact H2|]. split; [exact H3|]. exact H4.
Defined.

Lemma toggles_in_order_witness :
  exists c, from_cli (fun _ => inl (B "port=80 nosymlinks")) Demo.cli = inl c /\
    toggles (apply_legacy_toggle_order c [Chroot false; Chroot true]) = (true, true, false, true).
Proof.
  destruct (from_cli (fun _ => inl (B "port=80 nosymlinks")) Demo.cli) as [c|e] eqn:E; [|by vm_compute in E].
  exists c. split; [reflexivity|].
  rewrite (toggles_in_order (fun _ => inl (B "port=80 nosymlinks")) Demo.cli [Chroot false; Chroot true]
    (default <| no_symlink_check := true |>) c); [by vm_compute| |by vm_compute|exact E].
  constructor; cbn; intros; first [done | left | by right; left].
Defined.
