(* ===== verification/Logging.v ===== *)
(** * Access log (rust/crates/thttpd-core/src/logging.rs)

    The log target, the text of a line, rotation.  The file system is a table
    of names and inodes, so that an open file keeps its inode when its name is
    moved; the local time is an input. *)

From S2P Require Import Prelude RustStr Match Tdate Url Request HttpConn Response Wire.
From S2P Require Import Throttle Auth Cgi Server EventLoop Dispatch Run.

(** ** The line *)

(** [truncate]: at most [n] chars. *)
Definition truncate (s : bytes) (n : nat) : bytes := concat (take n (chars s)).

(** The fields of [libc::tm] that are printed. *)
Record Tm := mkTm { tm_mday : Z; tm_mon : Z; tm_year : Z; tm_hour : Z; tm_min : Z; tm_sec : Z; tm_gmtoff : Z }.

(** [{:0w}], with the sign first. *)
Definition zero_padded (w : nat) (z : Z) : bytes :=
  if (z <? 0)%Z then B "-" ++ pad_left "0"%char (w - 1) (show_nonneg (- z))
  else pad_left "0"%char w (show_nonneg z).

Definition LOG_MONTHS : list bytes :=
  map B ["Jan"; "Feb"; "Mar"; "Apr"; "May"; "Jun"; "Jul"; "Aug"; "Sep"; "Oct"; "Nov"; "Dec"]%string.

Definition cern_localtime (tm : Tm) : bytes :=
  let zone := Z.quot (tm_gmtoff tm) 60 in
  let sign := if (0 <=? zone)%Z then B "+" else B "-" in
  let zone := Z.abs zone in
  let zone := (Z.quot zone 60 * 100 + Z.rem zone 60)%Z in
  zero_padded 2 (tm_mday tm) ++ B "/" ++
  unwrap_or [] (LOG_MONTHS !! Z.to_nat (Z.min (wrap_u64 (tm_mon tm)) 11)) ++ B "/" ++
  zero_padded 4 (wrap_i32 (tm_year tm + 1900)) ++ B ":" ++ zero_padded 2 (tm_hour tm) ++ B ":" ++
  zero_padded 2 (tm_min tm) ++ B ":" ++ zero_padded 2 (tm_sec tm) ++ B " " ++ sign ++ zero_padded 4 zone.

Definition format_cern_line (tm : Tm) (entry : LogEntry) : bytes :=
  let user := if is_empty (log_remote_user entry) then B "-" else log_remote_user entry in
  let sent := if (0 <=? log_bytes_sent entry)%Z then show_Z (log_bytes_sent entry) else B "-" in
  truncate (log_remote_addr entry) 80 ++ B " - " ++ truncate user 80 ++ B " [" ++ cern_localtime tm ++ B "] " ++ [DQ] ++
  truncate (log_method entry) 80 ++ B " " ++ truncate (log_url entry) 300 ++ B " " ++
  truncate (log_protocol entry) 80 ++ [DQ] ++ B " " ++ show_Z (log_status entry) ++ B " " ++ sent ++ B " " ++ [DQ] ++
  truncate (log_referer entry) 200 ++ [DQ] ++ B " " ++ [DQ] ++ truncate (log_user_agent entry) 200 ++ [DQ] ++ [LF].

(** ** The target *)

(** Names lead to inodes, inodes to contents. *)
Record Fs := mkFs { names : gmap (list ascii) nat; contents : gmap nat bytes }.

(** [OpenOptions::new().create(true).append(true).open(path)]. *)
Definition open_append (path : bytes) (fs : Fs) : nat * Fs :=
  match names fs !! path with
  | Some i => (i, fs)
  | None =>
      let i := fresh (dom (contents fs)) in
      (i, mkFs (<[path := i]> (names fs)) (<[i := []]> (contents fs)))
  end.

Definition append (i : nat) (text : bytes) (fs : Fs) : Fs :=
  mkFs (names fs) (alter (fun old => old ++ text) i (contents fs)).

(** What another process does when it rotates the log. *)
Definition rename (from to : bytes) (fs : Fs) : Fs :=
  match names fs !! from with
  | Some i => mkFs (<[to := i]> (delete from (names fs))) (contents fs)
  | None => fs
  end.

Inductive LogTarget :=
| Syslog
| Stdout
| File (path : bytes) (file : nat)
| Disabled.

(** [Path] equality compares components. *)
Definition leading_dot (p : bytes) : bool :=
  match split_on "/"%char p with c :: _ => bytes_eqb c (B ".") | [] => false end.

Definition path_eqb (a b : bytes) : bool :=
  Bool.eqb (is_absolute a) (is_absolute b) && Bool.eqb (leading_dot a) (leading_dot b) &&
  bool_decide (path_parts a = path_parts b).

(** The results of the system calls of [open]; [lookup] is [User::from_name]. *)
Record LogSys := mkLogSys {
  open_ok : bool;
  chmod_ok : bool;
  is_root : bool;
  lookup_user : bytes -> option (option (Z * Z));
  chown_ok : bool;
}.

Inductive LogError := OpenError | ChmodError | LookupError | NoSuchUser | ChownError.

Definition configured_owner (sys : LogSys) (cfg : ServerConfig.t) : option (Z * Z) + LogError :=
  match ServerConfig.user cfg with
  | None => inl None
  | Some username =>
      match lookup_user sys username with
      | None => inr LookupError
      | Some None => inr NoSuchUser
      | Some (Some ids) => inl (Some ids)
      end
  end.

(** [None] is success. *)
Definition configure_logfile (sys : LogSys) (cfg : ServerConfig.t) : option LogError :=
  if negb (chmod_ok sys) then Some ChmodError
  else if is_root sys then
    match configured_owner sys cfg with
    | inr e => Some e
    | inl None => None
    | inl (Some _) => if chown_ok sys then None else Some ChownError
    end
  else None.

Definition AccessLogger_open (sys : LogSys) (cfg : ServerConfig.t) (fs : Fs) : (LogTarget * Fs) + LogError :=
  match ServerConfig.logfile cfg with
  | None => inl (Syslog, fs)
  | Some path =>
      if path_eqb path (B "-") then inl (Stdout, fs)
      else if path_eqb path (B "/dev/null") then inl (Disabled, fs)
      else if open_ok sys then
        let '(i, fs') := open_append path fs in
        match configure_logfile sys cfg with
        | Some e => inr e
        | None => inl (File path i, fs')
        end
      else inr OpenError
  end.

(** The path seen from inside the jail, up to redundant separators. *)
Definition path_after_chroot (path jail_dir : bytes) : option bytes :=
  if is_absolute path && path_starts_with path jail_dir
  then Some (B "/" ++ join (B "/") (drop (length (path_parts jail_dir)) (path_parts path)))
  else None.

Definition remap_after_chroot (jail_dir : bytes) (l : LogTarget) : LogTarget :=
  match l with
  | File path i => match path_after_chroot path jail_dir with Some p => File p i | None => l end
  | _ => l
  end.

Definition is_file_backed (l : LogTarget) : bool := match l with File _ _ => true | _ => false end.
Definition is_stdout (l : LogTarget) : bool := match l with Stdout => true | _ => false end.

(** SIGHUP; on an error the old file stays in use. *)
Definition reopen (reopen_ok : bool) (l : LogTarget) (fs : Fs) : LogTarget * Fs * bool :=
  match l with
  | File path _ =>
      if reopen_ok then let '(i, fs') := open_append path fs in (File path i, fs', true)
      else (l, fs, false)
  | _ => (l, fs, true)
  end.

(** The files and the bytes written to standard output; write errors are
    ignored, [stored] is how much of the line reaches the file ([None]: all). *)
Definition log_request (tm : Tm) (stored : option nat) (entry : LogEntry) (l : LogTarget) (out : Fs * bytes) :
    Fs * bytes :=
  let line := format_cern_line tm entry in
  let line := match stored with Some n => take n line | None => line end in
  match l with
  | File _ i => (append i line out.1, out.2)
  | Stdout => (out.1, out.2 ++ line)
  | Syslog | Disabled => out
  end.

(** ** One request, one line *)

Definition no_lf (s : bytes) : Prop := Forall (fun c => c <> LF) s.

Lemma no_lf_app s u : no_lf s -> no_lf u -> no_lf (s ++ u).
Proof. intros H1 H2. by apply Forall_app. Qed.

Lemma Forall_chars (P : byte -> Prop) s : Forall P s -> Forall (Forall P) (chars s).
Proof.
  intros H. rewrite <- (concat_chars s) in H. revert H. generalize (chars s). intros l.
  induction l as [|c l IH]; [constructor|]. cbn. intros [H1 H2]%Forall_app. auto.
Qed.

Lemma Forall_concat_intro {A} (P : A -> Prop) l : Forall (Forall P) l -> Forall P (concat l).
Proof. induction 1; cbn; [constructor|]. by apply Forall_app. Qed.

Lemma truncate_no_lf s n : no_lf s -> no_lf (truncate s n).
Proof. intros H. apply Forall_concat_intro, Forall_take. by apply Forall_chars. Qed.

Lemma trim_start_by_Forall {A} (P : A -> Prop) q l : Forall P l -> Forall P (trim_start_by q l).
Proof. induction 1 as [|x l Hx Hl IH]; cbn; [constructor|]. destruct (q x); [done|by constructor]. Qed.

Lemma trim_no_lf s : no_lf s -> no_lf (trim s).
Proof.
  intros H. apply Forall_concat_intro. unfold trim_end_by.
  apply Forall_reverse, trim_start_by_Forall, Forall_reverse, trim_start_by_Forall. by apply Forall_chars.
Qed.

Lemma show_no_lf z : no_lf (show_Z z).
Proof.
  assert (Hd : forall y, (0 <= y)%Z -> no_lf (show_nonneg y)).
  { intros y Hy. eapply Forall_impl; [by apply show_nonneg_digits|]. intros c Hc ->. done. }
  unfold show_Z. destruct (Z.ltb_spec z 0); [|by apply Hd]. apply no_lf_app; [by repeat constructor|]. apply Hd. lia.
Qed.

Lemma zero_padded_no_lf w z : no_lf (zero_padded w z).
Proof.
  assert (Hd : forall w y, (0 <= y)%Z -> no_lf (pad_left "0"%char w (show_nonneg y))).
  { intros w' y Hy. eapply Forall_impl; [by apply pad_zero_digits|]. intros c Hc ->. done. }
  unfold zero_padded. destruct (Z.ltb_spec z 0); [|by apply Hd]. apply no_lf_app; [by repeat constructor|]. apply Hd. lia.
Qed.

Ltac no_lf_tac :=
  repeat first [ assumption | apply no_lf_app | apply zero_padded_no_lf | apply truncate_no_lf | apply show_no_lf
               | apply (bool_decide_unpack _); vm_compute; exact I ].

Lemma cern_localtime_no_lf tm : no_lf (cern_localtime tm).
Proof.
  unfold cern_localtime. cbv zeta.
  assert (Hm : no_lf (unwrap_or [] (LOG_MONTHS !! Z.to_nat (Z.min (wrap_u64 (tm_mon tm)) 11)))).
  { assert (Hall : Forall no_lf LOG_MONTHS) by (apply (bool_decide_unpack _); by vm_compute).
    destruct (LOG_MONTHS !! _) as [m|] eqn:E; [|constructor]. exact (Forall_lookup_1 _ _ _ _ Hall E). }
  no_lf_tac. destruct (_ <=? _)%Z; no_lf_tac.
Qed.

(** The texts of an entry that come from the client. *)
Record entry_clean (e : LogEntry) : Prop := {
  ec_addr : no_lf (log_remote_addr e);
  ec_user : no_lf (log_remote_user e);
  ec_method : no_lf (log_method e);
  ec_url : no_lf (log_url e);
  ec_protocol : no_lf (log_protocol e);
  ec_referer : no_lf (log_referer e);
  ec_agent : no_lf (log_user_agent e);
}.

Lemma format_line_single tm e :
  entry_clean e -> exists body, format_cern_line tm e = body ++ [LF] /\ no_lf body.
Proof.
  intros [H1 H2 H3 H4 H5 H6 H7]. unfold format_cern_line. cbv zeta. rewrite !app_assoc.
  eexists. split; [reflexivity|]. pose proof (cern_localtime_no_lf tm).
  no_lf_tac; [destruct (is_empty _); no_lf_tac|destruct (_ <=? _)%Z; no_lf_tac].
Qed.

(** *** What the parser stores *)

(** A line feed is a char of its own. *)
Lemma utf8_head_high s ok k :
  utf8_head s = (ok, k) -> k = 1 \/ (forall i, i < k -> (128 <= byte_at s i)%Z).
Proof.
  unfold utf8_head, second_ok3, second_ok4, is_cont, in_range.
  repeat case_match; intros [= <- <-]; try (by left); right; intros i Hi;
    rewrite ?andb_true_iff, ?Z.leb_le, ?Z.ltb_ge in *; (destruct i as [|[|[|[|i]]]]; lia).
Qed.

Lemma byte_at_lookup s i c : s !! i = Some c -> byte_at s i = code c.
Proof. intros E. unfold byte_at. by rewrite E. Qed.

Lemma chars_lf s : Forall (fun c => LF ∈ c -> c = [LF]) (chars s).
Proof.
  unfold chars. remember (length s) as n eqn:Hn. revert s Hn. induction n as [n IH] using lt_wf_ind. intros s ->.
  rewrite utf8_chunks_eq. destruct s as [|c s]; [constructor|]. destruct (utf8_head (c :: s)) as [ok k] eqn:E. cbn [fst snd map].
  assert (Hne : c :: s <> []) by done. pose proof (utf8_head_len (c :: s) ok k Hne E) as Hk. constructor.
  - intros [i Hi]%list_elem_of_lookup. apply lookup_take_Some in Hi as [Hi Hlt].
    destruct (utf8_head_high _ _ _ E) as [-> |Hh].
    + assert (i = 0) as -> by lia. cbn in Hi. injection Hi as ->. by destruct s.
    + specialize (Hh i Hlt). rewrite (byte_at_lookup _ _ _ Hi) in Hh. by vm_compute in Hh.
  - eapply IH; [|reflexivity]. rewrite length_drop. cbn in *. lia.
Qed.

Lemma split_whitespace_no_lf s : Forall no_lf (split_whitespace s).
Proof.
  unfold split_whitespace, split_ws_all.
  assert (Hall : Forall no_lf (map (@concat ascii) (split_by char_is_whitespace (chars s)))).
  { apply Forall_fmap. pose proof (split_by_pieces char_is_whitespace (chars s)) as Hp.
    pose proof (split_by_Forall _ char_is_whitespace _ (chars_lf s)) as Hc.
    apply Forall_forall. intros l Hl. cbn. apply Forall_concat_intro.
    pose proof (proj1 (Forall_forall _ _) Hp l Hl) as Hp'. pose proof (proj1 (Forall_forall _ _) Hc l Hl) as Hc'.
    apply Forall_forall. intros c Hcl. apply Forall_forall. intros x Hx ->.
    pose proof (proj1 (Forall_forall _ _) Hp' c Hcl) as H1. rewrite (proj1 (Forall_forall _ _) Hc' c Hcl Hx) in H1. done. }
  apply Forall_forall. intros w [_ Hw]%list_elem_of_filter. by apply (proj1 (Forall_forall _ _) Hall).
Qed.

(** The texts of a connection that are logged. *)
Record log_clean (h : HttpConn) : Prop := {
  lc_forwarded : no_lf (x_forwarded_for h);
  lc_url : no_lf (encoded_url h);
  lc_version : no_lf (http_version h);
  lc_referer : no_lf (referer h);
  lc_agent : no_lf (user_agent h);
}.

Lemma log_clean_new : log_clean HttpConn.new.
Proof. by repeat constructor. Qed.

Section Parsed.
Context {W : World}.

Lemma extract_header_no_lf hdrs name v : extract_header hdrs name = Some (Some v) -> no_lf v.
Proof.
  unfold extract_header. pose proof (lines_no_lf (from_utf8_lossy hdrs)) as Hl. revert Hl.
  generalize (lines (from_utf8_lossy hdrs)). intros ls Hl. induction Hl as [|l ls Hl _ IH]; cbn [extract_loop]; [done|].
  destruct (starts_with _ _); [|exact IH]. unfold str_from. destruct (_ && _); [|done]. cbn. intros [= <-].
  apply trim_no_lf. by apply Forall_drop.
Qed.

Lemma word_no_lf d h i : no_lf d -> no_lf (unwrap_or d (request_words h !! i)).
Proof.
  intros Hd. destruct (request_words h !! i) as [w|] eqn:E; [|done]. cbn.
  exact (Forall_lookup_1 _ _ _ _ (split_whitespace_no_lf _) E).
Qed.

Lemma parse_request_line_clean h h' : log_clean h -> parse_request_line h = Some h' -> log_clean h'.
Proof.
  intros [H1 _ _ H4 H5]. unfold parse_request_line. destruct (extract_header _ _); cbn [mbind option_bind]; [|done].
  destruct (parse_method _ _); cbn [mbind option_bind]; [|done].
  pose proof (word_no_lf (B "/") h 1 ltac:(by repeat constructor)) as Hu.
  pose proof (word_no_lf (B "HTTP/0.9") h 2 ltac:(by repeat constructor)) as Hv.
  destruct (split_once _ _) as [[]|]; intros [= <-]; by constructor.
Qed.

Lemma with_header_clean h0 name f h h' :
  (forall v h, no_lf v -> log_clean h -> log_clean (f v h)) -> log_clean h -> with_header h0 name f h = Some h' ->
  log_clean h'.
Proof.
  intros Hf Hh. unfold with_header. destruct (extract_header _ _) as [[v|]|] eqn:E; cbn [mbind option_bind];
    [|by intros [= <-]|done]. intros [= <-]. apply Hf; [|done]. by eapply extract_header_no_lf.
Qed.

Lemma parse_range_clean v h : log_clean h -> log_clean (parse_range v h).
Proof.
  intros [H1 H2 H3 H4 H5]. unfold parse_range. destruct (contains_char _ _); [done|].
  destruct (split_once _ _) as [[? spec]|]; [|done].
  destruct (split_once _ _) as [[f r]|]; [|done].
  destruct (is_empty f); [done|]. destruct (parse_i 64 f); [|done].
  destruct (is_empty r); [done|]. by destruct (parse_i 64 r).
Qed.

Lemma parse_headers_clean h h' : log_clean h -> parse_headers h = Some h' -> log_clean h'.
Proof.
  unfold parse_headers. intros Hh H.
  repeat match type of H with
  | (mbind _ (with_header ?h0 ?n ?f ?h1)) = _ =>
      let E := fresh "E" in let h2 := fresh "h" in
      destruct (with_header h0 n f h1) as [h2|] eqn:E; cbn [mbind option_bind] in H; [|done];
      apply with_header_clean in E; [|first [intros; by apply parse_range_clean | by intros v x Hv []; constructor]|eassumption]
  end.
  apply with_header_clean in H; [done| |eassumption]. intros v x Hv Hx. cbv zeta. destruct (is_empty _); [done|].
  destruct Hx. constructor; try done. cbn. apply trim_no_lf.
  pose proof (split_by_Forall _ (fun c => c =c? ","%char) _ Hv) as Hs. unfold split_on.
  destruct (split_by _ v) as [|p ps]; [constructor|]. by apply Forall_cons in Hs as [? _].
Qed.

Lemma log_entry_clean sl :
  log_clean (ConnSlot.http sl) -> (forall ip a, ConnSlot.peer_addr sl = Some (ip, a) -> no_lf ip) ->
  entry_clean (log_entry sl).
Proof.
  intros [H1 H2 H3 H4 H5] Hp. unfold log_entry. constructor; cbn; try done.
  - destruct (is_empty _); [|done]. destruct (ConnSlot.peer_addr sl) as [[ip a]|]; [by apply (Hp ip a)|by repeat constructor].
  - by repeat constructor.
  - by destruct (method _); repeat constructor.
  - destruct (mime_flag _); [done|constructor].
Qed.

End Parsed.

(** ** Rotation *)

(** The text a path leads to. *)
Definition file_text (path : bytes) (fs : Fs) : option bytes := names fs !! path ≫= fun i => contents fs !! i.

Definition log_all (l : LogTarget) (es : list (Tm * LogEntry)) (out : Fs * bytes) : Fs * bytes :=
  foldl (fun out te => log_request te.1 None te.2 l out) out es.

Definition log_text (es : list (Tm * LogEntry)) : bytes := concat (map (fun te => format_cern_line te.1 te.2) es).

Lemma log_all_file p i es fs o :
  log_all (File p i) es (fs, o) = (append i (log_text es) fs, o).
Proof.
  revert fs. induction es as [|te es IH]; intros [ns cs].
  - unfold append, log_text. cbn. f_equal. f_equal. symmetry. apply map_eq. intros j.
    destruct (decide (j = i)) as [->|Hj]; [|by rewrite lookup_alter_ne].
    rewrite lookup_alter_eq. destruct (cs !! i); [|done]. cbn. by rewrite app_nil_r.
  - change (log_all (File p i) (te :: es) (mkFs ns cs, o))
      with (log_all (File p i) es (append i (format_cern_line te.1 te.2) (mkFs ns cs), o)). rewrite IH. unfold append, log_text. cbn. f_equal. f_equal.
    apply map_eq. intros j. destruct (decide (j = i)) as [->|Hj]; [|by rewrite !lookup_alter_ne].
    rewrite !lookup_alter_eq. destruct (cs !! i); [|done]. cbn. by rewrite app_assoc.
Qed.

(** Rotating the log loses nothing: when the file is moved away while
    the server runs and the server is then told to reopen it, the lines logged
    before the move and those logged until the reopening are in the moved file,
    in order and after what it held; the lines logged afterwards are in a new
    file under the configured name, which holds nothing else. *)
Theorem rotation_lossless p q i fs o old es1 es2 es3 :
  names fs !! p = Some i -> contents fs !! i = Some old -> p <> q ->
  let out1 := log_all (File p i) es1 (fs, o) in
  let out2 := log_all (File p i) es2 (rename p q out1.1, out1.2) in
  let '(l', fs3, reopened) := reopen true (File p i) out2.1 in
  let out3 := log_all l' es3 (fs3, out2.2) in
  reopened = true /\ file_text q out3.1 = Some (old ++ log_text es1 ++ log_text es2) /\
  file_text p out3.1 = Some (log_text es3).
Proof.
  intros Hp Hi Hpq. cbv zeta. destruct fs as [ns cs]. cbn in Hp, Hi.
  rewrite (log_all_file p i es1). cbn [fst snd]. unfold append, rename. cbn [names contents]. rewrite Hp.
  rewrite log_all_file. unfold append. cbn [fst snd names contents].
  unfold reopen, open_append. cbn [names contents]. rewrite lookup_insert_ne, lookup_delete_eq by done.
  set (j := fresh _). rewrite log_all_file. unfold append, file_text. cbn [fst snd names contents]. split; [done|].
  assert (Hji : j <> i).
  { intros E. apply (is_fresh (dom (alter (fun old => old ++ log_text es2) i (alter (fun old => old ++ log_text es1) i cs)))).
    fold j. rewrite E. apply elem_of_dom. rewrite lookup_alter_eq, lookup_alter_eq, Hi. cbn. by eexists. }
  split.
  - rewrite lookup_insert_ne, lookup_insert_eq by done. cbn.
    rewrite lookup_alter_ne, lookup_insert_ne, lookup_alter_eq, lookup_alter_eq, Hi by done. cbn. by rewrite app_assoc.
  - rewrite lookup_insert_eq. cbn. by rewrite lookup_alter_eq, lookup_insert_eq.
Qed.

(** ** The log inside the jail *)

Definition good_component (c : bytes) : Prop := c <> [] /\ c <> B "." /\ Forall (fun x => (x =c? "/"%char) = false) c.

Lemma path_parts_good p : Forall good_component (path_parts p).
Proof.
  unfold path_parts. apply Forall_forall. intros c [[H1 H2] Hc]%list_elem_of_filter. split_and!; [done|done|].
  exact (proj1 (Forall_forall _ _) (split_by_pieces _ p) c Hc).
Qed.

Lemma path_parts_rooted l : Forall good_component l -> path_parts (B "/" ++ join (B "/") l) = l.
Proof.
  intros Hl. unfold path_parts, split_on. cbn [B app String.list_ascii_of_string split_by Ascii.eqb Bool.eqb].
  rewrite filter_cons_False by tauto. destruct l as [|c l].
  - done.
  - change (split_by (fun x => x =c? "/"%char)) with (split_on "/"%char). rewrite split_on_join.
    + assert (Hf : forall l, Forall good_component l -> filter (fun c => c <> [] /\ c <> B ".") l = l).
      { clear. induction 1 as [|x l [H1 [H2 _]] _ IH]; [done|]. by rewrite filter_cons_True, IH by done. }
      by apply Hf.
    + done.
    + eapply Forall_impl; [exact Hl|]. by intros x (_ & _ & Hx).
Qed.

(** After chroot the log is reopened where it was: for an absolute path
    below the jail directory the remapped path, taken inside the jail, names
    the same file as the original path outside; any other path is left alone,
    and the open file is kept in every case. *)
Theorem remapped_log_same_file jail path i :
  match remap_after_chroot jail (File path i) with
  | File p j =>
      j = i /\
      (is_absolute path = true -> path_starts_with path jail = true ->
       is_absolute p = true /\ path_parts jail ++ path_parts p = path_parts path) /\
      (is_absolute path = false \/ path_starts_with path jail = false -> p = path)
  | _ => False
  end.
Proof.
  unfold remap_after_chroot, path_after_chroot. destruct (is_absolute path) eqn:Ea; cbn [andb].
  - destruct (path_starts_with path jail) eqn:Es.
    + split_and!; [done| |by intros [?|?]]. intros _ _. split; [done|]. rewrite path_parts_rooted.
      * unfold path_starts_with in Es. apply andb_true_iff in Es as [_ Es%bool_decide_eq_true].
        rewrite <- Es at 1. apply take_drop.
      * apply Forall_drop, path_parts_good.
    + by split_and!.
  - by split_and!.
Qed.

(** ** Concrete logs *)

Module DemoLog.
Definition tm : Tm := mkTm 3 9 114 7 5 9 (-12600).
Definition entry : LogEntry := mkLog (B "10.0.0.1") [] (B "GET") (B "/a") (B "HTTP/1.0") 200 5 [] (B "curl").
End DemoLog.

Example cern_line_example :
  format_cern_line DemoLog.tm DemoLog.entry =
  B "10.0.0.1 - - [03/Oct/2014:07:05:09 -0330] " ++ [DQ] ++ B "GET /a HTTP/1.0" ++ [DQ] ++ B " 200 5 " ++ [DQ; DQ] ++
  B " " ++ [DQ] ++ B "curl" ++ [DQ; LF].
Proof. by vm_compute. Qed.

Lemma rotation_lossless_witness :
  let fs := mkFs {[B "/log" := 0]} {[0 := B "old"]} in
  let es := [(DemoLog.tm, DemoLog.entry)] in
  let out1 := log_all (File (B "/log") 0) es (fs, []) in
  let out2 := log_all (File (B "/log") 0) es (rename (B "/log") (B "/log.1") out1.1, out1.2) in
  let '(l', fs3, reopened) := reopen true (File (B "/log") 0) out2.1 in
  file_text (B "/log.1") (log_all l' es (fs3, out2.2)).1 = Some (B "old" ++ log_text es ++ log_text es).
Proof.
  cbv zeta. pose proof (rotation_lossless (B "/log") (B "/log.1") 0 (mkFs {[B "/log" := 0]} {[0 := B "old"]}) [] (B "old")
    [(DemoLog.tm, DemoLog.entry)] [(DemoLog.tm, DemoLog.entry)] [(DemoLog.tm, DemoLog.entry)] eq_refl eq_refl ltac:(discriminate)) as H.
  cbv zeta in H. destruct (reopen _ _ _) as [[l' fs3] r]. exact (proj1 (proj2 H)).
Defined.
