(* ===== verification/LogLines.v ===== *)
(** * Log lines

    What the server logs, over all its handlers: in every reachable state the
    texts of each open connection and of each entry of the access log are free
    of line feeds, so that each closed connection is logged as one line. *)

From S2P Require Import Prelude RustStr Match Tdate Url Request HttpConn Response Wire.
From S2P Require Import Timers Mime Mmc Throttle Auth Cgi Dirlist Server EventLoop Dispatch Invariants Run Logging.

Definition clean_slot (sl : ConnSlot.t) : Prop :=
  log_clean (ConnSlot.http sl) /\ forall ip a, ConnSlot.peer_addr sl = Some (ip, a) -> no_lf ip.

Record clean (s : Server) : Prop := {
  cl_conns : forall k sl, conns s !! k = Some sl -> clean_slot sl;
  cl_log : Forall entry_clean (access_log s);
}.

(** A handler that may panic. *)
Definition oclean (o : option Server) : Prop := forall s, o = Some s -> clean s.

Lemma clean_same s s' : conns s' = conns s -> access_log s' = access_log s -> clean s -> clean s'.
Proof. intros E1 E2 [H1 H2]. constructor; by rewrite ?E1, ?E2. Qed.

Lemma clean_insert k sl s s' :
  conns s' = <[k := sl]> (conns s) -> access_log s' = access_log s -> clean_slot sl -> clean s -> clean s'.
Proof.
  intros E1 E2 Hsl [H1 H2]. constructor; [|by rewrite E2]. rewrite E1. intros j x.
  destruct (decide (j = k)) as [->|]; [by rewrite lookup_insert_eq; intros [= <-]|].
  rewrite lookup_insert_ne by done. apply H1.
Qed.

Lemma clean_upd_slot k f s :
  (forall sl, conns s !! k = Some sl -> clean_slot sl -> clean_slot (f sl)) -> clean s -> clean (upd_slot k f s).
Proof.
  intros Hf [H1 H2]. constructor; [|done]. unfold upd_slot. simpl. intros j x.
  destruct (decide (j = k)) as [->|]; [|rewrite lookup_alter_ne by done; apply H1].
  rewrite lookup_alter_eq. intros (y & Hy & ->)%fmap_Some. apply Hf; [done|]. by apply (H1 k).
Qed.

Lemma clean_upd_http k f s :
  (forall h, log_clean h -> log_clean (f h)) -> clean s -> clean (upd_http k f s).
Proof. intros Hf. apply clean_upd_slot. intros sl _ [H1 H2]. split; [by apply Hf|done]. Qed.

Lemma clean_set_http k h s : log_clean h -> clean s -> clean (upd_http k (fun _ => h) s).
Proof. intros Hh. by apply clean_upd_http. Qed.

Lemma clean_upd_throttle k f s : clean s -> clean (upd_throttle k f s).
Proof. apply clean_upd_slot. by intros sl _ []. Qed.

Lemma log_clean_same h h' :
  x_forwarded_for h' = x_forwarded_for h -> encoded_url h' = encoded_url h -> http_version h' = http_version h ->
  referer h' = referer h -> user_agent h' = user_agent h -> log_clean h -> log_clean h'.
Proof. intros E1 E2 E3 E4 E5 [H1 H2 H3 H4 H5]. by constructor; rewrite ?E1, ?E2, ?E3, ?E4, ?E5. Qed.

(** The fields of the log line are those of [h]. *)
Ltac same_log := intros; eapply log_clean_same; [..|eassumption]; reflexivity.

Section Handlers.
Context {W : World}.

Lemma reregister_clean i sl : clean_slot sl -> clean_slot (reregister i sl).
Proof. unfold reregister. by destruct (ConnSlot.stream sl) as [[]|]. Qed.

Lemma clean_sending k s : clean s -> clean (transition_to_sending k s).
Proof.
  intros Hs. unfold transition_to_sending. destruct (conns s !! k) as [sl|] eqn:Hk; [|done].
  destruct (admit_sending _ _) as [d thr]. eapply (clean_insert k); [reflexivity|reflexivity| |exact Hs].
  pose proof (cl_conns s Hs k sl Hk) as [H1 H2]. unfold begin_sending. apply reregister_clean.
  assert (Hf : log_clean (ConnSlot.http (fill_header_len sl)) /\
    ConnSlot.peer_addr (fill_header_len sl) = ConnSlot.peer_addr sl).
  { unfold fill_header_len. destruct (_ && _ && _); [|done]. destruct (header_end_offset _); [|done]. split; [same_log|done]. }
  destruct Hf as [Hf Hp]. destruct (_ && _), d; (split; [cbn; same_log|cbn; by rewrite Hp]).
Qed.

Lemma clean_send_response k r s : clean s -> clean (send_response k r s).
Proof. intros H. apply clean_sending, clean_upd_http; [same_log|done]. Qed.

Lemma clean_lingering k s : clean s -> clean (transition_to_lingering k s).
Proof.
  intros Hs. unfold transition_to_lingering. destruct (conns s !! k) as [sl|] eqn:Hk; [|done].
  pose proof (cl_conns s Hs k sl Hk) as [H1 H2].
  eapply (clean_insert k); [reflexivity|reflexivity| |exact Hs]. apply reregister_clean. split; [cbn; same_log|done].
Qed.

(** Closing a connection logs one clean entry. *)
Lemma clean_close k s : clean s -> clean (close_connection k s).
Proof.
  intros Hs. unfold close_connection. destruct (conns s !! k) as [sl|] eqn:Hk; [|done].
  pose proof (cl_conns s Hs k sl Hk) as [H1 H2]. destruct Hs as [Hc Hl]. constructor; simpl.
  - intros j x [_ Hx]%lookup_delete_Some. by apply (Hc j).
  - destruct (_ <? _)%Z; [|done]. apply Forall_app. split; [done|]. constructor; [|done]. by apply log_entry_clean.
Qed.

Lemma clean_add_cgis n s : clean s -> clean (add_cgis n s).
Proof. by apply clean_same. Qed.

Lemma clean_settle k n s : clean s -> clean (settle_cgi k n s).
Proof.
  intros Hs. unfold settle_cgi. destruct (conns s !! k) as [sl|]; [|done].
  destruct (ConnThrottle.is_throttled _); [|done]. apply clean_upd_throttle. by eapply clean_same; [| |exact Hs].
Qed.

(** Peels the updates of the new state. *)
Ltac clean_peel :=
  repeat first
    [ assumption
    | apply clean_sending | apply clean_send_response | apply clean_close | apply clean_lingering
    | apply clean_settle | apply clean_add_cgis | apply clean_upd_throttle
    | (apply clean_upd_http; [same_log|])
    | (apply clean_set_http; [first [assumption|same_log]|]) ].

Ltac clean_some := intros ? [= <-]; unfold send_error, send_bad_request, handle_linger in *; clean_peel.

Lemma admit_static_clean k p s : clean s -> clean (admit_static k p s).2.
Proof.
  intros Hs. unfold admit_static. destruct (throttles s); [|done].
  destruct (check_request _ _) as [[|tn mx mn|] t']; cbn [snd]; [by eapply clean_same; [| |exact Hs]| |by eapply clean_same; [| |exact Hs]].
  apply clean_upd_throttle. by eapply clean_same; [| |exact Hs].
Qed.

Lemma admit_cgi_clean k p s : clean s -> clean (admit_cgi k p s).2.
Proof.
  intros Hs. unfold admit_cgi. destruct (throttles s); [|done].
  destruct (check_request _ _) as [[|tn mx mn|] t']; cbn [snd]; [by eapply clean_same; [| |exact Hs]| |by eapply clean_same; [| |exact Hs]].
  apply clean_upd_throttle. by eapply clean_same; [| |exact Hs].
Qed.

Lemma serve_file_clean k path size mt s : clean s -> oclean (serve_file k path size mt s).
Proof.
  intros Hs. unfold serve_file. destruct (conns s !! k) as [sl|]; [|done]. cbn [mbind option_bind]. cbv zeta.
  destruct (bool_decide _); [clean_some|].
  destruct (match if_modified_since _ with Some _ => _ | None => _ end); [clean_some|].
  destruct (Mmc.map _ _ _ _) as [[f|e] m'];
    assert (Hm : clean (s <| mmc := m' |>)) by (by eapply clean_same; [| |exact Hs]).
  - destruct (static_body _ _); cbn [mbind option_bind]; [clean_some|done].
  - clean_some.
Qed.

Lemma fill_last_byte_clean size h : log_clean h -> log_clean (fill_last_byte size h).
Proof. unfold fill_last_byte. destruct (_ && _); [same_log|done]. Qed.

Lemma serve_regular_clean k path md s : clean s -> oclean (serve_regular k path md s).
Proof.
  intros Hs. unfold serve_regular. destruct (conns s !! k) as [sl|]; [|done]. cbn [mbind option_bind]. cbv zeta.
  destruct (_ =? _)%Z; [clean_some|]. destruct (negb _); [clean_some|]. destruct (negb _); [clean_some|].
  set (s1 := upd_http k _ s).
  assert (Hs1 : clean s1) by (apply clean_upd_http; [apply fill_last_byte_clean|done]).
  pose proof (admit_static_clean k (orig_filename (ConnSlot.http sl)) s1 Hs1) as Ha.
  destruct (admit_static _ _ _) as [b s2]. cbn [snd] in Ha. destruct b; cbn [negb]; [|clean_some].
  apply serve_file_clean. by apply clean_upd_throttle.
Qed.

Lemma serve_static_clean k path s : clean s -> oclean (serve_static k path s).
Proof.
  intros Hs. unfold serve_static. cbv zeta. set (s1 := upd_http k _ s).
  assert (Hs1 : clean s1) by (apply clean_upd_http; [same_log|done]).
  destruct (conns s1 !! k) as [sl|] eqn:Hk; cbn [mbind option_bind]; [|done].
  destruct (resolve_static _ _) as [p| |]; [|clean_some..].
  destruct (stat_file p) as [md|nf]; [|destruct (stat_error nf p) as [[st title] form]; clean_some].
  destruct (auth_check2 _ _); try clean_some;
    (destruct (Dirlist.is_dir md); [|by apply serve_regular_clean]);
    unfold serve_directory; rewrite Hk; cbn [mbind option_bind]; destruct (generate_listing _ _ _); clean_some.
Qed.

Lemma dispatch_cgi_clean k s : clean s -> oclean (dispatch_cgi k s).
Proof.
  intros Hs. unfold dispatch_cgi. cbv zeta. set (s1 := upd_http k _ s).
  assert (Hs1 : clean s1) by (apply clean_upd_http; [same_log|done]).
  destruct (conns s1 !! k) as [sl|] eqn:Hk; cbn [mbind option_bind]; [|done].
  destruct (body_missing _); [intros ? [= <-]; apply clean_upd_slot; [by intros ? _ []|done]|].
  destruct (_ && _)%Z; [clean_some|].
  unfold resolve_script. destruct (cgi_script _ _) as [script info]. set (s2 := upd_http k _ (add_cgis 1 s1)).
  assert (Hs2 : clean s2) by (apply clean_upd_http; [same_log|by apply clean_add_cgis]).
  destruct (_ || _); [clean_some|]. pose proof (admit_cgi_clean k script s2 Hs2) as Ha.
  destruct (admit_cgi _ _ _) as [b s3]. cbn [snd] in Ha. destruct b; cbn [negb]; [|clean_some].
  unfold execute_script. destruct (conns s3 !! k) as [sl3|]; [|done]. cbn [mbind option_bind]. cbv zeta.
  assert (Hs3 : clean (upd_slot k (fun sl => sl <| ConnSlot.is_cgi := true |>) s3))
    by (apply clean_upd_slot; [by intros ? _ []|done]).
  destruct (run_cgi _ _ _ _); clean_some.
Qed.

Lemma route_request_clean k n s : clean s -> oclean (route_request k n s).
Proof.
  intros Hs. unfold route_request, serve_path. destruct (conns s !! k) as [sl|] eqn:Hk; [|done].
  cbn [mbind option_bind]. cbv zeta. pose proof (cl_conns s Hs k sl Hk) as [Hh _].
  destruct (apply_vhost _ _ _) as [h fp] eqn:Ev.
  assert (H1 : log_clean h).
  { revert Ev. unfold apply_vhost. destruct (_ && _); intros [= <- _]; same_log. }
  assert (H2 : log_clean (apply_pathinfo (config s) h)).
  { unfold apply_pathinfo. destruct (_ && _); [done|]. destruct (pathinfo_loop _ _ _ _) as [p i].
    destruct (is_empty i); [done|same_log]. }
  set (s1 := upd_http k _ s). assert (Hs1 : clean s1) by (by apply clean_set_http).
  destruct (is_cgi_path _ _); [by apply dispatch_cgi_clean|]. destruct (negb _); [clean_some|by apply serve_static_clean].
Qed.

Lemma process_request_clean k s : clean s -> oclean (process_request k s).
Proof.
  intros Hs. unfold process_request. destruct (conns s !! k) as [sl|] eqn:Hk; [|done]. cbn [mbind option_bind].
  pose proof (cl_conns s Hs k sl Hk) as [Hh _].
  destruct (parse_request_line _) as [h|] eqn:E1; [|done]. cbn [mbind option_bind]. cbv zeta.
  apply parse_request_line_clean in E1; [|done].
  set (s1 := upd_http k _ s). assert (Hs1 : clean s1) by (by apply clean_set_http).
  destruct (_ && _); [clean_some|]. destruct (bool_decide _); [clean_some|].
  destruct (parse_headers h) as [h'|] eqn:E2; [|done]. cbn [mbind option_bind]. unfold process_target.
  apply parse_headers_clean in E2; [|done].
  set (s2 := upd_http k _ s1). assert (Hs2 : clean s2) by (by apply clean_set_http).
  destruct (_ <? _); [clean_some|]. destruct (normalize_path _); [by apply route_request_clean|].
  destruct (contains_sub _ _); clean_some.
Qed.

Lemma handle_read_clean rr k s : clean s -> oclean (handle_read rr k s).
Proof.
  intros Hs. unfold handle_read. destruct (conns s !! k) as [sl|] eqn:Hk; [|done]. cbn [mbind option_bind].
  pose proof (cl_conns s Hs k sl Hk) as [Hh _].
  destruct (_ =? _); [clean_some|]. destruct (ConnSlot.stream sl) as [o|]; [|clean_some].
  destruct rr as [[|c data]| |]; [clean_some| |clean_some..]. cbv zeta. set (s1 := upd_http k _ s).
  assert (Hs1 : clean s1) by (apply clean_set_http; [same_log|done]).
  destruct (ConnSlot.pending_cgi_body sl).
  - destruct (body_missing _); [clean_some|]. apply dispatch_cgi_clean. apply clean_upd_slot; [by intros ? _ []|done].
  - destruct (got_request _ _ _ _) as [[[r i] st]|]; [|done]. cbn [mbind option_bind]. set (s2 := upd_http k _ s1).
    assert (Hs2 : clean s2) by (apply clean_upd_http; [same_log|done]).
    destruct r; [clean_some|by apply process_request_clean|clean_some].
Qed.

Lemma handle_send_clean wr k s : clean s -> oclean (handle_send wr k s).
Proof.
  intros Hs. unfold handle_send. destruct (conns s !! k) as [sl|] eqn:Hk; [|done]. cbn [mbind option_bind]. cbv zeta.
  pose proof (cl_conns s Hs k sl Hk) as [Hh Hp].
  destruct (_ <=? _)%Z; [clean_some|]. destruct (_ =? _)%Z.
  { intros ? [= <-]. apply clean_upd_slot; [|done]. intros x _ [H1 H2]. unfold pause, deregister. cbn.
    by destruct (ConnSlot.stream x) as [[]|]. }
  destruct (ConnSlot.stream sl); [|clean_some]. destruct (_ <? _)%Z; [done|].
  destruct wr as [n| |]; [|clean_some..].
  destruct (account_sent _ sl (throttles s)) as [sl' thr] eqn:Ea.
  assert (Hsl : clean_slot sl').
  { revert Ea. unfold account_sent. destruct (_ && _); intros [= <- _]; (split; [cbn; same_log|done]). }
  destruct (_ <=? _)%Z; intros ? [= <-].
  - apply clean_lingering. by eapply (clean_insert k); [reflexivity|reflexivity|exact Hsl|exact Hs].
  - eapply (clean_insert k); [reflexivity|reflexivity|by apply reregister_clean|exact Hs].
Qed.

Lemma resume_clean thr sl : clean_slot sl -> clean_slot (resume_sending thr sl).
Proof. by intros [H1 H2]; unfold resume_sending; destruct thr. Qed.

Lemma register_clean i sl : clean_slot sl -> clean_slot (register i sl).
Proof. unfold register. by destruct (ConnSlot.stream sl) as [[]|]. Qed.

Lemma handle_pause_clean wr k s : clean s -> oclean (handle_pause wr k s).
Proof.
  intros Hs. unfold handle_pause. destruct (conns s !! k) as [sl|]; [|done]. cbn [mbind option_bind]. cbv zeta.
  destruct (match ConnThrottle.pause_until _ with Some _ => _ | None => false end); [clean_some|].
  assert (Hs1 : clean (upd_slot k (resume_sending (throttles s)) s))
    by (apply clean_upd_slot; [intros ? _; apply resume_clean|done]).
  destruct (ConnSlot.stream sl); [|clean_some]. apply handle_send_clean. apply clean_upd_slot; [|done].
  intros ? _. apply register_clean.
Qed.

Lemma event_clean rr wr k s : clean s -> oclean (handle_connection_event rr wr k s).
Proof.
  intros Hs. unfold handle_connection_event. destruct (conns s !! k) as [sl|]; [|clean_some].
  destruct (ConnSlot.state sl); [clean_some|by apply handle_read_clean|by apply handle_send_clean|
    by apply handle_pause_clean|clean_some].
Qed.

(** ** The loop *)

(** The addresses of peers are texts without line feeds, as the system prints
    them. *)
Definition plain_peers (p : Polled) : Prop := Forall (Forall (fun c => no_lf c.1.1)) (accepted p).

Lemma accept_clean l s : Forall (fun c => no_lf c.1.1) l -> clean s -> clean (handle_accept l s).
Proof.
  intros Hl Hs. unfold handle_accept. destruct (draining s); [done|]. revert s Hs.
  induction Hl as [|[peer ok] l Hp _ IH]; intros s Hs; [done|]. apply IH. unfold accept_one.
  destruct (_ <=? _); [done|]. destruct ok; [|done].
  eapply clean_insert; [reflexivity|reflexivity| |exact Hs]. split; [apply log_clean_new|].
  intros ip a [= ->]. exact Hp.
Qed.

Lemma resume_all_clean wr l s : clean s -> oclean (resume_all wr l s).
Proof.
  revert s. induction l as [|k l IH]; intros s Hs; cbn [resume_all]; [clean_some|].
  destruct (conns s !! k) as [sl|]; [|by apply IH]. destruct (bool_decide _); [|by apply IH].
  destruct (handle_pause (wr k) k s) as [s1|] eqn:E; [|done]. cbn [mbind option_bind]. apply IH.
  by apply handle_pause_clean in E.
Qed.

Lemma ready_clean l s s' : clean s -> foldl handle_ready (Some s) l = Some s' -> clean s'.
Proof.
  revert s. induction l as [|[[k rr] wr] l IH]; intros s Hs; cbn [foldl]; [by intros [= <-]|].
  destruct (handle_ready (Some s) (k, rr, wr)) as [s1|] eqn:E; [|by rewrite handle_ready_none].
  apply IH. unfold handle_ready in E. cbn in E. by apply event_clean in E.
Qed.

Lemma iteration_clean p last s last' s' :
  plain_peers p -> clean s -> iteration p last s = Some (last', s') -> clean s'.
Proof.
  intros Hp Hs. unfold iteration. cbv zeta.
  assert (Hd : clean (start_drain p s)) by (unfold start_drain; destruct (_ && _); [by eapply clean_same; [| |exact Hs]|done]).
  destruct (drained _); [by intros [= _ <-]|].
  assert (Ha : clean (foldl (fun s l => handle_accept l s) (start_drain p s) (accepted p))).
  { revert Hd. generalize (start_drain p s). induction Hp as [|l ls Hl _ IH]; intros x Hx; [done|].
    apply IH. by apply accept_clean. }
  destruct (foldl handle_ready _ (ready p)) as [s1|] eqn:E1; [|done]. apply ready_clean in E1; [|done]. cbn [mbind option_bind].
  destruct (resume_ready_paused_connections _ s1) as [s2|] eqn:E2; [|done]. apply resume_all_clean in E2; [|done].
  cbn [mbind option_bind]. destruct (run_timers s2) as [s3|] eqn:E3; [|done]. cbn [mbind option_bind].
  assert (H3 : clean s3).
  { revert E3. unfold run_timers. destruct (Timers.run _ _ _) as [[o w]|]; [|done]. cbn. intros [= <-].
    by eapply clean_same; [| |exact E2]. }
  assert (H4 : clean (s3 <| mmc := Mmc.cleanup clock (mmc s3) |>)) by (by eapply clean_same; [| |exact H3]).
  unfold tick_if_due. destruct (_ <=? _)%Z; intros [= _ <-]; [|exact H4].
  destruct H4 as [H5 H6]. constructor; [|exact H6]. intros k sl. simpl. rewrite lookup_fmap.
  intros (x & Hx & ->)%fmap_Some. apply H5 in Hx. unfold wake_slot. destruct (_ && _ && _ && _); [|done].
  by apply register_clean, resume_clean.
Qed.
End Handlers.

(** The states of a server whose peers have plain addresses. *)
Inductive serving : Server -> Prop :=
| serving_start cfg n : serving (Server_new cfg n)
| serving_throttled cfg n t : serving ((Server_new cfg n) <| throttles := Some t |>)
| serving_next (W : World) p last s last' s' :
    plain_peers p -> serving s -> iteration p last s = Some (last', s') -> serving s'.

Lemma serving_clean s : serving s -> clean s.
Proof.
  induction 1 as [cfg n|cfg n t|W p last s last' s' Hp _ IH H]; [by constructor..|].
  by eapply iteration_clean.
Qed.

(** C38: no client can forge a log line.  Whatever bytes clients send, in
    every state the server reaches each entry of its access log is printed as
    one line, whose only line feed is its end; this is for every request that
    was ever logged, whether it was answered with a file, a script or an
    error, and so is the entry that an open connection would get if it were
    closed now.  The addresses that the system reports for peers are assumed
    to have no line feed. *)
Theorem log_lines_single s tm e :
  serving s ->
  e ∈ access_log s \/ (exists k sl, conns s !! k = Some sl /\ e = log_entry sl) ->
  exists body, format_cern_line tm e = body ++ [LF] /\ no_lf body.
Proof.
  intros [Hc Hl]%serving_clean He. apply format_line_single. destruct He as [He|(k & sl & Hk & ->)].
  - exact (proj1 (Forall_forall _ _) Hl e He).
  - destruct (Hc k sl Hk). by apply log_entry_clean.
Qed.

(** A request with a carriage return in a header, answered and logged. *)
Definition demo_request : bytes :=
  B "GET /a%0Ab HTTP/1.0" ++ CRLF ++ B "User-Agent: x" ++ [CR] ++ B "y" ++ CRLF ++ CRLF.

Definition demo_rounds : list Polled :=
  [mkPolled false [[(demo_peer, true)]] [(0, ROk demo_request, WWouldBlock)] (fun _ => WWouldBlock);
   mkPolled false [] [(0, RErr, WOk 5000)] (fun _ => WWouldBlock); mkPolled false [] [(0, RErr, WErr)] (fun _ => WWouldBlock)].

Definition demo_logged : option Server :=
  foldl (fun o p => s ← o; snd <$> @iteration (demo_world 0) p 0 s) (Some (Server_new demo_config 1)) demo_rounds.

Lemma demo_logged_serving s : demo_logged = Some s -> serving s.
Proof.
  unfold demo_logged.
  assert (H : forall ps o, (forall x, o = Some x -> serving x) -> Forall plain_peers ps ->
    forall s, foldl (fun o p => s ← o; snd <$> @iteration (demo_world 0) p 0 s) o ps = Some s -> serving s).
  { induction ps as [|p ps IH]; intros o Ho Hp x; [apply Ho|]. apply Forall_cons in Hp as [Hp Hps]. cbn [foldl].
    apply IH; [|done]. intros y. destruct o as [z|]; [|done]. cbn [mbind option_bind].
    destruct (iteration p 0 z) as [[last' z']|] eqn:E; [|done]. intros [= <-].
    exact (serving_next _ p 0 z last' z' Hp (Ho z eq_refl) E). }
  apply H; [by intros x [= <-]; constructor|].
  assert (Hn : no_lf demo_peer.1) by (by repeat constructor). by repeat constructor.
Qed.

Lemma log_lines_single_witness :
  exists s e body, demo_logged = Some s /\ access_log s = [e] /\ log_status e = 404%Z /\
    format_cern_line DemoLog.tm e = body ++ [LF] /\ no_lf body.
Proof.
  assert (H : match demo_logged with Some s => match access_log s with [e] => log_status e | _ => 0%Z end | None => 0%Z end
              = 404%Z) by (by vm_compute).
  destruct demo_logged as [s|] eqn:E; [|discriminate].
  destruct (access_log s) as [|e [|? ?]] eqn:El; [discriminate| |discriminate].
  destruct (log_lines_single s DemoLog.tm e (demo_logged_serving s E)) as (body & H1 & H2);
    [left; rewrite El; by left|].
  exists s, e, body. split; [reflexivity|]. split; [exact El|]. split; [exact H|]. by split.
Defined.
