(* ===== verification/Startup.v ===== *)
(** * Start-up (rust/crates/thttpd-core/src/startup.rs, main.rs and signal.rs)

    The start-up sequence as a computation that records the system calls it
    makes; [Os] gives their results.  After [daemonize_with_handshake] the
    computation is that of the daemon; what the original process does is
    [parent_status], and how it learns of it the subject of [Daemon].  The exit of clap on bad arguments is not modelled. *)

From Stdlib Require Import Sorting.Sorted.
From S2P Require Import Prelude RustStr Fdwatch Throttle Auth Server EventLoop Dispatch Run StaticFiles Config Logging.

Import ServerConfig.

(** ** System calls *)

(** [ip] is the text of the address. *)
Inductive SockAddr := V4 (ip : bytes) (p : Z) | V6 (ip : bytes) (p : Z).

#[export] Instance SockAddr_eq_dec : EqDecision SockAddr.
Proof. solve_decision. Defined.

Inductive Call :=
| OpenLog (path : option bytes)
| WritePidfile (path : bytes)
| LoadThrottles (path : bytes)
| Daemonize (keep_stdout : bool)
| ChrootTo (dir : bytes)
| Chdir (dir : bytes)
| Bind (a : SockAddr)
| LookupUser (name : bytes)
| Setgid (gid : Z)
| Initgroups (name : bytes) (gid : Z)
| Setuid (uid : Z)
| InstallSignals
| NewPoll
| ReportSuccess
| EnterLoop.

(** [std::io::Error]: the code of the operating system, if any, and its text. *)
Record IoError := mkIoError { raw_os_error : option Z; io_text : bytes }.

Record Os := mkOs {
  os_log : LogSys;
  pidfile_error : option bytes;
  read_throttles : bytes -> bytes + bytes;
  daemonize_error : option bytes;
  chroot_error : bytes -> option bytes;
  chdir_error : bytes -> option bytes;
  bind_error : SockAddr -> option IoError;
  resolve : bytes -> Z -> option (list SockAddr);
  user_from_name : bytes -> option (Z * Z) + bytes;
  setgid_error : option bytes;
  initgroups_error : option bytes;
  setuid_error : option bytes;
  signals_error : option bytes;
  poll_error : option bytes;
}.

(** Computations that make calls and may fail with a text. *)
Definition Io (A : Type) : Type := list Call * (A + bytes).

Definition ret {A} (a : A) : Io A := ([], inl a).
Definition throw {A} (e : bytes) : Io A := ([], inr e).

Definition andthen {A C} (m : Io A) (f : A -> Io C) : Io C :=
  match m with
  | (t1, inl a) => let '(t2, r) := f a in (t1 ++ t2, r)
  | (t1, inr e) => (t1, inr e)
  end.

Notation "x <- m ;; k" := (andthen m (fun x => k)) (at level 100, m at next level, right associativity) : thttpd_scope.
Notation "m ;;; k" := (andthen m (fun _ => k)) (at level 100, right associativity) : thttpd_scope.

(** A call that gives [a], or fails with an explained error. *)
Definition sys {A} (c : Call) (explain : bytes) (error : option bytes) (a : A) : Io A :=
  ([c], match error with None => inl a | Some e => inr (explain ++ e) end).

Definition explained {A} (prefix : bytes) (m : Io A) : Io A :=
  (m.1, match m.2 with inl a => inl a | inr e => inr (prefix ++ e) end).

Section Startup.
Context (os : Os).

(** ** Listeners *)

Definition EAFNOSUPPORT : Z := 97.
Definition EPFNOSUPPORT : Z := 96.

Definition is_ignorable_bind_error (e : IoError) : bool :=
  match raw_os_error e with
  | Some raw => (raw =? EAFNOSUPPORT)%Z || (raw =? EPFNOSUPPORT)%Z
  | None => false
  end.

(** [iter.filter(|a| seen.insert(a))]. *)
Fixpoint dedup (seen : list SockAddr) (l : list SockAddr) : list SockAddr :=
  match l with
  | [] => []
  | a :: l' => if bool_decide (a ∈ seen) then dedup seen l' else a :: dedup (a :: seen) l'
  end.

Definition resolve_hostname (host : bytes) (p : Z) : list SockAddr :=
  match resolve os host p with Some l => dedup [] l | None => [] end.

(** The fatal error of an attempt to bind, if any. *)
Definition fatal_bind (a : SockAddr) : option IoError :=
  match bind_error os a with
  | Some e => if is_ignorable_bind_error e then None else Some e
  | None => None
  end.

Definition bound (a : SockAddr) : bool := negb (is_some (bind_error os a)).

Definition addr_text (a : SockAddr) : bytes :=
  match a with
  | V4 ip p => ip ++ B ":" ++ show_Z p
  | V6 ip p => B "[" ++ ip ++ B "]:" ++ show_Z p
  end.

(** The loop over the addresses of a host stops at a fatal error. *)
Fixpoint bind_addrs (addrs listeners : list SockAddr) : list Call * (list SockAddr * option bytes) :=
  match addrs with
  | [] => ([], (listeners, None))
  | a :: addrs' =>
      let listeners := if bound a then listeners ++ [a] else listeners in
      match fatal_bind a with
      | Some e => ([Bind a], (listeners, Some (addr_text a ++ B ": " ++ io_text e)))
      | None => let '(t, r) := bind_addrs addrs' listeners in (Bind a :: t, r)
      end
  end.

Definition bind_listeners (config : t) : Io (list SockAddr) :=
  match hostname config with
  | None =>
      let a6 := V6 (B "::") (port config) in
      let a4 := V4 (B "0.0.0.0") (port config) in
      let listeners := (if bound a6 then [a6] else []) ++ (if bound a4 then [a4] else []) in
      let fatal :=
        match fatal_bind a4, fatal_bind a6 with
        | Some e, _ => Some (B "IPv4 0.0.0.0:" ++ show_Z (port config) ++ B ": " ++ io_text e)
        | None, Some e => Some (B "IPv6 [::]:" ++ show_Z (port config) ++ B ": " ++ io_text e)
        | None, None => None
        end in
      ([Bind a6; Bind a4],
       match fatal with
       | Some e => inr e
       | None => if is_empty listeners then inr (B "no usable listen address") else inl listeners
       end)
  | Some host =>
      let addrs := resolve_hostname host (port config) in
      let '(t, (listeners, fatal)) := bind_addrs addrs [] in
      (t,
       match fatal with
       | Some e => inr e
       | None =>
           if is_empty listeners && is_empty addrs then inr (B "could not resolve hostname '" ++ host ++ B "'")
           else if is_empty listeners then inr (B "no usable listen address") else inl listeners
       end)
  end.

(** ** The jail and the serving root *)

Definition do_chroot_step (config : t) : Io t :=
  if negb (do_chroot config) then ret config
  else
    sys (ChrootTo (dir config)) (B "chroot failed: ") (chroot_error os (dir config)) tt ;;;
    sys (Chdir (B "/")) (B "chdir after chroot failed: ") (chdir_error os (B "/")) tt ;;;
    ret (config <| dir := B "/" |>).

Definition effective_dir_after_chdir (config_dir data_dir : bytes) (do_chroot : bool) : bytes :=
  if is_absolute data_dir then data_dir
  else if do_chroot then path_join (B "/") data_dir
  else if is_absolute config_dir then path_join config_dir data_dir
  else B ".".

Definition data_dir_chdir_path (config_dir data_dir : bytes) (do_chroot : bool) : bytes :=
  if is_absolute data_dir then data_dir
  else if do_chroot then path_join (B "/") data_dir
  else path_join config_dir data_dir.

Definition apply_data_dir (config : t) : Io t :=
  match data_dir config with
  | None => ret config
  | Some dd =>
      let chdir_to := data_dir_chdir_path (dir config) dd (do_chroot config) in
      sys (Chdir chdir_to) (B "data_dir chdir " ++ from_utf8_lossy chdir_to ++ B ": ") (chdir_error os chdir_to) tt ;;;
      ret (config <| dir := effective_dir_after_chdir (dir config) dd (do_chroot config) |>)
  end.

(** ** Privileges *)

(** [CString::new]. *)
Definition c_string (s : bytes) : Io unit :=
  match position (fun c => c =c? chr 0) s with
  | Some i => throw (B "invalid username: nul byte found in provided data at position: " ++ show_Z (Z.of_nat i))
  | None => ret tt
  end.

Definition drop_privileges (config : t) : Io unit :=
  match user config with
  | None => ret tt
  | Some username =>
      match user_from_name os username with
      | inr e => ([LookupUser username], inr (B "User::from_name(" ++ username ++ B "): " ++ e))
      | inl None => ([LookupUser username], inr (B "user '" ++ username ++ B "' not found"))
      | inl (Some (uid, gid)) =>
          sys (LookupUser username) [] None tt ;;;
          sys (Setgid gid) (B "setgid: ") (setgid_error os) tt ;;;
          c_string username ;;;
          sys (Initgroups username gid) (B "initgroups: ") (initgroups_error os) tt ;;;
          sys (Setuid uid) (B "setuid: ") (setuid_error os) tt
      end
  end.

Definition write_pidfile (config : t) : Io unit :=
  match pidfile config with
  | None => ret tt
  | Some path => sys (WritePidfile path) (B "writing pidfile " ++ from_utf8_lossy path ++ B ": ") (pidfile_error os) tt
  end.

(** ** main *)

Definition open_log (config : t) (fs : Fs) : Io (LogTarget * Fs) :=
  ([OpenLog (logfile config)],
   match AccessLogger_open (os_log os) config fs with inl r => inl r | inr _ => inr (B "logfile") end).

Definition load_throttles (config : t) : Io (option ThrottleTable) :=
  match throttle_file config with
  | None => ret None
  | Some path =>
      ([LoadThrottles path],
       match load (read_throttles os path) with
       | inl table => inl (Some table)
       | inr e => inr (B "throttle file " ++ from_utf8_lossy path ++ B ": " ++ e)
       end)
  end.

Definition daemonize_step (config : t) (log : LogTarget) : Io unit :=
  if daemonize config then
    sys (Daemonize (is_stdout log)) (B "daemonize: ") (daemonize_error os) tt ;;; write_pidfile config
  else ret tt.

Definition check_listeners (listeners : list SockAddr) : Io unit :=
  if (MAX_LISTENERS <? Z.of_nat (length listeners))%Z
  then throw (B "too many listen sockets (" ++ show_Z (Z.of_nat (length listeners)) ++ B "): maximum is "
              ++ show_Z MAX_LISTENERS)
  else ret tt.

(** What the event loop starts with. *)
Record Started := mkStarted { st_server : Server; st_log : LogTarget; st_fs : Fs; st_listeners : list SockAddr }.

(** Up to the creation of the server. *)
Definition setup (config : t) (fs : Fs) : Io Started :=
  log_fs <- open_log config fs ;;
  write_pidfile config ;;;
  thr <- load_throttles config ;;
  daemonize_step config log_fs.1 ;;;
  jailed <- do_chroot_step config ;;
  let log := if do_chroot config then remap_after_chroot (dir config) log_fs.1 else log_fs.1 in
  rooted <- apply_data_dir jailed ;;
  lst <- explained (B "bind failed: ") (bind_listeners rooted) ;;
  check_listeners lst ;;;
  drop_privileges rooted ;;;
  sys InstallSignals (B "signal handler setup failed: ") (signals_error os) tt ;;;
  sys NewPoll (B "server setup failed: ") (poll_error os)
    (mkStarted ((Server_new rooted (length lst)) <| throttles := thr |>) log log_fs.2 lst).

(** The whole of [main], up to the event loop. *)
Definition main (config : t) (fs : Fs) : Io Started :=
  st <- setup config fs ;;
  (if daemonize config then sys ReportSuccess [] None tt else ret tt) ;;;
  sys EnterLoop [] None st.

(** What the parent reads from the pipe: the report, or its end when the
    daemon is gone; the daemon writes once. *)
Definition parent_status (trace : list Call) : Z :=
  if existsb (fun c => match c with ReportSuccess => true | _ => false end) trace then 0 else 1.
End Startup.

(** ** The order of the calls *)

(** The phase of a call: what needs the privileges and the outer file system,
    the jail, the listeners, the privileges, and serving. *)
Definition phase (c : Call) : nat :=
  match c with
  | OpenLog _ => 0
  | WritePidfile _ | LoadThrottles _ | Daemonize _ => 1
  | ChrootTo _ => 2
  | Chdir _ => 3
  | Bind _ => 4
  | LookupUser _ => 5
  | Setgid _ => 6
  | Initgroups _ _ => 7
  | Setuid _ => 8
  | InstallSignals => 9
  | NewPoll => 10
  | ReportSuccess => 11
  | EnterLoop => 12
  end.

Definition in_order : list Call -> Prop := StronglySorted (fun a b => phase a <= phase b).

(** The calls of a computation are in order, and of the phases [lo] to [hi]. *)
Definition phases (lo hi : nat) (t : list Call) : Prop := in_order t /\ Forall (fun c => lo <= phase c <= hi) t.

Lemma phases_nil lo hi : phases lo hi [].
Proof. split; constructor. Qed.

Lemma phases_one c lo hi : lo <= phase c <= hi -> phases lo hi [c].
Proof. intros H. split; repeat constructor; lia. Qed.

Lemma phases_app lo m m' hi t1 t2 :
  phases lo m t1 -> phases m' hi t2 -> m <= m' -> lo <= m' -> m <= hi -> phases lo hi (t1 ++ t2).
Proof.
  intros [Hs1 Hf1] [Hs2 Hf2] Hm Hl Hh. split.
  - unfold in_order. induction Hs1 as [|c t1 Hs IH Hc]; [exact Hs2|]. apply Forall_cons in Hf1 as [H1 Hf1]. cbn.
    constructor; [by apply IH|]. apply Forall_app. split; [exact Hc|].
    eapply Forall_impl; [exact Hf2|]. intros x Hx. cbn in Hx. lia.
  - apply Forall_app. split; (eapply Forall_impl; [eassumption|]); intros x Hx; cbn in Hx; lia.
Qed.

Lemma phases_then {A C} lo m m' hi (c : Io A) (f : A -> Io C) :
  phases lo m c.1 -> (forall a, phases m' hi (f a).1) -> m <= m' -> lo <= m' -> m <= hi -> lo <= hi -> phases lo hi (andthen c f).1.
Proof.
  intros Hc Hf Hm Hl Hh Hlh. unfold andthen. destruct c as [t1 [a|e]]; cbn in *.
  - specialize (Hf a). destruct (f a) as [t2 r]. cbn in *. by eapply phases_app.
  - rewrite <- (app_nil_r t1). eapply (phases_app lo m m' hi); [done|apply phases_nil|lia..].
Qed.

Lemma phases_weaken lo hi lo' hi' t : phases lo hi t -> lo' <= lo -> hi <= hi' -> phases lo' hi' t.
Proof.
  intros [Hs Hf] H1 H2. split; [done|]. eapply Forall_impl; [exact Hf|]. intros c Hc. cbn in Hc. lia.
Qed.

Section Order.
Context (os : Os).

Lemma write_pidfile_phases config : phases 1 1 (write_pidfile os config).1.
Proof. unfold write_pidfile. destruct (pidfile config); [by apply phases_one|apply phases_nil]. Qed.

Lemma do_chroot_phases config : phases 2 3 (do_chroot_step os config).1.
Proof.
  unfold do_chroot_step. destruct (negb _); [apply phases_nil|].
  eapply (phases_then 2 2 3 3); [by apply phases_one|intros _|lia..].
  eapply (phases_then 3 3 3 3); [by apply phases_one|intros _; apply phases_nil|lia..].
Qed.

Lemma apply_data_dir_phases config : phases 3 3 (apply_data_dir os config).1.
Proof.
  unfold apply_data_dir. destruct (data_dir config); [|apply phases_nil].
  eapply (phases_then 3 3 3 3); [by apply phases_one|intros _; apply phases_nil|lia..].
Qed.

Lemma bind_addrs_phases addrs ls : phases 4 4 (bind_addrs os addrs ls).1.
Proof.
  revert ls. induction addrs as [|a addrs IH]; intros ls; cbn [bind_addrs]; [apply phases_nil|].
  destruct (fatal_bind os a); [by apply phases_one|]. specialize (IH (if bound os a then ls ++ [a] else ls)).
  destruct (bind_addrs os addrs _) as [t r]. apply (phases_app 4 4 4 4 [Bind a] t); [by apply phases_one|done|lia..].
Qed.

Lemma bind_listeners_phases config : phases 4 4 (bind_listeners os config).1.
Proof.
  unfold bind_listeners. destruct (hostname config) as [h|].
  - pose proof (bind_addrs_phases (resolve_hostname os h (port config)) []) as H.
    destruct (bind_addrs os _ []) as [t [ls f]]. exact H.
  - apply (phases_app 4 4 4 4 [_] [_]); [by apply phases_one..|lia|lia|lia].
Qed.

Lemma drop_privileges_phases config : phases 5 8 (drop_privileges os config).1.
Proof.
  unfold drop_privileges. destruct (user config) as [u|]; [|apply phases_nil].
  destruct (user_from_name os u) as [[[uid gid]|]|]; [|by apply phases_one; cbn; lia..].
  eapply (phases_then 5 5 6 8); [by apply phases_one|intros _|lia..].
  eapply (phases_then 6 6 7 8); [by apply phases_one|intros _|lia..].
  eapply (phases_then 7 7 7 8); [unfold c_string; destruct (position _ _); apply phases_nil|intros _|lia..].
  eapply (phases_then 7 7 8 8); [by apply phases_one|intros _; by apply phases_one|lia..].
Qed.

Lemma daemonize_phases config log : phases 1 1 (daemonize_step os config log).1.
Proof.
  unfold daemonize_step. destruct (daemonize config); [|apply phases_nil].
  eapply (phases_then 1 1 1 1); [by apply phases_one|intros _; apply write_pidfile_phases|lia..].
Qed.

Lemma load_throttles_phases config : phases 1 1 (load_throttles os config).1.
Proof. unfold load_throttles. destruct (throttle_file config); [by apply phases_one|apply phases_nil]. Qed.

Lemma setup_phases config fs : phases 0 10 (setup os config fs).1.
Proof.
  unfold setup. eapply (phases_then 0 0 1 10); [by apply phases_one|intros log_fs|lia..].
  eapply (phases_then 1 1 1 10); [apply write_pidfile_phases|intros _|lia..].
  eapply (phases_then 1 1 1 10); [apply load_throttles_phases|intros thr|lia..].
  eapply (phases_then 1 1 2 10); [apply daemonize_phases|intros _|lia..].
  eapply (phases_then 2 3 3 10); [apply do_chroot_phases|intros jailed|lia..].
  eapply (phases_then 3 3 4 10); [apply apply_data_dir_phases|intros rooted|lia..].
  eapply (phases_then 4 4 4 10); [apply bind_listeners_phases|intros lst|lia..].
  eapply (phases_then 4 4 5 10); [unfold check_listeners; case_match; apply phases_nil|intros _|lia..].
  eapply (phases_then 5 8 9 10); [apply drop_privileges_phases|intros _|lia..].
  eapply (phases_then 9 9 10 10); [by apply phases_one|intros _; by apply phases_one|lia..].
Qed.

Lemma main_phases config fs : phases 0 12 (main os config fs).1.
Proof.
  unfold main. eapply (phases_then 0 10 11 12); [apply setup_phases|intros st|lia..].
  eapply (phases_then 11 11 12 12); [case_match; [by apply phases_one|apply phases_nil]|intros _; by apply phases_one|lia..].
Qed.

(** The two cases of [main]. *)
Lemma main_cases config fs :
  match setup os config fs with
  | (t, inr e) => main os config fs = (t, inr e)
  | (t, inl st) =>
      main os config fs = (t ++ (if daemonize config then [ReportSuccess] else []) ++ [EnterLoop], inl st)
  end.
Proof. unfold main, andthen. destruct (setup os config fs) as [t [st|e]]; [|done]. by destruct (daemonize config). Qed.

Lemma andthen_inl {A C} (m : Io A) (f : A -> Io C) t c :
  andthen m f = (t, inl c) ->
  exists t1 a t2, m = (t1, inl a) /\ f a = (t2, inl c) /\ t = t1 ++ t2.
Proof.
  unfold andthen. destruct m as [t1 [a|e]]; [|done]. destruct (f a) as [t2 r] eqn:E. intros [= <- ->]. eauto 10.
Qed.

Lemma sys_inl {A} c explain error (a a' : A) t :
  sys c explain error a = (t, inl a') -> t = [c] /\ error = None /\ a' = a.
Proof. unfold sys. destruct error; [done|]. by intros [= <- <-]. Qed.
End Order.

Section Started.
Context (os : Os).

(** A successful start, step by step. *)
Record start_steps (config : t) (trace : list Call) (st : Started) : Prop := {
  ss_dirs : exists jailed rooted t1 t2,
    do_chroot_step os config = (t1, inl jailed) /\ apply_data_dir os jailed = (t2, inl rooted) /\
    t1 ⊆ trace /\ t2 ⊆ trace /\ Server.config (st_server st) = rooted /\
    (exists t3, bind_listeners os rooted = (t3, inl (st_listeners st)) /\ t3 ⊆ trace) /\
    (exists t4, drop_privileges os rooted = (t4, inl tt) /\ t4 ⊆ trace);
  ss_count : (Z.of_nat (length (st_listeners st)) <= MAX_LISTENERS)%Z;
  ss_server : exists thr t5, load_throttles os config = (t5, inl thr) /\
    st_server st = (Server_new (Server.config (st_server st)) (length (st_listeners st))) <| throttles := thr |>;
}.

Lemma setup_steps config fs trace st : setup os config fs = (trace, inl st) -> start_steps config trace st.
Proof.
  unfold setup. intros (ta & log_fs & ? & _ & H & ->)%andthen_inl.
  apply andthen_inl in H as (tb & [] & ? & _ & H & ->).
  apply andthen_inl in H as (tc & thr & ? & Hthr & H & ->).
  apply andthen_inl in H as (td & [] & ? & _ & H & ->).
  apply andthen_inl in H as (t1 & jailed & ? & H1 & H & ->).
  apply andthen_inl in H as (t2 & rooted & ? & H2 & H & ->).
  apply andthen_inl in H as (t3 & lst & ? & H3 & H & ->).
  apply andthen_inl in H as (te & [] & ? & Hc & H & ->).
  apply andthen_inl in H as (t4 & [] & ? & H4 & H & ->).
  apply andthen_inl in H as (tf & [] & ? & Hi & H & ->).
  apply sys_inl in H as (-> & _ & ->).
  assert (H3' : bind_listeners os rooted = (t3, inl lst)).
  { unfold explained in H3. destruct (bind_listeners os rooted) as [x [l|e]]; [|done]. cbn in H3. by injection H3 as <- <-. }
  constructor; cbn [st_server st_listeners].
  - exists jailed, rooted, t1, t2. split_and!; [done|done|set_solver|set_solver|done| |].
    + exists t3. split; [done|set_solver].
    + exists t4. split; [done|set_solver].
  - unfold check_listeners in Hc. destruct (Z.ltb_spec MAX_LISTENERS (Z.of_nat (length lst))); [done|done].
  - exists thr, tc. split; [done|]. done.
Qed.

(** The steps change nothing but the serving directory. *)
Lemma do_chroot_result config trace jailed :
  do_chroot_step os config = (trace, inl jailed) ->
  if do_chroot config
  then jailed = config <| dir := B "/" |> /\ trace = [ChrootTo (dir config); Chdir (B "/")] /\ chroot_error os (dir config) = None
  else jailed = config /\ trace = [].
Proof.
  unfold do_chroot_step. destruct (do_chroot config); cbn [negb]; [|by intros [= <- <-]].
  intros (t1 & [] & ? & (-> & H & _)%sys_inl & (t2 & [] & ? & (-> & _)%sys_inl & E & ->)%andthen_inl & ->)%andthen_inl.
  by injection E as <- <-.
Qed.

Lemma apply_data_dir_result config trace rooted :
  apply_data_dir os config = (trace, inl rooted) ->
  match data_dir config with
  | Some dd => rooted = config <| dir := effective_dir_after_chdir (dir config) dd (do_chroot config) |> /\
               trace = [Chdir (data_dir_chdir_path (dir config) dd (do_chroot config))]
  | None => rooted = config /\ trace = []
  end.
Proof.
  unfold apply_data_dir. destruct (data_dir config); [|by intros [= <- <-]].
  intros (t1 & [] & ? & (-> & _)%sys_inl & E & ->)%andthen_inl. by injection E as <- <-.
Qed.

Lemma rooted_fields config jailed rooted t1 t2 :
  do_chroot_step os config = (t1, inl jailed) -> apply_data_dir os jailed = (t2, inl rooted) ->
  user rooted = user config /\ hostname rooted = hostname config /\ port rooted = port config.
Proof.
  intros H1%do_chroot_result H2%apply_data_dir_result.
  assert (E : user jailed = user config /\ hostname jailed = hostname config /\ port jailed = port config).
  { destruct (do_chroot config); [destruct H1 as (-> & _)|destruct H1 as (-> & _)]; done. }
  destruct (data_dir jailed); destruct H2 as (-> & _); exact E.
Qed.

Lemma drop_privileges_result config trace u :
  drop_privileges os config = (trace, inl tt) -> user config = Some u ->
  exists uid gid, user_from_name os u = inl (Some (uid, gid)) /\
    Setgid gid ∈ trace /\ Initgroups u gid ∈ trace /\ Setuid uid ∈ trace /\
    setgid_error os = None /\ initgroups_error os = None /\ setuid_error os = None.
Proof.
  unfold drop_privileges. intros H Hu. rewrite Hu in H.
  destruct (user_from_name os u) as [[[uid gid]|]|] eqn:E; [|done..].
  apply andthen_inl in H as (ta & [] & ? & (-> & _)%sys_inl & H & ->).
  apply andthen_inl in H as (tb & [] & ? & (-> & H1 & _)%sys_inl & H & ->).
  apply andthen_inl in H as (tc & [] & ? & _ & H & ->).
  apply andthen_inl in H as (td & [] & ? & (-> & H2 & _)%sys_inl & H & ->).
  apply sys_inl in H as (-> & H3 & _). exists uid, gid. split_and!; try done; set_solver.
Qed.

Lemma in_order_lookup trace i j a b :
  in_order trace -> trace !! i = Some a -> trace !! j = Some b -> phase a < phase b -> i < j.
Proof.
  intros Hs Hi Hj Hp. destruct (decide (i < j)) as [|Hij]; [done|]. exfalso.
  destruct (decide (i = j)) as [->|Hne]; [assert (a = b) by congruence; subst; lia|].
  revert i j Hi Hj Hij Hne. induction Hs as [|c l Hl IH Hc]; intros i j Hi Hj Hij Hne; [done|].
  destruct i as [|i]; [lia|]. destruct j as [|j].
  - cbn in Hi, Hj. injection Hj as ->. pose proof (Forall_lookup_1 _ _ _ _ Hc Hi) as H. cbn in H. lia.
  - apply (IH i j); [done|done|lia|lia].
Qed.

(** C8: the security-critical order of start-up, for every configuration
    and whatever fails: the log, the pid file and the throttle file are opened
    before the jail is entered, the listeners are bound inside the jail, group
    and user are given up after the listeners are bound, the groups before the
    user, and serving starts after all of that.  The event loop is entered only
    with the jail and the user that were configured, and a start that fails
    neither reports success nor serves. *)
Theorem startup_order config fs :
  let '(trace, r) := main os config fs in
  (forall i j a b, trace !! i = Some a -> trace !! j = Some b -> phase a < phase b -> i < j) /\
  match r with
  | inl st =>
      (do_chroot config = true -> ChrootTo (dir config) ∈ trace /\ chroot_error os (dir config) = None) /\
      (forall u, user config = Some u ->
         exists uid gid, user_from_name os u = inl (Some (uid, gid)) /\
           Setgid gid ∈ trace /\ Initgroups u gid ∈ trace /\ Setuid uid ∈ trace /\
           setgid_error os = None /\ initgroups_error os = None /\ setuid_error os = None)
  | inr _ => (EnterLoop ∉ trace) /\ (ReportSuccess ∉ trace)
  end.
Proof.
  destruct (main os config fs) as [trace r] eqn:E. split.
  { intros i j a b. apply in_order_lookup. pose proof (main_phases os config fs) as [H _]. by rewrite E in H. }
  pose proof (main_cases os config fs) as Hc. pose proof (setup_phases os config fs) as [_ Hp].
  destruct (setup os config fs) as [t0 [st|e]] eqn:Es; rewrite Hc in E; injection E as <- <-.
  - destruct (setup_steps config fs t0 st Es) as [(jailed & rooted & t1 & t2 & H1 & H2 & Hs1 & _ & _ & _ & t4 & H4 & Hs4) _ _].
    split.
    + intros Hch. apply do_chroot_result in H1. rewrite Hch in H1. destruct H1 as (_ & -> & H1).
      split; [|done]. apply elem_of_app. left. apply Hs1. left.
    + intros u Hu. destruct (rooted_fields _ _ _ _ _ H1 H2) as (Hu' & _).
      destruct (drop_privileges_result rooted t4 u H4) as (uid & gid & Hl & G1 & G2 & G3 & G4 & G5 & G6); [congruence|].
      exists uid, gid. split_and!; try done; apply elem_of_app; left; by apply Hs4.
  - cbn [fst] in Hp. rewrite Forall_forall in Hp. split; intros Hin%Hp; cbn in Hin; lia.
Qed.

(** The process that started the daemon learns the truth: it exits with
    status 0 exactly when the daemon completed its start and entered the event
    loop, whatever failed on the way. *)
Theorem parent_sees_start config fs :
  daemonize config = true ->
  (parent_status (main os config fs).1 = 0%Z <-> exists st, (main os config fs).2 = inl st).
Proof.
  intros Hd. pose proof (main_cases os config fs) as Hc. pose proof (setup_phases os config fs) as [_ Hp].
  rewrite Hd in Hc. destruct (setup os config fs) as [t0 [st|e]]; rewrite Hc; cbn [fst snd] in *; unfold parent_status.
  - rewrite existsb_app. cbn. rewrite orb_true_r. split; [eauto|done].
  - destruct (existsb _ t0) eqn:E; [|split; [done|by intros [? ?]]]. exfalso.
    apply existsb_exists in E as (c & Hin%list_elem_of_In & Hc'). rewrite Forall_forall in Hp. specialize (Hp c Hin).
    destruct c; try done. cbn in Hp. lia.
Qed.

(** ** Listeners *)

(** The addresses a start tries. *)
Definition wanted (config : t) : list SockAddr :=
  match hostname config with
  | None => [V6 (B "::") (port config); V4 (B "0.0.0.0") (port config)]
  | Some host => resolve_hostname os host (port config)
  end.

Lemma dedup_spec seen l : NoDup (dedup seen l) /\ forall a, a ∈ dedup seen l <-> a ∈ l /\ a ∉ seen.
Proof.
  revert seen. induction l as [|x l IH]; intros seen; cbn [dedup].
  - split; [constructor|]. intros a. split; [by intros ?%not_elem_of_nil|by intros [?%not_elem_of_nil _]].
  - destruct (decide (x ∈ seen)) as [Hx|Hx].
    + rewrite bool_decide_true by done. destruct (IH seen) as [H1 H2]. split; [done|]. intros a. rewrite H2. set_solver.
    + rewrite bool_decide_false by done. destruct (IH (x :: seen)) as [H1 H2]. split.
      * constructor; [|done]. rewrite H2. set_solver.
      * intros a. rewrite elem_of_cons, H2. destruct (decide (a = x)) as [->|]; set_solver.
Qed.

Lemma wanted_NoDup config : NoDup (wanted config).
Proof.
  unfold wanted, resolve_hostname. destruct (hostname config).
  - destruct (resolve os _ _); [apply dedup_spec|constructor].
  - apply (bool_decide_unpack _). by rewrite bool_decide_true by (repeat constructor; set_solver).
Qed.

Lemma bind_addrs_result addrs ls :
  (bind_addrs os addrs ls).2 =
  match list_find (fun a => fatal_bind os a <> None) addrs with
  | None => (ls ++ filter (fun a => bound os a = true) addrs, None)
  | Some _ => (bind_addrs os addrs ls).2
  end /\
  (is_some (bind_addrs os addrs ls).2.2 = true <-> Exists (fun a => fatal_bind os a <> None) addrs).
Proof.
  revert ls. induction addrs as [|a addrs IH]; intros ls; cbn [bind_addrs].
  - split; [by rewrite app_nil_r|]. split; [done|]. by intros ?%Exists_nil.
  - destruct (fatal_bind os a) eqn:E.
    + cbn. split; [by rewrite decide_True by congruence|]. split; [|done]. intros _. left. congruence.
    + specialize (IH (if bound os a then ls ++ [a] else ls)). destruct (bind_addrs os addrs _) as [t r].
      cbn [list_find fst snd] in *. rewrite decide_False by (intros H; by apply H). destruct IH as [IH1 IH2]. split.
      * destruct (list_find _ addrs) as [[]|]; [done|]. cbn [fmap option_fmap option_map]. rewrite IH1, filter_cons.
        destruct (bound os a); [rewrite decide_True, <- app_assoc by done|rewrite decide_False by done]; done.
      * rewrite IH2, Exists_cons. rewrite E. split; [by right|]. intros [H|H]; [by destruct H|done].
Qed.

Lemma bind_listeners_spec config :
  match (bind_listeners os config).2 with
  | inl ls =>
      ls = filter (fun a => bound os a = true) (wanted config) /\ ls <> [] /\ NoDup ls /\
      Forall (fun a => fatal_bind os a = None) (wanted config)
  | inr _ =>
      Exists (fun a => fatal_bind os a <> None) (wanted config) \/
      filter (fun a => bound os a = true) (wanted config) = []
  end.
Proof.
  pose proof (wanted_NoDup config) as Hnd. unfold bind_listeners, wanted in *. destruct (hostname config) as [h|].
  - set (addrs := resolve_hostname os h (port config)) in *. destruct (bind_addrs_result addrs []) as [H1 H2].
    destruct (bind_addrs os addrs []) as [t [ls f]]. cbn [snd] in *. destruct f as [e|].
    { left. by apply H2. }
    assert (Hno : ~ Exists (fun a => fatal_bind os a <> None) addrs) by (intros ?%H2; done).
    assert (Hall : Forall (fun a => fatal_bind os a = None) addrs).
    { apply Forall_forall. intros a Ha. destruct (fatal_bind os a) eqn:E; [|done]. destruct Hno.
      apply Exists_exists. exists a. split; [done|congruence]. }
    assert (Hf : list_find (fun a => fatal_bind os a <> None) addrs = None).
    { apply list_find_None. eapply Forall_impl; [exact Hall|]. cbn. intros a Ha Hn. by apply Hn. }
    rewrite Hf in H1. injection H1 as ->. cbn [app] in *. set (ls := filter _ addrs) in *.
    destruct (is_empty ls) eqn:El.
    + destruct ls; [|done]. destruct (is_empty addrs); by right.
    + cbn [andb]. split_and!; [done|by destruct ls|by apply NoDup_filter|done].
  - cbn [snd]. set (a6 := V6 _ _) in *. set (a4 := V4 _ _) in *.
    assert (Hf : filter (fun a => bound os a = true) [a6; a4] =
                 (if bound os a6 then [a6] else []) ++ (if bound os a4 then [a4] else [])).
    { rewrite !filter_cons. by destruct (bound os a6), (bound os a4). }
    rewrite Hf. destruct (fatal_bind os a4) eqn:E4; [left; right; left; congruence|].
    destruct (fatal_bind os a6) eqn:E6; [left; left; congruence|].
    destruct (is_empty _) eqn:El; [right; by destruct (_ ++ _)|].
    split_and!; [done|intros Hn; by rewrite Hn in El| |by repeat constructor].
    rewrite <- Hf. by apply NoDup_filter.
Qed.

(** Which listeners a start has: it fails when an address it wants
    cannot be bound for any reason other than an unsupported address family,
    even if others were bound, and when none is bound at all; otherwise it
    listens on exactly the wanted addresses that could be bound, each once and
    in their order. *)
Theorem listeners_bound config :
  match (bind_listeners os config).2 with
  | inl ls =>
      ls = filter (fun a => bound os a = true) (wanted config) /\ ls <> [] /\ NoDup ls /\
      Forall (fun a => fatal_bind os a = None) (wanted config)
  | inr _ =>
      Exists (fun a => fatal_bind os a <> None) (wanted config) \/
      filter (fun a => bound os a = true) (wanted config) = []
  end.
Proof. apply bind_listeners_spec. Qed.

(** What the event loop starts with: a state from which the invariants
    of the server hold, at least one listener, all of them bound, and no more
    than there are listener tokens, so that registering them cannot fail after
    success has been reported. *)
Theorem started_server config fs trace st :
  main os config fs = (trace, inl st) ->
  reachable (st_server st) /\ Server.listeners (st_server st) = length (st_listeners st) /\
  st_listeners st <> [] /\ Forall (fun a => bind_error os a = None) (st_listeners st) /\
  forall i, i < length (st_listeners st) -> listen_token (Z.of_nat i) = Some (Z.of_nat i).
Proof.
  intros E. pose proof (main_cases os config fs) as Hc. destruct (setup os config fs) as [t0 [st'|e]] eqn:Es;
    rewrite Hc in E; [|done]. injection E as <- <-.
  destruct (setup_steps config fs t0 st' Es) as [(jailed & rooted & t1 & t2 & _ & _ & _ & _ & _ & (t3 & H3 & _) & _) Hn (thr & t5 & Ht & Hs)].
  pose proof (bind_listeners_spec rooted) as Hb. rewrite H3 in Hb. cbn in Hb. destruct Hb as (Hls & Hne & _ & _).
  split_and!.
  - rewrite Hs. unfold load_throttles in Ht. destruct (throttle_file config) as [p|].
    + destruct (read_throttles os p) as [content|e]; [|done]. cbn in Ht. injection Ht as <- <-.
      by eapply (reach_start_throttled _ _ content).
    + injection Ht as <- <-. apply (reach_start (Server.config (st_server st')) (length (st_listeners st'))).
  - by rewrite Hs.
  - done.
  - rewrite Hls. apply Forall_forall. intros a [Ha _]%list_elem_of_filter. unfold bound in Ha. by destruct (bind_error os a).
  - intros i Hi. unfold listen_token. rewrite (proj2 (Z.ltb_lt _ _)) by (unfold MAX_LISTENERS in *; lia). done.
Qed.

(** ** The serving root *)

(** Where the process is: the components of its root and working directory,
    seen from outside; what a path names there, up to [..] and links. *)
Record Proc := mkProc { proc_root : list bytes; proc_cwd : list bytes }.

Definition locate (pr : Proc) (p : bytes) : list bytes :=
  (if is_absolute p then proc_root pr else proc_cwd pr) ++ path_parts p.

Definition effect (pr : Proc) (c : Call) : Proc :=
  match c with
  | ChrootTo d => mkProc (locate pr d) (proc_cwd pr)
  | Chdir d => mkProc (proc_root pr) (locate pr d)
  | _ => pr
  end.

Lemma neutral_effect lo hi trace pr : phases lo hi trace -> hi < 2 \/ 3 < lo -> foldl effect pr trace = pr.
Proof.
  intros [_ H] Hr. induction H as [|c l Hc _ IH]; [done|]. cbn. destruct c; cbn in Hc; try exact IH; lia.
Qed.

(** The jail and the working directory of a successful start. *)
Lemma setup_dirs config fs trace st pr :
  setup os config fs = (trace, inl st) ->
  exists jailed t1 t2,
    do_chroot_step os config = (t1, inl jailed) /\ apply_data_dir os jailed = (t2, inl (Server.config (st_server st))) /\
    foldl effect pr trace = foldl effect (foldl effect pr t1) t2.
Proof.
  unfold setup. intros (ta & log_fs & ? & Ha & H & ->)%andthen_inl.
  apply andthen_inl in H as (tb & [] & ? & Hb & H & ->).
  apply andthen_inl in H as (tc & thr & ? & Hc & H & ->).
  apply andthen_inl in H as (td & [] & ? & Hd & H & ->).
  apply andthen_inl in H as (t1 & jailed & ? & H1 & H & ->).
  apply andthen_inl in H as (t2 & rooted & ? & H2 & H & ->).
  exists jailed, t1, t2.
  pose proof (write_pidfile_phases os config) as Pb. rewrite Hb in Pb.
  pose proof (load_throttles_phases os config) as Pc. rewrite Hc in Pc.
  pose proof (daemonize_phases os config log_fs.1) as Pd. rewrite Hd in Pd. cbn in Pb, Pc, Pd.
  assert (Ea : foldl effect pr ta = pr) by (unfold open_log in Ha; by injection Ha as <- _).
  rewrite !foldl_app, Ea. rewrite (neutral_effect 1 1 tb), (neutral_effect 1 1 tc), (neutral_effect 1 1 td) by (done || lia).
  pose proof (bind_listeners_phases os rooted) as P3. pose proof (drop_privileges_phases os rooted) as P4.
  apply andthen_inl in H as (t3 & lst & ? & H3 & H & ->).
  apply andthen_inl in H as (te & [] & ? & He & H & ->).
  apply andthen_inl in H as (t4 & [] & ? & H4 & H & ->).
  apply andthen_inl in H as (tf & [] & ? & (-> & _)%sys_inl & H & ->).
  apply sys_inl in H as (-> & _ & ->). split; [done|]. split; [done|].
  assert (Et : t3 = (bind_listeners os rooted).1) by (unfold explained in H3; by injection H3 as <- _). subst t3.
  rewrite H4 in P4. cbn in P4. rewrite !foldl_app.
  assert (te = []) as -> by (unfold check_listeners in He; destruct (_ <? _)%Z; [done|]; by injection He as <-).
  cbn [foldl effect]. rewrite (neutral_effect 5 8 t4 _ P4) by lia. by rewrite (neutral_effect 4 4 _ _ P3) by lia.
Qed.

Lemma dir_set (config : t) d : dir (config <| dir := d |>) = d.
Proof. by destruct config. Qed.

Lemma locate_root pr : locate pr (B "/") = proc_root pr.
Proof. unfold locate. apply app_nil_r. Qed.

Lemma chroot_effect pr d :
  effect (effect pr (ChrootTo d)) (Chdir (B "/")) = mkProc (locate pr d) (locate pr d).
Proof. cbn [effect]. by rewrite locate_root. Qed.

(** The data directory becomes both the working directory and what is served. *)
Lemma data_dir_effect pr cdir dd chroot :
  (chroot = true -> cdir = B "/") ->
  let pr' := effect pr (Chdir (data_dir_chdir_path cdir dd chroot)) in
  locate pr' (effective_dir_after_chdir cdir dd chroot) = proc_cwd pr' /\
  proc_cwd pr' = (if is_absolute dd then proc_root pr else locate pr cdir) ++ path_parts dd /\
  proc_root pr' = proc_root pr.
Proof.
  intros Hc. cbn [effect proc_cwd proc_root]. unfold data_dir_chdir_path, effective_dir_after_chdir.
  destruct (is_absolute dd) eqn:Ea; [unfold locate; by rewrite Ea|].
  assert (Hj : forall d, locate pr (path_join d dd) = locate pr d ++ path_parts dd).
  { intros d. unfold locate. by rewrite is_absolute_join, path_parts_join, app_assoc by done. }
  destruct chroot; [rewrite (Hc eq_refl)|destruct (is_absolute cdir) eqn:Ed]; (split; [|by rewrite Hj]).
  - rewrite Hj, locate_root. unfold locate at 1. by rewrite is_absolute_join, path_parts_join by done.
  - rewrite Hj. unfold locate. rewrite is_absolute_join, path_parts_join, Ed by done. cbn. by rewrite app_assoc.
  - rewrite Hj. unfold locate at 1. cbn. apply app_nil_r.
Qed.

(** The directory that is served is the one that was configured, seen
    from outside the jail: the configured directory, or the data directory
    below it (below the jail when it is absolute), with and without chroot, for
    absolute and relative paths; with chroot the jail is the configured
    directory, and with a data directory the process works in what it serves. *)
Theorem serving_root config fs trace st pr :
  main os config fs = (trace, inl st) ->
  let pr' := foldl effect pr trace in
  let base := locate pr (dir config) in
  locate pr' (dir (Server.config (st_server st))) =
    match data_dir config with
    | None => base
    | Some dd => (if is_absolute dd && negb (do_chroot config) then proc_root pr else base) ++ path_parts dd
    end /\
  (do_chroot config = true -> proc_root pr' = base) /\
  (data_dir config <> None -> proc_cwd pr' = locate pr' (dir (Server.config (st_server st)))).
Proof.
  intros E. cbv zeta. pose proof (main_cases os config fs) as Hc.
  destruct (setup os config fs) as [t0 [st'|e]] eqn:Es; rewrite Hc in E; [|done]. injection E as <- <-.
  destruct (setup_dirs config fs t0 st' pr Es) as (jailed & t1 & t2 & H1 & H2 & Ht).
  assert (Ef : foldl effect pr (t0 ++ (if daemonize config then [ReportSuccess] else []) ++ [EnterLoop]) = foldl effect pr t0).
  { rewrite !foldl_app. by destruct (daemonize config). }
  rewrite Ef, Ht. apply do_chroot_result in H1. apply apply_data_dir_result in H2.
  set (rooted := Server.config (st_server st')) in *. clearbody rooted.
  assert (Ed : data_dir jailed = data_dir config /\ do_chroot jailed = do_chroot config).
  { destruct (do_chroot config) eqn:Ec; destruct H1 as (-> & _); done. }
  destruct Ed as [Ed Ec]. rewrite Ed, Ec in H2.
  destruct (do_chroot config).
  - destruct H1 as (-> & -> & _). cbn [foldl]. rewrite chroot_effect. destruct (data_dir config) as [dd|].
    + destruct H2 as (-> & ->). cbn [foldl]. rewrite !dir_set.
      destruct (data_dir_effect (mkProc (locate pr (dir config)) (locate pr (dir config))) (B "/") dd true) as (H1 & H2 & H3); [done|].
      rewrite H1, H2, H3, andb_false_r. split_and!; [|done|done].
      destruct (is_absolute dd); [done|]. by rewrite locate_root.
    + destruct H2 as (-> & ->). cbn [foldl]. rewrite dir_set. split_and!; [by rewrite locate_root|done|done].
  - destruct H1 as (-> & ->). cbn [foldl]. destruct (data_dir config) as [dd|].
    + destruct H2 as (-> & ->). cbn [foldl]. rewrite !dir_set.
      destruct (data_dir_effect pr (dir config) dd false) as (H1 & H2 & H3); [done|].
      rewrite H1, H2, andb_true_r. by split_and!.
    + destruct H2 as (-> & ->). by split_and!.
Qed.
End Started.

(** ** Signals and the rounds of the event loop *)

Record SignalFlags := mkFlags { terminate : bool; hup : bool; usr1 : bool; sigpipe_sink : bool }.

#[export] Instance SignalFlags_settable : Settable SignalFlags := fun f =>
  mkFlags (terminate f) (hup f) (usr1 f) (sigpipe_sink f).

Definition SignalFlags_new : SignalFlags := mkFlags false false false false.

Inductive Sig := SIGTERM | SIGINT | SIGHUP | SIGUSR1 | SIGPIPE.

(** What the handlers of [install_signal_handlers] do. *)
Definition deliver (f : SignalFlags) (s : Sig) : SignalFlags :=
  match s with
  | SIGTERM | SIGINT => f <| terminate := true |>
  | SIGHUP => f <| hup := true |>
  | SIGUSR1 => f <| usr1 := true |>
  | SIGPIPE => f <| sigpipe_sink := true |>
  end.

Definition clear_hup (f : SignalFlags) : SignalFlags := f <| hup := false |>.

(** The state of [run] between two rounds; [lp_last] is the time of the last
    throttle update. *)
Record Loop := mkLoop {
  lp_server : Server;
  lp_last : Z;
  lp_log : LogTarget;
  lp_fs : Fs;
  lp_flags : SignalFlags;
}.

Inductive PollOutcome := Events (p : Polled) | Interrupted | PollFailed.

Inductive RoundResult := Stopped (ok : bool) (lp : Loop) | Continue (lp : Loop).

(** One round; [None] is a panic.  The flags are read where the code reads
    them; [before] are the signals that arrive before the check of SIGHUP,
    [late] those between reopening the log and clearing the flag. *)
Definition round `{!World} (poll : PollOutcome) (before late : list Sig) (reopen_ok : bool) (lp : Loop) : option RoundResult :=
  if terminate (lp_flags lp) then Some (Stopped true lp)
  else
    let drain := mkPolled (usr1 (lp_flags lp)) [] [] (fun _ => WWouldBlock) in
    let s := start_drain drain (lp_server lp) in
    if negb (draining (lp_server lp)) && drained s then Some (Stopped true (mkLoop s (lp_last lp) (lp_log lp) (lp_fs lp) (lp_flags lp)))
    else
      match poll with
      | Interrupted => Some (Continue (mkLoop s (lp_last lp) (lp_log lp) (lp_fs lp) (foldl deliver (lp_flags lp) before)))
      | PollFailed => Some (Stopped false (mkLoop s (lp_last lp) (lp_log lp) (lp_fs lp) (lp_flags lp)))
      | Events p =>
          let s := foldl (fun s l => handle_accept l s) s (accepted p) in
          s ← foldl handle_ready (Some s) (ready p);
          s ← resume_ready_paused_connections (resumed p) s;
          s ← run_timers s;
          let '(last, s) := tick_if_due (lp_last lp) (s <| mmc := Mmc.cleanup clock (mmc s) |>) in
          let flags := foldl deliver (lp_flags lp) before in
          let lp :=
            if hup flags then
              let '(log, fs, _) := reopen reopen_ok (lp_log lp) (lp_fs lp) in
              mkLoop s last log fs (clear_hup (foldl deliver flags late))
            else mkLoop s last (lp_log lp) (lp_fs lp) flags in
          Some (if drained s then Stopped true lp else Continue lp)
      end.

(** A stop request ends the loop at the next round, with nothing else done. *)
Lemma terminate_stops `{!World} poll before late reopen_ok lp sig :
  sig = SIGTERM \/ sig = SIGINT ->
  let lp' := mkLoop (lp_server lp) (lp_last lp) (lp_log lp) (lp_fs lp) (deliver (lp_flags lp) sig) in
  round poll before late reopen_ok lp' = Some (Stopped true lp').
Proof. by intros [-> | ->]. Qed.

Lemma deliver_hup_kept l f : hup f = true -> hup (foldl deliver f l) = true.
Proof. revert f. induction l as [|s l IH]; intros f Hf; [done|]. cbn. apply IH. by destruct s. Qed.

(** A request to reopen the log is not lost to an interrupted poll: it
    stays pending over any round that handles no events, and in the first round
    that does, unless the loop ends, the log is open again under its name and
    the request is done. *)
Theorem hup_reopens `{!World} poll before reopen_ok lp path i r :
  terminate (lp_flags lp) = false -> hup (lp_flags lp) = true -> lp_log lp = File path i -> reopen_ok = true ->
  round poll before [] reopen_ok lp = Some r ->
  match r with
  | Stopped ok _ => True
  | Continue lp' =>
      match poll with
      | Events _ =>
          hup (lp_flags lp') = false /\
          exists j, lp_log lp' = File path j /\ names (lp_fs lp') !! path = Some j
      | _ => hup (lp_flags lp') = true /\ lp_log lp' = lp_log lp
      end
  end.
Proof.
  intros Ht Hh Hl ->. unfold round. rewrite Ht. cbv zeta. set (s0 := start_drain _ _).
  destruct (_ && _); [by intros [= <-]|]. destruct poll as [p| |].
  - destruct (foldl handle_ready _ _) as [s1|]; cbn [mbind option_bind]; [|done].
    destruct (resume_ready_paused_connections _ _) as [s2|]; cbn [mbind option_bind]; [|done].
    destruct (run_timers s2) as [s3|]; cbn [mbind option_bind]; [|done]. destruct (tick_if_due _ _) as [last s4].
    rewrite (deliver_hup_kept before) by done. rewrite Hl. unfold reopen, open_append.
    destruct (names (lp_fs lp) !! path) as [j|] eqn:Ej; destruct (drained s4); intros [= <-]; try done; cbn.
    + split; [done|]. eauto.
    + split; [done|]. eexists. split; [done|]. apply lookup_insert_eq.
  - intros [= <-]. cbn. split; [by apply deliver_hup_kept|done].
  - by intros [= <-].
Qed.

(** A second rotation that comes between the reopening and the clearing of the
    flag is forgotten: the log stays on the moved file and nothing is pending. *)
Definition two_rotations (fs : Fs) (l : LogTarget) : LogTarget * Fs * SignalFlags :=
  let flags := deliver SignalFlags_new SIGHUP in
  let '(l, fs, _) := reopen true l fs in
  let fs := rename (B "/log") (B "/log.2") fs in
  (l, fs, clear_hup (deliver flags SIGHUP)).

Example hup_race_lost :
  let '(l, fs, flags) := two_rotations (mkFs {[B "/log.1" := 0]} {[0 := []]}) (File (B "/log") 0) in
  hup flags = false /\ names fs !! B "/log" = None /\ l = File (B "/log") 1 /\ names fs !! B "/log.2" = Some 1.
Proof. by vm_compute. Qed.

(** ** A concrete start *)

Module DemoStart.
Definition os : Os := mkOs (mkLogSys true true true (fun _ => Some (Some (65534, 65534)%Z)) true) None (fun _ => inl [])
  None (fun _ => None) (fun _ => None)
  (fun a => match a with V6 _ _ => Some (mkIoError (Some EAFNOSUPPORT) (B "unsupported")) | V4 _ _ => None end)
  (fun _ _ => None) (fun _ => inl (Some (65534, 65534)%Z)) None None None None None.

Definition config : t :=
  default <| dir := B "/srv" |> <| do_chroot := true |> <| data_dir := Some (B "htdocs") |> <| user := Some (B "nobody") |>
    <| logfile := Some (B "/srv/log") |>.

Definition fs : Fs := mkFs ∅ ∅.
Definition pr : Proc := mkProc [] [B "root"].
Definition poll : Polled := mkPolled false [] [] (fun _ => WWouldBlock).
Definition loop : Loop :=
  mkLoop demo_start 0 (File (B "/log") 0) (mkFs {[B "/log.1" := 0]} {[0 := []]}) (mkFlags false true false false).
End DemoStart.

Example demo_start_calls :
  (main DemoStart.os DemoStart.config DemoStart.fs).1 =
  [OpenLog (Some (B "/srv/log")); Daemonize false; ChrootTo (B "/srv"); Chdir (B "/"); Chdir (B "/htdocs");
   Bind (V6 (B "::") 80); Bind (V4 (B "0.0.0.0") 80); LookupUser (B "nobody"); Setgid 65534;
   Initgroups (B "nobody") 65534; Setuid 65534; InstallSignals; NewPoll; ReportSuccess; EnterLoop].
Proof. by vm_compute. Qed.

Lemma parent_sees_start_witness :
  (parent_status (main DemoStart.os DemoStart.config DemoStart.fs).1 = 0%Z <->
   exists st, (main DemoStart.os DemoStart.config DemoStart.fs).2 = inl st).
Proof. exact (parent_sees_start DemoStart.os DemoStart.config DemoStart.fs eq_refl). Defined.

Lemma started_server_witness :
  exists trace st, main DemoStart.os DemoStart.config DemoStart.fs = (trace, inl st) /\ reachable (st_server st) /\
    st_listeners st = [V4 (B "0.0.0.0") 80].
Proof.
  destruct (main DemoStart.os DemoStart.config DemoStart.fs) as [trace [st|e]] eqn:E.
  - exists trace, st. split; [reflexivity|]. split; [exact (proj1 (started_server _ _ _ _ _ E))|].
    assert (H : match (main DemoStart.os DemoStart.config DemoStart.fs).2 with
                | inl st => st_listeners st | inr _ => [] end = [V4 (B "0.0.0.0") 80]) by (by vm_compute).
    rewrite E in H. exact H.
  - exfalso. assert (H : match (main DemoStart.os DemoStart.config DemoStart.fs).2 with inl _ => true | inr _ => false end = true)
      by (by vm_compute). by rewrite E in H.
Defined.

Lemma serving_root_witness :
  exists trace st, main DemoStart.os DemoStart.config DemoStart.fs = (trace, inl st) /\
    locate (foldl effect DemoStart.pr trace) (dir (Server.config (st_server st))) = [B "srv"; B "htdocs"].
Proof.
  destruct (main DemoStart.os DemoStart.config DemoStart.fs) as [trace [st|e]] eqn:E.
  - exists trace, st. split; [reflexivity|].
    etransitivity; [exact (proj1 (serving_root _ _ _ _ _ DemoStart.pr E))|by vm_compute].
  - exfalso. assert (H : match (main DemoStart.os DemoStart.config DemoStart.fs).2 with inl _ => true | inr _ => false end = true)
      by (by vm_compute). by rewrite E in H.
Defined.

Lemma hup_reopens_witness :
  exists lp', @round (demo_world 0) (Events DemoStart.poll) [] [] true DemoStart.loop = Some (Continue lp') /\
    hup (lp_flags lp') = false.
Proof.
  destruct (@round (demo_world 0) (Events DemoStart.poll) [] [] true DemoStart.loop) as [r|] eqn:E; [|by vm_compute in E].
  pose proof (@hup_reopens (demo_world 0) (Events DemoStart.poll) [] true DemoStart.loop (B "/log") 0 r
    eq_refl eq_refl eq_refl eq_refl E) as H.
  destruct r as [ok lp'|lp']; [by vm_compute in E|]. exists lp'. split; [reflexivity|]. exact (proj1 H).
Defined.
