(* ===== verification/Daemon.v ===== *)
(** * Detaching from the terminal (rust/crates/thttpd-core/src/startup.rs,
      [daemonize_with_handshake] and [DaemonHandshake])

    Three processes share a pipe: the original one, which was started by the
    user and waits for one byte; the middle one, its child, which becomes a
    session leader, forks again and exits; and the daemon, which goes on with
    [main] and reports success through the pipe.  Each may fail or be killed at
    any time; they interleave in any way.  The end of the pipe is seen when the
    other two processes are gone. *)

From S2P Require Import Prelude RustStr Server Logging Startup.

Inductive Original := Blocked | OriginalExit (code : Z).

Inductive Middle := Detaching | Handing | MiddleGone.

(** [calls] are the calls of [main] that are left; then the daemon serves when
    [ok], and exits otherwise.  [reported] is the field of [DaemonHandshake]. *)
Inductive Daemon :=
| Unborn
| Running (calls : list Call) (ok reported : bool)
| DaemonGone (reported : bool).

(** [unharmed] as long as no process was killed or panicked, and no step of
    [daemonize_with_handshake] failed. *)
Record Family := mkFamily {
  original : Original;
  middle : Middle;
  daemon : Daemon;
  status_pipe : list Z;
  unharmed : bool;
}.

Definition is_report (c : Call) : bool := match c with ReportSuccess => true | _ => false end.

(** [DaemonHandshake::report]: the byte is written once. *)
Definition report (code : Z) (reported : bool) : list Z := if reported then [] else [code].

(** The first fork has succeeded: the original process keeps the read end, its
    child the write end. *)
Definition forked : Family := mkFamily Blocked Detaching Unborn [] true.

Section Family.
Context (calls : list Call) (ok : bool).

(** What the processes do when nothing goes wrong... *)
Inductive step : Family -> Family -> Prop :=
| detach o p u : step (mkFamily o Detaching Unborn p u) (mkFamily o Handing (Running calls ok false) p u)
| middle_exits o d p u : step (mkFamily o Handing d p u) (mkFamily o MiddleGone d p u)
| daemon_calls o m c cs b r p u :
    step (mkFamily o m (Running (c :: cs) b r) p u)
         (mkFamily o m (Running cs b (r || is_report c)) (p ++ if is_report c then report 0 r else []) u)
| daemon_exits o m r p u : step (mkFamily o m (Running [] false r) p u) (mkFamily o m (DaemonGone r) p u)
| original_reads m d code p u :
    step (mkFamily Blocked m d (code :: p) u) (mkFamily (OriginalExit code) m d p u)
| original_eof d u :
    match d with Running _ _ _ => False | _ => True end ->
    step (mkFamily Blocked MiddleGone d [] u) (mkFamily (OriginalExit 1) MiddleGone d [] u).

(** ... and what can go wrong: setsid, the second fork or the redirections
    fail, the daemon is killed, or it panics, which drops the handshake. *)
Inductive harm : Family -> Family -> Prop :=
| detach_failed o d p u : harm (mkFamily o Detaching d p u) (mkFamily o MiddleGone d p false)
| daemon_killed o m cs b r p u : harm (mkFamily o m (Running cs b r) p u) (mkFamily o m (DaemonGone r) p false)
| daemon_panics o m cs b r p u :
    harm (mkFamily o m (Running cs b r) p u) (mkFamily o m (DaemonGone r) (p ++ report 1 r) false).

Definition moves (f f' : Family) : Prop := step f f' \/ harm f f'.

Definition reachable (f : Family) : Prop := rtc moves forked f.

Definition settled (f : Family) : Prop := forall f', ~ step f f'.

(** ** Invariant *)

Definition reported (d : Daemon) : bool :=
  match d with Unborn => false | Running _ _ r | DaemonGone r => r end.

Definition alive (d : Daemon) : bool := match d with Running _ _ _ => true | _ => false end.

(** Only the report of the daemon is in the pipe, or was read from it. *)
Definition told (f : Family) : Prop :=
  match original f with
  | Blocked =>
      (status_pipe f = [] /\ reported (daemon f) = false) \/
      (status_pipe f = [0%Z] /\ reported (daemon f) = true) \/
      (status_pipe f = [1%Z] /\ reported (daemon f) = false /\ alive (daemon f) = false /\ daemon f <> Unborn /\ unharmed f = false)
  | OriginalExit code =>
      status_pipe f = [] /\
      ((code = 0%Z /\ reported (daemon f) = true) \/
       (code = 1%Z /\ reported (daemon f) = false /\ alive (daemon f) = false /\ middle f <> Detaching))
  end.

(** The daemon has made the calls in front of the ones that are left, and ends
    by itself only when none is left. *)
Definition progressed (f : Family) : Prop :=
  match daemon f with
  | Unborn => middle f = Detaching \/ (middle f = MiddleGone /\ unharmed f = false)
  | Running cs b r => b = ok /\ middle f <> Detaching /\ exists made, calls = made ++ cs /\ r = existsb is_report made
  | DaemonGone r =>
      middle f <> Detaching /\ (r = true -> existsb is_report calls = true) /\
      (unharmed f = true -> ok = false /\ r = existsb is_report calls)
  end.

Lemma moves_told f f' : moves f f' -> progressed f -> told f -> told f'.
Proof.
  unfold told, progressed. intros Hs.
  destruct Hs as [[o p u|o d p u|o m c cs b r p u|o m r p u|m d code p u|d u Hd]|[o d p u|o m cs b r p u|o m cs b r p u]]; cbn; intros Hp.
  - clear Hp. destruct o; intuition congruence.
  - clear Hp. destruct o; intuition congruence.
  - clear Hp. destruct (is_report c), r, o; cbn; rewrite ?app_nil_r; intuition subst; auto; congruence.
  - clear Hp. destruct o; intuition congruence.
  - intros [[? ?]|[[[= -> ->] Hr]|([= -> ->] & Hr & Ha & Hu & _)]]; [done|by auto|].
    split; [done|]. right. destruct d; [done..|]. by destruct Hp.
  - clear Hp. destruct d; cbn in *; intuition congruence.
  - destruct o, d; cbn in *; clear -Hp; intuition congruence.
  - clear Hp. destruct o; intuition congruence.
  - clear Hp. destruct r, o; cbn; rewrite ?app_nil_r; intuition subst; auto; try congruence.
Qed.
Lemma moves_progressed f f' : moves f f' -> progressed f -> progressed f'.
Proof.
  unfold progressed. intros Hs.
  destruct Hs as [[o p u|o d p u|o m c cs b r p u|o m r p u|m d code p u|d u Hd]|[o d p u|o m cs b r p u|o m cs b r p u]]; cbn.
  - intros _. split_and!; [done|done|]. by exists [].
  - destruct d; intuition congruence.
  - intros (-> & Hm & made & -> & ->). split_and!; [done|done|]. exists (made ++ [c]).
    rewrite <- app_assoc, existsb_app. cbn. by rewrite orb_false_r.
  - intros (<- & Hm & made & -> & ->). rewrite app_nil_r. by split_and!.
  - done.
  - done.
  - destruct d; intuition congruence.
  - intros (-> & Hm & made & -> & ->). split_and!; [done| |done]. rewrite existsb_app. by intros ->.
  - intros (-> & Hm & made & -> & ->). split_and!; [done| |done]. rewrite existsb_app. by intros ->.
Qed.

Lemma family_inv f : reachable f -> told f /\ progressed f.
Proof.
  assert (H0 : told forked /\ progressed forked) by (split; [by left; split|by left]).
  unfold reachable. intros Hr. revert H0. induction Hr as [|f0 f1 f Hs _ IH]; [done|].
  intros [Ht Hp]. apply IH. split; [by eapply moves_told|by eapply moves_progressed].
Qed.

(** ** Every run ends *)

Definition steps_left (f : Family) : nat :=
  match original f with Blocked => 1 | _ => 0 end +
  match middle f with Detaching => 4 + length calls | Handing => 1 | MiddleGone => 0 end +
  match daemon f with Running cs _ _ => 2 + length cs | _ => 0 end.

Lemma moves_finite f : Acc (fun f' f => moves f f') f.
Proof.
  induction f as [f IH] using (well_founded_ind (well_founded_ltof _ steps_left)).
  constructor. intros f' Hs. apply IH. unfold ltof, steps_left. destruct Hs as [[]|[]]; cbn; lia.
Qed.

(** The original process is the last to wait. *)
Lemma settled_original f :
  (ok = true -> existsb is_report calls = true) -> reachable f -> settled f -> original f <> Blocked.
Proof.
  intros Hok Hr Hs Hb. destruct (family_inv f Hr) as [Ht Hp]. unfold told, progressed in *.
  destruct f as [o m d p u]; cbn in *. subst o.
  destruct p as [|code p]; [|exact (Hs _ (original_reads m d code p u))].
  destruct d as [|cs b r|r].
  - destruct Hp as [-> |[-> _]]; [exact (Hs _ (detach Blocked [] u))|exact (Hs _ (original_eof Unborn u I))].
  - destruct Hp as (-> & Hm & made & -> & ->). destruct cs as [|c cs]; [|exact (Hs _ (daemon_calls _ m c cs ok _ [] u))].
    rewrite app_nil_r in Hok. destruct ok; [|exact (Hs _ (daemon_exits _ m _ [] u))].
    rewrite Hok in Ht by done. clear -Ht. naive_solver.
  - destruct Hp as [Hm _]. destruct m; [done|exact (Hs _ (middle_exits _ _ [] u))|exact (Hs _ (original_eof (DaemonGone r) u I))].
Qed.
End Family.

(** ** The handshake of [main] *)

Section Main.
Context (os : Os).

Definition succeeded {A} (r : A + bytes) : bool := match r with inl _ => true | inr _ => false end.

(** Success is reported exactly by a start that succeeds, after detaching. *)
Lemma report_in_calls config fs before keep calls r :
  ServerConfig.daemonize config = true -> main os config fs = (before ++ Daemonize keep :: calls, r) ->
  existsb is_report calls = succeeded r /\ parent_status (before ++ Daemonize keep :: calls) = if succeeded r then 0%Z else 1%Z.
Proof.
  intros Hd Hm.
  assert (Hb : existsb is_report before = false).
  { apply not_true_iff_false. intros (c & Hc%list_elem_of_In & Hr)%existsb_exists.
    apply list_elem_of_lookup in Hc as [i Hi]. destruct c; try done.
    pose proof (main_phases os config fs) as [Ho _]. rewrite Hm in Ho.
    assert (length before < i); [|apply lookup_lt_Some in Hi; lia].
    eapply (in_order_lookup _ (length before) i (Daemonize keep) ReportSuccess Ho); [|by apply lookup_app_l_Some|cbn; lia].
    apply list_lookup_middle. done. }
  assert (Hc : existsb is_report (before ++ Daemonize keep :: calls) = succeeded r).
  { pose proof (main_cases os config fs) as H. pose proof (setup_phases os config fs) as [_ Hp]. rewrite Hd in H.
    destruct (setup os config fs) as [t0 [st|e]]; rewrite H in Hm; injection Hm as <- <-.
    - rewrite existsb_app. cbn. by rewrite orb_true_r.
    - apply not_true_iff_false. intros (c & Hin%list_elem_of_In & Hr)%existsb_exists.
      rewrite Forall_forall in Hp. specialize (Hp c Hin). destruct c; try done. cbn in Hp. lia. }
  split; [by rewrite existsb_app, Hb in Hc|]. unfold parent_status, is_report in *. rewrite Hc. by destruct (succeeded r).
Qed.

(** C15: the command that starts the server returns, and tells the truth:
    however the three processes are scheduled and whichever of them fails or is
    killed, every run is finite and the original process does not wait for ever; it
    exits with 0 or 1, with 0 only after the daemon has made every call of its
    start and reported success, and without failures from outside exactly with
    the status of the start. *)
Theorem handshake_reports config fs before keep calls r f :
  ServerConfig.daemonize config = true -> main os config fs = (before ++ Daemonize keep :: calls, r) ->
  reachable calls (succeeded r) f ->
  Acc (fun f' f => moves calls (succeeded r) f f') f /\
  (settled calls (succeeded r) f -> original f <> Blocked) /\
  forall code, original f = OriginalExit code ->
    (code = 0%Z \/ code = 1%Z) /\
    (code = 0%Z -> (exists st, r = inl st) /\ reported (daemon f) = true) /\
    (unharmed f = true -> code = parent_status (before ++ Daemonize keep :: calls)).
Proof.
  intros Hd Hm Hr. destruct (report_in_calls _ _ _ _ _ _ Hd Hm) as [Hc ->].
  split_and!; [apply moves_finite|apply settled_original; [congruence|done]|].
  intros code Hcode. destruct (family_inv _ _ f Hr) as [Ht Hp]. unfold told in Ht. rewrite Hcode in Ht.
  assert (Hrep : reported (daemon f) = true -> succeeded r = true).
  { rewrite <- Hc. unfold progressed in Hp. destruct (daemon f) as [|cs b rp|rp]; cbn; [done| |by destruct Hp as (_ & H & _)].
    destruct Hp as (_ & _ & made & -> & ->). rewrite existsb_app. by intros ->. }
  destruct Ht as [_ [[-> H]|(-> & H & Ha & Hmid)]].
  - split_and!; [by left| |by rewrite Hrep]. intros _. split; [|done]. specialize (Hrep H). destruct r; [eauto|done].
  - split_and!; [by right|done|]. intros Hu. unfold progressed in Hp. rewrite Hu in Hp.
    destruct (daemon f) as [|cs b rp|rp]; [naive_solver|done|]. destruct Hp as (_ & _ & Hp). destruct (Hp eq_refl) as [-> _]. done.
Qed.
End Main.

Lemma handshake_reports_witness :
  exists before keep calls st,
    main DemoStart.os DemoStart.config DemoStart.fs = (before ++ Daemonize keep :: calls, inl st) /\
    let f := mkFamily (OriginalExit 0) Handing (Running [] true true) [] true in
    reachable calls true f /\ 0%Z = parent_status (before ++ Daemonize keep :: calls).
Proof.
  destruct (main DemoStart.os DemoStart.config DemoStart.fs) as [trace [st|e]] eqn:E; [|by vm_compute in E].
  assert (Et : (main DemoStart.os DemoStart.config DemoStart.fs).1 = trace) by by rewrite E.
  rewrite demo_start_calls in Et. subst trace.
  set (calls := [ChrootTo _; _; _; _; _; _; _; _; _; _; _; _; _]) in E.
  exists [OpenLog (Some (B "/srv/log"))], false, calls, st. split; [done|].
  assert (Hr : reachable calls true (mkFamily (OriginalExit 0) Handing (Running [] true true) [] true)).
  { unfold reachable, forked. eapply rtc_l; [left; apply detach|].
    do 13 (eapply rtc_l; [left; apply daemon_calls|]). cbn. apply rtc_once. left. apply original_reads. }
  split; [exact Hr|].
  exact (proj2 (proj2 (proj2 (proj2 (handshake_reports DemoStart.os DemoStart.config DemoStart.fs
    [OpenLog (Some (B "/srv/log"))] false calls (inl st) _ eq_refl E Hr)) 0%Z eq_refl)) eq_refl).
Defined.

(** ** [daemonize], without the handshake *)

(** What a call of [fork] gives, seen from the process that made it. *)
Inductive Forked := ForkFailed | InParent | InChild.

(** The answers of the system to one process. *)
Record Tty := mkTty {
  fork_at : nat -> Forked;
  setsid_ok : bool;
  devnull_ok : bool;
  dup2_ok : nat -> bool;
}.

(** The process that goes on: how often it is a child, whether it is in a
    session of its own, and which descriptors point to /dev/null. *)
Record Detached := mkDetached { generation : nat; own_session : bool; nulls : list nat }.

Inductive Leaves := Exits (code : Z) | Fails (what : bytes) | GoesOn (p : Detached).

(** The descriptors in turn, [None] when one cannot be redirected. *)
Fixpoint redirect (t : Tty) (fds : list nat) : option (list nat) :=
  match fds with
  | [] => Some []
  | fd :: fds' => if dup2_ok t fd then cons fd <$> redirect t fds' else None
  end.

Definition daemonize (keep_stdout : bool) (t : Tty) : Leaves :=
  match fork_at t 0 with
  | ForkFailed => Fails (B "first fork")
  | InParent => Exits 0
  | InChild =>
      if negb (setsid_ok t) then Fails (B "setsid")
      else match fork_at t 1 with
           | ForkFailed => Fails (B "second fork")
           | InParent => Exits 0
           | InChild =>
               if negb (devnull_ok t) then Fails (B "opening /dev/null")
               else match redirect t (if keep_stdout then [0; 2] else [0; 1; 2]) with
                    | None => Fails (B "dup2")
                    | Some fds => GoesOn (mkDetached 2 true fds)
                    end
           end
  end.

Lemma redirect_all t fds l : redirect t fds = Some l -> l = fds.
Proof.
  revert l. induction fds as [|fd fds IH]; intros l; cbn; [by intros [= <-]|].
  destruct (dup2_ok t fd); [|done]. destruct (redirect t fds) as [l'|]; [|done]. intros [= <-]. by rewrite (IH l').
Qed.

(** Only a grandchild in a session of its own goes on; its standard input and
    error point to /dev/null, and its standard output unless the access log
    goes there; the processes it leaves behind exit with 0. *)
Theorem daemonize_detaches keep_stdout t :
  match daemonize keep_stdout t with
  | GoesOn p => generation p = 2 /\ own_session p = true /\ 0 ∈ nulls p /\ 2 ∈ nulls p /\ (1 ∈ nulls p <-> keep_stdout = false)
  | Exits code => code = 0%Z /\ (fork_at t 0 = InParent \/ fork_at t 1 = InParent)
  | Fails _ => True
  end.
Proof.
  unfold daemonize. destruct (fork_at t 0) eqn:E0; [done|auto|]. destruct (setsid_ok t); [|done]. cbn [negb].
  destruct (fork_at t 1) eqn:E1; [done|auto|]. destruct (devnull_ok t); [|done]. cbn [negb].
  destruct (redirect _ _) as [l|] eqn:El; [|done]. apply redirect_all in El as ->. cbn.
  destruct keep_stdout; split_and!; try done; set_solver.
Qed.
