(* ===== verification/Legacy.v ===== *)
(** * The C server the port replaces (legacy/src/match.c, libhttpd.c, thttpd.c)

    The routines of the C server that the Rust crates say they translate, in
    the form the C code has them, and the proofs that the port computes the
    same results.  A `char*` is the suffix of the string that starts there:
    reading past the last byte gives the terminating NUL, so strings hold no
    NUL themselves.  `long` has 64 bits. *)

From S2P Require Import Prelude RustStr Match Url Request Throttle.

Definition NUL : byte := chr 0.

(** The byte a pointer refers to. *)
Definition deref (p : bytes) : byte := unwrap_or NUL (head p).

(** ** Patterns: match.c *)

Module CMatch.

(** [strcspn (string, "/")]. *)
Fixpoint strcspn_slash (s : bytes) : nat :=
  match s with
  | [] => 0
  | c :: s' => if c =c? SLASH then 0 else S (strcspn_slash s')
  end.

(** [for ( ; i >= 0; --i )]. *)
Fixpoint down_loop (try_at : nat -> bool) (i : nat) : bool :=
  if try_at i then true else match i with 0 => false | S i' => down_loop try_at i' end.

(** [match_one]: [patternlen] is what is left of the alternative; the pattern
    pointer never passes the end of the string before it is used up. *)
Fixpoint match_one (p : bytes) (patternlen : nat) (string : bytes) {struct p} : bool :=
  match patternlen with
  | 0 => deref string =c? NUL
  | S pl =>
      match p with
      | [] => false
      | c :: p1 =>
          if (c =c? QMARK) && negb (deref string =c? NUL) then match_one p1 pl (tail string)
          else if c =c? STAR then
            match p1 with
            | c2 :: p2 =>
                if c2 =c? STAR
                then down_loop (fun i => match_one p2 (pl - 1) (drop i string)) (length string)
                else down_loop (fun i => match_one p1 pl (drop i string)) (strcspn_slash string)
            | [] => down_loop (fun i => match_one p1 pl (drop i string)) (strcspn_slash string)
            end
          else if negb (c =c? deref string) then false
          else match_one p1 pl (tail string)
      end
  end.

(** The loop of [match]: each round drops an alternative and its `|`. *)
Fixpoint match_loop (rounds : nat) (pattern string : bytes) : bool :=
  match rounds with
  | 0 => false
  | S n =>
      match position (fun c => c =c? BAR) pattern with
      | None => match_one pattern (length pattern) string
      | Some or =>
          if match_one pattern or string then true
          else match_loop n (drop (S or) pattern) string
      end
  end.

Definition match_ (pattern string : bytes) : bool :=
  match_loop (S (length pattern)) pattern string.

(** *** Equivalence with [Match.match_pattern] *)

Lemma down_loop_spec f n : down_loop f n = true <-> exists i, i <= n /\ f i = true.
Proof.
  induction n as [|n IH]; simpl; destruct (f _) eqn:E; split; try done.
  - eauto.
  - intros (i & Hi & H). by replace i with 0 in H by lia; congruence.
  - eauto.
  - rewrite IH. intros (i & Hi & H). exists i. split; [lia|done].
  - rewrite IH. intros (i & Hi & H). exists i. split; [|done].
    destruct (decide (i = S n)); [congruence|lia].
Qed.

Lemma strcspn_slash_spec s n :
  n <= strcspn_slash s <-> n <= length s /\ SLASH ∉ take n s.
Proof.
  revert n. induction s as [|c s IH]; intros [|n]; simpl.
  - split; [split; [lia|apply not_elem_of_nil]|lia].
  - lia.
  - split; [split; [lia|apply not_elem_of_nil]|lia].
  - destruct (Ascii.eqb_spec c SLASH) as [->|Hc].
    + split; [lia|]. intros [_ H]. set_solver.
    + rewrite <- Nat.succ_le_mono, IH. set_solver by lia.
Qed.

Lemma drop_split (P : bytes -> Prop) (Q : bytes -> Prop) s :
  (exists i, i <= length s /\ Q (take i s) /\ P (drop i s)) <->
  (exists u g, s = u ++ g /\ Q u /\ P g).
Proof.
  split.
  - intros (i & Hi & HQ & HP). exists (take i s), (drop i s). by rewrite take_drop.
  - intros (u & g & -> & HQ & HP). exists (length u).
    rewrite take_app_length, drop_app_length, length_app. split; [lia|done].
Qed.

(** A string that can be passed to C. *)
Definition c_string (s : bytes) : Prop := NUL ∉ s.

Lemma deref_cons c s : c_string (c :: s) -> (deref (c :: s) =c? NUL) = false /\ c_string s.
Proof. unfold c_string, deref. simpl. intros H. split; [|set_solver]. apply Ascii.eqb_neq. set_solver. Qed.

Lemma deref_nul s : c_string s -> (deref s =c? NUL) = is_empty s.
Proof. destruct s as [|c s]; [done|]. by intros [-> _]%deref_cons. Qed.

Lemma c_string_drop n s : c_string s -> c_string (drop n s).
Proof. unfold c_string. intros H [i Hi]%list_elem_of_lookup. rewrite lookup_drop in Hi. by apply H, list_elem_of_lookup; eauto. Qed.

Lemma match_one_end p s : c_string s -> match_one p 0 s = true <-> matches [] s.
Proof.
  intros Hs. destruct p; simpl; rewrite deref_nul by done; destruct s; simpl;
    split; try done; auto with thttpd; inversion 1.
Qed.

(** The two wild cards, given what the rest of the alternative matches. *)
Lemma down_loop_star ts m s :
  (forall i, m i = true <-> matches ts (drop i s)) ->
  down_loop m (strcspn_slash s) = true <-> matches (TStar :: ts) s.
Proof.
  intros H. rewrite down_loop_spec, matches_star_inv, <- drop_split.
  apply exist_proper. intros i. rewrite H, strcspn_slash_spec. tauto.
Qed.

Lemma down_loop_glob ts m s :
  (forall i, m i = true <-> matches ts (drop i s)) ->
  down_loop m (length s) = true <-> matches (TGlob :: ts) s.
Proof.
  intros H. rewrite down_loop_spec, matches_glob_inv.
  rewrite <- (exist_proper _ _ (fun u => exist_proper _ _ (fun g =>
    and_iff_compat_l (s = u ++ g) (conj (@proj2 True _) (conj I))))).
  rewrite <- drop_split. apply exist_proper. intros i. rewrite H. tauto.
Qed.

Lemma match_one_spec n a rest s :
  length a <= n -> c_string a -> c_string s -> deref rest <> STAR ->
  match_one (a ++ rest) (length a) s = true <-> matches (tokenize a) s.
Proof.
  revert a s. induction n as [|n IH]; intros a s Hn Ha Hs Hr.
  { destruct a; simpl in Hn; [|lia]. by apply match_one_end. }
  destruct a as [|c a]; [by apply match_one_end|]. simpl in Hn.
  destruct (deref_cons c a Ha) as [Hc Ha']. unfold deref in Hc; simpl in Hc.
  cbn [app length match_one tokenize].
  destruct (Ascii.eqb_spec c QMARK) as [->|Hq]; cbn [andb].
  { destruct s as [|d s]; [simpl; split; [done|inversion 1]|].
    destruct (deref_cons d s Hs) as [-> Hs']. simpl.
    rewrite IH by (done || lia). split; [auto with thttpd|by inversion 1]. }
  destruct (Ascii.eqb_spec c STAR) as [->|Hst].
  - destruct a as [|c2 a].
    + cbn [app length]. destruct rest as [|r rest]; [|rewrite (proj2 (Ascii.eqb_neq r STAR)) by done];
        apply down_loop_star; intros i; by apply match_one_end, c_string_drop.
    + cbn [app length Nat.sub] in *. rewrite Nat.sub_0_r.
      destruct (deref_cons c2 a Ha') as [_ Ha''].
      destruct (Ascii.eqb_spec c2 STAR) as [->|].
      * apply down_loop_glob. intros i. apply IH; try done; [lia|by apply c_string_drop].
      * apply down_loop_star. intros i. apply (IH (c2 :: a)); try done; [simpl; lia|by apply c_string_drop].
  - destruct s as [|d s]; [change (deref []) with NUL; rewrite Hc; split; [done|inversion 1]|].
    destruct (deref_cons d s Hs) as [_ Hs']. change (deref (d :: s)) with d. cbn [tail].
    destruct (Ascii.eqb_spec c d) as [->|]; simpl; [|split; [discriminate|inversion 1; congruence]].
    rewrite IH by (done || lia). split; [auto with thttpd|by inversion 1].
Qed.

Lemma position_bar p :
  match position (fun c => c =c? BAR) p with
  | None => split_on BAR p = [p]
  | Some i => split_on BAR p = take i p :: split_on BAR (drop (S i) p) /\ i < length p /\
              deref (drop i p) = BAR
  end.
Proof.
  unfold split_on. induction p as [|c p IH]; simpl; [done|].
  destruct (Ascii.eqb_spec c BAR) as [->|Hc].
  - split; [done|split; [lia|done]].
  - destruct (position _ p) as [i|]; simpl; [|by rewrite IH].
    destruct IH as (-> & Hi & Hd). split; [done|split; [lia|done]].
Qed.

Lemma match_loop_spec n p s :
  length p < n -> c_string p -> c_string s ->
  match_loop n p s = existsb (fun sub => match_single sub s) (split_on BAR p).
Proof.
  revert p. induction n as [|n IH]; intros p Hn Hp Hs; [lia|]. simpl.
  pose proof (position_bar p) as H. destruct (position _ p) as [i|].
  - destruct H as (-> & Hi & Hd). cbn [existsb].
    assert (Hone : match_one p i s = match_single (take i p) s).
    { apply eq_true_iff_eq. rewrite match_single_spec.
      rewrite <- (take_drop i p) at 1. replace i with (length (take i p)) at 3
        by (rewrite length_take; lia).
      apply (match_one_spec (length (take i p))); try done; [|by rewrite Hd].
      intros Hin. apply Hp. rewrite <- (take_drop i p). set_solver. }
    rewrite Hone, IH; [by destruct (match_single _ _)| |by apply c_string_drop|done].
    rewrite length_drop. lia.
  - rewrite H. cbn [existsb]. rewrite orb_false_r. apply eq_true_iff_eq.
    rewrite match_single_spec. rewrite <- (app_nil_r p) at 1.
    apply (match_one_spec (length p)); done.
Qed.

Lemma match_loop_is_pattern pattern filename :
  c_string pattern -> c_string filename -> match_ pattern filename = match_pattern pattern filename.
Proof. intros Hp Hf. unfold match_. rewrite match_loop_spec by (done || lia). done. Qed.

(** C19: the port matches as the C server does: on any pattern and file name
    that are C strings, [match_pattern] answers what [match] of match.c
    answers, although C tries the lengths of a wild card from the longest down
    and the port from the shortest up. *)
Theorem match_is_legacy pattern filename :
  c_string pattern -> c_string filename ->
  match_pattern pattern filename = match_ pattern filename.
Proof. intros Hp Hf. by rewrite match_loop_is_pattern. Qed.

Lemma match_is_legacy_witness :
  match_pattern (B "**.jpg|img/*.gi?") (B "img/a.gif") = match_ (B "**.jpg|img/*.gi?") (B "img/a.gif")
  /\ match_ (B "**.jpg|img/*.gi?") (B "img/a.gif") = true
  /\ match_ (B "**.jpg|img/*.gi?") (B "img/b/a.gif") = false.
Proof.
  split; [|vm_compute; done].
  apply match_is_legacy; apply (bool_decide_eq_true_1 (_ ∉ _)); vm_compute; reflexivity.
Defined.

End CMatch.

(** ** Request detection: [httpd_got_request] of libhttpd.c *)

Module CRequest.

(** The CHST_ constants of libhttpd.h. *)
Inductive chst :=
| CHST_FIRSTWORD | CHST_FIRSTWS | CHST_SECONDWORD | CHST_SECONDWS | CHST_THIRDWORD
| CHST_THIRDWS | CHST_LINE | CHST_LF | CHST_CR | CHST_CRLF | CHST_CRLFCR | CHST_BOGUS.

(** The GR_ constants are those of the port. *)
Abbreviation GR_NO_REQUEST := GotRequest.NoRequest.
Abbreviation GR_GOT_REQUEST := GotRequest.GotRequest.
Abbreviation GR_BAD_REQUEST := GotRequest.BadRequest.

(** A round of the switch: the new state, and what is returned if anything. *)
Definition switch (s : chst) (c : byte) : chst * option GotRequest.t :=
  match s with
  | CHST_FIRSTWORD =>
      if is_ws c then (CHST_FIRSTWS, None)
      else if (c =c? LF) || (c =c? CR) then (CHST_BOGUS, Some GR_BAD_REQUEST)
      else (s, None)
  | CHST_FIRSTWS =>
      if is_ws c then (s, None)
      else if (c =c? LF) || (c =c? CR) then (CHST_BOGUS, Some GR_BAD_REQUEST)
      else (CHST_SECONDWORD, None)
  | CHST_SECONDWORD =>
      if is_ws c then (CHST_SECONDWS, None)
      else if (c =c? LF) || (c =c? CR) then (s, Some GR_GOT_REQUEST)
      else (s, None)
  | CHST_SECONDWS =>
      if is_ws c then (s, None)
      else if (c =c? LF) || (c =c? CR) then (CHST_BOGUS, Some GR_BAD_REQUEST)
      else (CHST_THIRDWORD, None)
  | CHST_THIRDWORD =>
      if is_ws c then (CHST_THIRDWS, None)
      else if c =c? LF then (CHST_LF, None)
      else if c =c? CR then (CHST_CR, None)
      else (s, None)
  | CHST_THIRDWS =>
      if is_ws c then (s, None)
      else if c =c? LF then (CHST_LF, None)
      else if c =c? CR then (CHST_CR, None)
      else (CHST_BOGUS, Some GR_BAD_REQUEST)
  | CHST_LINE =>
      if c =c? LF then (CHST_LF, None)
      else if c =c? CR then (CHST_CR, None)
      else (s, None)
  | CHST_LF =>
      if c =c? LF then (s, Some GR_GOT_REQUEST)
      else if c =c? CR then (CHST_CR, None)
      else (CHST_LINE, None)
  | CHST_CR =>
      if c =c? LF then (CHST_CRLF, None)
      else if c =c? CR then (s, Some GR_GOT_REQUEST)
      else (CHST_LINE, None)
  | CHST_CRLF =>
      if c =c? LF then (s, Some GR_GOT_REQUEST)
      else if c =c? CR then (CHST_CRLFCR, None)
      else (CHST_LINE, None)
  | CHST_CRLFCR =>
      if (c =c? LF) || (c =c? CR) then (s, Some GR_GOT_REQUEST)
      else (CHST_LINE, None)
  | CHST_BOGUS => (s, Some GR_BAD_REQUEST)
  end.

(** The fields of the connection the function uses. *)
Record httpd_conn := mkHc {
  read_buf : bytes;
  read_idx : nat;
  checked_idx : nat;
  checked_state : chst;
}.

(** [rounds] is [read_idx - checked_idx]; a return leaves [checked_idx] on the
    byte that decided. *)
Fixpoint got_loop (rounds : nat) (hc : httpd_conn) : GotRequest.t * httpd_conn :=
  match rounds with
  | 0 => (GR_NO_REQUEST, hc)
  | S n =>
      match switch (checked_state hc) (deref (drop (checked_idx hc) (read_buf hc))) with
      | (s, Some r) => (r, mkHc (read_buf hc) (read_idx hc) (checked_idx hc) s)
      | (s, None) => got_loop n (mkHc (read_buf hc) (read_idx hc) (S (checked_idx hc)) s)
      end
  end.

Definition httpd_got_request (hc : httpd_conn) : GotRequest.t * httpd_conn :=
  got_loop (read_idx hc - checked_idx hc) hc.

(** The reads of a connection, as [Request.feed] has them. *)
Definition c_resume (acc : GotRequest.t * httpd_conn) (n : nat) : GotRequest.t * httpd_conn :=
  match acc with
  | (GR_NO_REQUEST, hc) =>
      httpd_got_request (mkHc (read_buf hc) n (checked_idx hc) (checked_state hc))
  | _ => acc
  end.

Definition c_feed (buf : bytes) (reads : list nat) (i : nat) (s : chst) :=
  foldl c_resume (GR_NO_REQUEST, mkHc buf i i s) reads.

(** *** Equivalence with [Request.got_request] *)

(** The state of the port for a state of C. *)
Definition port_state (s : chst) : ParseState.t :=
  match s with
  | CHST_FIRSTWORD => ParseState.FirstWord
  | CHST_FIRSTWS => ParseState.FirstWs
  | CHST_SECONDWORD => ParseState.SecondWord
  | CHST_SECONDWS => ParseState.SecondWs
  | CHST_THIRDWORD => ParseState.ThirdWord
  | CHST_THIRDWS => ParseState.ThirdWs
  | CHST_LINE => ParseState.Line
  | CHST_LF => ParseState.Lf
  | CHST_CR => ParseState.Cr
  | CHST_CRLF => ParseState.Crlf
  | CHST_CRLFCR => ParseState.Crlfcr
  | CHST_BOGUS => ParseState.Bogus
  end.

(** What the port holds after a call, from what C holds. *)
Definition port_result (out : GotRequest.t * httpd_conn) : GotRequest.t * nat * ParseState.t :=
  let '(r, hc) := out in
  match r with
  | GotRequest.GotRequest => (r, S (checked_idx hc), ParseState.GotRequest)
  | _ => (r, checked_idx hc, port_state (checked_state hc))
  end.

Lemma switch_step s c :
  s <> CHST_BOGUS ->
  match switch s c with
  | (s', None) => fsm_step (port_state s) c = Continue (port_state s') /\ s' <> CHST_BOGUS
  | (s', Some GotRequest.GotRequest) => fsm_step (port_state s) c = got /\ s' <> CHST_BOGUS
  | (s', Some GotRequest.BadRequest) =>
      fsm_step (port_state s) c = bad /\ s' = CHST_BOGUS
  | (_, Some GotRequest.NoRequest) => False
  end.
Proof.
  intros Hs. destruct s; try done; unfold switch, fsm_step, port_state, is_eol;
    destruct (is_ws c) eqn:?; destruct (Ascii.eqb_spec c LF) as [->|?]; try done;
    destruct (Ascii.eqb_spec c CR) as [->|?]; done.
Qed.

Lemma got_loop_port n buf r i s :
  s <> CHST_BOGUS -> i + n <= length buf ->
  let out := got_loop n (mkHc buf r i s) in
  got_request_loop n buf i (port_state s) = Some (port_result out) /\
  read_buf out.2 = buf /\
  (out.1 <> GR_BAD_REQUEST -> checked_state out.2 <> CHST_BOGUS).
Proof.
  revert i s. induction n as [|n IH]; intros i s Hs Hn; [done|].
  cbn [got_loop got_request_loop checked_idx checked_state CRequest.read_buf].
  destruct (lookup_lt_is_Some_2 buf i) as [c Hc]; [lia|].
  assert (Hd : deref (drop i buf) = c) by (unfold deref; by rewrite (drop_S buf c i Hc)).
  rewrite Hc, Hd. cbn [mbind option_bind]. pose proof (switch_step s c Hs) as H.
  destruct (switch s c) as [s' [[]|]]; try done.
  - destruct H as [-> ?]. done.
  - destruct H as [-> ->]. done.
  - destruct H as [-> Hs']. apply (IH (S i) s'); [done|lia].
Qed.

Lemma feed_port buf i s (reads : list nat) :
  s <> CHST_BOGUS -> Forall (fun n => n <= length buf) reads ->
  let out := c_feed buf reads i s in
  feed buf reads i (port_state s) = Some (port_result out) /\ read_buf out.2 = buf /\
  (out.1 <> GR_BAD_REQUEST -> checked_state out.2 <> CHST_BOGUS).
Proof.
  intros Hs Hr. induction reads as [|n reads IH] using rev_ind; [done|].
  apply Forall_app in Hr as [Hr Hn]. apply Forall_cons in Hn as [Hn _].
  unfold c_feed in *. rewrite feed_app, foldl_app. destruct (IH Hr) as (-> & Hb & Hst).
  destruct (foldl c_resume _ reads) as [[] hc]; cbn [fst snd] in *; subst buf; try done.
  cbn [foldl c_resume port_result resume]. unfold got_request, httpd_got_request.
  cbn [read_idx checked_idx].
  destruct (decide (checked_idx hc <= n)).
  - apply got_loop_port; [by apply Hst|lia].
  - replace (n - checked_idx hc) with 0 by lia. done.
Qed.

(** The state of a bad request: the port stays, C answers again. *)
Lemma bogus_feed buf i reads :
  Forall (fun n => n <= length buf) reads ->
  feed buf reads i ParseState.Bogus = Some (GR_NO_REQUEST, i, ParseState.Bogus).
Proof.
  unfold feed. induction 1 as [|n reads Hn _ IH]; [done|]. cbn [foldl resume].
  assert (E : got_request buf i n ParseState.Bogus = Some (GR_NO_REQUEST, i, ParseState.Bogus)); [|by rewrite E].
  unfold got_request. destruct (n - i) as [|m] eqn:Em; [done|]. cbn [got_request_loop].
  destruct (lookup_lt_is_Some_2 buf i) as [c ->]; [lia|]. done.
Qed.

Lemma bogus_c_feed buf i r reads :
  Exists (fun n => i < n) reads ->
  exists n, foldl c_resume (GR_NO_REQUEST, mkHc buf r i CHST_BOGUS) reads = (GR_BAD_REQUEST, mkHc buf n i CHST_BOGUS).
Proof.
  intros H. revert r. induction H as [n reads Hn|n reads _ IH]; intros r; cbn [foldl c_resume];
    unfold httpd_got_request; cbn [read_idx checked_idx read_buf checked_state].
  - destruct (n - i) as [|m] eqn:Em; [lia|]. cbn [got_loop switch checked_state]. exists n. by induction reads.
  - destruct (n - i) as [|m]; [apply IH|]. cbn [got_loop switch checked_state]. exists n. by clear; induction reads.
Qed.

(** C17: the port finds the end of a request where the C server does, however
    the bytes arrive.  From every state of a connection that is still being
    read, [got_request] gives the verdict of [httpd_got_request]; the position
    is that of C for an incomplete and for a bad request and one byte further
    for a complete one, and the new state is the one that corresponds, or
    [GotRequest] for a complete request.  They differ in the one state that
    neither enters without having answered, that of a bad request: called
    again there with a byte to read, C says bad request once more and the port
    says that there is no request yet. *)
Theorem got_request_is_legacy buf i s (reads : list nat) :
  Forall (fun n => n <= length buf) reads ->
  let '(r, hc) := c_feed buf reads i s in
  (s <> CHST_BOGUS ->
   feed buf reads i (port_state s) =
     Some (r, checked_idx hc + (if bool_decide (r = GR_GOT_REQUEST) then 1 else 0),
           if bool_decide (r = GR_GOT_REQUEST) then ParseState.GotRequest else port_state (checked_state hc)) /\
   (checked_state hc = CHST_BOGUS -> r = GR_BAD_REQUEST)) /\
  (s = CHST_BOGUS -> Exists (fun n => i < n) reads ->
   r = GR_BAD_REQUEST /\ checked_idx hc = i /\ feed buf reads i (port_state s) = Some (GR_NO_REQUEST, i, ParseState.Bogus)).
Proof.
  intros Hr. destruct (c_feed buf reads i s) as [r hc] eqn:Ec. split.
  - intros Hs. destruct (feed_port buf i s reads Hs Hr) as (-> & _ & Hst). rewrite Ec in *. cbn [fst snd port_result] in *.
    split.
    + destruct r; [rewrite !bool_decide_false, Nat.add_0_r by done|rewrite !bool_decide_true, Nat.add_1_r by done
        |rewrite !bool_decide_false, Nat.add_0_r by done]; done.
    + intros Hb. destruct r; [exfalso; by apply Hst|exfalso; by apply Hst|done].
  - intros -> Hex. destruct (bogus_c_feed buf i i reads Hex) as (n & E). unfold c_feed in Ec. rewrite E in Ec. injection Ec as <- <-.
    split; [done|]. split; [done|]. by apply bogus_feed.
Qed.

Lemma got_request_is_legacy_witness :
  feed (B "GET / HTTP/1.0" ++ crlf2) [5; 16; 18] 0 ParseState.FirstWord = Some (GR_GOT_REQUEST, 18, ParseState.GotRequest) /\
  (c_feed (B "GET / HTTP/1.0" ++ crlf2) [5; 16; 18] 0 CHST_FIRSTWORD).1 = GR_GOT_REQUEST /\
  feed (B "GET") [2] 0 ParseState.Bogus = Some (GR_NO_REQUEST, 0, ParseState.Bogus).
Proof.
  set (buf := B "GET / HTTP/1.0" ++ crlf2).
  assert (E : c_feed buf [5; 16; 18] 0 CHST_FIRSTWORD = (GR_GOT_REQUEST, mkHc buf 18 17 CHST_CRLFCR)) by (by vm_compute).
  assert (E' : c_feed (B "GET") [2] 0 CHST_BOGUS = (GR_BAD_REQUEST, mkHc (B "GET") 2 0 CHST_BOGUS)) by (by vm_compute).
  assert (Hb : Forall (fun n => n <= length buf) [5; 16; 18])
    by (repeat constructor; apply Nat.leb_le; vm_compute; reflexivity).
  assert (Hb' : Forall (fun n => n <= length (B "GET")) [2])
    by (repeat constructor; apply Nat.leb_le; vm_compute; reflexivity).
  pose proof (got_request_is_legacy buf 0 CHST_FIRSTWORD [5; 16; 18] Hb) as H. rewrite E in H.
  pose proof (got_request_is_legacy (B "GET") 0 CHST_BOGUS [2] Hb') as H'. rewrite E' in H'.
  destruct H as [H _]. destruct H' as [_ H'].
  split; [|split; [by rewrite E|]].
  - exact (proj1 (H ltac:(discriminate))).
  - exact (proj2 (proj2 (H' eq_refl (Exists_cons_hd _ _ _ Nat.lt_0_2)))).
Defined.

End CRequest.

(** ** URL decoding: [hexit] and [strdecode] of libhttpd.c *)

Module CUrl.

Local Open Scope Z_scope.

Definition PLUS : byte := "+"%char.

Definition isxdigit (c : byte) : bool :=
  in_range 48 57 (code c) || in_range 97 102 (code c) || in_range 65 70 (code c).

Definition hexit (c : byte) : Z :=
  if in_range 48 57 (code c) then code c - 48
  else if in_range 97 102 (code c) then code c - 97 + 10
  else if in_range 65 70 (code c) then code c - 65 + 10
  else 0.

(** The bytes written to [to] before the terminating NUL.  The two reads past
    the percent sign stop at the end of the string, which is no hex digit. *)
Fixpoint strdecode (from : bytes) : bytes :=
  match from with
  | [] => []
  | c :: from1 =>
      if (c =c? "%"%char) && isxdigit (deref from1) && isxdigit (deref (tail from1)) then
        match from1 with
        | h :: l :: from3 => chr (hexit h * 16 + hexit l) :: strdecode from3
        | _ => c :: strdecode from1
        end
      else c :: strdecode from1
  end.

(** *** Comparison with [Url.percent_decode] *)

Definition plus_to_space (c : byte) : byte := if c =c? PLUS then SP else c.

Lemma from_hex_legacy c : from_hex c = if isxdigit c then Some (hexit c) else None.
Proof.
  unfold from_hex, isxdigit, hexit.
  destruct (in_range 48 57 _), (in_range 97 102 _), (in_range 65 70 _); done.
Qed.

Lemma strdecode_escape h l s :
  strdecode ("%"%char :: h :: l :: s) =
    if isxdigit h && isxdigit l then chr (hexit h * 16 + hexit l) :: strdecode s
    else "%"%char :: strdecode (h :: l :: s).
Proof. done. Qed.

Lemma strdecode_short c h : strdecode [c; h] = [c; h].
Proof. cbn [strdecode deref tail unwrap_or head]. change (isxdigit NUL) with false. by rewrite !andb_false_r. Qed.

Lemma strdecode_one c : strdecode [c] = [c].
Proof. cbn [strdecode deref tail unwrap_or head]. change (isxdigit NUL) with false. by rewrite !andb_false_r. Qed.

Lemma isxdigit_plus c : isxdigit c = true -> (c =c? PLUS) = false /\ plus_to_space c = c.
Proof. unfold plus_to_space. by destruct (Ascii.eqb_spec c PLUS) as [->|]. Qed.

Lemma isxdigit_space c : isxdigit (plus_to_space c) = isxdigit c.
Proof. unfold plus_to_space. by destruct (Ascii.eqb_spec c PLUS) as [->|]. Qed.

(** One step of the two decoders, by what is at the head. *)
Lemma strdecode_cases s :
  s = [] \/
  (exists h l s', s = "%"%char :: h :: l :: s' /\ isxdigit h = true /\ isxdigit l = true) \/
  (exists c s', s = c :: s' /\ strdecode s = c :: strdecode s' /\
     strdecode (plus_to_space <$> s) = plus_to_space c :: strdecode (plus_to_space <$> s') /\
     decode_bytes s = plus_to_space c :: decode_bytes s').
Proof.
  destruct s as [|c s]; [by left|right].
  destruct (Ascii.eqb_spec c "%"%char) as [->|Hc].
  - destruct s as [|h [|l s]];
      [right; by repeat eexists|right; exists "%"%char, [h]; cbn [fmap list_fmap];
        by rewrite !strdecode_short, !strdecode_one|].
    destruct (isxdigit h && isxdigit l) eqn:E; [left; apply andb_true_iff in E as [? ?]; by eauto 8|].
    right. exists "%"%char, (h :: l :: s). split; [done|].
    change (plus_to_space <$> "%"%char :: h :: l :: s)
      with ("%"%char :: plus_to_space h :: plus_to_space l :: (plus_to_space <$> s)).
    rewrite !strdecode_escape, !isxdigit_space, E. repeat split.
    cbn [decode_bytes]. rewrite !from_hex_legacy. simpl.
    destruct (isxdigit h), (isxdigit l); done.
  - right. exists c, s. split; [done|].
    assert (Hp : (plus_to_space c =c? "%"%char) = false)
      by (unfold plus_to_space; case_match; [done|by apply Ascii.eqb_neq]).
    cbn [fmap list_fmap strdecode decode_bytes]. rewrite Hp.
    rewrite (proj2 (Ascii.eqb_neq c "%"%char) Hc). cbn [andb]. repeat split.
    unfold plus_to_space, PLUS. by destruct (c =c? _).
Qed.

Lemma decode_legacy n s :
  (length s <= n)%nat ->
  decode_bytes s = strdecode (plus_to_space <$> s) /\
  (decode_bytes s = strdecode s <-> PLUS ∉ s).
Proof.
  revert s. induction n as [|n IH]; intros s Hn.
  { destruct s; [|simpl in Hn; lia]. split; [done|]. split; [intros _; apply not_elem_of_nil|done]. }
  destruct (strdecode_cases s) as [->|[(h & l & s' & -> & Hh & Hl)|(c & s' & -> & E1 & E2 & E3)]].
  - split; [done|]. split; [intros _; apply not_elem_of_nil|done].
  - simpl in Hn. destruct (IH s') as [I1 I2]; [lia|].
    destruct (isxdigit_plus h Hh) as [Ph Eh], (isxdigit_plus l Hl) as [Pl El].
    change (plus_to_space <$> "%"%char :: h :: l :: s')
      with ("%"%char :: plus_to_space h :: plus_to_space l :: (plus_to_space <$> s')).
    rewrite Eh, El, !strdecode_escape, Hh, Hl. cbn [andb].
    rewrite (decode_bytes_escape h l (hexit h) (hexit l)) by by rewrite from_hex_legacy, ?Hh, ?Hl.
    rewrite I1. split; [done|]. rewrite <- I1. apply Ascii.eqb_neq in Ph, Pl.
    rewrite !not_elem_of_cons, <- I2. split; [intros [= H]; by repeat split|intros (_ & _ & _ & ->); done].
  - simpl in Hn. destruct (IH s') as [I1 I2]; [lia|]. rewrite E1, E2, E3, <- I1. split; [done|].
    rewrite not_elem_of_cons, <- I2. unfold plus_to_space.
    destruct (Ascii.eqb_spec c PLUS) as [->|]; [split; [done|intros [? _]; done]|].
    split; [intros [= ->]; done|by intros [_ ->]].
Qed.

(** URL decoding against the C server: [percent_decode] is [strdecode]
    applied to the URL with every `+` turned into a space, when that is UTF-8;
    so the bytes decoded are those of C exactly for URLs without a `+`. *)
Theorem percent_decode_legacy url :
  (valid_utf8 (strdecode (plus_to_space <$> url)) = true ->
   percent_decode url = strdecode (plus_to_space <$> url)) /\
  (decode_bytes url = strdecode url <-> PLUS ∉ url).
Proof.
  destruct (decode_legacy (length url) url) as [E1 E2]; [lia|]. split; [|done].
  intros H. unfold percent_decode. rewrite E1. by apply from_utf8_lossy_valid.
Qed.

Lemma percent_decode_legacy_witness :
  percent_decode (B "/a%20b%zz+c") = strdecode (plus_to_space <$> B "/a%20b%zz+c") /\
  percent_decode (B "/a%20b%zz+c") = B "/a b%zz c".
Proof.
  split; [|vm_compute; reflexivity].
  apply (proj1 (percent_decode_legacy (B "/a%20b%zz+c"))). vm_compute. reflexivity.
Defined.

(** A file whose name has a plus sign is served by the C server and not found
    by the port, which looks for a name with a space. *)
Example plus_in_names :
  strdecode (B "/c++.html") = B "/c++.html" /\ percent_decode (B "/c++.html") = B "/c  .html".
Proof. vm_compute. split; reflexivity. Qed.

End CUrl.

(** ** Admission: [check_throttles] and [clear_throttles] of thttpd.c *)

Module CThrottle.

Local Open Scope Z_scope.

(** The fields of a connection that concern its throttles; [numtnums] is the
    length of [tnums].  The throttle table is that of the port.  Arithmetic is
    unbounded: the results are compared where C has no overflow. *)
Record connecttab := mkConnect {
  tnums : list nat;
  c_max_limit : Z;
  c_min_limit : Z;
}.

(** A matching entry that is not over its limits: its new state, and that of
    the connection. *)
Definition take_entry (tnum : nat) (e : ThrottleEntry) (c : connecttab) : ThrottleEntry * connecttab :=
  let e := if num_sending e <? 0 then set_num_sending 0 e else e in
  let e := set_num_sending (num_sending e + 1) e in
  let l := Z.quot (max_limit e) (num_sending e) in
  (e, mkConnect (tnums c ++ [tnum])
        (if c_max_limit c =? THROTTLE_NOLIMIT then l else Z.min (c_max_limit c) l)
        (if c_min_limit c =? THROTTLE_NOLIMIT then min_limit e
         else Z.max (c_min_limit c) (min_limit e))).

Fixpoint check_from (filename : bytes) (seen todo : ThrottleTable) (c : connecttab) :
    bool * connecttab * ThrottleTable :=
  match todo with
  | [] => (true, c, seen)
  | e :: todo' =>
      if negb (length (tnums c) <? MAX_THROTTLE_NUMS)%nat then (true, c, seen ++ todo)
      else if CMatch.match_ (pattern e) filename then
        if max_limit e * 2 <? rate e then (false, c, seen ++ todo)
        else if rate e <? min_limit e then (false, c, seen ++ todo)
        else
          let '(e', c') := take_entry (length seen) e c in
          check_from filename (seen ++ [e']) todo' c'
      else check_from filename (seen ++ [e]) todo' c
  end.

Definition check_throttles (filename : bytes) (t : ThrottleTable) :
    bool * connecttab * ThrottleTable :=
  check_from filename [] t (mkConnect [] THROTTLE_NOLIMIT THROTTLE_NOLIMIT).

Definition clear_throttles (c : connecttab) (t : ThrottleTable) : ThrottleTable :=
  foldl (fun t tnum => alter (fun e => set_num_sending (num_sending e - 1) e) tnum t) t (tnums c).

(** *** Equivalence with [Throttle.check_request] *)

(** Where the arithmetic of C does not overflow: the counts are [int], twice
    the limit a [long]. *)
Definition defined (e : ThrottleEntry) : Prop :=
  0 <= num_sending e < 2 ^ 31 - 1 /\ - 2 ^ 62 <= max_limit e < 2 ^ 62 /\
  CMatch.c_string (pattern e).

(** The counts reached during a run. *)
Definition countable (e : ThrottleEntry) : Prop := 0 <= num_sending e < 2 ^ 32.

(** What the port answers, from what C leaves: a request that C turns away
    has its counts undone when its connection is closed. *)
Definition port_decision (out : bool * connecttab * ThrottleTable) :
    ThrottleDecision * ThrottleTable :=
  let '(ok, c, t) := out in
  if ok then
    (if is_empty (tnums c) then Unlimited else Allow (tnums c) (c_max_limit c) (c_min_limit c), t)
  else (Reject, clear_throttles c t).

Lemma clear_legacy c t :
  NoDup (tnums c) -> Forall countable t -> clear_throttles c t = clear (tnums c) t.
Proof.
  intros Hnd Ht. apply list_eq. intros i. unfold clear_throttles. 
  rewrite lookup_clear, lookup_foldl_alter by done.
  case_decide; [|done]. destruct (t !! i) as [x|] eqn:E; [|done].
  eapply Forall_lookup_1 in Ht; [|exact E]. unfold countable in Ht. simpl.
  by rewrite wrap_s_small by lia.
Qed.

Lemma take_entry_port tnum e c :
  defined e ->
  let '(e', c') := take_entry tnum e c in
  e' = bump e /\ countable e' /\ tnums c' = tnums c ++ [tnum] /\
  c_max_limit c' = min_share (c_max_limit c) (Z.quot (max_limit e') (num_sending e')) /\
  c_min_limit c' = max_floor (c_min_limit c) (min_limit e').
Proof.
  intros (Hn & _). unfold take_entry. destruct (Z.ltb_spec (num_sending e) 0); [lia|].
  rewrite bump_counts by lia. repeat split; simpl; lia.
Qed.

Lemma check_from_port filename seen todo c :
  CMatch.c_string filename -> Forall defined todo -> Forall countable seen ->
  NoDup (tnums c) -> Forall (fun i => (i < length seen)%nat) (tnums c) ->
  check_loop filename seen todo (tnums c) (c_max_limit c) (c_min_limit c) =
  port_decision (check_from filename seen todo c).
Proof.
  intros Hf. revert seen c. induction todo as [|e todo IH]; intros seen c Hd Hs Hnd Hlt; [done|].
  cbn [check_loop check_from]. apply Forall_cons in Hd as [He Hd].
  assert (Hce : countable e) by (destruct He as (? & _); unfold countable; lia).
  destruct (Nat.leb_spec MAX_THROTTLE_NUMS (length (tnums c))) as [Hl|Hl];
    destruct (Nat.ltb_spec (length (tnums c)) MAX_THROTTLE_NUMS) as [Hl'|Hl']; try lia;
    cbn [negb]; [done|].
  rewrite CMatch.match_loop_is_pattern by (done || apply He).
  assert (Hlt' : Forall (fun i => (i < length (seen ++ [e]))%nat) (tnums c))
    by (rewrite length_app; eapply Forall_impl; [exact Hlt|]; simpl; lia).
  destruct (match_pattern (pattern e) filename).
  - assert (Ho : over_limit e = (max_limit e * 2 <? rate e) || (rate e <? min_limit e)).
    { destruct He as (_ & Hm & _). unfold over_limit. by rewrite wrap_s_small by lia. }
    assert (Hcl : clear (tnums c) (seen ++ e :: todo) = clear_throttles c (seen ++ e :: todo)).
    { symmetry. apply clear_legacy; [done|]. apply Forall_app. split; [done|]. constructor; [done|].
      eapply Forall_impl; [exact Hd|]. intros x (? & _). unfold countable. lia. }
    rewrite Ho, Hcl. destruct (_ <? rate e); [done|]. destruct (rate e <? _); [done|]. cbn [orb].
    pose proof (take_entry_port (length seen) e c He) as Ht.
    destruct (take_entry (length seen) e c) as [e' c']. destruct Ht as (-> & Hc' & Et & <- & <-).
    rewrite <- Et. apply IH; [done| | |].
    + apply Forall_app. split; [done|]. by apply Forall_singleton.
    + rewrite Et. apply NoDup_app. split; [done|]. split; [|apply NoDup_singleton].
      intros x Hx ->%list_elem_of_singleton. eapply Forall_forall in Hlt; [|exact Hx]. simpl in Hlt. lia.
    + rewrite Et, length_app in *. apply Forall_app. split; [done|]. repeat constructor. simpl. lia.
  - apply IH; try done. apply Forall_app. split; [done|]. by apply Forall_singleton.
Qed.

(** C18: admission is that of the C server: [check_request] decides as
    [check_throttles] does and grants the same limits on the same entries; a
    request that C turns away leaves in the port the counts that C has once
    [clear_throttles] has run for its connection. *)
Theorem check_request_is_legacy filename t :
  CMatch.c_string filename -> Forall defined t ->
  check_request filename t = port_decision (check_throttles filename t).
Proof.
  intros Hf Ht. unfold check_request, check_throttles. destruct t as [|e t]; [done|].
  apply (check_from_port filename [] (e :: t) (mkConnect [] THROTTLE_NOLIMIT THROTTLE_NOLIMIT));
    try done; apply NoDup_nil_2 || constructor.
Qed.

Lemma check_request_is_legacy_witness :
  let t := [mkThrottle (B "**.jpg") 1000 0 500 0 1; mkThrottle (B "img/**") 50 0 500 0 3] in
  check_request (B "img/a.jpg") t = port_decision (check_throttles (B "img/a.jpg") t) /\
  (check_throttles (B "img/a.jpg") t).1.1 = false /\
  clear_throttles (check_throttles (B "img/a.jpg") t).1.2 (check_throttles (B "img/a.jpg") t).2 = t.
Proof.
  cbv zeta. split; [|vm_compute; split; reflexivity].
  assert (Hc : forall s, bool_decide (NUL ∉ s) = true -> CMatch.c_string s)
    by (intros s; apply bool_decide_eq_true_1).
  apply check_request_is_legacy; [apply Hc; vm_compute; reflexivity|].
  repeat constructor; try (vm_compute; congruence); apply Hc; vm_compute; reflexivity.
Defined.

End CThrottle.
