(* ===== verification/LegacyTick.v ===== *)
(** * The periodic throttle update of the C server (legacy/src/thttpd.c:
      [update_throttles]) beside that of the event loop

    C arithmetic is unbounded here: the results are compared where [long] does
    not overflow. *)

From S2P Require Import Prelude RustStr Match Tdate Url Request HttpConn Response Wire.
From S2P Require Import Timers Mime Mmc Throttle Auth Cgi Dirlist Server EventLoop Dispatch Invariants Run Serving.

Local Open Scope Z_scope.

Module CTick.

(** The states of a connection, and the fields the update reads and writes. *)
Inductive conn_state := CNST_FREE | CNST_READING | CNST_SENDING | CNST_PAUSING | CNST_LINGERING.

Record connecttab := mkConnect { c_state : conn_state; c_tnums : list nat; c_max_limit : Z }.

(** The new average of an entry; the log messages are left out. *)
Definition average (e : ThrottleEntry) : ThrottleEntry :=
  mkThrottle (pattern e) (max_limit e) (min_limit e)
    (Z.quot (2 * rate e + Z.quot (bytes_since_avg e) THROTTLE_TIME) 3) 0 (num_sending e).

(** The inner loop: the least share of the entries of a connection. *)
Definition share (tnums : list nat) (throttles : ThrottleTable) : Z :=
  foldl (fun acc tnum =>
           match throttles !! tnum with
           | Some e =>
               let l := Z.quot (max_limit e) (num_sending e) in
               if acc =? THROTTLE_NOLIMIT then l else Z.min acc l
           | None => acc
           end) THROTTLE_NOLIMIT tnums.

Definition redistribute (throttles : ThrottleTable) (c : connecttab) : connecttab :=
  match c_state c with
  | CNST_SENDING | CNST_PAUSING => mkConnect (c_state c) (c_tnums c) (share (c_tnums c) throttles)
  | _ => c
  end.

Definition update_throttles (throttles : ThrottleTable) (connects : list connecttab) :
    ThrottleTable * list connecttab :=
  let throttles := average <$> throttles in
  (throttles, redistribute throttles <$> connects).

(** *** Against the event loop *)

(** The connection of the port, as C would have it. *)
Definition c_conn (sl : ConnSlot.t) : connecttab :=
  mkConnect match ConnSlot.state sl with
            | Free => CNST_FREE
            | Reading => CNST_READING
            | Sending => CNST_SENDING
            | Pausing => CNST_PAUSING
            | Lingering => CNST_LINGERING
            end (tnums_of sl) (ConnThrottle.max_limit (ConnSlot.throttle sl)).

(** Averages that [long] can hold. *)
Definition averageable (e : ThrottleEntry) : Prop :=
  - 2 ^ 61 <= rate e < 2 ^ 61 /\ - 2 ^ 61 <= bytes_since_avg e < 2 ^ 61.

Lemma average_port e : averageable e -> update_rate e = average e.
Proof.
  intros [Hr Hb]. unfold update_rate, average, THROTTLE_TIME in *.
  assert (Hq : - 2 ^ 61 <= Z.quot (bytes_since_avg e) 2 <= 2 ^ 61).
  { pose proof (Z.quot_rem (bytes_since_avg e) 2 ltac:(lia)).
    pose proof (Z.rem_bound_abs (bytes_since_avg e) 2 ltac:(lia)). lia. }
  revert Hq. generalize (Z.quot (bytes_since_avg e) 2) as q. intros q Hq.
  rewrite (wrap_s_small 64 (2 * rate e)), wrap_s_small by lia. done.
Qed.

Lemma averages_port t : Forall averageable t -> update_averages t = average <$> t.
Proof. induction 1 as [|e t He _ IH]; [done|]. unfold update_averages in *. cbn. by rewrite IH, average_port. Qed.

(** With a sender on each entry no division is by zero. *)
Lemma share_port tnums t :
  (forall i e, i ∈ tnums -> t !! i = Some e -> 1 <= num_sending e) -> share tnums t = fair_share_for tnums t.
Proof.
  intros H. unfold share, fair_share_for.
  match goal with |- foldl ?f _ _ = foldl ?g _ _ => assert (G : forall acc, foldl f acc tnums = foldl g acc tnums) end;
    [|apply G].
  induction tnums as [|i l IH]; intros acc; [done|]. cbn [foldl]. rewrite IH by set_solver.
  f_equal. destruct (t !! i) as [e|] eqn:E; [|done]. unfold min_share.
  rewrite Z.max_l by (apply (H i); [set_solver|done]). done.
Qed.

(** A paused connection that the tick wakes. *)
Definition woken {W : World} (sl : ConnSlot.t) : bool :=
  bool_decide (ConnSlot.state sl = Pausing) && ConnThrottle.is_throttled (ConnSlot.throttle sl)
  && is_some (ConnThrottle.pause_until (ConnSlot.throttle sl)) && pause_over sl.

Lemma wake_slot_woken {W : World} t sl :
  wake_slot (Some t) sl = if woken sl then register WRITABLE (resume_sending (Some t) sl) else sl.
Proof. reflexivity. Qed.

(** C20: the update every two seconds against the C server: in a reachable
    state whose averages fit a [long], the averages are those of C; a paused
    connection that is woken gets the share that C gives it; but every other
    connection keeps its old limit, where C gives a new share to all that
    send or pause. *)
Theorem tick_against_legacy {W : World} s t k sl :
  reachable s -> throttles s = Some t -> Forall averageable t -> conns s !! k = Some sl ->
  let c := update_throttles t [c_conn sl] in
  throttles (throttle_tick s) = Some c.1 /\
  exists sl', conns (throttle_tick s) !! k = Some sl' /\
    if woken sl then c.2 = [mkConnect CNST_PAUSING (tnums_of sl) (ConnThrottle.max_limit (ConnSlot.throttle sl'))]
    else sl' = sl.
Proof.
  intros Hr Ht Ha Hk. cbn [update_throttles fst snd]. unfold throttle_tick. rewrite Ht. cbn [fmap option_fmap option_map].
  rewrite averages_port by done. split; [done|]. simpl. rewrite lookup_fmap, Hk. eexists. split; [reflexivity|].
  cbn [fmap]. rewrite wake_slot_woken. destruct (woken sl) eqn:Hw; [|done].
  unfold woken in Hw. rewrite !andb_true_iff, bool_decide_eq_true in Hw. destruct Hw as [[[Hp _] _] _].
  unfold redistribute, c_conn. cbn -[share fair_share_for]. rewrite Hp. cbn -[share fair_share_for]. do 2 f_equal.
  rewrite share_port.
  - unfold register, resume_sending. cbn. by destruct (ConnSlot.stream sl) as [[]|].
  - intros i e Hi. rewrite list_lookup_fmap. destruct (t !! i) as [e0|] eqn:E; [|done]. intros [= <-]. cbn.
    pose proof (inv_conserved _ (reachable_inv s Hr)) as Hc. rewrite Ht in Hc. rewrite (Hc i e0 E).
    pose proof (holds_le_holding i (conns s) k sl Hk) as Hh. unfold holds in Hh. rewrite decide_True in Hh by done. lia.
Qed.

(** The state of [Run] with one throttled download. *)
Lemma tick_against_legacy_witness :
  exists t sl sl', throttles (demo_state demo_get) = Some t /\ conns (demo_state demo_get) !! 0%nat = Some sl /\
    throttles (@throttle_tick (demo_world 0) (demo_state demo_get)) = Some (average <$> t) /\
    conns (@throttle_tick (demo_world 0) (demo_state demo_get)) !! 0%nat = Some sl' /\ sl' = sl.
Proof.
  set (s := demo_state demo_get).
  assert (Ht : throttles s = Some [mkThrottle (B "**.txt") 1000 0 0 0 1]) by (by vm_compute).
  destruct (conns s !! 0%nat) as [sl|] eqn:Hk;
    [|exfalso; assert (H : is_some (conns s !! 0%nat) = true) by (by vm_compute); by rewrite Hk in H].
  assert (Hr : reachable s) by (apply demo_state_reachable; by vm_compute).
  assert (Hst : (ConnSlot.state <$> conns s !! 0%nat) = Some Sending) by (by vm_compute).
  rewrite Hk in Hst. injection Hst as Hst. clearbody s.
  destruct (@tick_against_legacy (demo_world 0) s _ 0%nat sl Hr Ht) as (E & sl' & Hk' & Hc);
    [by repeat constructor|exact Hk|].
  exists [mkThrottle (B "**.txt") 1000 0 0 0 1], sl, sl'. split_and!; [done|done|exact E|exact Hk'|].
  unfold woken in Hc. rewrite Hst in Hc. exact Hc.
Defined.

(** A second download starts: both are sending now. *)
Definition two_senders : Server :=
  match @iteration (demo_world 0) (mkPolled false [[(demo_peer, true)]] [(1%nat, ROk demo_get, WWouldBlock)]
          (fun _ => WWouldBlock)) 0 (demo_state demo_get) with
  | Some (_, s) => s
  | None => demo_start
  end.

Definition limits (s : Server) : list Z :=
  List.map (fun k => match conns s !! k with
                     | Some sl => ConnThrottle.max_limit (ConnSlot.throttle sl) | None => 0 end) [0%nat; 1%nat].

(** Together they may send 1500 bytes a second under a rule of 1000; C would
    give each of them 500 at the tick. *)
Example tick_keeps_old_limits :
  limits two_senders = [1000; 500] /\ limits (@throttle_tick (demo_world 0) two_senders) = [1000; 500] /\
  (fun t => share [0%nat] t) <$> throttles (@throttle_tick (demo_world 0) two_senders) = Some 500.
Proof. by vm_compute. Qed.
End CTick.
