(* ===== verification/LegacyLog.v ===== *)
(** * The access log of the C server (legacy/src/libhttpd.c: [make_log_entry])
      beside that of the port *)

From S2P Require Import Prelude RustStr Match Tdate Url Request HttpConn Response Wire.
From S2P Require Import Throttle Auth Cgi Server EventLoop Dispatch Run Logging.

Module CLog.

(** [%.Ns]: at most [n] bytes. *)
Definition prec (n : nat) (s : bytes) : bytes := take n s.

(** What the function reads of a connection and its server; [hostname] is the
    host of the request, or that of the server. *)
Record httpd_conn := mkHc {
  vhost : bool;
  tildemapped : bool;
  hostname : bytes;
  client : bytes;
  remoteuser : bytes;
  method_str : bytes;
  encodedurl : bytes;
  protocol : bytes;
  status : Z;
  bytes_sent : Z;
  referer : bytes;
  useragent : bytes;
}.

(** [char url[305]]: the formats are shorter than the buffer. *)
Definition log_url (hc : httpd_conn) : bytes :=
  if vhost hc && negb (tildemapped hc)
  then B "/" ++ prec 100 (hostname hc) ++ prec 200 (encodedurl hc)
  else prec 200 (encodedurl hc).

(** [strftime] of "%d/%b/%Y:%H:%M:%S" in the C locale, and the numeric zone. *)
Definition log_date (t : Tm) : bytes :=
  let date_nozone := zero_padded 2 (tm_mday t) ++ B "/" ++ unwrap_or [] (LOG_MONTHS !! Z.to_nat (tm_mon t)) ++ B "/" ++
    show_Z (tm_year t + 1900) ++ B ":" ++ zero_padded 2 (tm_hour t) ++ B ":" ++ zero_padded 2 (tm_min t) ++ B ":" ++
    zero_padded 2 (tm_sec t) in
  let zone := Z.quot (tm_gmtoff t) 60 in
  let '(sign, zone) := if (0 <=? zone)%Z then (B "+", zone) else (B "-", (- zone)%Z) in
  let zone := (Z.quot zone 60 * 100 + Z.rem zone 60)%Z in
  date_nozone ++ B " " ++ sign ++ zero_padded 4 zone.

(** The line written to [logfp], when logging is on and there is a log file. *)
Definition make_log_entry (t : Tm) (hc : httpd_conn) : bytes :=
  let ru := if is_empty (remoteuser hc) then B "-" else remoteuser hc in
  let sent := if (0 <=? bytes_sent hc)%Z then show_Z (bytes_sent hc) else B "-" in
  prec 80 (client hc) ++ B " - " ++ prec 80 ru ++ B " [" ++ log_date t ++ B "] " ++ [DQ] ++
  prec 80 (method_str hc) ++ B " " ++ prec 300 (log_url hc) ++ B " " ++ prec 80 (protocol hc) ++ [DQ] ++ B " " ++
  show_Z (status hc) ++ B " " ++ sent ++ B " " ++ [DQ] ++ prec 200 (referer hc) ++ [DQ] ++ B " " ++ [DQ] ++
  prec 200 (useragent hc) ++ [DQ] ++ [LF].

(** *** Against the port *)











Definition demo_conn (vh : bool) (user url : bytes) : httpd_conn :=
  mkHc vh false (B "www.example.org") (B "10.0.0.1") user (B "GET") url (B "HTTP/1.0") 200 20 [] (B "curl").

Definition demo_slot (url : bytes) : ConnSlot.t :=
  ConnSlot.new <| ConnSlot.peer_addr := Some (B "10.0.0.1", B "10.0.0.1:4000") |>
    <| ConnSlot.http := HttpConn.new <| method := Method.Get |> <| encoded_url := url |> <| mime_flag := true |>
         <| http_version := B "HTTP/1.0" |> <| HttpConn.status_code := 200%Z |> <| HttpConn.bytes_sent := 120%Z |>
         <| response_header_len := 100 |> <| user_agent := B "curl" |> |>.

Definition demo_tm : Tm := mkTm 7 10 94 8 49 37 (-3600).


(** The lines differ for an authenticated client, whom only C names; for a URL
    between 200 and 300 bytes, which the port logs in full; and with virtual
    hosts, where C logs the host. *)
Example log_line_differs :
  let long := B "/" ++ replicate 250 "a"%char in
  let differs hc sl := negb (bytes_eqb (make_log_entry demo_tm hc) (format_cern_line demo_tm (log_entry sl))) in
  differs (demo_conn false (B "alice") (B "/a.txt")) (demo_slot (B "/a.txt")) = true /\
  differs (demo_conn false [] long) (demo_slot long) = true /\
  log_url (demo_conn true [] (B "/a.txt")) = B "/www.example.org/a.txt" /\
  differs (demo_conn true [] (B "/a.txt")) (demo_slot (B "/a.txt")) = true.
Proof. by vm_compute. Qed.
End CLog.
