(* ===== verification/Breaker.v ===== *)
(** * Circuit breaker (rust/crates/thttpd-migrate/src/circuit.rs)

    One definition per method, each taken as one atomic step at one reading of
    the clock (nanoseconds); the interleavings of the atomic accesses inside
    the methods are the subject of the last section.  The error rate is
    computed in IEEE binary64, as in the code. *)

From Stdlib Require Import SpecFloat.
From S2P Require Import Prelude.

Definition SEC : Z := 1000000000.

Inductive State := Closed | Open | HalfOpen.

#[export] Instance State_eq_dec : EqDecision State.
Proof. solve_decision. Defined.

Definition from_u8 (v : Z) : State :=
  if (v =? 0)%Z then Closed else if (v =? 1)%Z then Open else HalfOpen.

(** The discriminant stored in the atomic. *)
Definition as_u8 (s : State) : Z :=
  match s with Closed => 0 | Open => 1 | HalfOpen => 2 end.

Definition COOL_OFF : Z := 5 * SEC.

Record CircuitConfig := mkCircuit {
  error_rate_threshold : spec_float;
  window_secs : Z;
  min_requests : Z;
}.

Record Window := mkWindow { errors : Z; total : Z; started : Z }.

Record Breaker := mkBreaker {
  state_u8 : Z;
  opened_at : option Z;
  probe_in_flight : bool;
  window : Window;
  cfg : CircuitConfig;
}.

#[export] Instance Breaker_settable : Settable Breaker := fun b =>
  mkBreaker (state_u8 b) (opened_at b) (probe_in_flight b) (window b) (cfg b).

Definition state (b : Breaker) : State := from_u8 (state_u8 b).

Definition new (c : CircuitConfig) (now : Z) : Breaker :=
  mkBreaker (as_u8 Closed) None false (mkWindow 0 0 now) c.

(** [t.elapsed()]: saturating. *)
Definition elapsed (now t : Z) : Z := Z.max 0 (now - t).

Definition trip (now : Z) (b : Breaker) : Breaker :=
  b <| state_u8 := as_u8 Open |> <| opened_at := Some now |> <| window := mkWindow 0 0 now |>.

Definition close (now : Z) (b : Breaker) : Breaker :=
  b <| state_u8 := as_u8 Closed |> <| opened_at := None |> <| window := mkWindow 0 0 now |>.

Definition release_probe (now : Z) (b : Breaker) : Breaker :=
  if bool_decide (state b = HalfOpen) then trip now (b <| probe_in_flight := false |>) else b.

(** [errors as f64 / total as f64 > threshold]. *)
Definition f64_of_Z (z : Z) : spec_float := binary_normalize 53 1024 z 0 false.

Definition over_threshold (c : CircuitConfig) (errors total : Z) : bool :=
  SFltb (error_rate_threshold c) (SFdiv 53 1024 (f64_of_Z errors) (f64_of_Z total)).

(** The window a new outcome is counted in. *)
Definition current_window (now : Z) (b : Breaker) : Window :=
  if (window_secs (cfg b) * SEC <? elapsed now (started (window b)))%Z then mkWindow 0 0 now
  else window b.

Definition record (now : Z) (success : bool) (b : Breaker) : Breaker :=
  if bool_decide (state b = HalfOpen) then
    let b := b <| probe_in_flight := false |> in
    if success then close now b else trip now b
  else
    let w := current_window now b in
    let w := mkWindow (if success then errors w else wrap_u32 (errors w + 1)) (wrap_u32 (total w + 1))
               (started w) in
    let b := b <| window := w |> in
    if (min_requests (cfg b) <=? total w)%Z && over_threshold (cfg b) (errors w) (total w)
    then trip now b else b.

Definition cooled (now : Z) (b : Breaker) : bool :=
  match opened_at b with
  | Some t => (COOL_OFF <=? elapsed now t)%Z
  | None => false
  end.

Definition can_route (now : Z) (b : Breaker) : bool :=
  match state b with
  | Closed => true
  | Open => cooled now b && negb (probe_in_flight b)
  | HalfOpen => false
  end.

Definition try_admit (now : Z) (b : Breaker) : bool * Breaker :=
  match state b with
  | Closed => (true, b)
  | Open =>
      if cooled now b && negb (probe_in_flight b)
      then (true, b <| probe_in_flight := true |> <| state_u8 := as_u8 HalfOpen |>)
      else (false, b)
  | HalfOpen => (false, b)
  end.

Definition allows (now : Z) (b : Breaker) : bool * Breaker := try_admit now b.

(** ** Histories of method calls *)

Inductive call :=
| Admit (now : Z)
| Record_ (now : Z) (success : bool)
| ReleaseProbe (now : Z).

Definition exec1 (b : Breaker) (c : call) : Breaker :=
  match c with
  | Admit now => (try_admit now b).2
  | Record_ now ok => record now ok b
  | ReleaseProbe now => release_probe now b
  end.

Definition exec (b : Breaker) (cs : list call) : Breaker := foldl exec1 b cs.

(** What the fields say about each other. *)
Record wf (b : Breaker) : Prop := {
  wf_state : state_u8 b = as_u8 (state b);
  wf_probe : probe_in_flight b = true <-> state b = HalfOpen;
  wf_opened : opened_at b = None <-> state b = Closed;
}.

Lemma state_set s b : state (b <| state_u8 := as_u8 s |>) = s.
Proof. by destruct s. Qed.

Lemma wf_new c now : wf (new c now).
Proof. done. Qed.

Lemma wf_trip now b : wf (trip now (b <| probe_in_flight := false |>)).
Proof. done. Qed.

Lemma record_cases now ok b :
  record now ok b = close now (b <| probe_in_flight := false |>) \/
  record now ok b = trip now (b <| probe_in_flight := false |>) \/
  state b <> HalfOpen /\ (exists w, record now ok b = trip now (b <| window := w |>) \/ record now ok b = b <| window := w |>).
Proof.
  unfold record. destruct (decide (state b = HalfOpen)) as [H|H].
  - rewrite bool_decide_true by done. destruct ok; auto.
  - rewrite bool_decide_false by done. right. right. split; [done|]. cbv zeta.
    eexists. destruct (_ && _); [left|right]; reflexivity.
Qed.

Lemma breaker_step_wf b c : wf b -> wf (exec1 b c).
Proof.
  intros Hwf. pose proof Hwf as [H1 H2 H3]. destruct c as [now|now ok|now]; cbn [exec1].
  - unfold try_admit. destruct (state b) eqn:E; [exact Hwf| |exact Hwf].
    destruct (_ && _); [|exact Hwf]. cbn [snd].
    constructor; [done|by split|]. cbn. split; [|done]. intros Ho. apply H3 in Ho. congruence.
  - destruct (record_cases now ok b) as [->|[->|(Hn & w & [->| ->])]]; [done|done| |].
    + assert (probe_in_flight b = false) as Hp
        by (destruct (probe_in_flight b); [by destruct Hn; apply H2|done]).
      constructor; [done| |done]. cbn. rewrite Hp. done.
    + by constructor.
  - unfold release_probe. destruct (bool_decide _); [apply wf_trip|by constructor].
Qed.

Lemma breaker_run_wf b cs : wf b -> wf (exec b cs).
Proof. revert b. induction cs as [|c cs IH]; intros b H; [done|]. apply IH. by apply breaker_step_wf. Qed.

(** ** Probes *)

(** A half-open breaker admits nothing, at any time. *)
Lemma half_open_admits b times :
  state b = HalfOpen ->
  exec b (map Admit times) = b /\ Forall (fun now => (try_admit now b).1 = false /\ can_route now b = false) times.
Proof.
  intros Hs.
  assert (Hno : forall now, try_admit now b = (false, b)) by (intros now; unfold try_admit; by rewrite Hs).
  induction times as [|now times [IH1 IH2]]; [done|]. split.
  - cbn. unfold exec in IH1. by rewrite Hno.
  - constructor; [|done]. rewrite Hno. unfold can_route. by rewrite Hs.
Qed.

(** In every history of calls the eligibility test and the admission
    agree, and an admission that starts a probe blocks all others, at any
    later time, until an outcome is recorded or the probe is released; nothing
    else ever unblocks the breaker. *)
Theorem single_probe c t0 cs now times :
  let b := exec (new c t0) cs in
  let '(admitted, b') := try_admit now b in
  admitted = can_route now b /\
  (state b = HalfOpen -> admitted = false) /\
  (admitted = true -> state b <> Closed ->
   state b' = HalfOpen /\ exec b' (map Admit times) = b' /\
   Forall (fun t => (try_admit t b').1 = false /\ can_route t b' = false) times).
Proof.
  cbv zeta. set (b := exec (new c t0) cs).
  destruct (try_admit now b) as [ad b'] eqn:E. unfold try_admit, can_route in *.
  destruct (state b) eqn:Es.
  - injection E as <- <-. split_and!; [done|done|congruence].
  - destruct (cooled now b && negb (probe_in_flight b)); injection E as <- <-.
    + split_and!; [done|done|]. intros _ _. split; [done|]. by apply half_open_admits.
    + split_and!; [done|done|done].
  - injection E as <- <-. split_and!; [done|done|done].
Qed.

(** C32: the recovery of an open breaker, in every history: before the
    cool-off nothing is admitted; after it one probe is, and its success
    closes the breaker with an empty window while its failure (or its release)
    opens it again with a fresh cool-off. *)
Theorem recovery_cycle c t0 cs now t later :
  let b := exec (new c t0) cs in
  state b = Open -> opened_at b = Some t ->
  ((elapsed now t < COOL_OFF)%Z -> try_admit now b = (false, b)) /\
  ((COOL_OFF <= elapsed now t)%Z ->
   exists b', try_admit now b = (true, b') /\ state b' = HalfOpen /\
     (let ok := record later true b' in
      state ok = Closed /\ opened_at ok = None /\ window ok = mkWindow 0 0 later /\ wf ok) /\
     (let ko := record later false b' in
      state ko = Open /\ opened_at ko = Some later /\ wf ko /\ release_probe later b' = ko)).
Proof.
  intros b Hs Ho. assert (Hw : wf b) by (apply breaker_run_wf, wf_new).
  assert (Hp : probe_in_flight b = false).
  { destruct (probe_in_flight b) eqn:E; [|done]. apply (wf_probe _ Hw) in E. congruence. }
  unfold try_admit, cooled. rewrite Hs, Ho, Hp. split.
  - intros Hlt. rewrite (proj2 (Z.leb_gt _ _)) by done. done.
  - intros Hle. rewrite (proj2 (Z.leb_le _ _)) by done. cbn [andb negb].
    eexists. split; [reflexivity|]. split; [done|]. split; [done|]. done.
Qed.

(** ** Tripping *)

(** Outcomes: when, and whether it was a success. *)
Definition failures (outs : list (Z * bool)) : Z :=
  Z.of_nat (length (filter (fun o => o.2 = false) outs)).

(** The minimum volume is reached and the error rate is above the threshold. *)
Definition over (c : CircuitConfig) (outs : list (Z * bool)) : bool :=
  (min_requests c <=? Z.of_nat (length outs))%Z
  && over_threshold c (failures outs) (Z.of_nat (length outs)).

(** The outcomes [cur] of the current window, which began at [start], among
    all outcomes [outs] since [t0]: an outcome that comes more than
    [window_secs] after the beginning of its window begins a new one. *)
Inductive windowed (c : CircuitConfig) (t0 : Z) : list (Z * bool) -> Z -> list (Z * bool) -> Prop :=
| windowed_none : windowed c t0 [] t0 []
| windowed_same outs start cur o :
    windowed c t0 outs start cur -> (elapsed o.1 start <= window_secs c * SEC)%Z ->
    windowed c t0 (outs ++ [o]) start (cur ++ [o])
| windowed_next outs start cur o :
    windowed c t0 outs start cur -> (window_secs c * SEC < elapsed o.1 start)%Z ->
    windowed c t0 (outs ++ [o]) o.1 [o].

(** No window has been over so far. *)
Definition calm (c : CircuitConfig) (t0 : Z) (outs : list (Z * bool)) : Prop :=
  forall p start cur, p `prefix_of` outs -> windowed c t0 p start cur -> cur <> [] -> over c cur = false.

Definition records (outs : list (Z * bool)) : list call := map (fun o => Record_ o.1 o.2) outs.

Lemma windowed_total c t0 outs : exists start cur, windowed c t0 outs start cur.
Proof.
  induction outs as [|o outs (start & cur & IH)] using rev_ind; [eexists _, _; constructor|].
  destruct (Z.le_gt_cases (elapsed o.1 start) (window_secs c * SEC)).
  - eexists _, _. by eapply windowed_same.
  - eexists _, _. eapply windowed_next; [done|lia].
Qed.

Lemma windowed_snoc c t0 outs o start cur :
  windowed c t0 (outs ++ [o]) start cur ->
  exists start0 cur0, windowed c t0 outs start0 cur0 /\
    ((elapsed o.1 start0 <= window_secs c * SEC)%Z /\ start = start0 /\ cur = cur0 ++ [o] \/
     (window_secs c * SEC < elapsed o.1 start0)%Z /\ start = o.1 /\ cur = [o]).
Proof.
  intros H. remember (outs ++ [o]) as l eqn:El. destruct H as [|outs' start0 cur0 o' H Ho|outs' start0 cur0 o' H Ho].
  - by destruct outs.
  - apply app_inj_tail in El as [-> ->]. eauto 10.
  - apply app_inj_tail in El as [-> ->]. eauto 10.
Qed.

Lemma windowed_nil c t0 start cur : windowed c t0 [] start cur -> start = t0 /\ cur = [].
Proof.
  intros H. remember [] as l eqn:El. destruct H as [|outs ? ? o|outs ? ? o]; [done|by destruct outs..].
Qed.

Lemma windowed_det c t0 outs start cur start' cur' :
  windowed c t0 outs start cur -> windowed c t0 outs start' cur' -> start = start' /\ cur = cur'.
Proof.
  revert start cur start' cur'. induction outs as [|o outs IH] using rev_ind; intros start cur start' cur' H1 H2.
  - apply windowed_nil in H1 as [-> ->], H2 as [-> ->]. done.
  - apply windowed_snoc in H1 as (s1 & c1 & W1 & D1), H2 as (s2 & c2 & W2 & D2).
    destruct (IH _ _ _ _ W1 W2) as [<- <-].
    destruct D1 as [(?&->&->)|(?&->&->)], D2 as [(?&->&->)|(?&->&->)]; done || lia.
Qed.

Lemma windowed_length c t0 outs start cur : windowed c t0 outs start cur -> length cur <= length outs.
Proof. induction 1; rewrite ?length_app; cbn in *; lia. Qed.

Lemma failures_snoc outs o :
  failures (outs ++ [o]) = (failures outs + if o.2 then 0 else 1)%Z.
Proof.
  unfold failures. rewrite filter_app, length_app. destruct o as [t []]; cbn [snd].
  - rewrite filter_cons_False by done. cbn. lia.
  - rewrite filter_cons_True by done. cbn. lia.
Qed.

Lemma failures_range outs : (0 <= failures outs <= Z.of_nat (length outs))%Z.
Proof.
  unfold failures. split; [lia|]. apply Nat2Z.inj_le. apply length_filter.
Qed.

(** [b] with the counts of [cur] in a window that began at [start]. *)
Definition counting (b : Breaker) (start : Z) (cur : list (Z * bool)) : Breaker :=
  b <| window := mkWindow (failures cur) (Z.of_nat (length cur)) start |>.

Lemma record_counting b start cur o start' cur' :
  state b = Closed -> (Z.of_nat (length cur) < 2 ^ 32 - 1)%Z ->
  ((elapsed o.1 start <= window_secs (cfg b) * SEC)%Z /\ start' = start /\ cur' = cur ++ [o] \/
   (window_secs (cfg b) * SEC < elapsed o.1 start)%Z /\ start' = o.1 /\ cur' = [o]) ->
  record o.1 o.2 (counting b start cur) =
  if over (cfg b) cur' then trip o.1 (counting b start' cur') else counting b start' cur'.
Proof.
  intros Hs Hn Hw. unfold record. rewrite bool_decide_false by (change (state b <> HalfOpen); congruence).
  assert (Hc : current_window o.1 (counting b start cur) =
    if (window_secs (cfg b) * SEC <? elapsed o.1 start)%Z then mkWindow 0 0 o.1
    else mkWindow (failures cur) (Z.of_nat (length cur)) start) by done.
  rewrite Hc. pose proof (failures_range cur) as Hr.
  destruct Hw as [(Ht & -> & ->)|(Ht & -> & ->)].
  - rewrite (proj2 (Z.ltb_ge _ _)) by done. cbn.
    assert (Hf : (if o.2 then failures cur else wrap_u32 (failures cur + 1)) = failures (cur ++ [o])).
    { rewrite failures_snoc. destruct o.2; [lia|]. apply wrap_u_small. lia. }
    assert (Hl : wrap_u32 (Z.of_nat (length cur) + 1) = Z.of_nat (length (cur ++ [o]))).
    { rewrite wrap_u_small by lia. rewrite length_app. cbn. lia. }
    rewrite Hf, Hl. unfold over. destruct (_ && _); reflexivity.
  - rewrite (proj2 (Z.ltb_lt _ _)) by done. cbn.
    unfold over. destruct o as [t []]; cbn; destruct (_ && _); reflexivity.
Qed.

Lemma exec_records_snoc b outs o : exec b (records (outs ++ [o])) = record o.1 o.2 (exec b (records outs)).
Proof. unfold records, exec. by rewrite map_app, foldl_app. Qed.

(** C33: a closed breaker with an empty window, new or just recovered, counts
    the outcomes of its current window exactly, in every sequence of outcomes
    over any number of windows, as long as no window has been over: reached
    the minimum volume with an error rate above the threshold.  The next
    outcome opens it exactly when it makes its window over, and otherwise
    leaves it closed.  Fewer than 2^32 outcomes are assumed. *)
Theorem trips_exactly_when_over b t0 outs o start cur start' cur' :
  state b = Closed -> window b = mkWindow 0 0 t0 -> (Z.of_nat (length outs) < 2 ^ 32 - 1)%Z ->
  calm (cfg b) t0 outs -> windowed (cfg b) t0 outs start cur -> windowed (cfg b) t0 (outs ++ [o]) start' cur' ->
  exec b (records outs) = counting b start cur /\
  exec b (records (outs ++ [o])) =
    if over (cfg b) cur' then trip o.1 (counting b start' cur') else counting b start' cur'.
Proof.
  intros Hs Hw. revert o start cur start' cur'. induction outs as [|x outs IH] using rev_ind; intros o start cur start' cur' Hn Hc H1 H2.
  - assert (H0 : exec b (records []) = counting b t0 []) by (destruct b; cbn in *; by subst).
    apply (windowed_snoc _ _ []) in H2 as (start0 & cur0 & [-> ->]%windowed_nil & H2).
    apply windowed_nil in H1 as [-> ->]. split; [done|]. rewrite exec_records_snoc, H0.
    by apply record_counting.
  - rewrite length_app in Hn. cbn in Hn.
    pose proof H1 as (start0 & cur0 & H0 & _)%windowed_snoc.
    destruct (IH x start0 cur0 start cur) as [_ E]; [lia| |done|done|].
    { intros p ? ? Hp. apply Hc. by apply prefix_app_r. }
    assert (Hne : cur <> []).
    { apply windowed_snoc in H1 as (? & c1 & _ & [(_ & _ & ->)|(_ & _ & ->)]); [by destruct c1|done]. }
    rewrite (Hc (outs ++ [x]) start cur ltac:(done) H1 Hne) in E. split; [done|].
    rewrite exec_records_snoc, E. apply record_counting; [done| |].
    + pose proof (windowed_length _ _ _ _ _ H1) as Hlen. rewrite length_app in Hlen. cbn in Hlen. lia.
    + apply windowed_snoc in H2 as (s1 & c1 & Hw1 & H2). by destruct (windowed_det _ _ _ _ _ _ _ H1 Hw1) as [-> ->].
Qed.

(** ** Interleavings *)

(** A call of [try_admit] or [record] as the sequence of its accesses to the
    shared atomics and mutexes; the constructor is the next access. *)
Inductive thread :=
| TAdmit (now : Z)
| TAdmitOpenedAt (now : Z)
| TAdmitCas (now : Z)
| TAdmitStore
| TAdmitted (ok : bool)
| TRecord (now : Z) (ok : bool)
| TRecordRelease (now : Z) (ok : bool)
| TCount (now : Z) (ok : bool)
| TStoreState (now : Z) (to : State)
| TStoreOpenedAt (now : Z) (to : State)
| TStoreWindow (now : Z)
| TRecorded.

Definition tstep (th : thread) (b : Breaker) : thread * Breaker :=
  match th with
  | TAdmit now =>
      (match state b with Closed => TAdmitted true | Open => TAdmitOpenedAt now | HalfOpen => TAdmitted false end, b)
  | TAdmitOpenedAt now => (if cooled now b then TAdmitCas now else TAdmitted false, b)
  | TAdmitCas now =>
      if probe_in_flight b then (TAdmitted false, b) else (TAdmitStore, b <| probe_in_flight := true |>)
  | TAdmitStore => (TAdmitted true, b <| state_u8 := as_u8 HalfOpen |>)
  | TRecord now ok => (if bool_decide (state b = HalfOpen) then TRecordRelease now ok else TCount now ok, b)
  | TRecordRelease now ok =>
      (TStoreState now (if ok then Closed else Open), b <| probe_in_flight := false |>)
  | TCount now ok =>
      let w := current_window now b in
      let w := mkWindow (if ok then errors w else wrap_u32 (errors w + 1)) (wrap_u32 (total w + 1)) (started w) in
      (if (min_requests (cfg b) <=? total w)%Z && over_threshold (cfg b) (errors w) (total w)
       then TStoreState now Open else TRecorded, b <| window := w |>)
  | TStoreState now to => (TStoreOpenedAt now to, b <| state_u8 := as_u8 to |>)
  | TStoreOpenedAt now to =>
      (TStoreWindow now,
       b <| opened_at := match to with Closed => None | _ => Some now end |>)
  | TStoreWindow now => (TRecorded, b <| window := mkWindow 0 0 now |>)
  | TAdmitted _ | TRecorded => (th, b)
  end.

Fixpoint tsteps (n : nat) (th : thread) (b : Breaker) : thread * Breaker :=
  match n with
  | O => (th, b)
  | S n' => let '(th', b') := tstep th b in tsteps n' th' b'
  end.

(** Run alone, the accesses of [try_admit] and of [record] do what the
    methods do as one step. *)
Theorem solo_calls now ok b :
  tsteps 4 (TAdmit now) b = (let '(r, b') := try_admit now b in (TAdmitted r, b')) /\
  tsteps 5 (TRecord now ok) b = (TRecorded, record now ok b).
Proof.
  split.
  - unfold try_admit. cbn. destruct (state b); [done| |done]. cbn.
    destruct (cooled now b); [|done]. cbn. by destruct (probe_in_flight b).
  - unfold record. cbn. destruct (bool_decide (state b = HalfOpen)); cbn; [by destruct ok|].
    by destruct (_ && _).
Qed.

(** A schedule names the thread that makes the next access. *)
Fixpoint interleave (sched : list nat) (ths : list thread) (b : Breaker) : list thread * Breaker :=
  match sched with
  | [] => (ths, b)
  | i :: sched' =>
      match ths !! i with
      | Some th => let '(th', b') := tstep th b in interleave sched' (<[i := th']> ths) b'
      | None => interleave sched' ths b
      end
  end.

(** Open, with the probe slot taken and nobody left to give it back. *)
Definition stranded (b : Breaker) : Prop := state b = Open /\ probe_in_flight b = true.

Lemma stranded_step b c : stranded b -> stranded (exec1 b c) /\
  forall now, c = Admit now -> (try_admit now b).1 = false.
Proof.
  intros [Hs Hp]. split.
  - destruct c as [now|now ok|now]; cbn [exec1].
    + unfold try_admit. rewrite Hs, Hp, andb_false_r. done.
    + unfold record. rewrite Hs. rewrite bool_decide_false by done. cbv zeta.
      destruct (_ && _); done.
    + unfold release_probe. rewrite Hs. by rewrite bool_decide_false.
  - intros now _. unfold try_admit. by rewrite Hs, Hp, andb_false_r.
Qed.

Lemma stranded_forever b cs : stranded b ->
  stranded (exec b cs) /\ forall now, can_route now (exec b cs) = false /\ (try_admit now (exec b cs)).1 = false.
Proof.
  intros H. assert (Hs : stranded (exec b cs)).
  { revert b H. induction cs as [|c cs IH]; intros b H; [done|]. apply IH. by apply stranded_step. }
  split; [done|]. intros now. split.
  - destruct Hs as [Hs Hp]. unfold can_route. by rewrite Hs, Hp, andb_false_r.
  - by apply (proj2 (stranded_step _ (Admit now) Hs)).
Qed.

(** A breaker that opened at 0; two calls of [try_admit] after the cool-off
    and the [record] of the first probe's failure. *)
Definition race_cfg : CircuitConfig := mkCircuit (f64_of_Z 0) 10 1.
Definition race_breaker : Breaker := record 0 false (new race_cfg 0).
Definition race_threads : list thread := [TAdmit (6 * SEC); TAdmit (6 * SEC); TRecord (8 * SEC) false].

(** The second call has seen the open, cooled breaker before the first one
    claims the probe; it claims the slot in the middle of the [record]. *)
Definition race_schedule : list nat := [0; 1; 1; 0; 0; 0; 2; 2; 1; 1; 2; 2; 2].

(** The accesses inside the methods can interleave so that two probes
    are admitted and the breaker is left open with the probe slot taken; from
    then on no sequence of calls, at any time, admits anything again. *)
Theorem race_strands_breaker :
  let '(ths, b) := interleave race_schedule race_threads race_breaker in
  ths = [TAdmitted true; TAdmitted true; TRecorded] /\ stranded b /\
  forall cs now, can_route now (exec b cs) = false /\ (try_admit now (exec b cs)).1 = false.
Proof.
  destruct (interleave _ _ _) as [ths b] eqn:E. vm_compute in E. injection E as <- <-.
  split; [done|]. split; [done|]. intros cs now. by apply stranded_forever.
Qed.

(** The outcome of a request admitted before the breaker opened counts as that
    of the probe: a second probe starts while the first is in flight. *)
Example stale_outcome_second_probe :
  let '(p1, b1) := try_admit (6 * SEC) race_breaker in
  let b2 := record (7 * SEC) false b1 in
  let '(p2, b3) := try_admit (13 * SEC) b2 in
  p1 = true /\ state b1 = HalfOpen /\ p2 = true /\ state b3 = HalfOpen.
Proof. by vm_compute. Qed.

Lemma recovery_cycle_witness :
  exists b', try_admit (6 * SEC) race_breaker = (true, b') /\ state b' = HalfOpen.
Proof.
  destruct (recovery_cycle race_cfg 0 [Record_ 0 false] (6 * SEC) 0 (7 * SEC)) as [_ H];
    [by vm_compute|by vm_compute|].
  destruct H as (b' & H1 & H2 & _); [by vm_compute|]. by exists b'.
Defined.

Definition half_cfg : CircuitConfig := mkCircuit (S754_finite false 4503599627370496 (-53)) 10 2.

Lemma half_windowed :
  windowed half_cfg 0 [(1, false); (12 * SEC, true)]%Z (12 * SEC) [(12 * SEC, true)]%Z /\
  windowed half_cfg 0 [(1, false); (12 * SEC, true); (13 * SEC, false)]%Z (12 * SEC) [(12 * SEC, true); (13 * SEC, false)]%Z /\
  windowed half_cfg 0 [(1, false); (12 * SEC, true); (13 * SEC, false); (14 * SEC, false)]%Z (12 * SEC)
    [(12 * SEC, true); (13 * SEC, false); (14 * SEC, false)]%Z.
Proof.
  assert (H0 : windowed half_cfg 0 [(1, false)]%Z 0 [(1, false)]%Z)
    by (apply (windowed_same half_cfg 0 [] 0 [] (1%Z, false)); [constructor|by vm_compute]).
  assert (H1 : windowed half_cfg 0 [(1, false); (12 * SEC, true)]%Z (12 * SEC) [(12 * SEC, true)]%Z)
    by (apply (windowed_next half_cfg 0 [(1, false)]%Z 0 [(1, false)]%Z ((12 * SEC)%Z, true)); [done|by vm_compute]).
  assert (H2 : windowed half_cfg 0 [(1, false); (12 * SEC, true); (13 * SEC, false)]%Z (12 * SEC)
    [(12 * SEC, true); (13 * SEC, false)]%Z)
    by (apply (windowed_same half_cfg 0 [(1, false); (12 * SEC, true)]%Z _ [(12 * SEC, true)]%Z ((13 * SEC)%Z, false)); [done|by vm_compute]).
  split; [done|]. split; [done|].
  apply (windowed_same half_cfg 0 [(1, false); (12 * SEC, true); (13 * SEC, false)]%Z _ [(12 * SEC, true); (13 * SEC, false)]%Z
    ((14 * SEC)%Z, false)); [done|by vm_compute].
Qed.

(** A failure in a window that ends, then a new window that trips. *)
Lemma trips_exactly_when_over_witness :
  let outs := [(1, false); (12 * SEC, true); (13 * SEC, false)]%Z in
  state (exec (new half_cfg 0) (records outs)) = Closed /\
  state (exec (new half_cfg 0) (records (outs ++ [(14 * SEC, false)]%Z))) = Open.
Proof.
  cbv zeta. destruct half_windowed as (W1 & W2 & W3).
  assert (Hc : calm half_cfg 0 [(1, false); (12 * SEC, true); (13 * SEC, false)]%Z).
  { intros p start cur [q E] Hw Hne. destruct p as [|x [|y [|z [|w p]]]]; simplify_eq/=.
    - by apply windowed_nil in Hw as [_ ->].
    - apply (windowed_snoc _ _ []) in Hw as (s0 & c0 & [-> ->]%windowed_nil & D).
      by destruct D as [(_ & -> & ->)|(_ & -> & ->)]; vm_compute.
    - destruct (windowed_det _ _ _ _ _ _ _ Hw W1) as [-> ->]. by vm_compute.
    - destruct (windowed_det _ _ _ _ _ _ _ Hw W2) as [-> ->]. by vm_compute. }
  destruct (trips_exactly_when_over (new half_cfg 0) 0 [(1, false); (12 * SEC, true); (13 * SEC, false)]%Z
    ((14 * SEC)%Z, false) _ _ _ _ eq_refl eq_refl eq_refl Hc W2 W3) as [H1 H2].
  split; [rewrite H1; done|]. rewrite H2. by vm_compute.
Defined.
