(* ===== verification/Backend.v ===== *)
(** * Backends of the migration proxy (rust/crates/thttpd-migrate/src/backend.rs
      and [update_health] of health.rs)

    The pool is a finite map from names to backends, with one breaker per
    name.  A [HashMap] is iterated in an unspecified order: [HashOrder] is that
    order. *)

From S2P Require Import Prelude Breaker.

Module Health.
Inductive t := Healthy | Degraded | Unhealthy.

#[global] Instance t_eq_dec : EqDecision t.
Proof. solve_decision. Defined.

Definition from_u8 (v : Z) : t :=
  if (v =? 0)%Z then Healthy else if (v =? 1)%Z then Degraded else Unhealthy.

Definition as_u8 (h : t) : Z := match h with Healthy => 0 | Degraded => 1 | Unhealthy => 2 end.
End Health.

Record BackendConfig := mkBackendConfig { address : bytes; cfg_weight : Z; health_path : bytes }.

#[export] Instance BackendConfig_settable : Settable BackendConfig := fun c =>
  mkBackendConfig (address c) (cfg_weight c) (health_path c).

Record Backend := mkBackend {
  name : bytes;
  config : BackendConfig;
  health_u8 : Z;
  consecutive_failures : Z;
  consecutive_successes : Z;
}.

#[export] Instance Backend_settable : Settable Backend := fun b =>
  mkBackend (name b) (config b) (health_u8 b) (consecutive_failures b) (consecutive_successes b).

Definition Backend_new (name : bytes) (config : BackendConfig) : Backend :=
  mkBackend name config (Health.as_u8 Health.Healthy) 0 0.

Definition health (b : Backend) : Health.t := Health.from_u8 (health_u8 b).

Definition is_routable (b : Backend) : bool := bool_decide (health b <> Health.Unhealthy).

Definition weight (b : Backend) : Z := cfg_weight (config b).

Definition set_weight (w : Z) (b : Backend) : Backend :=
  b <| config := (config b) <| cfg_weight := w |> |>.

(** ** Health *)

Record HealthConfig := mkHealthConfig {
  interval_ms : Z;
  timeout_ms : Z;
  failure_threshold : Z;
  success_threshold : Z;
}.

Definition update_health (c : HealthConfig) (success : bool) (b : Backend) : Backend :=
  if success then
    let n := wrap_u32 (consecutive_successes b + 1) in
    let b := b <| consecutive_failures := 0%Z |> <| consecutive_successes := n |> in
    if (success_threshold c <=? n)%Z && bool_decide (health b <> Health.Healthy)
    then b <| health_u8 := Health.as_u8 Health.Healthy |> else b
  else
    let n := wrap_u32 (consecutive_failures b + 1) in
    let b := b <| consecutive_successes := 0%Z |> <| consecutive_failures := n |> in
    if (failure_threshold c <=? n)%Z && bool_decide (health b <> Health.Unhealthy)
    then b <| health_u8 := Health.as_u8 Health.Unhealthy |> else b.

(** What comes of a probe: a status, a failed request, or the timeout. *)
Inductive ProbeResult := Answered (status : Z) | ProbeFailed | ProbeTimedOut.

Definition probe_url (b : Backend) : bytes := B "http://" ++ address (config b) ++ health_path (config b).

(** [uri_ok] is the URI parser of hyper. *)
Definition probe_backend (uri_ok : bytes -> bool) (c : HealthConfig) (r : ProbeResult) (b : Backend) : Backend :=
  if uri_ok (probe_url b) then
    update_health c (match r with Answered st => ((200 <=? st) && (st <? 300))%Z | _ => false end) b
  else update_health c false b.

Definition probes (c : HealthConfig) (b : Backend) (outs : list bool) : Backend :=
  foldl (fun b ok => update_health c ok b) b outs.

(** How many of the latest outcomes are [ok]; the latest comes first. *)
Fixpoint latest_run (ok : bool) (outs : list bool) : nat :=
  match outs with
  | o :: rest => if Bool.eqb o ok then S (latest_run ok rest) else 0
  | [] => 0
  end.

(** The specification: the last run of equal outcomes that was long enough
    decides. *)
Fixpoint healthy_after (c : HealthConfig) (outs : list bool) : bool :=
  match outs with
  | [] => true
  | ok :: rest =>
      if ((if ok then success_threshold c else failure_threshold c)
          <=? Z.of_nat (latest_run ok outs))%Z then ok
      else healthy_after c rest
  end.

Lemma latest_run_le ok outs : latest_run ok outs <= length outs.
Proof. induction outs as [|o outs IH]; cbn; [lia|]. destruct (Bool.eqb o ok); lia. Qed.

Lemma latest_run_other ok outs : latest_run (negb ok) (ok :: outs) = 0.
Proof. by destruct ok. Qed.

(** What the counters and the health of a backend say of the outcomes. *)
Definition observed (c : HealthConfig) (outs : list bool) (b : Backend) : Prop :=
  consecutive_failures b = Z.of_nat (latest_run false outs) /\
  consecutive_successes b = Z.of_nat (latest_run true outs) /\
  health_u8 b = Health.as_u8 (if healthy_after c outs then Health.Healthy else Health.Unhealthy).

Lemma update_health_observed c ok outs b :
  (Z.of_nat (length outs) < 2 ^ 32 - 1)%Z -> observed c outs b -> observed c (ok :: outs) (update_health c ok b).
Proof.
  intros Hn (Hf & Hs & Hh). pose proof (latest_run_le true outs). pose proof (latest_run_le false outs).
  destruct b as [nm cf h f k]. cbn in Hf, Hs, Hh. subst h f k.
  assert (Hw : forall x, x <= length outs -> wrap_u32 (Z.of_nat x + 1) = Z.of_nat (S x))
    by (intros x Hx; rewrite wrap_u_small; lia).
  unfold observed, update_health. destruct ok; cbn [latest_run healthy_after Bool.eqb consecutive_failures
    consecutive_successes]; rewrite Hw by done; cbv zeta; (destruct (_ <=? _)%Z; [|done]);
    by destruct (healthy_after c outs).
Qed.

(** The health of a backend after any sequence of probes: it is
    unhealthy exactly when the last run of equal outcomes that reached its
    threshold was a run of failures; single outcomes below the thresholds
    change nothing, and a backend starts healthy. *)
Theorem health_follows_runs c n cf outs :
  (Z.of_nat (length outs) < 2 ^ 32)%Z ->
  let b := probes c (Backend_new n cf) outs in
  health b = (if healthy_after c (reverse outs) then Health.Healthy else Health.Unhealthy) /\
  is_routable b = healthy_after c (reverse outs).
Proof.
  intros Hn. cbv zeta.
  assert (Ho : observed c (reverse outs) (probes c (Backend_new n cf) outs)).
  { induction outs as [|o outs IH] using rev_ind; [done|]. rewrite length_app in Hn. cbn in Hn.
    unfold probes. rewrite foldl_app, reverse_app. cbn [foldl].
    change (reverse [o] ++ reverse outs) with (o :: reverse outs).
    apply update_health_observed; [rewrite length_reverse; lia|]. apply IH. lia. }
  destruct Ho as (_ & _ & Hh). unfold is_routable, health. rewrite Hh.
  by destruct (healthy_after c (reverse outs)).
Qed.

Lemma health_follows_runs_witness :
  let c := mkHealthConfig 1000 500 3 2 in
  let b := probes c (Backend_new (B "c") (mkBackendConfig (B "127.0.0.1:8081") 1 (B "/")))
             [false; true; false; false; false; true] in
  health b = Health.Unhealthy /\ is_routable b = false.
Proof.
  exact (health_follows_runs (mkHealthConfig 1000 500 3 2) (B "c") (mkBackendConfig (B "127.0.0.1:8081") 1 (B "/"))
    [false; true; false; false; false; true] eq_refl).
Defined.

(** A probe keeps the name and the configuration, so a health path that does not
    form a URI fails every probe. *)
Lemma update_health_config c ok b : name (update_health c ok b) = name b /\ config (update_health c ok b) = config b.
Proof. unfold update_health. destruct ok; cbv zeta; by destruct (_ && _). Qed.

Lemma bad_health_path_fails uri_ok c b rs :
  uri_ok (probe_url b) = false ->
  foldl (fun b r => probe_backend uri_ok c r b) b rs = probes c b (replicate (length rs) false).
Proof.
  revert b. induction rs as [|r rs IH]; intros b Hb; [done|]. cbn [foldl length replicate probes].
  unfold probe_backend at 2. rewrite Hb. apply IH. unfold probe_url in *.
  by destruct (update_health_config c false b) as [_ ->].
Qed.

(** ** The pool *)

Class HashOrder := {
  iter : forall {A}, gmap (list ascii) A -> list (list ascii * A);
  iter_perm : forall {A} (m : gmap (list ascii) A), iter m ≡ₚ map_to_list m;
}.

Record BackendPool := mkPool {
  backends : gmap (list ascii) Backend;
  breakers : gmap (list ascii) Breaker.Breaker;
}.

#[export] Instance BackendPool_settable : Settable BackendPool := fun p =>
  mkPool (backends p) (breakers p).

(** [Breakers::from_config]: a closed breaker for each name. *)
Definition Breakers_from_config (bs : gmap (list ascii) BackendConfig) (c : CircuitConfig) (now : Z) :
    gmap (list ascii) Breaker.Breaker :=
  (fun _ => Breaker.new c now) <$> bs.

Definition with_breaker_cfg (bs : gmap (list ascii) BackendConfig) (c : CircuitConfig) (now : Z) : BackendPool :=
  mkPool (map_imap (fun n cf => Some (Backend_new n cf)) bs) (Breakers_from_config bs c now).

Definition breaker_can_route (now : Z) (n : bytes) (p : BackendPool) : bool :=
  match breakers p !! n with Some b => Breaker.can_route now b | None => true end.

Definition breaker_admit (now : Z) (n : bytes) (p : BackendPool) : bool * BackendPool :=
  match breakers p !! n with
  | Some b => let '(ok, b') := Breaker.try_admit now b in (ok, p <| breakers := <[n := b']> (breakers p) |>)
  | None => (true, p)
  end.

(** [breaker_allows], kept by the code for its tests: the same as an admission. *)
Definition breaker_allows (now : Z) (n : bytes) (p : BackendPool) : bool * BackendPool :=
  match breakers p !! n with
  | Some b => let '(ok, b') := Breaker.allows now b in (ok, p <| breakers := <[n := b']> (breakers p) |>)
  | None => (true, p)
  end.

Definition breaker_release_probe (now : Z) (n : bytes) (p : BackendPool) : BackendPool :=
  p <| breakers := alter (Breaker.release_probe now) n (breakers p) |>.

Definition record_outcome (now : Z) (n : bytes) (success : bool) (p : BackendPool) : BackendPool :=
  p <| breakers := alter (Breaker.record now success) n (breakers p) |>.

(** Names are the keys. *)
Definition named (p : BackendPool) : Prop := forall n b, backends p !! n = Some b -> name b = n.

Lemma with_breaker_cfg_named bs c now : named (with_breaker_cfg bs c now).
Proof.
  intros n b. cbn. rewrite map_lookup_imap. destruct (bs !! n); [|done]. by intros [= <-].
Qed.

Lemma elem_of_iter `{HashOrder} {A} (m : gmap (list ascii) A) n x : (n, x) ∈ iter m <-> m !! n = Some x.
Proof. rewrite iter_perm. apply elem_of_map_to_list. Qed.

(** Admission agrees with eligibility and touches one breaker only. *)
Lemma breaker_admit_spec now n p :
  let '(ok, p') := breaker_admit now n p in
  ok = breaker_can_route now n p /\ backends p' = backends p /\
  (forall m, m <> n -> breakers p' !! m = breakers p !! m) /\
  (forall b, breakers p !! n = Some b -> breakers p' !! n = Some (Breaker.try_admit now b).2).
Proof.
  unfold breaker_admit, breaker_can_route. destruct (breakers p !! n) as [b|] eqn:E; [|done].
  destruct (Breaker.try_admit now b) as [ok b'] eqn:Et. split_and!.
  - unfold Breaker.try_admit, Breaker.can_route in *. destruct (Breaker.state b); [by simplify_eq| |by simplify_eq].
    destruct (_ && _); by simplify_eq.
  - done.
  - intros m Hm. cbn. by rewrite lookup_insert_ne.
  - intros b0 [= <-]. cbn. by rewrite lookup_insert_eq, Et.
Qed.
