(* ===== verification/Router.v ===== *)
(** * Routing of the migration proxy (rust/crates/thttpd-migrate/src/router.rs
      and the weight changes of state.rs)

    [draw i total] is the [i]-th random number of a decision, drawn from
    [0..total]; the request id is left out. *)

From S2P Require Import Prelude Breaker Backend.

Inductive RoutingMode := ActiveActive | Shadow | Canary.

#[export] Instance RoutingMode_eq_dec : EqDecision RoutingMode.
Proof. solve_decision. Defined.

Record RoutingConfig := mkRouting {
  mode : RoutingMode;
  primary_backend : option bytes;
  shadow_backend : option bytes;
  exclude_paths : list bytes;
}.

#[export] Instance RoutingConfig_settable : Settable RoutingConfig := fun r =>
  mkRouting (mode r) (primary_backend r) (shadow_backend r) (exclude_paths r).

Record RoutingDecision := mkDecision { backend : Backend; shadow : option Backend }.

(** ** Weighted choice *)

(** The [u32] sum; it wraps in a release build. *)
Definition total_weight (cs : list Backend) : Z := foldl (fun a b => wrap_u32 (a + weight b)) 0%Z cs.

(** The loop over the candidates. *)
Fixpoint select (pick acc : Z) (cs : list Backend) : option Backend :=
  match cs with
  | [] => None
  | b :: cs' =>
      let acc := wrap_u32 (acc + weight b) in
      if (pick <? acc)%Z then Some b else select pick acc cs'
  end.

Definition select_or_last (pick : Z) (cs : list Backend) : option Backend :=
  match select pick 0 cs with Some b => Some b | None => last cs end.

Section Router.
Context {Order : HashOrder}.

Definition eligible (now : Z) (p : BackendPool) (b : Backend) : bool :=
  is_routable b && (0 <? weight b)%Z && breaker_can_route now (name b) p.

Definition candidates (now : Z) (p : BackendPool) : list Backend :=
  filter (fun b => eligible now p b = true) (iter (backends p)).*2.

(** The retry loop: a backend whose probe was lost is dropped, so the number
    of candidates is enough fuel. *)
Fixpoint choose (fuel : nat) (draw : nat -> Z -> Z) (i : nat) (now : Z) (cs : list Backend) (p : BackendPool) :
    option Backend * BackendPool :=
  match fuel with
  | O => (None, p)
  | S fuel' =>
      let total := total_weight cs in
      if (total =? 0)%Z then (None, p)
      else match select_or_last (draw i total) cs with
           | None => (None, p)
           | Some b =>
               let '(ok, p') := breaker_admit now (name b) p in
               if ok then (Some b, p')
               else
                 let cs' := filter (fun c => name c <> name b) cs in
                 if is_empty cs' then (None, p') else choose fuel' draw (S i) now cs' p'
           end
  end.

Definition shadow_of (now : Z) (r : RoutingConfig) (chosen : Backend) (p : BackendPool) : option Backend :=
  n ← shadow_backend r;
  b ← backends p !! n;
  if bool_decide (name b <> name chosen) && is_routable b && breaker_can_route now (name b) p
  then Some b else None.

Definition decide_route (draw : nat -> Z -> Z) (now : Z) (r : RoutingConfig) (p : BackendPool) :
    option RoutingDecision * BackendPool :=
  let '(chosen, p') :=
    match mode r with
    | Shadow =>
        match primary_backend r ≫= fun n => backends p !! n with
        | Some b =>
            if negb (is_routable b) || negb (breaker_can_route now (name b) p) then (None, p)
            else let '(ok, p') := breaker_admit now (name b) p in
                 if ok then (Some b, p') else (None, p')
        | None => (None, p)
        end
    | ActiveActive | Canary =>
        let cs := candidates now p in
        if is_empty cs then (None, p) else choose (length cs) draw 0 now cs p
    end in
  ((fun b => mkDecision b (if bool_decide (mode r = Shadow) then shadow_of now r b p' else None)) <$> chosen, p').
End Router.

(** ** The weights *)

Fixpoint sum_weights (cs : list Backend) : Z :=
  match cs with [] => 0%Z | b :: cs' => (weight b + sum_weights cs')%Z end.

Lemma total_weight_acc a cs :
  (0 <= a)%Z -> Forall (fun b => (0 <= weight b)%Z) cs -> (a + sum_weights cs < 2 ^ 32)%Z ->
  foldl (fun a b => wrap_u32 (a + weight b)) a cs = (a + sum_weights cs)%Z.
Proof.
  intros Ha H. revert a Ha. induction H as [|b cs Hb Hcs IH]; intros a Ha Hs; cbn; [lia|].
  cbn in Hs. assert (0 <= sum_weights cs)%Z.
  { clear -Hcs. induction Hcs; cbn; lia. }
  rewrite wrap_u_small by lia. rewrite IH by lia. lia.
Qed.

Lemma total_weight_sum cs :
  Forall (fun b => (0 <= weight b)%Z) cs -> (sum_weights cs < 2 ^ 32)%Z -> total_weight cs = sum_weights cs.
Proof. intros. unfold total_weight. rewrite total_weight_acc by (done || lia). lia. Qed.

Lemma sum_weights_nonneg cs : Forall (fun b => (0 <= weight b)%Z) cs -> (0 <= sum_weights cs)%Z.
Proof. induction 1; cbn; lia. Qed.

Lemma sum_weights_app l1 l2 : sum_weights (l1 ++ l2) = (sum_weights l1 + sum_weights l2)%Z.
Proof. induction l1 as [|b l1 IH]; cbn; [done|]. rewrite IH. lia. Qed.

(** The interval of draws of a candidate. *)
Lemma select_interval l1 b l2 acc pick :
  Forall (fun b => (0 <= weight b)%Z) (l1 ++ b :: l2) -> (0 <= acc)%Z ->
  (acc + sum_weights (l1 ++ b :: l2) < 2 ^ 32)%Z ->
  (acc + sum_weights l1 <= pick < acc + sum_weights l1 + weight b)%Z ->
  select pick acc (l1 ++ b :: l2) = Some b.
Proof.
  revert acc. induction l1 as [|x l1 IH]; intros acc Hw Ha Hs Hp; cbn [app select] in *.
  - apply Forall_cons in Hw as [Hb Hw]. cbn in Hs, Hp. pose proof (sum_weights_nonneg l2 Hw).
    rewrite wrap_u_small by lia. rewrite (proj2 (Z.ltb_lt _ _)) by lia. done.
  - apply Forall_cons in Hw as [Hx Hw]. pose proof (sum_weights_nonneg _ Hw). cbn in Hs, Hp.
    apply Forall_app in Hw as Hw'. destruct Hw' as [Hw1 _]. pose proof (sum_weights_nonneg l1 Hw1).
    rewrite wrap_u_small by lia. rewrite (proj2 (Z.ltb_ge _ _)) by lia. apply IH; [done|lia|lia|lia].
Qed.

(** The choice is weighted as configured: with weights that add up to
    less than [2^32], the draws in [0..total] that select a candidate are
    exactly [weight] consecutive ones, the intervals of the candidates follow
    one another and cover all draws. *)
Theorem weighted_choice l1 b l2 pick :
  let cs := l1 ++ b :: l2 in
  Forall (fun b => (0 <= weight b)%Z) cs -> NoDup cs -> (sum_weights cs < 2 ^ 32)%Z ->
  (0 <= pick < total_weight cs)%Z ->
  select_or_last pick cs = Some b <-> (sum_weights l1 <= pick < sum_weights l1 + weight b)%Z.
Proof.
  cbv zeta. intros Hw Hnd Hs Hp. rewrite total_weight_sum in Hp by done. unfold select_or_last. split.
  - intros Hsel.
    assert (Hex : exists m1 x m2, l1 ++ b :: l2 = m1 ++ x :: m2 /\
                    (sum_weights m1 <= pick < sum_weights m1 + weight x)%Z).
    { clear Hsel Hs Hnd. generalize dependent (l1 ++ b :: l2). intros cs. revert pick.
      induction cs as [|x cs IH]; intros pick Hw Hp; cbn in Hp; [lia|].
      apply Forall_cons in Hw as [Hx Hw]. destruct (Z_lt_dec pick (weight x)) as [Hlt|Hge].
      - exists [], x, cs. cbn. split; [done|lia].
      - destruct (IH (pick - weight x)%Z Hw) as (m1 & y & m2 & -> & Hy); [lia|].
        exists (x :: m1), y, m2. cbn. split; [done|lia]. }
    destruct Hex as (m1 & x & m2 & E & Hx).
    rewrite E in Hsel, Hw, Hs, Hnd. rewrite (select_interval m1 x m2 0 pick) in Hsel by (done || lia).
    injection Hsel as ->.
    assert (l1 = m1) as ->; [|done].
    apply NoDup_app in Hnd as (_ & Hnot & Hnd2). apply NoDup_cons in Hnd2 as [Hnb _].
    revert E Hnot. clear -Hnb. revert m1. induction l1 as [|y l1 IH]; intros [|z m1] E Hnot; [done|..].
    + injection E as -> E. exfalso. apply (Hnot z); [by left|by left].
    + injection E as -> E. exfalso. apply Hnb. rewrite <- E. apply elem_of_app. right. by left.
    + injection E as -> E. f_equal. apply IH; [done|]. intros w Hw. apply Hnot. by right.
  - intros Hi. rewrite (select_interval l1 b l2 0 pick) by (done || lia). done.
Qed.

Definition two : Backend := Backend_new (B "c") (mkBackendConfig (B "127.0.0.1:8081") 2 (B "/")).
Definition three : Backend := Backend_new (B "rust") (mkBackendConfig (B "127.0.0.1:8082") 3 (B "/")).

Lemma weighted_choice_witness :
  select_or_last 4 [two; three] = Some three <-> (2 <= 4 < 2 + 3)%Z.
Proof.
  apply (weighted_choice [two] three [] 4);
    [repeat constructor; by vm_compute|apply NoDup_cons; split; [|apply NoDup_singleton]|by vm_compute|by vm_compute].
  intros H. apply list_elem_of_singleton in H. discriminate.
Defined.

(** With weights that add up to [2^32] the sum wraps to zero and nothing is
    routed, although every backend is eligible. *)
Example weights_wrap :
  let b n := Backend_new n (mkBackendConfig (B "127.0.0.1:8081") (2 ^ 31) (B "/")) in
  total_weight [b (B "c"); b (B "rust")] = 0%Z.
Proof. by vm_compute. Qed.

(** ** Decisions *)

Lemma select_elem pick acc cs b : select pick acc cs = Some b -> b ∈ cs.
Proof.
  revert acc. induction cs as [|x cs IH]; intros acc; cbn; [done|].
  destruct (_ <? _)%Z; [intros [= ->]; by left|]. intros H. right. by eapply IH.
Qed.

Lemma select_or_last_elem pick cs b : select_or_last pick cs = Some b -> b ∈ cs.
Proof.
  unfold select_or_last. destruct (select pick 0 cs) as [x|] eqn:E.
  - intros [= ->]. by eapply select_elem.
  - intros H. apply last_Some in H as [l ->]. apply elem_of_app. right. by left.
Qed.

Lemma select_or_last_some pick cs : cs <> [] -> is_Some (select_or_last pick cs).
Proof.
  intros Hne. unfold select_or_last. destruct (select pick 0 cs); [by eexists|].
  destruct (last cs) eqn:E; [by eexists|]. by apply last_None in E.
Qed.

Section Decisions.
Context {Order : HashOrder}.

Lemma elem_of_candidates now p b :
  named p -> b ∈ candidates now p <-> backends p !! name b = Some b /\ eligible now p b = true.
Proof.
  intros Hn. unfold candidates. rewrite list_elem_of_filter, list_elem_of_fmap. split.
  - intros (He & [n x] & Hx & Hin). cbn in Hx. subst x. apply elem_of_iter in Hin.
    by rewrite (Hn n b Hin).
  - intros [Hb He]. split; [done|]. exists (name b, b). split; [done|]. by apply elem_of_iter.
Qed.

(** Eligible candidates are admitted at the first draw. *)
Lemma choose_eligible n draw i now cs p :
  cs <> [] -> Forall (fun b => breaker_can_route now (name b) p = true) cs -> total_weight cs <> 0%Z ->
  exists b p', choose (S n) draw i now cs p = (Some b, p') /\ b ∈ cs /\ breaker_admit now (name b) p = (true, p').
Proof.
  intros Hne He Ht. cbn [choose]. rewrite (proj2 (Z.eqb_neq _ _)) by done.
  destruct (select_or_last_some (draw i (total_weight cs)) cs Hne) as [b Eb]. rewrite Eb.
  apply select_or_last_elem in Eb. pose proof (proj1 (Forall_forall _ _) He b Eb) as Hc.
  pose proof (breaker_admit_spec now (name b) p) as Ha.
  destruct (breaker_admit now (name b) p) as [ok p'] eqn:Ea. destruct Ha as (Hok & _).
  assert (ok = true) as -> by congruence. by exists b, p'.
Qed.

Lemma choose_none n draw i now cs p : total_weight cs = 0%Z -> choose n draw i now cs p = (None, p).
Proof. intros H. destruct n; cbn; [done|]. by rewrite H. Qed.

Lemma candidates_can_route now p :
  Forall (fun b => breaker_can_route now (name b) p = true) (candidates now p).
Proof.
  apply Forall_forall. intros b. unfold candidates. rewrite list_elem_of_filter. intros [He _].
  unfold eligible in He. apply andb_prop in He as [_ He]. done.
Qed.

Lemma choose_candidates draw now p :
  let cs := candidates now p in
  (total_weight cs = 0%Z /\ choose (length cs) draw 0 now cs p = (None, p)) \/
  exists b p', choose (length cs) draw 0 now cs p = (Some b, p') /\ b ∈ cs /\
               breaker_admit now (name b) p = (true, p').
Proof.
  cbv zeta. set (cs := candidates now p). destruct (decide (total_weight cs = 0%Z)) as [E|E].
  - left. split; [done|]. by apply choose_none.
  - right. assert (Hne : cs <> []) by (intros Hz; apply E; by rewrite Hz).
    destruct (length cs) as [|m] eqn:El; [by apply nil_length_inv in El|].
    apply choose_eligible; [done| |done]. apply candidates_can_route.
Qed.

(** What a decision promises about the pool before and after it. *)
Record sound (now : Z) (r : RoutingConfig) (p p' : BackendPool) (d : RoutingDecision) : Prop := {
  sound_backend : backends p !! name (backend d) = Some (backend d);
  sound_routable : is_routable (backend d) = true;
  sound_breaker : breaker_can_route now (name (backend d)) p = true;
  sound_weight : if decide (mode r = Shadow) then primary_backend r = Some (name (backend d))
                 else (0 < weight (backend d))%Z;
  sound_admitted : breaker_admit now (name (backend d)) p = (true, p');
  sound_others : forall m, m <> name (backend d) -> breakers p' !! m = breakers p !! m;
  sound_shadow : forall sh, shadow d = Some sh ->
    mode r = Shadow /\ name sh <> name (backend d) /\ is_routable sh = true /\
    breaker_can_route now (name sh) p' = true;
}.

Lemma sound_intro now r p p' b :
  backends p !! name b = Some b -> is_routable b = true -> breaker_can_route now (name b) p = true ->
  (if decide (mode r = Shadow) then primary_backend r = Some (name b) else (0 < weight b)%Z) ->
  breaker_admit now (name b) p = (true, p') ->
  sound now r p p' (mkDecision b (if bool_decide (mode r = Shadow) then shadow_of now r b p' else None)).
Proof.
  intros H1 H2 H3 H4 H5. constructor; cbn; try done.
  - pose proof (breaker_admit_spec now (name b) p) as Ha. rewrite H5 in Ha. apply Ha.
  - intros sh. destruct (decide (mode r = Shadow)) as [Hm|Hm]; [|by rewrite bool_decide_false].
    rewrite bool_decide_true by done. unfold shadow_of.
    intros (n & _ & (x & _ & Hx)%bind_Some)%bind_Some. case_match eqn:E; [|done]. injection Hx as ->.
    apply andb_prop in E as [[E1 E2]%andb_prop E3]. apply bool_decide_eq_true in E1. done.
Qed.

Lemma active_choice draw now p b p' :
  named p ->
  (let cs := candidates now p in
   if is_empty cs then (None, p) else choose (length cs) draw 0 now cs p) = (Some b, p') ->
  backends p !! name b = Some b /\ is_routable b = true /\ breaker_can_route now (name b) p = true /\
  (0 < weight b)%Z /\ breaker_admit now (name b) p = (true, p').
Proof.
  intros Hn. cbv zeta. destruct (is_empty _); [done|].
  destruct (choose_candidates draw now p) as [[_ ->]|(x & q & -> & Hin & Ha)]; [done|].
  intros [= -> ->]. apply elem_of_candidates in Hin as [Hb He]; [|done]. unfold eligible in He.
  apply andb_prop in He as [[H1 H2]%andb_prop H3]. apply Z.ltb_lt in H2. done.
Qed.

Lemma decide_route_sound draw now r p d p' :
  named p -> decide_route draw now r p = (Some d, p') -> sound now r p p' d.
Proof.
  intros Hn. unfold decide_route. destruct (decide (mode r = Shadow)) as [Hm|Hm].
  - rewrite Hm. destruct (primary_backend r) as [n|] eqn:Hp; [|done]. cbn [mbind option_bind].
    destruct (backends p !! n) as [b|] eqn:Hb; [|done].
    destruct (negb (is_routable b) || negb (breaker_can_route now (name b) p)) eqn:E; [done|].
    apply orb_false_elim in E as [E1%negb_false_iff E2%negb_false_iff].
    destruct (breaker_admit now (name b) p) as [ok q] eqn:Ea. destruct ok; [|done].
    intros [= <- ->]. pose proof (Hn n b Hb) as <-.
    pose proof (sound_intro now r p p' b Hb E1 E2) as Hx. rewrite decide_True in Hx by done.
    rewrite bool_decide_true in Hx by done. by apply Hx.
  - intros H. assert (Hch : (let cs := candidates now p in
      if is_empty cs then (None, p) else choose (length cs) draw 0 now cs p) = (Some (backend d), p') /\
      d = mkDecision (backend d) (if bool_decide (mode r = Shadow) then shadow_of now r (backend d) p' else None)).
    { destruct (mode r); [| done |]; destruct (if is_empty _ then _ else _) as [[b|] q] eqn:E; try done;
        injection H as <- <-; done. }
    destruct Hch as [Hch ->]. apply active_choice in Hch as (H1 & H2 & H3 & H4 & H5); [|done].
    apply sound_intro; try done. by rewrite decide_False.
Qed.

(** C34: what a routing decision guarantees: the backend is in the pool,
    healthy enough and allowed by its breaker, has a positive weight (or is
    the configured primary in shadow mode); its breaker is the only one that
    changes, so no probe is claimed on a backend that gets no request; a
    shadow is another eligible backend. *)
Theorem decision_sound draw now r p d p' :
  named p -> decide_route draw now r p = (Some d, p') -> sound now r p p' d.
Proof. apply decide_route_sound. Qed.

(** Outside shadow mode a request is refused only for want of an
    eligible backend: with weights whose sum does not wrap, a decision is made
    exactly when some backend is routable, has a positive weight and is
    allowed by its breaker; a refusal changes nothing. *)
Theorem decision_available draw now r p :
  named p -> mode r <> Shadow -> (sum_weights (candidates now p) < 2 ^ 32)%Z ->
  (is_Some (decide_route draw now r p).1 <->
   exists n b, backends p !! n = Some b /\ eligible now p b = true) /\
  ((decide_route draw now r p).1 = None -> (decide_route draw now r p).2 = p).
Proof.
  intros Hn Hm Hs. set (cs := candidates now p) in *.
  assert (E : decide_route draw now r p =
    let '(c, p') := if is_empty cs then (None, p) else choose (length cs) draw 0 now cs p in
    ((fun b => mkDecision b None) <$> c, p')).
  { unfold decide_route. rewrite bool_decide_false by done. by destruct (mode r). }
  assert (Hpos : Forall (fun b => (0 < weight b)%Z) cs).
  { apply Forall_forall. intros b Hb. apply elem_of_candidates in Hb as [_ He]; [|done].
    unfold eligible in He. apply andb_prop in He as [[_ He]%andb_prop _]. by apply Z.ltb_lt. }
  assert (Hex : cs <> [] <-> exists n b, backends p !! n = Some b /\ eligible now p b = true).
  { split.
    - intros Hne. destruct (head cs) as [b|] eqn:Eh; [|by destruct cs].
      exists (name b), b. apply elem_of_candidates; [done|]. fold cs. by apply head_Some_elem_of.
    - intros (n & b & Hb & He) Hz. assert (Hin : b ∈ cs).
      { apply elem_of_candidates; [done|]. by rewrite (Hn n b Hb). }
      rewrite Hz in Hin. by apply not_elem_of_nil in Hin. }
  pose proof (choose_candidates draw now p) as Hch. cbv zeta in Hch. fold cs in Hch.
  rewrite <- Hex, E. clearbody cs. destruct cs as [|b l].
  - cbn. split; [|done]. split; [by intros [? ?]|done].
  - cbn [is_empty]. destruct Hch as [[Hz _]|(x & q & -> & _ & _)].
    + exfalso. rewrite total_weight_sum in Hz; [|eapply Forall_impl; [exact Hpos|cbn; lia]|done].
      apply Forall_cons in Hpos as [Hb Hl]. cbn in Hz.
      pose proof (sum_weights_nonneg l ltac:(eapply Forall_impl; [exact Hl|cbn; lia])). lia.
    + cbn. split; [|done]. split; [done|by eexists].
Qed.
End Decisions.

(** ** A concrete pool *)

#[export] Instance list_order : HashOrder := {| iter A m := map_to_list m; iter_perm A m := Permutation_refl _ |}.

Definition demo_pool : BackendPool :=
  with_breaker_cfg {[B "c" := config two; B "rust" := config three]} half_cfg 0.

Definition demo_routing : RoutingConfig := mkRouting ActiveActive None None [].

Lemma demo_pool_named : named demo_pool.
Proof. apply with_breaker_cfg_named. Qed.

Lemma decision_sound_witness :
  exists d p', decide_route (fun _ _ => 0%Z) 0 demo_routing demo_pool = (Some d, p') /\
    sound 0 demo_routing demo_pool p' d.
Proof.
  destruct (decide_route (fun _ _ => 0%Z) 0 demo_routing demo_pool) as [[d|] p'] eqn:E.
  - exists d, p'. split; [done|].
    apply (decision_sound (fun _ _ => 0%Z) 0 demo_routing demo_pool d p' demo_pool_named E).
  - exfalso. assert (H : is_some (decide_route (fun _ _ => 0%Z) 0 demo_routing demo_pool).1 = true)
      by (by vm_compute). by rewrite E in H.
Defined.

Lemma decision_available_witness :
  is_Some (decide_route (fun _ _ => 1%Z) 0 demo_routing demo_pool).1.
Proof.
  apply (proj1 (decision_available (fun _ _ => 1%Z) 0 demo_routing demo_pool demo_pool_named
    ltac:(discriminate) ltac:(by vm_compute))).
  exists (B "c"), two. split; by vm_compute.
Defined.
