(* ===== verification/MigrateConfig.v ===== *)
(** * Configuration of the migration proxy (rust/crates/thttpd-migrate/src/config.rs)

    The configuration records with their defaults, and [validate].  The TOML
    text is read by serde; [hyper::Uri] is the parameter [uri_ok]; the socket
    address parser of the standard library is written out. *)

From S2P Require Import Prelude RustStr Breaker Backend Router.

Record MetricsConfig := mkMetrics { metrics_listen : bytes; metrics_path : bytes }.
Record ShadowConfig := mkShadow { max_body_bytes : Z }.

Record ProxyConfig := mkProxyConfig {
  listen : bytes;
  log_level : bytes;
  state_path : bytes;
  control_socket : bytes;
  metrics : MetricsConfig;
  shadow_cfg : ShadowConfig;
  proxy_backends : gmap (list ascii) BackendConfig;
  routing : RoutingConfig;
  health_cfg : HealthConfig;
  circuit_breaker : CircuitConfig;
}.

#[export] Instance ProxyConfig_settable : Settable ProxyConfig := fun c =>
  mkProxyConfig (listen c) (log_level c) (state_path c) (control_socket c) (metrics c) (shadow_cfg c)
    (proxy_backends c) (routing c) (health_cfg c) (circuit_breaker c).

(** ** Defaults *)

Definition default_log_level : bytes := B "info".
Definition default_state_path : bytes := B "/var/run/thttpd-migrate/state.json".
Definition default_control_socket : bytes := B "/var/run/thttpd-migrate/control.sock".
Definition default_metrics : MetricsConfig := mkMetrics (B "127.0.0.1:9100") (B "/metrics").
Definition default_shadow : ShadowConfig := mkShadow 1048576.
Definition default_weight : Z := 1.
Definition default_health_path : bytes := B "/".
Definition default_health : HealthConfig := mkHealthConfig 1000 500 3 2.

(** 0.5 in binary64. *)
Definition default_error_rate : SpecFloat.spec_float := SpecFloat.S754_finite false 4503599627370496 (-53).
Definition default_circuit : CircuitConfig := mkCircuit default_error_rate 30 20.

(** [BackendPool::from_config]: a pool with the default breakers. *)
Definition pool_from_config (bs : gmap (list ascii) BackendConfig) (now : Z) : BackendPool :=
  with_breaker_cfg bs default_circuit now.

(** A configuration that gives only the address, the backends and the routing. *)
Definition minimal_config (lst : bytes) (bs : gmap (list ascii) BackendConfig) (r : RoutingConfig) : ProxyConfig :=
  mkProxyConfig lst default_log_level default_state_path default_control_socket default_metrics default_shadow
    bs r default_health default_circuit.

(** [Duration::from_millis], in nanoseconds. *)
Definition interval (c : HealthConfig) : Z := interval_ms c * 1000000.
Definition timeout (c : HealthConfig) : Z := timeout_ms c * 1000000.

(** ** Socket addresses: [str::parse::<SocketAddr>] *)

Module SocketAddr.
Definition hex_value (c : byte) : option Z :=
  (if is_ascii_digit c then Some (code c - 48)
   else if (97 <=? code c) && (code c <=? 102) then Some (code c - 87)
   else if (65 <=? code c) && (code c <=? 70) then Some (code c - 55)
   else None)%Z.

(** The digits at the head of the input: their value, their number and the
    rest; at most [w] of them are read. *)
Fixpoint digits (radix : Z) (w : nat) (acc : Z) (k : nat) (s : bytes) : Z * nat * bytes :=
  match w, s with
  | S w', c :: s' =>
      match hex_value c with
      | Some d => if (d <? radix)%Z then digits radix w' (acc * radix + d) (S k) s' else (acc, k, s)
      | None => (acc, k, s)
      end
  | _, _ => (acc, k, s)
  end.

(** [read_number]: more than [max_digits] digits, a number over [limit] or (for
    the parts of an IPv4 address) a leading zero is refused. *)
Definition read_number (radix : Z) (max_digits : option nat) (zero_prefix : bool) (limit : Z) (s : bytes) :
    option bytes :=
  let '(v, k, rest) := digits radix (length s) 0 0 s in
  let leading_zero := match s with c :: _ => c =c? "0"%char | [] => false end in
  if (k =? 0) || (limit <? v)%Z || (match max_digits with Some m => m <? k | None => false end)
     || (negb zero_prefix && leading_zero && (1 <? k))
  then None else Some rest.

Definition read_char (c : byte) (s : bytes) : option bytes :=
  match s with x :: s' => if x =c? c then Some s' else None | [] => None end.

(** [read_separator]: the separator precedes all parts but the first. *)
Definition separated (sep : byte) (i : nat) (p : bytes -> option bytes) (s : bytes) : option bytes :=
  if i =? 0 then p s else s' ← read_char sep s; p s'.

Definition octet (i : nat) (s : bytes) : option bytes :=
  separated "."%char i (read_number 10 (Some 3) false 255) s.

Definition read_ipv4 (s : bytes) : option bytes :=
  s ← octet 0 s; s ← octet 1 s; s ← octet 2 s; octet 3 s.

(** [read_groups]: how many groups were read, whether an IPv4 address ended
    them, and the rest; [left] groups are still wanted. *)
Fixpoint read_groups (left i : nat) (s : bytes) : nat * bool * bytes :=
  match left with
  | O => (i, false, s)
  | S left' =>
      match (if 1 <=? left' then separated ":"%char i read_ipv4 s else None) with
      | Some s' => (i + 2, true, s')
      | None =>
          match separated ":"%char i (read_number 16 (Some 4) true 65535) s with
          | Some s' => read_groups left' (S i) s'
          | None => (i, false, s)
          end
      end
  end.

Definition read_ipv6 (s : bytes) : option bytes :=
  let '(head_size, head_ipv4, s) := read_groups 8 0 s in
  if head_size =? 8 then Some s
  else if head_ipv4 then None
  else
    s ← read_char ":"%char s;
    s ← read_char ":"%char s;
    Some (read_groups (8 - (head_size + 1)) 0 s).2.

Definition read_port (s : bytes) : option bytes :=
  s ← read_char ":"%char s; read_number 10 None true 65535 s.

Definition read_scope_id (s : bytes) : bytes :=
  unwrap_or s (s' ← read_char "%"%char s; read_number 10 None true 4294967295 s').

Definition read_v4 (s : bytes) : option bytes := s ← read_ipv4 s; read_port s.

Definition read_v6 (s : bytes) : option bytes :=
  s ← read_char "["%char s;
  s ← read_ipv6 s;
  s ← read_char "]"%char (read_scope_id s);
  read_port s.

(** The whole input must be read. *)
Definition parses (s : bytes) : bool :=
  match (match read_v4 s with Some r => Some r | None => read_v6 s end) with Some r => is_empty r | None => false end.
End SocketAddr.

Example socket_addresses :
  SocketAddr.parses (B "127.0.0.1:8080") = true /\ SocketAddr.parses (B "[::1]:8080") = true /\
  SocketAddr.parses (B "[::ffff:1.2.3.4]:80") = true /\ SocketAddr.parses (B "[1:2:3:4:5:6:7:8]:80") = true /\
  SocketAddr.parses (B "127.0.0.1") = false /\ SocketAddr.parses (B "127.0.0.01:80") = false /\
  SocketAddr.parses (B "localhost:80") = false /\ SocketAddr.parses (B "127.0.0.1:65536") = false /\
  SocketAddr.parses (B "[::1]80") = false.
Proof. vm_compute. auto 10. Qed.

(** ** Backend addresses *)

(** [s.rfind(c)]. *)
Definition rfind (c : byte) (s : bytes) : option nat := rposition (fun x => x =c? c) s.

Definition split_host_port (authority : bytes) : bytes * option bytes :=
  if starts_with (B "[") authority then
    match find_sub (B "]:") authority with
    | Some i => (take (S i) authority, Some (drop (i + 2) authority))
    | None => (authority, None)
    end
  else
    match rfind ":"%char authority with
    | Some i => (take i authority, Some (drop (S i) authority))
    | None => (authority, None)
    end.

Inductive ConfigError :=
| NoBackend | AddressEmpty | AddressScheme | AddressPath | AddressSpace | AddressNoHost | AddressNoPort
| AddressPort | AddressInvalid | WeightZero | NoPrimary | NoShadow | SameBackends | UnknownPrimary | UnknownShadow
| BadListen | BadMetricsListen.

#[export] Instance ConfigError_eq_dec : EqDecision ConfigError.
Proof. solve_decision. Defined.

(** [anyhow::ensure!] in a row: the first failing test is the error. *)
Definition ensure (ok : bool) (e : ConfigError) (k : option ConfigError) : option ConfigError :=
  if ok then k else Some e.

Section Validate.
Context {Order : HashOrder} (uri_ok : bytes -> bool).

(** [None] is [Ok(())]. *)
Definition validate_backend_address (address : bytes) : option ConfigError :=
  ensure (negb (is_empty address)) AddressEmpty
  (ensure (negb (contains_sub (B "://") address)) AddressScheme
  (ensure (negb (contains_char "/"%char address || contains_char "?"%char address || contains_char "#"%char address))
     AddressPath
  (ensure (negb (existsb char_is_whitespace (chars address))) AddressSpace
  (let '(host, port) := split_host_port address in
   ensure (negb (is_empty host)) AddressNoHost
   (match port with
    | None => Some AddressNoPort
    | Some port =>
        ensure (negb (is_empty port) && forallb is_ascii_digit port) AddressPort
        (ensure (uri_ok (B "http://" ++ address ++ B "/")) AddressInvalid None)
    end))))).

(** The [u32] sum; it wraps in a release build. *)
Definition config_weight (ws : list BackendConfig) : Z := foldl (fun a c => wrap_u32 (a + cfg_weight c)) 0%Z ws.

(** The first bad address, in the order of the map. *)
Fixpoint first_error (l : list BackendConfig) : option ConfigError :=
  match l with
  | [] => None
  | c :: l' => match validate_backend_address (address c) with Some e => Some e | None => first_error l' end
  end.

Definition validate_routing (c : ProxyConfig) (k : option ConfigError) : option ConfigError :=
  if bool_decide (mode (routing c) = Shadow) then
    match primary_backend (routing c) with
    | None => Some NoPrimary
    | Some primary =>
        match shadow_backend (routing c) with
        | None => Some NoShadow
        | Some shadow =>
            ensure (negb (bytes_eqb primary shadow)) SameBackends
            (ensure (is_some (proxy_backends c !! primary)) UnknownPrimary
            (ensure (is_some (proxy_backends c !! shadow)) UnknownShadow k))
        end
    end
  else k.

Definition validate (c : ProxyConfig) : option ConfigError :=
  ensure (bool_decide (proxy_backends c <> ∅)) NoBackend
  (match first_error (iter (proxy_backends c)).*2 with
   | Some e => Some e
   | None =>
       ensure (0 <? config_weight (iter (proxy_backends c)).*2)%Z WeightZero
       (validate_routing c
          (ensure (SocketAddr.parses (listen c)) BadListen
          (ensure (SocketAddr.parses (metrics_listen (metrics c))) BadMetricsListen None)))
   end).
End Validate.

(** ** Addresses that pass *)

Lemma rposition_Some {A} (p : A -> bool) l i : rposition p l = Some i -> exists x, l !! i = Some x /\ p x = true.
Proof.
  revert i. induction l as [|a l IH]; intros i; cbn; [done|]. destruct (rposition p l) as [j|].
  - intros [= <-]. by apply IH.
  - destruct (p a) eqn:E; [|done]. intros [= <-]. eauto.
Qed.

Lemma find_sub_Some needle s i : find_sub needle s = Some i -> exists t, drop i s = needle ++ t.
Proof.
  revert i. induction s as [|c s IH]; intros i; cbn [find_sub].
  - destruct (starts_with needle []) eqn:E; [|done]. intros [= <-]. by apply starts_with_spec in E.
  - destruct (starts_with needle (c :: s)) eqn:E; [intros [= <-]; by apply starts_with_spec in E|].
    destruct (find_sub needle s) as [j|]; [|done]. intros [= <-]. by apply IH.
Qed.

Lemma split_host_port_Some a h p : split_host_port a = (h, Some p) -> a = h ++ B ":" ++ p.
Proof.
  unfold split_host_port. destruct (starts_with (B "[") a).
  - destruct (find_sub (B "]:") a) as [i|] eqn:E; [|done]. intros [= <- <-].
    apply find_sub_Some in E as [t E]. rewrite <- drop_drop, E. cbn [drop B app].
    rewrite <- (take_drop (S i) a) at 1. f_equal. replace (S i) with (i + 1) by lia. rewrite <- drop_drop, E. done.
  - unfold rfind. destruct (rposition _ a) as [i|] eqn:E; [|done]. intros [= <- <-].
    apply rposition_Some in E as (x & Hx & Hc). apply Ascii.eqb_eq in Hc as ->.
    symmetry. exact (take_drop_middle a i ":"%char Hx).
Qed.

(** What an accepted backend address looks like: a host, a colon and a
    port of decimal digits, neither empty, with no slash, question mark, hash
    sign or white space, that forms a URI as the forwarder builds it. *)
Theorem accepted_address uri_ok a :
  validate_backend_address uri_ok a = None ->
  exists host port,
    a = host ++ B ":" ++ port /\ host <> [] /\ port <> [] /\ Forall (fun c => is_ascii_digit c = true) port /\
    Forall (fun c => c <> "/"%char /\ c <> "?"%char /\ c <> "#"%char) a /\
    Forall (fun c => char_is_whitespace c = false) (chars a) /\
    uri_ok (B "http://" ++ a ++ B "/") = true.
Proof.
  unfold validate_backend_address, ensure. destruct (is_empty a); [done|]. destruct (contains_sub _ a); [done|]. cbn [negb].
  destruct (_ || _) eqn:Ep; [done|]. destruct (existsb char_is_whitespace (chars a)) eqn:Ew; [done|]. cbn [negb].
  destruct (split_host_port a) as [h [p|]] eqn:E; [|by destruct (negb (is_empty h))].
  destruct (is_empty h) eqn:Eh; [done|]. cbn [negb].
  destruct (negb (is_empty p) && forallb is_ascii_digit p) eqn:Ed; [|done].
  destruct (uri_ok _) eqn:Eu; [|done]. intros _. apply andb_true_iff in Ed as [Ed1 Ed2].
  apply split_host_port_Some in E as ->. exists h, p. split_and!; try done.
  - by destruct h.
  - by destruct p.
  - apply Forall_forall. intros c Hc. rewrite forallb_forall in Ed2. by apply Ed2, list_elem_of_In.
  - apply orb_false_iff in Ep as [[E1 E2]%orb_false_iff E3]. unfold contains_char in *.
    apply Forall_forall. intros c Hc%list_elem_of_In.
    split_and!; intros ->; [revert E1|revert E2|revert E3]; apply not_false_iff_true, existsb_exists;
      (eexists; split; [exact Hc|by rewrite Ascii.eqb_refl]).
  - apply Forall_forall. intros c Hc%list_elem_of_In. destruct (char_is_whitespace c) eqn:Ec; [|done].
    exfalso. revert Ew. apply not_false_iff_true, existsb_exists. eauto.
Qed.

Lemma accepted_address_witness :
  exists host port,
    B "[::1]:8080" = host ++ B ":" ++ port /\ host <> [] /\ port <> [] /\ Forall (fun c => is_ascii_digit c = true) port.
Proof.
  destruct (accepted_address (fun _ => true) (B "[::1]:8080") eq_refl) as (h & p & H1 & H2 & H3 & H4 & _). eauto 10.
Defined.

(** ** A validated configuration serves *)

Definition sum_Z (l : list Z) : Z := foldr Z.add 0%Z l.

Lemma wrapped_sum l a : foldl (fun a w => wrap_u32 (a + w)) a l = wrap_u32 (a + sum_Z l) \/ l = [].
Proof.
  destruct l as [|w l]; [by right|left]. revert a w. induction l as [|w' l IH]; intros a w; cbn.
  - by rewrite Z.add_0_r.
  - cbn in IH. rewrite IH. unfold wrap_u. rewrite Zplus_mod_idemp_l. f_equal. lia.
Qed.

Lemma wrapped_sum_0 l : foldl (fun a w => wrap_u32 (a + w)) 0%Z l = wrap_u32 (sum_Z l).
Proof. destruct (wrapped_sum l 0) as [->| ->]; done. Qed.

Lemma sum_Z_perm l1 l2 : l1 ≡ₚ l2 -> sum_Z l1 = sum_Z l2.
Proof. unfold sum_Z. induction 1; cbn [foldr] in *; lia. Qed.

#[export] Instance sum_Z_proper : Proper (Permutation ==> eq) sum_Z.
Proof. intros l1 l2. apply sum_Z_perm. Qed.

Lemma foldl_map {A C D} (f : D -> C -> D) (g : A -> C) d l : foldl (fun a x => f a (g x)) d l = foldl f d (map g l).
Proof. revert d. induction l as [|x l IH]; intros d; [done|]. apply IH. Qed.

Section Serves.
Context {Order : HashOrder} (uri_ok : bytes -> bool).

Lemma iter_values {A C} (f : A -> C) (m : gmap (list ascii) A) : map f (iter m).*2 ≡ₚ (map_to_list (f <$> m)).*2.
Proof.
  rewrite map_to_list_fmap. rewrite (iter_perm m). rewrite <- !list_fmap_compose. done.
Qed.

(** The weights of a fresh pool are those of the configuration. *)
Lemma pool_weights bs cb now :
  sum_Z (map weight (iter (backends (with_breaker_cfg bs cb now))).*2) = sum_Z (map cfg_weight (iter bs).*2).
Proof.
  apply sum_Z_perm. rewrite !iter_values. f_equiv. f_equiv. apply map_eq. intros n. cbn.
  rewrite !lookup_fmap, map_lookup_imap. by destruct (bs !! n).
Qed.

(** What [validate] accepts. *)
Record valid_config (c : ProxyConfig) : Prop := {
  vc_weight : (0 < wrap_u32 (sum_Z (map cfg_weight (iter (proxy_backends c)).*2)))%Z;
  vc_shadow : mode (routing c) = Shadow ->
    exists pr sh, primary_backend (routing c) = Some pr /\ shadow_backend (routing c) = Some sh /\ pr <> sh /\
      is_Some (proxy_backends c !! pr) /\ is_Some (proxy_backends c !! sh);
  vc_addresses : Forall (fun b => validate_backend_address uri_ok (address b) = None) (iter (proxy_backends c)).*2;
  vc_listen : SocketAddr.parses (listen c) = true /\ SocketAddr.parses (metrics_listen (metrics c)) = true;
}.

Lemma first_error_None l :
  first_error uri_ok l = None <-> Forall (fun b => validate_backend_address uri_ok (address b) = None) l.
Proof.
  induction l as [|c l IH]; cbn; [done|]. rewrite Forall_cons, <- IH.
  destruct (validate_backend_address uri_ok (address c)); split; [done|by intros [? _]|done|by intros [_ ?]].
Qed.

Lemma config_weight_sum l : config_weight l = wrap_u32 (sum_Z (map cfg_weight l)).
Proof. unfold config_weight. rewrite (foldl_map (fun a w => wrap_u32 (a + w))). apply wrapped_sum_0. Qed.

Lemma validate_routing_None c k :
  validate_routing c k = None <->
  k = None /\ (mode (routing c) = Shadow ->
    exists pr sh, primary_backend (routing c) = Some pr /\ shadow_backend (routing c) = Some sh /\ pr <> sh /\
      is_Some (proxy_backends c !! pr) /\ is_Some (proxy_backends c !! sh)).
Proof.
  unfold validate_routing, ensure, bytes_eqb. destruct (decide (mode (routing c) = Shadow)) as [E|E].
  2: { rewrite bool_decide_false by done. tauto. }
  rewrite bool_decide_true by done. split.
  - destruct (primary_backend _) as [pr|]; [|done]. destruct (shadow_backend _) as [sh|]; [|done].
    destruct (decide (pr = sh)); [by rewrite bool_decide_true|]. rewrite bool_decide_false by done. cbn.
    destruct (proxy_backends c !! pr) eqn:E1; [|done]. destruct (proxy_backends c !! sh) eqn:E2; [|done]. cbn.
    intros ->. split; [done|]. intros _. exists pr, sh. by rewrite E1, E2.
  - intros [-> H]. destruct (H E) as (pr & sh & -> & -> & Hne & [x ->] & [y ->]).
    by rewrite bool_decide_false.
Qed.

(** [validate] decides [valid_config]. *)
Lemma validate_spec c : validate uri_ok c = None <-> valid_config c.
Proof.
  unfold validate, ensure. destruct (decide (proxy_backends c = ∅)) as [E|E].
  { rewrite bool_decide_false by auto. split; [done|]. intros [H _ _ _]. rewrite E in H. exfalso.
    assert (Hn : (iter (∅ : gmap (list ascii) BackendConfig)) = []).
    { apply Permutation_nil_r. rewrite iter_perm, map_to_list_empty. done. }
    rewrite Hn in H. done. }
  rewrite bool_decide_true by done. rewrite config_weight_sum.
  destruct (first_error uri_ok _) eqn:Ef.
  { split; [done|]. intros [_ _ H _]. apply first_error_None in H. congruence. }
  apply first_error_None in Ef. destruct (Z.ltb_spec 0 (wrap_u32 (sum_Z (map cfg_weight (iter (proxy_backends c)).*2)))).
  - rewrite validate_routing_None. destruct (SocketAddr.parses (listen c)) eqn:E1; [|split; [by intros [? _]|intros [_ _ _ [? _]]; congruence]].
    destruct (SocketAddr.parses (metrics_listen (metrics c))) eqn:E2; [|split; [by intros [? _]|intros [_ _ _ [_ ?]]; congruence]].
    split; [intros [_ Hs]|].
    { constructor; [exact H|exact Hs|exact Ef|by split]. }
    by intros [_ Hs _ _].
  - split; [done|]. intros [? _ _ _]. lia.
Qed.

Lemma fresh_eligible bs cb now0 now n c :
  bs !! n = Some c -> (0 < cfg_weight c)%Z -> eligible now (with_breaker_cfg bs cb now0) (Backend_new n c) = true.
Proof.
  intros Hc Hw. unfold eligible, breaker_can_route. cbn. unfold Breakers_from_config. rewrite lookup_fmap, Hc. cbn.
  unfold weight. cbn. by rewrite (proj2 (Z.ltb_lt _ _)).
Qed.

Lemma sum_positive (l : list Backend) :
  Forall (fun b => (0 <= weight b)%Z) l ->
  sum_Z (map weight (filter (fun b => (0 <? weight b)%Z = true) l)) = sum_Z (map weight l).
Proof.
  unfold sum_Z. induction 1 as [|b l Hb _ IH]; [done|]. destruct (Z.ltb_spec 0 (weight b)).
  - rewrite filter_cons_True by lia. cbn [map foldr]. lia.
  - rewrite filter_cons_False by lia. cbn [map foldr]. lia.
Qed.

(** The candidates of a fresh pool are its backends of positive weight. *)
Lemma fresh_candidates bs cb now0 now :
  candidates now (with_breaker_cfg bs cb now0) =
  filter (fun b => (0 <? weight b)%Z = true) (iter (backends (with_breaker_cfg bs cb now0))).*2.
Proof.
  unfold candidates. set (p := with_breaker_cfg bs cb now0).
  assert (H : Forall (fun b => is_routable b = true /\ breaker_can_route now (name b) p = true) (iter (backends p)).*2).
  { apply Forall_forall. intros b ([n x] & -> & Hin)%list_elem_of_fmap. apply elem_of_iter in Hin. cbn in *.
    rewrite map_lookup_imap in Hin. destruct (bs !! n) as [c|] eqn:E; [|done]. injection Hin as <-. split; [done|].
    unfold breaker_can_route. cbn. unfold Breakers_from_config. by rewrite lookup_fmap, E. }
  induction H as [|b l [H1 H2] _ IH]; [done|]. rewrite !filter_cons, IH. unfold eligible. rewrite H1, H2, andb_true_r. done.
Qed.

(** A configuration that passes validation serves: a proxy started
    with it routes its first request, at any time and for any draws, in shadow
    mode to the configured primary and with the configured shadow; this also
    when the sum of the weights wraps. *)
Theorem validated_config_serves c draw now0 now :
  validate uri_ok c = None -> Forall (fun b => (0 <= cfg_weight b)%Z) (iter (proxy_backends c)).*2 ->
  exists d p',
    decide_route draw now (routing c) (with_breaker_cfg (proxy_backends c) (circuit_breaker c) now0) = (Some d, p') /\
    (mode (routing c) = Shadow ->
     Some (name (backend d)) = primary_backend (routing c) /\ (name <$> shadow d) = shadow_backend (routing c)).
Proof.
  intros [Hw Hs _ _]%validate_spec Hpos. set (bs := proxy_backends c) in *. set (p := with_breaker_cfg bs _ now0).
  assert (Hb : forall n x, bs !! n = Some x -> backends p !! n = Some (Backend_new n x) /\
                breaker_can_route now n p = true /\ exists p', breaker_admit now n p = (true, p')).
  { intros n x Hx. unfold breaker_can_route, breaker_admit. cbn. unfold Breakers_from_config. rewrite map_lookup_imap, lookup_fmap, Hx. cbn. eauto. }
  assert (Hcs : mode (routing c) <> Shadow -> exists b p', choose (length (candidates now p)) draw 0 now (candidates now p) p = (Some b, p')
                /\ is_empty (candidates now p) = false).
  { intros _. assert (Ht : total_weight (candidates now p) <> 0%Z).
    { pose proof (fresh_candidates bs (circuit_breaker c) now0 now) as Hf.
      pose proof (pool_weights bs (circuit_breaker c) now0) as Hpw. fold p in Hf, Hpw.
      unfold total_weight. rewrite (foldl_map (fun a w => wrap_u32 (a + w))), wrapped_sum_0, Hf, sum_positive.
      - rewrite Hpw. lia.
      - apply Forall_forall. intros b ([n x] & -> & Hin)%list_elem_of_fmap. apply elem_of_iter in Hin. cbn in *.
        rewrite map_lookup_imap in Hin. destruct (bs !! n) as [y|] eqn:E; [|done]. injection Hin as <-.
        rewrite Forall_forall in Hpos. apply (Hpos y), list_elem_of_fmap. exists (n, y). split; [done|]. by apply elem_of_iter. }
    destruct (choose_candidates draw now p) as [[Hz _]|(b & p' & E & Hin & _)]; [done|]. exists b, p'. split; [done|].
    destruct (candidates now p); [by apply not_elem_of_nil in Hin|done]. }
  unfold decide_route. destruct (mode (routing c)) eqn:Em.
  - destruct (Hcs ltac:(done)) as (b & p' & -> & ->). eexists _, _. split; [reflexivity|done].
  - destruct (Hs eq_refl) as (pr & sh & -> & Esh & Hne & [x Hx] & [y Hy]). fold bs in Hx, Hy.
    destruct (Hb _ _ Hx) as (Hl & Hr & p' & Ha). cbn [mbind option_bind]. rewrite Hl. cbn [name Backend_new].
    rewrite Hr, Ha. cbn. eexists _, _. split; [reflexivity|]. intros _. split; [done|]. cbn.
    destruct (Hb _ _ Hy) as (Hl' & Hr' & _). unfold shadow_of. rewrite Esh. cbn [mbind option_bind].
    pose proof (breaker_admit_spec now pr p) as Hspec. rewrite Ha in Hspec. destruct Hspec as (_ & Hbk & Hbr & _).
    rewrite Hbk, Hl'. cbn. unfold breaker_can_route in *. rewrite Hbr, Hr' by congruence.
    by rewrite (bool_decide_true (sh <> pr)) by congruence.
  - destruct (Hcs ltac:(done)) as (b & p' & -> & ->). eexists _, _. split; [reflexivity|done].
Qed.
End Serves.

Definition demo_config : ProxyConfig :=
  minimal_config (B "127.0.0.1:8080")
    {[B "c" := mkBackendConfig (B "127.0.0.1:8081") 95 (B "/"); B "rust" := mkBackendConfig (B "127.0.0.1:8082") 5 (B "/")]}
    (mkRouting Shadow (Some (B "c")) (Some (B "rust")) []).

Lemma validated_config_serves_witness :
  exists d p',
    decide_route (fun _ _ => 0%Z) 7 (routing demo_config)
      (with_breaker_cfg (proxy_backends demo_config) (circuit_breaker demo_config) 0) = (Some d, p') /\
    (mode (routing demo_config) = Shadow ->
     Some (name (backend d)) = primary_backend (routing demo_config) /\
     (name <$> shadow d) = shadow_backend (routing demo_config)).
Proof.
  apply (validated_config_serves (fun _ => true) demo_config (fun _ _ => 0%Z) 0 7).
  - vm_compute. reflexivity.
  - vm_compute. repeat constructor; discriminate.
Defined.
