(* ===== verification/LiveState.v ===== *)
(** * Live state of the migration proxy (rust/crates/thttpd-migrate/src/state.rs)

    The hot-swapped configuration and the drain flag.  Each command runs under
    the control lock: it is one step on the live state and the pool, which
    [ProxySystem] takes apart; the lock itself and the start time are not part
    of the state. *)

From S2P Require Import Prelude RustStr Breaker Backend Router MigrateConfig.

Record LiveState := mkLive {
  live_config : ProxyConfig;
  live_draining : bool;
  drain_grace : Z;
}.

#[export] Instance LiveState_settable : Settable LiveState := fun s =>
  mkLive (live_config s) (live_draining s) (drain_grace s).

Definition DEFAULT_DRAIN_GRACE_SECS : Z := 30.

Definition LiveState_new (c : ProxyConfig) : LiveState := mkLive c false DEFAULT_DRAIN_GRACE_SECS.

Definition start_drain (s : LiveState) : LiveState := s <| live_draining := true |>.

Definition set_drain_grace (secs : Z) (s : LiveState) : LiveState := s <| drain_grace := Z.max secs 1 |>.

Inductive CommandError := UnknownBackend (n : bytes) | TotalWeightZero.

(** The weights written to the pool and mirrored in the configuration. *)
Definition apply_pool (ws : gmap (list ascii) Z) (p : BackendPool) : BackendPool :=
  p <| backends := map_imap (fun n b => Some (match ws !! n with Some w => set_weight w b | None => b end))
                     (backends p) |>.

Definition apply_config (ws : gmap (list ascii) Z) (c : ProxyConfig) : ProxyConfig :=
  c <| proxy_backends := map_imap (fun n cf =>
         Some (match ws !! n with Some w => cf <| cfg_weight := w |> | None => cf end)) (proxy_backends c) |>.

Section Commands.
Context {Order : HashOrder}.

(** The [u64] sum of the weights after the update. *)
Definition prospective_total (ws : gmap (list ascii) Z) (p : BackendPool) : Z :=
  foldl (fun a b => wrap_u64 (a + unwrap_or (weight b) (ws !! name b))) 0%Z (iter (backends p)).*2.

(** The names, then the total. *)
Definition check_weights (ws : gmap (list ascii) Z) (p : BackendPool) : option CommandError :=
  match list_find (fun n => backends p !! n = None) (iter ws).*1 with
  | Some (_, n) => Some (UnknownBackend n)
  | None => if (prospective_total ws p <=? 0)%Z then Some TotalWeightZero else None
  end.

Definition set_weights (ws : gmap (list ascii) Z) (s : LiveState) (p : BackendPool) :
    (LiveState * BackendPool) + CommandError :=
  match check_weights ws p with
  | Some e => inr e
  | None => inl (s <| live_config := apply_config ws (live_config s) |>, apply_pool ws p)
  end.

(** The names that become the shadow after a rollback, in order of preference. *)
Definition rollback_routing (target : bytes) (names : list bytes) (r : RoutingConfig) : RoutingConfig :=
  if bool_decide (mode r = Shadow) then
    let previous := primary_backend r in
    if bool_decide (previous = Some target) then r
    else
      let other n := if bool_decide (n <> target) then Some n else None in
      let shadow := match previous ≫= other with
                    | Some n => Some n
                    | None => match shadow_backend r ≫= other with
                              | Some n => Some n
                              | None => snd <$> list_find (fun n => n <> target) names
                              end
                    end in
      r <| primary_backend := Some target |> <| shadow_backend := shadow |>
  else r.

Definition check_target (target : bytes) (p : BackendPool) : option CommandError :=
  match backends p !! target with None => Some (UnknownBackend target) | Some _ => None end.

Definition rollback_weights (target : bytes) (p : BackendPool) : gmap (list ascii) Z :=
  map_imap (fun n _ => Some (if bool_decide (n = target) then 100 else 0)%Z) (backends p).

Definition rollback_config (target : bytes) (ws : gmap (list ascii) Z) (c : ProxyConfig) : ProxyConfig :=
  let c := apply_config ws c in
  c <| routing := rollback_routing target (iter (proxy_backends c)).*1 (routing c) |>.

Definition rollback (target : bytes) (s : LiveState) (p : BackendPool) :
    (LiveState * BackendPool) + CommandError :=
  match check_target target p with
  | Some e => inr e
  | None =>
      let ws := rollback_weights target p in
      inl (s <| live_config := rollback_config target ws (live_config s) |>, apply_pool ws p)
  end.
End Commands.

(** ** Weights *)

(** The configuration mirrors the weights the router uses. *)
Definition in_step (s : LiveState) (p : BackendPool) : Prop :=
  forall n, (weight <$> backends p !! n) = (cfg_weight <$> proxy_backends (live_config s) !! n).

Lemma lookup_apply_pool ws p n :
  backends (apply_pool ws p) !! n =
  (fun b => match ws !! n with Some w => set_weight w b | None => b end) <$> backends p !! n.
Proof. cbn. rewrite map_lookup_imap. by destruct (backends p !! n). Qed.

Lemma lookup_apply_config ws c n :
  proxy_backends (apply_config ws c) !! n =
  (fun cf => match ws !! n with Some w => cf <| cfg_weight := w |> | None => cf end) <$> proxy_backends c !! n.
Proof. cbn. rewrite map_lookup_imap. by destruct (proxy_backends c !! n). Qed.

Lemma apply_pool_named ws p : named p -> named (apply_pool ws p).
Proof.
  intros Hn n b. rewrite lookup_apply_pool. intros (x & Hx & ->)%fmap_Some.
  rewrite <- (Hn n x Hx). by destruct (ws !! _).
Qed.

Lemma apply_in_step ws s p c :
  in_step s p -> proxy_backends c = proxy_backends (apply_config ws (live_config s)) ->
  in_step (s <| live_config := c |>) (apply_pool ws p).
Proof.
  intros H E n. specialize (H n). rewrite lookup_apply_pool. cbn. rewrite E, lookup_apply_config.
  destruct (backends p !! n), (proxy_backends (live_config s) !! n); try done. cbn in *.
  injection H as H. by destruct (ws !! n); cbn; f_equal.
Qed.

Section Laws.
Context {Order : HashOrder}.

Lemma prospective_total_nonneg ws p : (0 <= prospective_total ws p)%Z.
Proof.
  unfold prospective_total. generalize ((iter (backends p)).*2). intros l.
  destruct l as [|b l] using rev_ind; [done|]. rewrite foldl_app. cbn. apply wrap_u_range. lia.
Qed.

(** Some weight is positive after an accepted update. *)
Lemma prospective_positive ws p :
  named p -> (0 < prospective_total ws p)%Z ->
  exists n b, backends (apply_pool ws p) !! n = Some b /\ weight b <> 0%Z.
Proof.
  intros Hn Ht.
  assert (Hex : Exists (fun b => unwrap_or (weight b) (ws !! name b) <> 0%Z) (iter (backends p)).*2).
  { apply not_Forall_Exists; [intros b; apply _|]. intros Hall. revert Ht. unfold prospective_total.
    generalize dependent ((iter (backends p)).*2). intros l Hall.
    assert (E : foldl (fun a b => wrap_u64 (a + unwrap_or (weight b) (ws !! name b))) 0%Z l = 0%Z); [|lia].
    induction Hall as [|b l Hb _ IH]; [done|]. cbn.
    assert (unwrap_or (weight b) (ws !! name b) = 0%Z) as -> by lia. exact IH. }
  apply Exists_exists in Hex as (b & Hb & Hw). apply list_elem_of_fmap in Hb as ([n x] & -> & Hin).
  apply elem_of_iter in Hin. cbn in Hw. rewrite (Hn n x Hin) in Hw.
  exists n. rewrite lookup_apply_pool, Hin. eexists. split; [reflexivity|]. by destruct (ws !! n).
Qed.

(** What the checks of a weight update say. *)
Lemma check_weights_spec ws p :
  match check_weights ws p with
  | Some (UnknownBackend n) => is_Some (ws !! n) /\ backends p !! n = None
  | Some TotalWeightZero =>
      (forall n w, ws !! n = Some w -> is_Some (backends p !! n)) /\ prospective_total ws p = 0%Z
  | None => (forall n w, ws !! n = Some w -> is_Some (backends p !! n)) /\ (0 < prospective_total ws p)%Z
  end.
Proof.
  unfold check_weights.
  assert (Hmem : forall n w, ws !! n = Some w -> n ∈ (iter ws).*1).
  { intros n w Hw. apply list_elem_of_fmap. exists (n, w). split; [done|]. by apply elem_of_iter. }
  destruct (list_find _ _) as [[i n]|] eqn:E.
  - apply list_find_Some in E as (Hi & Hnone & _). split; [|done].
    apply list_elem_of_lookup_2 in Hi. apply list_elem_of_fmap in Hi as ([m w] & -> & Hin).
    apply elem_of_iter in Hin. by eexists.
  - apply list_find_None in E.
    assert (Hknown : forall n w, ws !! n = Some w -> is_Some (backends p !! n)).
    { intros n w Hw. apply not_eq_None_Some. by apply (proj1 (Forall_forall _ _) E n), (Hmem n w). }
    pose proof (prospective_total_nonneg ws p). destruct (Z.leb_spec (prospective_total ws p) 0); split; try done; lia.
Qed.

(** A weight update is all or nothing: an unknown name or a total of
    zero is refused and reported as such; an accepted update sets exactly the
    named weights, leaves health and breakers alone, keeps the configuration
    and the pool in step, and leaves some backend with a positive weight. *)
Theorem set_weights_correct ws s p :
  named p -> in_step s p ->
  match set_weights ws s p with
  | inr (UnknownBackend n) => is_Some (ws !! n) /\ backends p !! n = None
  | inr TotalWeightZero => (forall n w, ws !! n = Some w -> is_Some (backends p !! n)) /\ prospective_total ws p = 0%Z
  | inl (s', p') =>
      (forall n w, ws !! n = Some w -> is_Some (backends p !! n)) /\
      (forall n b, backends p !! n = Some b ->
         backends p' !! n = Some (match ws !! n with Some w => set_weight w b | None => b end)) /\
      breakers p' = breakers p /\ routing (live_config s') = routing (live_config s) /\
      named p' /\ in_step s' p' /\ exists n b, backends p' !! n = Some b /\ weight b <> 0%Z
  end.
Proof.
  intros Hn Hstep. unfold set_weights. pose proof (check_weights_spec ws p) as H.
  destruct (check_weights ws p) as [e|]; [exact H|]. destruct H as [Hknown Ht].
  split_and!; [done| |done|done|by apply apply_pool_named|by apply apply_in_step|by apply prospective_positive].
  intros n b Hb. by rewrite lookup_apply_pool, Hb.
Qed.

Lemma rollback_routing_primary target names r :
  mode r = Shadow -> primary_backend (rollback_routing target names r) = Some target.
Proof.
  intros Hm. unfold rollback_routing. rewrite bool_decide_true by done. cbv zeta.
  destruct (bool_decide _) eqn:E; [|done]. by apply bool_decide_eq_true in E.
Qed.

Lemma rollback_routing_mode target names r : mode (rollback_routing target names r) = mode r.
Proof. unfold rollback_routing. destruct (bool_decide _); [|done]. by destruct (bool_decide _). Qed.

(** Only [target] can be chosen. *)
Definition only_target (target : bytes) (r : RoutingConfig) (p : BackendPool) : Prop :=
  (mode r = Shadow -> primary_backend r = Some target) /\
  (mode r <> Shadow -> forall n b, backends p !! n = Some b -> n <> target -> weight b = 0%Z).

Lemma routed_to_target target draw now r p d q :
  named p -> only_target target r p -> decide_route draw now r p = (Some d, q) -> name (backend d) = target.
Proof.
  intros Hn [Hsh Hw] Hd. pose proof (decide_route_sound draw now r p d q Hn Hd) as Hs.
  pose proof (sound_weight _ _ _ _ _ Hs) as Hsw. destruct (decide (mode r = Shadow)) as [Hm|Hm].
  - rewrite (Hsh Hm) in Hsw. congruence.
  - destruct (decide (name (backend d) = target)) as [|Hne]; [done|]. exfalso.
    rewrite (Hw Hm _ _ (sound_backend _ _ _ _ _ Hs) Hne) in Hsw. lia.
Qed.

(** After a rollback every request that is routed goes to the target,
    in every routing mode, whatever the draws and the breakers; the
    configuration and the pool stay in step. *)
Theorem rollback_exclusive target s p s' p' draw now d q :
  named p -> in_step s p -> rollback target s p = inl (s', p') ->
  decide_route draw now (routing (live_config s')) p' = (Some d, q) ->
  name (backend d) = target /\ in_step s' p'.
Proof.
  intros Hn Hstep. unfold rollback, check_target. destruct (backends p !! target) as [bt|] eqn:Ht; [|done].
  cbv zeta. set (ws := rollback_weights target p). intros [= <- <-]. cbn.
  intros Hd. split; [|by apply apply_in_step].
  eapply routed_to_target; [by apply apply_pool_named| |exact Hd]. split.
  - rewrite rollback_routing_mode. apply rollback_routing_primary.
  - intros _ n b Hb Hne. rewrite lookup_apply_pool in Hb.
    destruct (backends p !! n) as [x|] eqn:Ex; [|done]. injection Hb as <-.
    assert (Hz : ws !! n = Some 0%Z)
      by (unfold ws, rollback_weights; rewrite map_lookup_imap, Ex; cbn; by rewrite bool_decide_false).
    by rewrite Hz.
Qed.
End Laws.

(** ** Commands keep the configuration valid *)

(** The sum of the weights of a configuration, over the integers. *)
Definition weight_sum `{HashOrder} (c : ProxyConfig) : Z := sum_Z (map cfg_weight (iter (proxy_backends c)).*2).

Section Valid.
Context {Order : HashOrder} (uri_ok : bytes -> bool).

Lemma sum_iter {A} (f : A -> Z) (m : gmap (list ascii) A) :
  sum_Z (map f (iter m).*2) = sum_Z (map_to_list (f <$> m)).*2.
Proof. apply sum_Z_perm, iter_values. Qed.

Lemma sum_indicator (m : gmap (list ascii) Z) k :
  is_Some (m !! k) -> (forall n w, m !! n = Some w -> w = if bool_decide (n = k) then 100 else 0)%Z ->
  sum_Z (map_to_list m).*2 = 100%Z.
Proof.
  intros [w Hw] H. rewrite <- (insert_delete_id m k w Hw), (map_to_list_insert _ _ _ (lookup_delete_eq m k)).
  rewrite (H k w Hw), bool_decide_true by done. cbn.
  enough (Hz : Forall (fun w => w = 0%Z) (map_to_list (delete k m)).*2).
  { unfold sum_Z in *. induction Hz as [|x l -> _ IH]; [done|]. cbn in *. lia. }
  apply Forall_forall. intros x ([n y] & -> & Hin)%list_elem_of_fmap. cbn.
  apply elem_of_map_to_list, lookup_delete_Some in Hin as [Hne Hy]. specialize (H n y Hy).
  by rewrite bool_decide_false in H.
Qed.

Lemma in_step_known s p n : in_step s p -> is_Some (backends p !! n) <-> is_Some (proxy_backends (live_config s) !! n).
Proof.
  intros H. specialize (H n). rewrite <- (fmap_is_Some weight), <- (fmap_is_Some cfg_weight). by rewrite H.
Qed.

Lemma prospective_sum ws s p :
  named p -> in_step s p -> prospective_total ws p = wrap_u64 (weight_sum (apply_config ws (live_config s))).
Proof.
  intros Hn Hstep. unfold prospective_total, weight_sum.
  rewrite (foldl_map (fun a w => wrap_u64 (a + w)) (fun b => unwrap_or (weight b) (ws !! name b))).
  assert (E : sum_Z (map (fun b => unwrap_or (weight b) (ws !! name b)) (iter (backends p)).*2) =
              sum_Z (map cfg_weight (iter (proxy_backends (apply_config ws (live_config s)))).*2)).
  { rewrite !sum_iter. f_equal. f_equal. f_equal. apply map_eq. intros n.
    rewrite !lookup_fmap, lookup_apply_config. specialize (Hstep n). specialize (Hn n).
    destruct (backends p !! n) as [b|], (proxy_backends (live_config s) !! n) as [c|]; try done.
    cbn in *. injection Hstep as Hstep. rewrite (Hn b eq_refl). by destruct (ws !! n); cbn; f_equal. }
  rewrite <- E. generalize (map (fun b => unwrap_or (weight b) (ws !! name b)) (iter (backends p)).*2).
  intros l. clear. cut (forall a, foldl (fun a w => wrap_u64 (a + w)) (wrap_u64 a) l = wrap_u64 (a + sum_Z l)).
  { intros H. exact (H 0%Z). }
  unfold sum_Z. induction l as [|w l IH]; intros a; cbn [foldl foldr]; [by rewrite Z.add_0_r|].
  assert (Ew : wrap_u64 (wrap_u64 a + w) = wrap_u64 (a + w)) by (unfold wrap_u; apply Zplus_mod_idemp_l).
  rewrite Ew, IH. f_equal. lia.
Qed.

(** Weights aside, an update keeps what validation looks at. *)
Lemma valid_apply ws c :
  valid_config uri_ok c -> (0 < wrap_u32 (weight_sum (apply_config ws c)))%Z -> valid_config uri_ok (apply_config ws c).
Proof.
  intros [_ Hs Ha Hl] Hw. constructor; [exact Hw| | |exact Hl].
  - intros Hm. destruct (Hs Hm) as (pr & sh & H1 & H2 & H3 & H4 & H5). exists pr, sh.
    rewrite !lookup_apply_config, !fmap_is_Some. done.
  - apply Forall_forall. intros b ([n x] & -> & Hin)%list_elem_of_fmap. apply elem_of_iter in Hin.
    rewrite lookup_apply_config in Hin. apply fmap_Some in Hin as (y & Hy & ->). cbn.
    assert (Hok : validate_backend_address uri_ok (address y) = None).
    { rewrite Forall_forall in Ha. apply Ha, list_elem_of_fmap. exists (n, y). split; [done|]. by apply elem_of_iter. }
    by destruct (ws !! n).
Qed.

Lemma set_weights_valid ws s p s' p' :
  named p -> in_step s p -> valid_config uri_ok (live_config s) -> set_weights ws s p = inl (s', p') ->
  (0 <= weight_sum (live_config s') < 2 ^ 32)%Z -> valid_config uri_ok (live_config s').
Proof.
  intros Hn Hstep Hv. unfold set_weights, check_weights. destruct (list_find _ _) as [[??]|]; [done|].
  rewrite (prospective_sum ws s p Hn Hstep).
  destruct (Z.leb_spec (wrap_u64 (weight_sum (apply_config ws (live_config s)))) 0) as [|Ht]; [done|].
  intros [= <- <-]. cbn. intros Hr. apply valid_apply; [done|].
  rewrite wrap_u_small in Ht by lia. by rewrite wrap_u_small by lia.
Qed.

Lemma rollback_routing_valid target names (c : ProxyConfig) :
  valid_config uri_ok c -> is_Some (proxy_backends c !! target) -> mode (routing c) = Shadow ->
  let r := rollback_routing target names (routing c) in
  exists pr sh : bytes, primary_backend r = Some pr /\ shadow_backend r = Some sh /\ pr <> sh /\
    is_Some (proxy_backends c !! pr) /\ is_Some (proxy_backends c !! sh).
Proof.
  intros [_ Hs _ _] Ht Hm. destruct (Hs Hm) as (pr & sh & H1 & H2 & H3 & H4 & H5).
  unfold rollback_routing. rewrite bool_decide_true by done. cbv zeta. rewrite H1. cbn [mbind option_bind].
  destruct (decide (pr = target)) as [->|Hne].
  - rewrite bool_decide_true by done. eauto 10.
  - rewrite bool_decide_false, (bool_decide_true (pr <> target)) by congruence. cbn. exists target, pr. auto.
Qed.

Lemma rollback_valid target s p s' p' :
  named p -> in_step s p -> valid_config uri_ok (live_config s) -> rollback target s p = inl (s', p') ->
  valid_config uri_ok (live_config s').
Proof.
  intros Hn Hstep Hv. unfold rollback, check_target. destruct (backends p !! target) as [bt|] eqn:Ht; [|done].
  cbv zeta. unfold rollback_config. set (ws := rollback_weights target p). set (c := apply_config ws (live_config s)). intros [= <- <-].
  assert (Hk : is_Some (proxy_backends c !! target)).
  { unfold c. rewrite lookup_apply_config, fmap_is_Some. apply (in_step_known s p); [done|]. by eexists. }
  assert (Hc : valid_config uri_ok c).
  { apply valid_apply; [done|]. unfold weight_sum. rewrite sum_iter.
    rewrite (sum_indicator _ target); [done|by rewrite lookup_fmap, fmap_is_Some|].
    intros n w. rewrite lookup_fmap. unfold c. rewrite lookup_apply_config, <- option_fmap_compose.
    intros (y & Hy & ->)%fmap_Some. unfold ws, rollback_weights. cbn. rewrite map_lookup_imap.
    destruct (backends p !! n) as [b|] eqn:Eb; [done|]. exfalso.
    apply (proj2 (not_eq_None_Some (backends p !! n))); [|done]. apply (in_step_known s p); [done|]. by eexists. }
  constructor.
  - exact (vc_weight _ _ Hc).
  - cbn. rewrite rollback_routing_mode. intros Hm. exact (rollback_routing_valid target _ c Hc Hk Hm).
  - exact (vc_addresses _ _ Hc).
  - exact (vc_listen _ _ Hc).
Qed.
End Valid.

(** ** A concrete proxy *)

Definition demo_live : LiveState :=
  LiveState_new (minimal_config (B "127.0.0.1:8080") {[B "c" := config two; B "rust" := config three]} demo_routing).

Lemma new_in_step c cb now : in_step (LiveState_new c) (with_breaker_cfg (proxy_backends c) cb now).
Proof. intros n. cbn. rewrite map_lookup_imap. by destruct (proxy_backends c !! n). Qed.

Lemma demo_in_step : in_step demo_live demo_pool.
Proof. exact (new_in_step (live_config demo_live) _ _). Qed.

Lemma set_weights_correct_witness :
  exists s' p', set_weights {[B "c" := 0%Z]} demo_live demo_pool = inl (s', p') /\ in_step s' p' /\
    exists n b, backends p' !! n = Some b /\ weight b <> 0%Z.
Proof.
  pose proof (set_weights_correct {[B "c" := 0%Z]} demo_live demo_pool demo_pool_named demo_in_step) as H.
  assert (Hok : match set_weights {[B "c" := 0%Z]} demo_live demo_pool with inl _ => true | inr _ => false end = true)
    by (by vm_compute).
  destruct (set_weights _ _ _) as [[s' p']|e]; [|discriminate].
  exists s', p'. destruct H as (_ & _ & _ & _ & _ & H1 & H2). split; [reflexivity|]. by split.
Defined.

Lemma rollback_exclusive_witness :
  exists s' p' d q, rollback (B "rust") demo_live demo_pool = inl (s', p') /\
    decide_route (fun _ _ => 0%Z) 0 (routing (live_config s')) p' = (Some d, q) /\ name (backend d) = B "rust".
Proof.
  assert (Hok : match rollback (B "rust") demo_live demo_pool with
                | inl (s', p') => is_some (decide_route (fun _ _ => 0%Z) 0 (routing (live_config s')) p').1
                | inr _ => false end = true) by (by vm_compute).
  destruct (rollback (B "rust") demo_live demo_pool) as [[s' p']|e] eqn:E; [|discriminate].
  destruct (decide_route (fun _ _ => 0%Z) 0 (routing (live_config s')) p') as [[d|] q] eqn:Ed; [|discriminate].
  exists s', p', d, q. split; [reflexivity|]. split; [exact Ed|].
  apply (rollback_exclusive (B "rust") demo_live demo_pool s' p' (fun _ _ => 0%Z) 0 d q
    demo_pool_named demo_in_step E Ed).
Defined.
