(* ===== verification/Control.v ===== *)
(** * Control plane of the migration proxy (rust/crates/thttpd-migrate/src/control.rs,
      the snapshots of state.rs, and the command line of lib.rs)

    A connection to the control socket carries one framed request and one
    framed response.  The bytes of a stream are a list; the JSON codec (serde)
    is the class [Serde], the [{:?}] text of a map of weights is the parameter
    [debug_weights]; the results of file operations are inputs. *)

From S2P Require Import Prelude RustStr Breaker Backend Router MigrateConfig LiveState.

(** ** Frames *)

Definition MAX_FRAME : Z := 16 * 1024 * 1024.

(** [u32::to_be_bytes] and [u32::from_be_bytes]. *)
Definition to_be_bytes (n : Z) : bytes :=
  [chr (Z.land (Z.shiftr n 24) 255); chr (Z.land (Z.shiftr n 16) 255); chr (Z.land (Z.shiftr n 8) 255);
   chr (Z.land n 255)].

Definition from_be_bytes (b : bytes) : Z := foldl (fun a c => Z.lor (Z.shiftl a 8) (code c)) 0%Z b.

Inductive FrameError := UnexpectedEof | FrameTooLarge (len : Z) | BadJson.

(** [AsyncReadExt::read_exact] on what the peer sends before it closes. *)
Definition read_exact (n : nat) (s : bytes) : (bytes * bytes) + FrameError :=
  if n <=? length s then inl (take n s, drop n s) else inr UnexpectedEof.

Definition write_frame (b : bytes) : bytes := to_be_bytes (wrap_u32 (Z.of_nat (length b))) ++ b.

Definition read_frame (s : bytes) : (bytes * bytes) + FrameError :=
  match read_exact 4 s with
  | inr e => inr e
  | inl (len_buf, s) =>
      let len := from_be_bytes len_buf in
      if (len <=? MAX_FRAME)%Z then read_exact (Z.to_nat len) s else inr (FrameTooLarge len)
  end.

(** ** Requests, responses and snapshots *)

Inductive ControlRequest :=
| SetWeight (weights : gmap (list ascii) Z)
| Rollback (to : bytes)
| Drain (timeout_secs : Z)
| SnapshotRequest.

Record BackendSnapshot := mkBackendSnapshot {
  snap_name : bytes;
  snap_address : bytes;
  snap_weight : Z;
  snap_health : bytes;
}.

Record StateSnapshot := mkSnapshot {
  uptime_secs : Z;
  snap_draining : bool;
  snap_backends : list BackendSnapshot;
}.

Definition PROTOCOL_VERSION : Z := 1.

Record ControlResponse := mkResponse {
  ok : bool;
  message : bytes;
  resp_snapshot : option StateSnapshot;
  version : Z;
}.

Definition response_ok (m : bytes) (snap : option StateSnapshot) : ControlResponse :=
  mkResponse true m snap PROTOCOL_VERSION.

Definition response_err (m : bytes) : ControlResponse := mkResponse false m None PROTOCOL_VERSION.

(** [{:?}] of [Health]. *)
Definition health_text (h : Health.t) : bytes :=
  match h with Health.Healthy => B "Healthy" | Health.Degraded => B "Degraded" | Health.Unhealthy => B "Unhealthy" end.

Definition backend_snapshot (b : Backend) : BackendSnapshot :=
  mkBackendSnapshot (name b) (address (config b)) (weight b) (health_text (health b)).

Definition snapshot `{HashOrder} (uptime : Z) (s : LiveState) (p : BackendPool) : StateSnapshot :=
  mkSnapshot uptime (live_draining s) (map backend_snapshot (iter (backends p)).*2).

(** [serde_json]: [representable] are the values of the Rust type (texts are
    UTF-8, numbers have their width); both printers are read back. *)
Class Serde (T : Type) := {
  representable : T -> Prop;
  to_vec : T -> bytes;
  to_string_pretty : T -> bytes;
  from_slice : bytes -> option T;
  from_to_vec : forall x, representable x -> from_slice (to_vec x) = Some x;
  from_pretty : forall x, representable x -> from_slice (to_string_pretty x) = Some x;
}.

Definition write_message {T} `{Serde T} (x : T) : bytes := write_frame (to_vec x).

Definition read_message {T} `{Serde T} (s : bytes) : T + FrameError :=
  match read_frame s with
  | inr e => inr e
  | inl (b, _) => match from_slice b with Some x => inl x | None => inr BadJson end
  end.

(** ** The state file *)

(** The file at [state_path] and the temporary file next to it. *)
Record StateFiles := mkFiles { state_file : option bytes; tmp_file : option bytes }.

#[export] Instance StateFiles_settable : Settable StateFiles := fun f => mkFiles (state_file f) (tmp_file f).

(** How the file operations go: [written] is the number of bytes that
    [fs::write] stores, [None] when the file cannot be opened. *)
Record Disk := mkDisk { mkdir_ok : bool; written : option nat; rename_ok : bool }.

(** The states a reader can see, in order, and whether the write succeeded. *)
Definition write_state_atomic (d : Disk) (text : bytes) (f : StateFiles) : list StateFiles * bool :=
  if mkdir_ok d then
    match written d with
    | None => ([f], false)
    | Some n =>
        let partial := map (fun k => f <| tmp_file := Some (take k text) |>) (seq 0 (S n)) in
        let f := f <| tmp_file := Some (take n text) |> in
        if n <? length text then (partial, false)
        else if rename_ok d then (partial ++ [mkFiles (tmp_file f) None], true)
        else (partial, false)
    end
  else ([f], false).

(** The files afterwards. *)
Definition files_after (d : Disk) (text : bytes) (f : StateFiles) : StateFiles :=
  List.last (write_state_atomic d text f).1 f.

(** ** One connection *)

Record Host := mkHost { host_live : LiveState; host_pool : BackendPool; host_files : StateFiles }.

Definition command_error (e : CommandError) (unknown : bytes) : bytes :=
  match e with
  | UnknownBackend n => unknown ++ n
  | TotalWeightZero => B "set-weight would leave total weight at 0; keep at least one backend > 0"
  end.

Section Connection.
Context {Order : HashOrder} `{Serde ControlRequest} `{Serde ControlResponse} `{Serde StateSnapshot}
  (debug_weights : gmap (list ascii) Z -> bytes).

(** What a command does once it has changed the state. *)
Definition respond (uptime : Z) (d : Disk) (m : bytes) (s : LiveState) (p : BackendPool) (f : StateFiles) :
    Host * ControlResponse :=
  let snap := snapshot uptime s p in
  (mkHost s p (files_after d (to_string_pretty snap) f), response_ok m (Some snap)).

Definition execute (uptime : Z) (d : Disk) (req : ControlRequest) (h : Host) : Host * ControlResponse :=
  match req with
  | SetWeight weights =>
      match set_weights weights (host_live h) (host_pool h) with
      | inl (s, p) => respond uptime d (B "weights updated: " ++ debug_weights weights) s p (host_files h)
      | inr e => (h, response_err (B "set-weight failed: " ++ command_error e (B "unknown backend in set-weight: ")))
      end
  | Rollback to =>
      match rollback to (host_live h) (host_pool h) with
      | inl (s, p) => respond uptime d (B "rolled back to " ++ to) s p (host_files h)
      | inr e => (h, response_err (B "rollback failed: " ++ command_error e (B "unknown backend in rollback target: ")))
      end
  | Drain timeout_secs =>
      respond uptime d (B "drain started, timeout " ++ show_Z timeout_secs ++ B "s")
        (start_drain (set_drain_grace timeout_secs (host_live h))) (host_pool h) (host_files h)
  | SnapshotRequest => (h, response_ok (B "ok") (Some (snapshot uptime (host_live h) (host_pool h))))
  end.

(** The bytes received from the client give the bytes sent back. *)
Definition handle_conn (uptime : Z) (d : Disk) (received : bytes) (h : Host) : Host * (bytes + FrameError) :=
  match read_message received with
  | inr e => (h, inr e)
  | inl req => let '(h', resp) := execute uptime d req h in (h', inl (write_message resp))
  end.

(** [send_request]; a server that fails closes the connection. *)
Definition send_request (uptime : Z) (d : Disk) (req : ControlRequest) (h : Host) :
    Host * (ControlResponse + FrameError) :=
  let '(h', sent) := handle_conn uptime d (write_message req) h in
  (h', read_message (match sent with inl b => b | inr _ => [] end)).

Definition client_set_weight uptime d weights := send_request uptime d (SetWeight weights).
Definition client_rollback uptime d to := send_request uptime d (Rollback to).
Definition client_drain uptime d timeout_secs := send_request uptime d (Drain timeout_secs).
Definition client_snapshot uptime d := send_request uptime d SnapshotRequest.

(** One tick of [spawn_state_writer]. *)
Definition state_writer_tick (uptime : Z) (d : Disk) (h : Host) : Host :=
  mkHost (host_live h) (host_pool h)
    (files_after d (to_string_pretty (snapshot uptime (host_live h) (host_pool h))) (host_files h)).

(** The state [status] prints, when the file is there and readable. *)
Definition status (f : StateFiles) : option StateSnapshot := state_file f ≫= from_slice.
End Connection.

(** ** The command line *)

Inductive PairError := NoEquals (p : bytes) | BadWeight (v : bytes).

Fixpoint parse_pairs_into (weights : gmap (list ascii) Z) (pairs : list bytes) :
    gmap (list ascii) Z + PairError :=
  match pairs with
  | [] => inl weights
  | p :: pairs' =>
      match split_once "="%char p with
      | None => inr (NoEquals p)
      | Some (n, v) =>
          match parse_u 32 v with
          | None => inr (BadWeight v)
          | Some w => parse_pairs_into (<[n := w]> weights) pairs'
          end
      end
  end.

Definition parse_weight_pairs (pairs : list bytes) : gmap (list ascii) Z + PairError := parse_pairs_into ∅ pairs.

Definition effective_log_level (cli : option bytes) (cfg : bytes) : bytes := unwrap_or cfg cli.

(** The exit of [set_weight], [drain] and [rollback]: the printed message, or
    the error of the process. *)
Definition report (r : ControlResponse + FrameError) : bytes + (bytes + FrameError) :=
  match r with
  | inl resp => if ok resp then inl (message resp) else inr (inl (message resp))
  | inr e => inr (inr e)
  end.

(** ** Frames are read back *)

Lemma be_step n : Z.lor (Z.shiftl (Z.shiftr n 8) 8) (Z.land n 255) = n.
Proof. change 255%Z with (Z.ones 8). rewrite <- Z.ldiff_ones_r by lia. apply Z.lor_ldiff_and. Qed.

Lemma from_to_be_bytes n : (0 <= n < 2 ^ 32)%Z -> from_be_bytes (to_be_bytes n) = n.
Proof.
  intros Hn. unfold from_be_bytes, to_be_bytes. cbn [foldl].
  assert (Hr : forall x, (0 <= Z.land x 255 < 256)%Z).
  { intros x. change 255%Z with (Z.ones 8). rewrite Z.land_ones by lia. apply Z.mod_pos_bound. lia. }
  rewrite !code_chr by apply Hr. rewrite Z.shiftl_0_l, Z.lor_0_l.
  assert (E : Z.land (Z.shiftr n 24) 255 = Z.shiftr (Z.shiftr n 16) 8).
  { rewrite Z.shiftr_shiftr by lia. change (16 + 8)%Z with 24%Z. change 255%Z with (Z.ones 8).
    rewrite Z.land_ones, Z.shiftr_div_pow2 by lia. apply Z.mod_small. split; [apply Z.div_pos; lia|].
    apply Z.div_lt_upper_bound; lia. }
  rewrite E, be_step. change 16%Z with (8 + 8)%Z. rewrite <- Z.shiftr_shiftr by lia. by rewrite !be_step.
Qed.

Lemma read_exact_app a b : read_exact (length a) (a ++ b) = inl (a, b).
Proof.
  unfold read_exact. rewrite length_app, (proj2 (Nat.leb_le _ _)) by lia. by rewrite take_app_length, drop_app_length.
Qed.

Lemma read_frame_prefix len s :
  (0 <= len < 2 ^ 32)%Z ->
  read_frame (to_be_bytes len ++ s) =
  if (len <=? MAX_FRAME)%Z then read_exact (Z.to_nat len) s else inr (FrameTooLarge len).
Proof.
  intros Hl. unfold read_frame. change 4 with (length (to_be_bytes len)).
  by rewrite read_exact_app, from_to_be_bytes.
Qed.

Lemma read_write_frame b rest :
  (Z.of_nat (length b) <= MAX_FRAME)%Z -> read_frame (write_frame b ++ rest) = inl (b, rest).
Proof.
  intros Hl. unfold write_frame, MAX_FRAME in *. rewrite <- app_assoc, wrap_u_small by lia.
  rewrite read_frame_prefix by lia. rewrite (proj2 (Z.leb_le _ _)) by (unfold MAX_FRAME; lia).
  by rewrite Nat2Z.id, read_exact_app.
Qed.

(** Frames are self-delimiting: a payload of at most 16 MiB is read
    back exactly, and what follows it is left for the next frame; every proper
    prefix of its frame is reported as a closed connection, never as a shorter
    message; a payload between 16 MiB and 4 GiB is refused by its announced
    length, before any of it is read. *)
Theorem frame_roundtrip b rest :
  ((Z.of_nat (length b) <= MAX_FRAME)%Z ->
   read_frame (write_frame b ++ rest) = inl (b, rest) /\
   forall k, k < length (write_frame b) -> read_frame (take k (write_frame b)) = inr UnexpectedEof) /\
  ((MAX_FRAME < Z.of_nat (length b) < 2 ^ 32)%Z ->
   read_frame (write_frame b ++ rest) = inr (FrameTooLarge (Z.of_nat (length b)))).
Proof.
  split.
  - intros Hl. split; [by apply read_write_frame|]. intros k Hk. unfold write_frame in *.
    rewrite wrap_u_small in * by (unfold MAX_FRAME in Hl; lia). set (pre := to_be_bytes _) in *.
    assert (Hp : length pre = 4) by done. rewrite length_app, Hp in Hk. destruct (decide (k < 4)) as [H4|H4].
    + unfold read_frame, read_exact. rewrite length_take, length_app, Hp.
      by rewrite (proj2 (Nat.leb_gt _ _)) by lia.
    + rewrite take_app_ge by lia. unfold pre. rewrite read_frame_prefix by (unfold MAX_FRAME in Hl; lia).
      fold pre. rewrite Hp, (proj2 (Z.leb_le _ _)) by lia. unfold read_exact.
      rewrite Nat2Z.id, length_take. by rewrite (proj2 (Nat.leb_gt _ _)) by lia.
  - intros Hl. unfold write_frame. rewrite <- app_assoc, wrap_u_small by lia.
    rewrite read_frame_prefix by lia. by rewrite (proj2 (Z.leb_gt _ _)) by lia.
Qed.

Lemma frame_roundtrip_witness :
  read_frame (write_frame (B "abc") ++ B "xy") = inl (B "abc", B "xy") /\
  read_frame (take 5 (write_frame (B "abc"))) = inr UnexpectedEof.
Proof.
  destruct (proj1 (frame_roundtrip (B "abc") (B "xy")) ltac:(unfold MAX_FRAME; cbn; lia)) as [H1 H2].
  split; [exact H1|]. apply H2. cbn. lia.
Defined.

(** ** Commands reach the proxy *)

Section Delivered.
Context {Order : HashOrder} `{Serde ControlRequest} `{Serde ControlResponse} `{Serde StateSnapshot}
  (debug_weights : gmap (list ascii) Z -> bytes).

Lemma read_write_message {T} `{Serde T} (x : T) :
  representable x -> (Z.of_nat (length (to_vec x)) <= MAX_FRAME)%Z -> read_message (write_message x) = inl x.
Proof.
  intros Hr Hl. unfold read_message, write_message. rewrite <- (app_nil_r (write_frame _)).
  by rewrite read_write_frame, from_to_vec.
Qed.

(** A value that serde can carry and that fits in a frame. *)
Definition sendable {T} `{Serde T} (x : T) : Prop :=
  representable x /\ (Z.of_nat (length (to_vec x)) <= MAX_FRAME)%Z.

Lemma files_after_cases d text f :
  state_file (files_after d text f) = state_file f \/
  (state_file (files_after d text f) = Some text /\ (write_state_atomic d text f).2 = true).
Proof.
  unfold files_after, write_state_atomic. destruct (mkdir_ok d); [|by left]. destruct (written d) as [n|]; [|by left].
  assert (Hm : state_file (List.last (map (fun k => f <| tmp_file := Some (take k text) |>) (seq 0 (S n))) f) = state_file f).
  { generalize (seq 0 (S n)). intros l. induction l as [|k l IH]; [done|]. by destruct l. }
  destruct (Nat.ltb_spec n (length text)); [by left|]. destruct (rename_ok d); [|by left].
  right. cbn [fst snd]. rewrite List.last_last. cbn. by rewrite take_ge.
Qed.

(** C22: a command sent over the socket does what it says: the client gets
    exactly the response of the executed command; a refused command changes
    neither the live state, the pool nor the state file; an accepted one
    reports the state it leads to, and if the state file is replaced it holds
    that state; every response carries the protocol version. *)
Theorem command_delivered uptime d req h :
  sendable req -> sendable (execute debug_weights uptime d req h).2 ->
  let '(h', resp) := execute debug_weights uptime d req h in
  send_request debug_weights uptime d req h = (h', inl resp) /\
  version resp = PROTOCOL_VERSION /\
  (ok resp = false -> h' = h /\ resp_snapshot resp = None) /\
  (ok resp = true ->
   let snap := snapshot uptime (host_live h') (host_pool h') in
   resp_snapshot resp = Some snap /\
   (state_file (host_files h') = state_file (host_files h) \/
    state_file (host_files h') = Some (to_string_pretty snap))).
Proof.
  intros [Hr1 Hl1] [Hr2 Hl2]. destruct (execute debug_weights uptime d req h) as [h' resp] eqn:E. split.
  { unfold send_request, handle_conn. rewrite read_write_message by done. rewrite E. by rewrite read_write_message. }
  clear Hr1 Hl1 Hr2 Hl2.
  assert (Hok : forall m s p, respond uptime d m s p (host_files h) = (h', resp) ->
            version resp = PROTOCOL_VERSION /\ (ok resp = false -> h' = h /\ resp_snapshot resp = None) /\
            (ok resp = true ->
             let snap := snapshot uptime (host_live h') (host_pool h') in
             resp_snapshot resp = Some snap /\
             (state_file (host_files h') = state_file (host_files h) \/
              state_file (host_files h') = Some (to_string_pretty snap)))).
  { intros m s p [= <- <-]. cbn. split_and!; [done|done|]. intros _. split; [done|].
    destruct (files_after_cases d (to_string_pretty (snapshot uptime s p)) (host_files h)) as [?|[? _]]; auto. }
  unfold execute in E. destruct req as [ws|to|secs|].
  - destruct (set_weights _ _ _) as [[s p]|e]; [by apply (Hok _ _ _ E)|]. by injection E as <- <-.
  - destruct (rollback _ _ _) as [[s p]|e]; [by apply (Hok _ _ _ E)|]. by injection E as <- <-.
  - by apply (Hok _ _ _ E).
  - injection E as <- <-. cbn. split_and!; [done..|]. intros _. split; [done|by left].
Qed.

(** The state file is replaced in one piece: whatever fails while a
    snapshot is written, every state a reader can observe has either the old
    file or the whole new text, and a reader of the new text gets exactly the
    snapshot. *)
Theorem state_file_whole d snap f :
  representable snap ->
  Forall (fun g => state_file g = state_file f \/
                   (state_file g = Some (to_string_pretty snap) /\ status g = Some snap))
    (write_state_atomic d (to_string_pretty snap) f).1 /\
  ((write_state_atomic d (to_string_pretty snap) f).2 = true ->
   status (files_after d (to_string_pretty snap) f) = Some snap /\
   tmp_file (files_after d (to_string_pretty snap) f) = None).
Proof.
  intros Hr. unfold status, files_after, write_state_atomic. destruct (mkdir_ok d); [|split; [by repeat constructor; left|done]].
  destruct (written d) as [n|]; [|split; [by repeat constructor; left|done]].
  assert (Hp : Forall (fun g => state_file g = state_file f \/
                   (state_file g = Some (to_string_pretty snap) /\ (state_file g ≫= from_slice) = Some snap))
            (map (fun k => f <| tmp_file := Some (take k (to_string_pretty snap)) |>) (seq 0 (S n)))).
  { apply Forall_forall. intros g (k & -> & _)%list_elem_of_fmap. by left. }
  destruct (Nat.ltb_spec n (length (to_string_pretty snap))); [by split|]. destruct (rename_ok d); [|by split].
  cbn [fst snd]. rewrite List.last_last. rewrite (take_ge (to_string_pretty snap) n) by lia.
  assert (Hd : from_slice (to_string_pretty snap) = Some snap) by by apply from_pretty.
  split; [|done]. apply Forall_app_2; [exact Hp|]. constructor; [by right|constructor].
Qed.
End Delivered.

(** ** Any sequence of commands keeps the configuration valid *)

Definition weights_within (M : Z) (ws : gmap (list ascii) Z) : Prop := map_Forall (fun _ w => (0 <= w <= M)%Z) ws.

Definition request_within (M : Z) (req : ControlRequest) : Prop :=
  match req with SetWeight ws => weights_within M ws | _ => True end.

Lemma sum_within M l : Forall (fun w => (0 <= w <= M)%Z) l -> (0 <= sum_Z l <= M * Z.of_nat (length l))%Z.
Proof. unfold sum_Z. induction 1 as [|w l Hw _ IH]; cbn [foldr length]; lia. Qed.

Section Commands.
Context {Order : HashOrder} `{Serde StateSnapshot} (debug_weights : gmap (list ascii) Z -> bytes)
  (uri_ok : bytes -> bool) (M : Z).
Hypothesis HM : (100 <= M)%Z.

(** The well-formedness of the running proxy. *)
Record host_ok (h : Host) : Prop := {
  ho_named : named (host_pool h);
  ho_in_step : in_step (host_live h) (host_pool h);
  ho_valid : valid_config uri_ok (live_config (host_live h));
  ho_within : weights_within M (cfg_weight <$> proxy_backends (live_config (host_live h)));
  ho_size : (M * Z.of_nat (size (proxy_backends (live_config (host_live h)))) < 2 ^ 32)%Z;
}.

Lemma apply_config_size ws c : size (proxy_backends (apply_config ws c)) = size (proxy_backends c).
Proof.
  rewrite <- !size_dom. f_equal. apply set_eq. intros n.
  by rewrite !elem_of_dom, lookup_apply_config, fmap_is_Some.
Qed.

Lemma apply_config_within ws c :
  weights_within M ws -> weights_within M (cfg_weight <$> proxy_backends c) ->
  weights_within M (cfg_weight <$> proxy_backends (apply_config ws c)).
Proof.
  intros Hws Hc n w. rewrite lookup_fmap, lookup_apply_config, <- option_fmap_compose.
  intros (cf & Hcf & ->)%fmap_Some. cbn. destruct (ws !! n) as [v|] eqn:E; cbn; [by apply (Hws n)|].
  apply (Hc n). by rewrite lookup_fmap, Hcf.
Qed.

Lemma weight_sum_within c :
  weights_within M (cfg_weight <$> proxy_backends c) ->
  (M * Z.of_nat (size (proxy_backends c)) < 2 ^ 32)%Z -> (0 <= weight_sum c < 2 ^ 32)%Z.
Proof.
  intros Hw Hs. unfold weight_sum. rewrite sum_iter.
  assert (Hl : length (map_to_list (cfg_weight <$> proxy_backends c)).*2 = size (proxy_backends c)).
  { by rewrite length_fmap, length_map_to_list, map_size_fmap. }
  pose proof (sum_within M (map_to_list (cfg_weight <$> proxy_backends c)).*2) as Hsum. rewrite Hl in Hsum.
  assert (Hf : Forall (fun w => (0 <= w <= M)%Z) (map_to_list (cfg_weight <$> proxy_backends c)).*2).
  { apply Forall_forall. intros w ([n x] & -> & Hin)%list_elem_of_fmap. apply elem_of_map_to_list in Hin.
    exact (Hw n x Hin). }
  specialize (Hsum Hf). lia.
Qed.

Lemma set_weights_ok ws h s p :
  host_ok h -> weights_within M ws -> set_weights ws (host_live h) (host_pool h) = inl (s, p) ->
  forall f, host_ok (mkHost s p f).
Proof.
  intros [Hn Hs Hv Hw Hz] Hws E f.
  assert (Hc : s = (host_live h) <| live_config := apply_config ws (live_config (host_live h)) |> /\
               p = apply_pool ws (host_pool h)).
  { unfold set_weights in E. destruct (check_weights _ _); [done|].
    by injection E as <- <-. }
  destruct Hc as [-> ->].
  assert (Hw' : weights_within M (cfg_weight <$> proxy_backends (apply_config ws (live_config (host_live h)))))
    by by apply apply_config_within.
  constructor; cbn [host_live host_pool].
  - by apply apply_pool_named.
  - by apply apply_in_step.
  - eapply set_weights_valid; [exact Hn|exact Hs|exact Hv|exact E|]. apply weight_sum_within; [exact Hw'|].
    change (M * Z.of_nat (size (proxy_backends (apply_config ws (live_config (host_live h))))) < 2 ^ 32)%Z.
    by rewrite apply_config_size.
  - exact Hw'.
  - change (M * Z.of_nat (size (proxy_backends (apply_config ws (live_config (host_live h))))) < 2 ^ 32)%Z.
    by rewrite apply_config_size.
Qed.

Lemma rollback_ok to h s p :
  host_ok h -> rollback to (host_live h) (host_pool h) = inl (s, p) -> forall f, host_ok (mkHost s p f).
Proof.
  intros [Hn Hs Hv Hw Hz] E f. pose proof (rollback_valid uri_ok to _ _ s p Hn Hs Hv E) as Hv'.
  unfold rollback in E. destruct (check_target to (host_pool h)); [done|].
  set (ws := rollback_weights to (host_pool h)) in *. injection E as <- <-.
  constructor; cbn [host_live host_pool].
  - by apply apply_pool_named.
  - by apply apply_in_step.
  - exact Hv'.
  - apply apply_config_within; [|done]. intros n w. unfold ws, rollback_weights. rewrite map_lookup_imap.
    destruct (backends (host_pool h) !! n); [|done]. cbn. intros [= <-]. case_bool_decide; lia.
  - change (M * Z.of_nat (size (proxy_backends (apply_config ws (live_config (host_live h))))) < 2 ^ 32)%Z.
    by rewrite apply_config_size.
Qed.

Lemma execute_ok uptime d req h :
  host_ok h -> request_within M req ->
  let h' := (execute debug_weights uptime d req h).1 in
  host_ok h' /\ (live_draining (host_live h) = true -> live_draining (host_live h') = true).
Proof.
  intros Hh Hr. cbv zeta. unfold execute. destruct req as [ws|to|secs|].
  - destruct (set_weights _ _ _) as [[s p]|e] eqn:E; [|by split]. split; [by eapply set_weights_ok|].
    unfold set_weights in E. destruct (check_weights _ _); [done|].
    by injection E as <- <-.
  - destruct (rollback _ _ _) as [[s p]|e] eqn:E; [|by split]. split; [by eapply rollback_ok|].
    unfold rollback in E. destruct (check_target to (host_pool h)); [done|]. by injection E as <- <-.
  - split; [|done]. destruct Hh as [H1 H2 H3 H4 H5]. by constructor.
  - by split.
Qed.

(** C23: as long as all weights stay under a bound [M] whose sum over the
    backends fits 32 bits, no sequence of control commands, accepted or refused
    and whatever happens to the state file, leaves the proxy with a
    configuration that start-up would reject: it still passes [validate],
    mirrors the weights of the pool, and draining is never revoked.  Without
    the bound this fails ([Router.weights_wrap]). *)
Theorem commands_keep_config h cmds :
  host_ok h -> Forall (fun c => request_within M c.2) cmds ->
  let h' := foldl (fun h c => (execute debug_weights c.1.1 c.1.2 c.2 h).1) h cmds in
  validate uri_ok (live_config (host_live h')) = None /\ in_step (host_live h') (host_pool h') /\
  (live_draining (host_live h) = true -> live_draining (host_live h') = true).
Proof.
  intros Hh Hc. cbv zeta.
  cut (host_ok (foldl (fun h c => (execute debug_weights c.1.1 c.1.2 c.2 h).1) h cmds) /\
       (live_draining (host_live h) = true ->
        live_draining (host_live (foldl (fun h c => (execute debug_weights c.1.1 c.1.2 c.2 h).1) h cmds)) = true)).
  { intros [[_ Hs Hv _ _] Hd]. split_and!; [by apply validate_spec|done|done]. }
  revert h Hh. induction Hc as [|c cmds Hc _ IH]; intros h Hh; [by split|]. cbn [foldl].
  destruct (execute_ok c.1.1 c.1.2 c.2 h Hh Hc) as [H1 H2]. destruct (IH _ H1) as [H3 H4]. split; [done|]. auto.
Qed.
End Commands.

(** ** The control socket path *)

Inductive Metadata := NotFound | MetadataError | IsFile (is_socket : bool).
Inductive Connect := Connected | ConnectionRefused | ConnectError.
Inductive SocketError := ParentError | PathUnreadable | NotASocket | InUse | ProbeError | RemoveError | BindError.

(** The checks: must the file be removed first? *)
Definition probe_path (m : Metadata) (c : Connect) : bool + SocketError :=
  match m with
  | NotFound => inl false
  | MetadataError => inr PathUnreadable
  | IsFile false => inr NotASocket
  | IsFile true =>
      match c with
      | Connected => inr InUse
      | ConnectionRefused => inl true
      | ConnectError => inr ProbeError
      end
  end.

(** Whether the file was removed, and the error if any. *)
Definition prepare_control_socket_path (parent_ok : bool) (m : Metadata) (c : Connect) (remove_ok : bool) :
    bool * option SocketError :=
  if parent_ok then
    match probe_path m c with
    | inr e => (false, Some e)
    | inl false => (false, None)
    | inl true => if remove_ok then (true, None) else (false, Some RemoveError)
    end
  else (false, Some ParentError).

(** What is at the path; a socket may have a listening instance. *)
Inductive Entry := Absent | Unreadable | OtherFile | Sock (listener : option nat).

#[export] Instance Entry_eq_dec : EqDecision Entry.
Proof. solve_decision. Defined.

Definition metadata (e : Entry) : Metadata :=
  match e with
  | Absent => NotFound
  | Unreadable => MetadataError
  | OtherFile => IsFile false
  | Sock _ => IsFile true
  end.

(** A connection is refused only when nobody listens, and accepted only when
    somebody does; it can fail in other ways. *)
Definition connects (e : Entry) (c : Connect) : Prop :=
  match e with
  | Sock (Some _) => c <> ConnectionRefused
  | Sock None => c <> Connected
  | _ => c = ConnectError
  end.

(** [spawn_server] on an undisturbed path: the path afterwards, and whether the
    instance listens. *)
Definition spawn_server (me : nat) (parent_ok : bool) (c : Connect) (remove_ok : bool) (e : Entry) :
    Entry * option SocketError :=
  match prepare_control_socket_path parent_ok (metadata e) c remove_ok with
  | (removed, Some err) => (if removed then Absent else e, Some err)
  | (removed, None) =>
      match (if removed then Absent else e) with
      | Absent => (Sock (Some me), None)
      | e' => (e', Some BindError)
      end
  end.

(** Starting a proxy never takes the control socket of a running one
    and never deletes a file that is not a socket: the path is changed only
    when it was free or held the socket of a dead process, and then the new
    instance listens on it; with working file operations those are exactly the
    cases in which it starts. *)
Theorem control_socket_kept me parent_ok c remove_ok e :
  connects e c ->
  let '(e', r) := spawn_server me parent_ok c remove_ok e in
  (e' <> e -> (e = Absent \/ e = Sock None) /\ e' = Sock (Some me) /\ r = None) /\
  (r = None <-> parent_ok = true /\ (e = Absent \/ (e = Sock None /\ c = ConnectionRefused /\ remove_ok = true))) /\
  (r = None -> e' = Sock (Some me)).
Proof.
  intros Hc. unfold spawn_server, prepare_control_socket_path, probe_path.
  destruct parent_ok, e as [| | |[o|]], c, remove_ok; cbn in *; split_and!; try tauto; try naive_solver.
Qed.

Lemma control_socket_kept_witness :
  spawn_server 1 true Connected true (Sock (Some 0)) = (Sock (Some 0), Some InUse) /\
  spawn_server 1 true ConnectionRefused true (Sock None) = (Sock (Some 1), None).
Proof.
  pose proof (control_socket_kept 1 true ConnectionRefused true (Sock None) ltac:(done)) as H.
  split; [reflexivity|]. destruct H as (_ & H & _).
  destruct (spawn_server _ _ _ _ _) as [e r] eqn:E. vm_compute in E. by injection E as <- <-.
Defined.

(** *** Two instances that start at the same time *)

Inductive Phase := Probing | Removing | Binding | Listening | Refused.

Record Path := mkPath { entry : Entry; phases : list Phase }.

(** The system calls of the instances interleave. *)
Inductive path_step : Path -> Path -> Prop :=
| step_probe i c e ps : ps !! i = Some Probing -> connects e c ->
    path_step (mkPath e ps)
      (mkPath e (<[i := match probe_path (metadata e) c with
                        | inl true => Removing
                        | inl false => Binding
                        | inr _ => Refused
                        end]> ps))
| step_remove i e ps : ps !! i = Some Removing ->
    path_step (mkPath e ps)
      (match e with
       | Absent => mkPath e (<[i := Refused]> ps)
       | _ => mkPath Absent (<[i := Binding]> ps)
       end)
| step_bind i e ps : ps !! i = Some Binding ->
    path_step (mkPath e ps)
      (match e with
       | Absent => mkPath (Sock (Some i)) (<[i := Listening]> ps)
       | _ => mkPath e (<[i := Refused]> ps)
       end).

(** Between the probe and the removal the path can change hands: from a stale
    socket, both instances end up listening, and the socket of the first one
    has been removed by the second. *)
Lemma start_race :
  rtc path_step (mkPath (Sock None) [Probing; Probing]) (mkPath (Sock (Some 1)) [Listening; Listening]).
Proof.
  eapply rtc_l; [apply (step_probe 0 ConnectionRefused); done|].
  eapply rtc_l; [apply (step_probe 1 ConnectionRefused); done|].
  eapply rtc_l; [apply (step_remove 0); done|]. eapply rtc_l; [apply (step_bind 0); done|].
  eapply rtc_l; [apply (step_remove 1); done|]. eapply rtc_l; [apply (step_bind 1); done|]. apply rtc_refl.
Qed.

(** ** The command line *)

(** A pair as the operator writes it; the last pair of a name wins. *)
Definition weight_pair (x : bytes * Z) : bytes := x.1 ++ B "=" ++ show_Z x.2.

(** The pairs of [set-weight] are read as they are written: names
    without an equals sign and 32-bit weights give back the map in which the
    last weight of a name counts. *)
Theorem weight_pairs_roundtrip ps :
  Forall (fun x => Forall (fun c => c <> "="%char) x.1 /\ (0 <= x.2 < 2 ^ 32)%Z) ps ->
  parse_weight_pairs (map weight_pair ps) = inl (list_to_map (reverse ps)).
Proof.
  intros Hps. unfold parse_weight_pairs.
  enough (E : forall m, parse_pairs_into m (map weight_pair ps) = inl (foldl (fun m x => <[x.1 := x.2]> m) m ps)).
  { rewrite E. f_equal. clear. induction ps as [|x ps IH] using rev_ind; [done|].
    rewrite foldl_app, reverse_app, IH. by destruct x. }
  induction Hps as [|[n w] ps [Hn Hw] _ IH]; intros m; [done|]. cbn in *.
  unfold weight_pair at 1. cbn [fst snd]. rewrite split_once_app
    by (eapply Forall_impl; [exact Hn|]; intros c; apply Ascii.eqb_neq).
  unfold show_Z. rewrite (proj2 (Z.ltb_ge _ _)) by lia.
  rewrite (parse_u_digits 32 (show_nonneg w) w).
  - apply IH.
  - apply show_nonneg_nonempty.
  - apply show_nonneg_digits. lia.
  - apply parse_acc_show. lia.
  - lia.
Qed.

Lemma weight_pairs_roundtrip_witness :
  parse_weight_pairs [B "rust=100"; B "c=7"; B "c=0"] = inl {[B "c" := 0%Z; B "rust" := 100%Z]}.
Proof.
  etransitivity; [refine (weight_pairs_roundtrip [(B "rust", 100%Z); (B "c", 7%Z); (B "c", 0%Z)] _)|by vm_compute].
  apply (bool_decide_unpack _). by vm_compute.
Defined.

(** ** A concrete codec *)

Module Codec.

(** The bits of the countable encoding, as text. *)
Fixpoint print (p : positive) : bytes :=
  match p with
  | xH => []
  | xO q => "0"%char :: print q
  | xI q => "1"%char :: print q
  end.

Fixpoint parse (b : bytes) : option positive :=
  match b with
  | [] => Some xH
  | c :: b' =>
      p ← parse b';
      if c =c? "0"%char then Some (xO p) else if c =c? "1"%char then Some (xI p) else None
  end.

Lemma parse_print p : parse (print p) = Some p.
Proof. induction p as [q IH|q IH|]; cbn; [by rewrite IH..|done]. Qed.

#[export, refine] Instance serde T `{Countable T} : Serde T := {|
  representable _ := True;
  to_vec x := print (encode x);
  to_string_pretty x := print (encode x);
  from_slice b := parse b ≫= decode;
|}.
Proof. all: intros x _; rewrite parse_print; cbn; apply decode_encode. Defined.

#[export] Instance request_eq_dec : EqDecision ControlRequest.
Proof. solve_decision. Defined.

#[export, refine] Instance request_countable : Countable ControlRequest :=
  inj_countable' (A := gmap (list ascii) Z + (bytes + (Z + unit)))
    (fun r => match r with
              | SetWeight ws => inl ws | Rollback to => inr (inl to)
              | Drain n => inr (inr (inl n)) | SnapshotRequest => inr (inr (inr ()))
              end)
    (fun x => match x with
              | inl ws => SetWeight ws | inr (inl to) => Rollback to
              | inr (inr (inl n)) => Drain n | inr (inr (inr _)) => SnapshotRequest
              end) _.
Proof. by intros []. Defined.

#[export] Instance backend_snapshot_eq_dec : EqDecision BackendSnapshot.
Proof. solve_decision. Defined.

#[export, refine] Instance backend_snapshot_countable : Countable BackendSnapshot :=
  inj_countable' (fun b => (snap_name b, snap_address b, snap_weight b, snap_health b))
    (fun '(n, a, w, h) => mkBackendSnapshot n a w h) _.
Proof. by intros []. Defined.

#[export] Instance snapshot_eq_dec : EqDecision StateSnapshot.
Proof. solve_decision. Defined.

#[export, refine] Instance snapshot_countable : Countable StateSnapshot :=
  inj_countable' (fun s => (uptime_secs s, snap_draining s, snap_backends s)) (fun '(u, d, b) => mkSnapshot u d b) _.
Proof. by intros []. Defined.

#[export] Instance response_eq_dec : EqDecision ControlResponse.
Proof. solve_decision. Defined.

#[export, refine] Instance response_countable : Countable ControlResponse :=
  inj_countable' (fun r => (ok r, message r, resp_snapshot r, version r)) (fun '(o, m, s, v) => mkResponse o m s v) _.
Proof. by intros []. Defined.

Definition good_disk : Disk := mkDisk true (Some 4000) true.
Definition host : Host := mkHost demo_live demo_pool (mkFiles None None).
End Codec.

Import Codec.

Lemma command_delivered_witness :
  let debug := fun _ => B "{..}" in
  let '(h', resp) := execute debug 5 Codec.good_disk (SetWeight {[B "c" := 0%Z]}) Codec.host in
  send_request debug 5 Codec.good_disk (SetWeight {[B "c" := 0%Z]}) Codec.host = (h', inl resp) /\ ok resp = true /\
  resp_snapshot resp = Some (snapshot 5 (host_live h') (host_pool h')).
Proof.
  cbv zeta. pose proof (command_delivered (fun _ => B "{..}") 5 Codec.good_disk (SetWeight {[B "c" := 0%Z]}) Codec.host) as H.
  assert (Hok : ok (execute (fun _ => B "{..}") 5 Codec.good_disk (SetWeight {[B "c" := 0%Z]}) Codec.host).2 = true)
    by (by vm_compute).
  assert (Hs : sendable (SetWeight {[B "c" := 0%Z]})) by (split; [done|vm_compute; discriminate]).
  assert (Hr : sendable (execute (fun _ => B "{..}") 5 Codec.good_disk (SetWeight {[B "c" := 0%Z]}) Codec.host).2)
    by (split; [done|vm_compute; discriminate]).
  specialize (H Hs Hr). destruct (execute _ _ _ _ _) as [h' resp]. destruct H as (H1 & _ & _ & H2).
  split; [exact H1|]. split; [exact Hok|]. exact (proj1 (H2 Hok)).
Defined.

Lemma state_file_whole_witness :
  let f := mkFiles (Some (B "old")) None in
  status (files_after Codec.good_disk (to_string_pretty (mkSnapshot 1 false [])) f) = Some (mkSnapshot 1 false []).
Proof.
  cbv zeta. refine (proj1 (proj2 (state_file_whole Codec.good_disk (mkSnapshot 1 false []) (mkFiles (Some (B "old")) None) _) _));
    [done|by vm_compute].
Defined.

Lemma commands_keep_config_witness :
  let cmds := [(1%Z, Codec.good_disk, SetWeight {[B "c" := 0%Z]}); (2%Z, Codec.good_disk, Rollback (B "rust"));
               (3%Z, Codec.good_disk, Drain 5)] in
  let start := mkHost (LiveState_new demo_config)
    (with_breaker_cfg (proxy_backends demo_config) (circuit_breaker demo_config) 0) (mkFiles None None) in
  let h' := foldl (fun h c => (execute (fun _ => []) c.1.1 c.1.2 c.2 h).1) start cmds in
  validate (fun _ => true) (live_config (host_live h')) = None /\ in_step (host_live h') (host_pool h').
Proof.
  cbv zeta. edestruct (commands_keep_config (fun _ => []) (fun _ => true) 1000 ltac:(lia)) as (H1 & H2 & _);
    [| |split; [exact H1|exact H2]].
  - constructor; cbn [host_live host_pool].
    + apply with_breaker_cfg_named.
    + apply new_in_step.
    + apply validate_spec. by vm_compute.
    + unfold weights_within. apply (bool_decide_unpack _). by vm_compute.
    + by vm_compute.
  - apply Forall_cons. split; [|by repeat constructor]. cbn. unfold weights_within.
    apply (bool_decide_unpack _). by vm_compute.
Defined.
