(* ===== verification/Drain.v ===== *)
(** * Accepting and draining (rust/crates/thttpd-migrate/src/server.rs, [run_proxy])

    The accept loop and the bounded wait for the connections in flight.  Times
    are in milliseconds.  Inputs are when connections arrive, when each ends by
    itself once keep-alive is off, and the live state at each time. *)

From S2P Require Import Prelude RustStr Breaker Backend Router MigrateConfig LiveState Control.

(** A task of the [JoinSet]: when it ends by itself, if ever. *)
Record Conn := mkConn { conn_id : nat; ends : option Z }.

Definition ended (now : Z) (c : Conn) : bool := match ends c with Some t => (t <=? now)%Z | None => false end.

(** [while let Some(_) = set.try_join_next()]. *)
Definition reap_finished_connections (now : Z) (in_flight : list Conn) : list Conn :=
  filter (fun c => ended now c = false) in_flight.

(** What the listener hands out, and when. *)
Inductive Accept := Accepted (c : Conn) | AcceptError.

(** The live state as it is at each time. *)
Definition Timeline : Type := Z -> LiveState.

(** [drain_signal]: the flag is looked at now and then every 100 ms, until
    [until], when the future is dropped.  [Some (Some t)]: seen at [t];
    [Some None]: dropped; [None]: still waiting after [fuel] looks. *)
Fixpoint drain_signal (fuel : nat) (live : Timeline) (look : Z) (until : option Z) : option (option Z) :=
  match fuel with
  | O => None
  | S n =>
      if match until with Some t => (t <? look)%Z | None => false end then Some None
      else if live_draining (live look) then Some (Some look)
      else drain_signal n live (look + 100) until
  end.

(** The biased [select] of a round that starts at [now], where the accept is
    ready at [fst next], or never: when it ends, and what it accepted, or
    nothing when it saw the drain. *)
Definition select (fuel : nat) (live : Timeline) (now : Z) (next : option (Z * Accept)) :
    option (Z * option Accept) :=
  match drain_signal fuel live now ((fun a => Z.max now a.1) <$> next), next with
  | Some (Some t), _ => Some (t, None)
  | Some None, Some (t, r) => Some (Z.max now t, Some r)
  | _, _ => None
  end.

(** The rounds of the accept loop: when it stops, and the connections then in
    flight.  [None]: a round is still waiting after [fuel] looks at the flag. *)
Fixpoint accept_loop (fuel : nat) (live : Timeline) (now : Z) (arrivals : list (Z * Accept)) (in_flight : list Conn) :
    option (Z * list Conn) :=
  if live_draining (live now) then Some (now, in_flight)
  else
    let in_flight := reap_finished_connections now in_flight in
    match arrivals with
    | [] => '(t, _) ← select fuel live now None; Some (t, in_flight)
    | a :: arrivals' =>
        match select fuel live now (Some a) with
        | Some (t, None) => Some (t, in_flight)
        | Some (t, Some (Accepted c)) => accept_loop fuel live t arrivals' (in_flight ++ [c])
        | Some (t, Some AcceptError) => accept_loop fuel live t arrivals' in_flight
        | None => None
        end
    end.

(** [tokio::time::timeout] around the joins: when they are all done, or the
    deadline, with the connections that are aborted there. *)
Definition drain_join (start grace : Z) (in_flight : list Conn) : Z * list Conn :=
  let deadline := (start + grace)%Z in
  let late := filter (fun c => ended deadline c = false) in_flight in
  if is_empty late then (foldl Z.max start (omap ends in_flight), []) else (deadline, late).

(** [run_proxy_with_listener] from [now]: when the loop stopped accepting, when
    it returns, and the connections it has cut off. *)
Definition run_proxy (fuel : nat) (live : Timeline) (now : Z) (arrivals : list (Z * Accept)) :
    option (Z * Z * list Conn) :=
  '(start, in_flight) ← accept_loop fuel live now arrivals [];
  let '(stop, aborted) := drain_join start (drain_grace (live start) * 1000) in_flight in
  Some (start, stop, aborted).

(** ** Draining ends in time *)

Lemma foldl_max_bounds l a b : (a <= b)%Z -> Forall (fun x => (x <= b)%Z) l -> (a <= foldl Z.max a l <= b)%Z.
Proof.
  intros Ha Hl. revert a Ha. induction Hl as [|x l Hx _ IH]; intros a Ha; cbn; [lia|].
  specialize (IH (Z.max a x) ltac:(lia)). lia.
Qed.

Lemma drain_join_spec start grace in_flight :
  (0 <= grace)%Z ->
  let '(stop, aborted) := drain_join start grace in_flight in
  (start <= stop <= start + grace)%Z /\
  (forall c, c ∈ aborted <-> c ∈ in_flight /\ ended (start + grace) c = false) /\
  (forall c t, c ∈ in_flight -> ends c = Some t -> c ∉ aborted -> (t <= stop)%Z).
Proof.
  intros Hg. unfold drain_join. cbv zeta. set (late := filter _ in_flight).
  assert (Hlate : forall c, c ∈ late <-> c ∈ in_flight /\ ended (start + grace) c = false).
  { intros c. unfold late. rewrite list_elem_of_filter. tauto. }
  destruct (is_empty late) eqn:E.
  - assert (Hl : late = []) by (by destruct late). rewrite Hl in Hlate.
    assert (Hend : Forall (fun t => (t <= start + grace)%Z) (omap ends in_flight)).
    { apply Forall_forall. intros t (c & Hc & Ht)%list_elem_of_omap. destruct (decide (t <= start + grace)%Z); [done|].
      exfalso. apply (not_elem_of_nil c), Hlate. split; [done|]. unfold ended. rewrite Ht. apply Z.leb_gt. lia. }
    split; [apply foldl_max_bounds; [lia|done]|]. split; [done|].
    intros c t Hc Ht _. assert (Hin : t ∈ omap ends in_flight) by (apply list_elem_of_omap; eauto).
    clear -Hin. generalize start. induction (omap ends in_flight) as [|x l IH]; [by apply not_elem_of_nil in Hin|].
    intros a. cbn. apply elem_of_cons in Hin as [->|Hin]; [|by apply IH].
    assert (Hm : forall l b, (b <= foldl Z.max b l)%Z).
    { clear. induction l as [|y l IH]; intros b; cbn; [lia|]. specialize (IH (Z.max b y)). lia. }
    specialize (Hm l (Z.max a x)). lia.
  - split; [lia|]. split; [exact Hlate|]. intros c t Hc Ht Hn. destruct (decide (t <= start + grace)%Z); [done|].
    exfalso. apply Hn, Hlate. split; [done|]. unfold ended. rewrite Ht. apply Z.leb_gt. lia.
Qed.

(** ** The accept loop *)

(** The connections among some arrivals. *)
Definition conns_of (l : list (Z * Accept)) : list Conn :=
  omap (fun a => match a.2 with Accepted c => Some c | AcceptError => None end) l.

Lemma ended_mono now now' c : (now <= now')%Z -> ended now' c = false -> ended now c = false.
Proof. unfold ended. destruct (ends c); [|done]. rewrite !Z.leb_gt. lia. Qed.

(** Reaping never drops a connection that is still running later. *)
Lemma reap_running now start l :
  (now <= start)%Z ->
  filter (fun c => ended start c = false) (reap_finished_connections now l) =
  filter (fun c => ended start c = false) l.
Proof. intros H. apply list_filter_filter_l. intros c. by apply ended_mono. Qed.

Section Flagged.
(** The flag is set at [T] and stays set. *)
Context (live : Timeline) (T : Z).
Hypothesis Hflag : forall t, live_draining (live t) = (T <=? t)%Z.

Lemma drain_signal_spec fuel look until :
  (T <= look + 100 * Z.of_nat fuel)%Z ->
  exists r, drain_signal (S fuel) live look until = Some r /\
    match r, until with
    | Some t, None => (Z.max look T <= t)%Z /\ (t = look \/ t < T + 100)%Z
    | Some t, Some u => (Z.max look T <= t)%Z /\ (t = look \/ t < T + 100)%Z /\ (t <= u)%Z
    | None, Some u => (u < look \/ u < T + 100)%Z
    | None, None => False
    end.
Proof.
  revert look. induction fuel as [|n IH]; intros look Hf; cbn [drain_signal]; rewrite Hflag.
  - rewrite (proj2 (Z.leb_le _ _)) by lia. destruct until as [u|].
    + destruct (Z.ltb_spec u look); eexists; (split; [reflexivity|]); cbn; lia.
    + eexists; (split; [reflexivity|]); cbn; lia.
  - destruct (IH (look + 100)%Z) as (r & H1 & H2); [lia|]. cbn [drain_signal] in H1.
    destruct until as [u|]; [destruct (Z.ltb_spec u look); [eexists; split; [reflexivity|]; cbn; lia|]|];
      (destruct (Z.leb_spec T look); [eexists; split; [reflexivity|]; cbn; lia|]);
      exists r; (split; [exact H1|]); destruct r; cbn in *; done || lia.
Qed.

(** A round ends: it accepts the next arrival when it comes, or it sees the
    flag, within 100 ms of its being set. *)
Lemma select_spec fuel now next :
  (T <= now + 100 * Z.of_nat fuel)%Z ->
  exists t r, select (S fuel) live now next = Some (t, r) /\ (now <= t < Z.max now T + 100)%Z /\
    match r, next with
    | Some x, Some (a, y) => x = y /\ t = Z.max now a
    | Some _, None => False
    | None, Some (a, _) => (T <= t)%Z /\ (T <= Z.max now a)%Z
    | None, None => (T <= t)%Z
    end.
Proof.
  intros Hf. unfold select.
  destruct (drain_signal_spec fuel now ((fun a => Z.max now a.1) <$> next) Hf) as (r & -> & Hr).
  destruct r as [t|], next as [[a y]|]; cbn in Hr; [..|done]; eexists _, _; (split; [reflexivity|]); split_and!; done || lia.
Qed.

(** The arrivals come in order, from [now] on. *)
Fixpoint in_order (now : Z) (arrivals : list (Z * Accept)) : Prop :=
  match arrivals with [] => True | a :: l => (now <= a.1)%Z /\ in_order a.1 l end.

Lemma in_order_from now l a : in_order now l -> a ∈ l -> (now <= a.1)%Z.
Proof.
  revert now. induction l as [|x l IH]; intros now H Ha; [by apply not_elem_of_nil in Ha|]. destruct H as [H1 H2].
  apply elem_of_cons in Ha as [->|Ha]; [done|]. specialize (IH x.1 H2 Ha). lia.
Qed.

(** The loop does not start a round once the flag is set. *)
Lemma accept_loop_draining fuel now arrivals fl :
  (T <= now)%Z -> in_order now arrivals ->
  exists start l served refused, accept_loop fuel live now arrivals fl = Some (start, l) /\
    arrivals = served ++ refused /\ (now <= start)%Z /\ (T <= start)%Z /\ (start = now \/ start < T + 100)%Z /\
    Forall (fun a => a.1 <= start)%Z served /\ Forall (fun a => T <= a.1)%Z refused /\
    filter (fun c => ended start c = false) l = filter (fun c => ended start c = false) (fl ++ conns_of served).
Proof.
  intros Hd Ho. exists now, fl, [], arrivals. split.
  { destruct arrivals; cbn [accept_loop]; by rewrite Hflag, (proj2 (Z.leb_le _ _)). }
  cbn. rewrite app_nil_r. split_and!; try done; try lia.
  apply Forall_forall. intros x Hx. pose proof (in_order_from now arrivals x Ho Hx). lia.
Qed.

Lemma accept_loop_spec fuel now arrivals in_flight :
  (now <= T <= now + 100 * Z.of_nat fuel)%Z \/ (T <= now)%Z -> in_order now arrivals ->
  exists start l served refused, accept_loop (S fuel) live now arrivals in_flight = Some (start, l) /\
    arrivals = served ++ refused /\ (now <= start)%Z /\ (T <= start)%Z /\ (start = now \/ start < T + 100)%Z /\
    Forall (fun a => a.1 <= start)%Z served /\ Forall (fun a => T <= a.1)%Z refused /\
    filter (fun c => ended start c = false) l = filter (fun c => ended start c = false) (in_flight ++ conns_of served).
Proof.
  revert now in_flight. induction arrivals as [|a arrivals IH]; intros now fl Hf Ho;
    (destruct (Z.leb_spec T now) as [Hd|Hd]; [by apply accept_loop_draining|]; destruct Hf as [Hf|]; [|lia]);
    cbn [accept_loop]; rewrite Hflag, (proj2 (Z.leb_gt _ _)) by done.
  - destruct (select_spec fuel now None) as (t & r & -> & Ht & Hr); [lia..|]. cbn [mbind option_bind].
    eexists t, _, [], []. split; [reflexivity|]. destruct r; [done|]. split_and!; try done; try lia.
    cbn. rewrite app_nil_r. apply reap_running. lia.
  - destruct Ho as [Ha Ho]. destruct (select_spec fuel now (Some a)) as (t & r & -> & Ht & Hr); [lia..|].
    destruct a as [ta ra]. cbn [fst] in *. destruct r as [r|].
    + destruct Hr as [-> Et]. assert (t = ta) as -> by lia. clear Et.
      assert (Hf' : (ta <= T <= ta + 100 * Z.of_nat fuel)%Z \/ (T <= ta)%Z) by lia. destruct ra as [c|].
      * destruct (IH ta (reap_finished_connections now fl ++ [c]) Hf' Ho) as (start & l & served & refused & E & -> & H1 & H2 & H2' & H3 & H4 & H5).
        exists start, l, ((ta, Accepted c) :: served), refused. split; [exact E|]. split_and!; try done; try lia.
        { constructor; [simpl; lia|done]. }
        rewrite H5. change (conns_of ((ta, Accepted c) :: served)) with ([c] ++ conns_of served).
        rewrite <- app_assoc, !(filter_app _ _ ([c] ++ _)). f_equal. apply reap_running. lia.
      * destruct (IH ta (reap_finished_connections now fl) Hf' Ho) as (start & l & served & refused & E & -> & H1 & H2 & H2' & H3 & H4 & H5).
        exists start, l, ((ta, AcceptError) :: served), refused. split; [exact E|]. split_and!; try done; try lia.
        { constructor; [simpl; lia|done]. }
        rewrite H5. change (conns_of ((ta, AcceptError) :: served)) with (conns_of served).
        rewrite !filter_app. f_equal. apply reap_running. lia.
    + exists t, (reap_finished_connections now fl), [], ((ta, ra) :: arrivals). split; [reflexivity|].
      split_and!; try done; try lia.
      * constructor; [simpl; lia|]. apply Forall_forall. intros x Hx. pose proof (in_order_from _ _ _ Ho Hx). lia.
      * cbn. rewrite app_nil_r. apply reap_running. lia.
Qed.
End Flagged.

Section Claims.
Context {Order : HashOrder} `{Serde StateSnapshot} (debug_weights : gmap (list ascii) Z -> bytes).

(** The operator drains the proxy at [T]; nothing else changes the live
    state. *)
Definition drained_at (T : Z) (uptime : Z) (d : Disk) (secs : Z) (h : Host) : Timeline := fun t =>
  if (T <=? t)%Z then host_live (execute debug_weights uptime d (Drain secs) h).1 else host_live h.

(** C35: a drain command ends the proxy.  Let the operator send [drain] with
    [secs] seconds at time [T] to a proxy that is not draining, whatever
    connections arrive before and after, also none at all.  Then the accept
    loop stops within 100 ms of the command and the proxy exits at most
    max(secs, 1) seconds later: every connection that arrived before the
    command is accepted and none that arrives after the loop has stopped; those
    that would run longer than the grace are cut off, exactly these, and the
    proxy has waited for every other. *)
Theorem drain_command_bounds_exit T uptime d secs h now arrivals fuel :
  live_draining (host_live h) = false -> (now <= T <= now + 100 * Z.of_nat fuel)%Z -> in_order now arrivals ->
  exists start stop aborted served refused,
    run_proxy (S fuel) (drained_at T uptime d secs h) now arrivals = Some (start, stop, aborted) /\
    arrivals = served ++ refused /\
    Forall (fun a => a.1 <= start)%Z served /\ Forall (fun a => T <= a.1)%Z refused /\
    (T <= start < T + 100)%Z /\ (start <= stop <= start + Z.max secs 1 * 1000)%Z /\
    (forall c, c ∈ aborted <-> c ∈ conns_of served /\ ended (start + Z.max secs 1 * 1000) c = false) /\
    (forall c t, c ∈ conns_of served -> ends c = Some t -> c ∉ aborted -> (t <= stop)%Z).
Proof.
  intros Hd Hf Ho. set (live := drained_at T uptime d secs h).
  assert (Hflag : forall t, live_draining (live t) = (T <=? t)%Z).
  { intros t. unfold live, drained_at. destruct (T <=? t)%Z; [done|exact Hd]. }
  destruct (accept_loop_spec live T Hflag fuel now arrivals [] (or_introl Hf) Ho)
    as (start & l & served & refused & E & -> & H1 & H2 & H2' & H3 & H4 & H5).
  unfold run_proxy. rewrite E. cbn [mbind option_bind].
  assert (Eg : drain_grace (live start) = Z.max secs 1).
  { unfold live, drained_at. rewrite (proj2 (Z.leb_le _ _)) by lia. done. }
  rewrite Eg. pose proof (drain_join_spec start (Z.max secs 1 * 1000) l ltac:(lia)) as Hj.
  destruct (drain_join _ _ _) as [stop aborted]. destruct Hj as (J1 & J2 & J3).
  exists start, stop, aborted, served, refused. split; [reflexivity|]. split; [done|]. split; [done|]. split; [done|].
  split; [lia|]. split; [done|]. cbn [app] in H5.
  assert (Hin : forall c, ended start c = false -> c ∈ l <-> c ∈ conns_of served).
  { intros c Hc. pose proof (list_elem_of_filter (fun c => ended start c = false) l c) as A.
    pose proof (list_elem_of_filter (fun c => ended start c = false) (conns_of served) c) as C. rewrite H5 in A. tauto. }
  split.
  - intros c. rewrite J2. split; intros [Hc He]; (split; [|done]); apply (Hin c); try done; by apply (ended_mono _ (start + Z.max secs 1 * 1000)); [lia|].
  - intros c t Hc Ht Hna. destruct (ended start c) eqn:He.
    + unfold ended in He. rewrite Ht in He. apply Z.leb_le in He. lia.
    + apply (J3 c t); [by apply Hin|done|done].
Qed.
End Claims.

Import Codec.

(** An idle proxy, and one with three arrivals. *)
Lemma drain_command_bounds_exit_witness :
  let live := drained_at (fun _ => []) 250 0 Codec.good_disk 0 Codec.host in
  run_proxy 4 live 0 [] = Some (300%Z, 300%Z, []) /\
  exists start stop aborted,
    run_proxy 4 live 0 [(0, Accepted (mkConn 1 (Some 50))); (60, Accepted (mkConn 2 None)); (260, Accepted (mkConn 3 None));
                        (400, Accepted (mkConn 4 None))]%Z =
      Some (start, stop, aborted) /\ (250 <= start < 350)%Z /\ (stop <= start + 1000)%Z.
Proof.
  cbv zeta. split; [by vm_compute|].
  destruct (drain_command_bounds_exit (fun _ => []) 250 0 Codec.good_disk 0 Codec.host 0
    [(0, Accepted (mkConn 1 (Some 50))); (60, Accepted (mkConn 2 None)); (260, Accepted (mkConn 3 None));
     (400, Accepted (mkConn 4 None))]%Z 3) as (start & stop & aborted & served & refused & E & _ & _ & _ & H1 & H2 & _);
    [done|lia|cbn; lia|].
  exists start, stop, aborted. split; [exact E|]. split; [exact H1|]. simpl in H2. lia.
Defined.
