(* ===== verification/Diff.v ===== *)
(** * Comparison of responses (rust/crates/thttpd-migrate/src/diff.rs)

    What the proxy reports when the shadow backend answers differently from the
    primary one.  Strings are their UTF-8 bytes; [None] is a panic (a slice
    that starts inside a character).  SHA-256 is the class [Sha256]. *)

From stdpp Require Import sorting.
From S2P Require Import Prelude RustStr Tdate.
Open Scope Z_scope.

Inductive Field := Status | Headers | Body | ContentLength | ConnectionLifecycle.

#[export] Instance Field_eq_dec : EqDecision Field.
Proof. solve_decision. Defined.

Definition Field_as_str (f : Field) : bytes :=
  match f with
  | Status => B "status"
  | Headers => B "headers"
  | Body => B "body"
  | ContentLength => B "content_length"
  | ConnectionLifecycle => B "connection_lifecycle"
  end.

Record RequestContext := mkCtx { ctx_path : bytes; ctx_method : bytes; ctx_request_id : bytes }.

Record Divergence := mkDivergence {
  field : Field;
  expected : bytes;
  actual : bytes;
  div_path : bytes;
  div_method : bytes;
  truncated : bool;
}.

#[export] Instance Divergence_settable : Settable Divergence := fun d =>
  mkDivergence (field d) (expected d) (actual d) (div_path d) (div_method d) (truncated d).

Definition Divergence_new (f : Field) (expected actual : bytes) (ctx : RequestContext) : Divergence :=
  mkDivergence f expected actual (ctx_path ctx) (ctx_method ctx) false.

(** ** Timestamps *)

Definition is_timestamp (value : bytes) : bool :=
  let b i := unwrap_or LF (value !! i) in
  let within i j (p : byte -> bool) := forallb p (take (j - i) (drop i value)) in
  (length value =? 29)%nat
  && (b 3%nat =c? ","%char) && (b 4%nat =c? SP) && (b 7%nat =c? SP) && (b 11%nat =c? SP)
  && (b 16%nat =c? SP) && (b 25%nat =c? SP) && (b 19%nat =c? ":"%char) && (b 22%nat =c? ":"%char)
  && bytes_eqb (take 3 (drop 26 value)) (B "GMT")
  && within 5%nat 7%nat is_ascii_digit && within 12%nat 16%nat is_ascii_digit
  && within 17%nat 19%nat is_ascii_digit && within 20%nat 22%nat is_ascii_digit
  && within 23%nat 25%nat is_ascii_digit
  && is_ascii_upper (b 0%nat) && within 1%nat 3%nat is_ascii_lower
  && is_ascii_upper (b 8%nat) && is_ascii_lower (b 9%nat) && is_ascii_lower (b 10%nat).

(** ** The normalizers *)

(** How many leading bytes satisfy [p]: the loops
    [while j < s.len() && p(s.as_bytes()[j]) { j += 1 }]. *)
Fixpoint run_len (p : byte -> bool) (s : bytes) : nat :=
  match s with
  | c :: s' => if p c then S (run_len p s') else 0
  | [] => 0
  end.

(** The loops of [normalize_paths] and [regex_replace]: at each position
    [m] says what to write and how many bytes to skip; where it does not match,
    one character is copied.  Slicing inside a character panics.  Every
    round consumes a byte, so the length of the string is enough fuel. *)
Fixpoint scan (n : nat) (m : bytes -> option (bytes * nat)) (s : bytes) : option bytes :=
  match n, s with
  | O, _ | _, [] => Some []
  | S n', _ =>
      if is_cont (byte_at s 0) then None
      else match m s with
           | Some (rep, k) => app rep <$> scan n' m (drop k s)
           | None => let k := (utf8_head s).2 in app (take k s) <$> scan n' m (drop k s)
           end
  end.

Definition is_alnum (c : byte) : bool := is_ascii_upper c || is_ascii_lower c || is_ascii_digit c.

Definition ident_byte (c : byte) : bool := is_alnum c || (c =c? "_"%char).

(** [u8::is_ascii_whitespace]: no vertical tab, unlike [char::is_whitespace]. *)
Definition is_ascii_whitespace (c : byte) : bool :=
  (code c =? 9) || (code c =? 10) || (code c =? 12) || (code c =? 13) || (code c =? 32).

Definition golden : bytes := B "/tmp/thttpd_golden_".
Definition diff : bytes := B "/tmp/thttpd_diff_".
Definition pytest : bytes := B "/tmp/pytest-".

(** A literal head followed by a run of [p]. *)
Definition head_run (head : bytes) (p : byte -> bool) (rep s : bytes) : option (bytes * nat) :=
  if starts_with head s then Some (rep, (length head + run_len p (drop (length head) s))%nat) else None.

Definition or_else {A} (o1 o2 : option A) : option A := match o1 with Some x => Some x | None => o2 end.

Definition path_match (s : bytes) : option (bytes * nat) :=
  or_else (head_run golden ident_byte (B "/tmp/thttpd_NORMALIZED") s)
    (or_else (head_run diff ident_byte (B "/tmp/thttpd_NORMALIZED") s)
       (head_run pytest (fun c => negb ((c =c? "/"%char) || is_ascii_whitespace c))
          (B "/tmp/pytest_NORMALIZED") s)).

Definition normalize_paths (value : bytes) : option bytes := scan (length value) path_match value.

Inductive tail_class := Digit | Any | NoNl.

Definition in_class (cls : tail_class) (c : byte) : bool :=
  match cls with Digit => is_ascii_digit c | Any => true | NoNl => negb (c =c? LF) end.

Definition unescape_regex_literal (s : bytes) : bytes := str_replace (B "\.") (B ".") s.

(** A digit tail of length 0 is no match. *)
Definition regex_match (head : bytes) (cls : tail_class) (rep s : bytes) : option (bytes * nat) :=
  match cls, head_run head (in_class cls) rep s with
  | Digit, Some (r, k) => if (k =? length head)%nat then None else Some (r, k)
  | _, o => o
  end.

Definition regex_replace (haystack pattern replacement : bytes) : option bytes :=
  let loop head cls := scan (length haystack) (regex_match (unescape_regex_literal head) cls replacement) haystack in
  match find_sub (B "\d+") pattern with
  | Some idx => loop (take idx pattern) Digit
  | None =>
      match find_sub (B ".*") pattern with
      | Some idx => loop (take idx pattern) Any
      | None =>
          match find_sub (B "[^\n]*") pattern with
          | Some idx => loop (take idx pattern) NoNl
          | None => Some (str_replace pattern replacement haystack)
          end
      end
  end.

Definition normalize_cgi_output (value : bytes) : option bytes :=
  value ← regex_replace value (B "SERVER_PORT=\d+") (B "SERVER_PORT=PORT");
  value ← regex_replace value (B "HTTP_HOST=127\.0\.0\.1:\d+") (B "HTTP_HOST=127.0.0.1:PORT");
  value ← regex_replace value (B "Host: 127\.0\.0\.1:\d+") (B "Host: 127.0.0.1:PORT");
  regex_replace value (B "Host=127\.0\.0\.1:\d+") (B "Host=127.0.0.1:PORT").

(** The pattern of the source, ["PWD=/[^\n]*"], has a line feed where the test
    of [regex_replace] has a backslash and an [n]. *)
Definition pwd_pattern : bytes := B "PWD=/[^" ++ [LF] ++ B "]*".

Definition normalize_pwd (value : bytes) : option bytes :=
  regex_replace value pwd_pattern (B "PWD=NORMALIZED").

Definition normalize_value (value : bytes) : option bytes :=
  value ← normalize_paths value;
  value ← normalize_cgi_output value;
  normalize_pwd value.

(** [byte as char]: the UTF-8 encoding of U+0000 to U+00FF. *)
Definition latin1_char (b : byte) : bytes :=
  if code b <? 128 then [b] else [chr (192 + code b / 64); chr (128 + code b mod 64)].

Definition bytes_to_latin1 (s : bytes) : bytes := concat (map latin1_char s).

(** [c as u32] for an encoded character. *)
Definition char_code (c : bytes) : Z :=
  match map code c with
  | [a] => a
  | [a; b] => (a - 192) * 64 + (b - 128)
  | [a; b; d] => ((a - 224) * 64 + (b - 128)) * 64 + (d - 128)
  | [a; b; d; e] => (((a - 240) * 64 + (b - 128)) * 64 + (d - 128)) * 64 + (e - 128)
  | _ => 0
  end.

Definition latin1_to_bytes (s : bytes) : bytes := map (fun c => chr (wrap_u8 (char_code c))) (chars s).

Definition normalize_body_bytes (body : bytes) : option bytes :=
  latin1_to_bytes <$> normalize_value (bytes_to_latin1 body).

(** ** Headers *)

Definition TIMESTAMP_HEADERS : list bytes := [B "date"; B "last-modified"].

Definition normalize_header_value (name value : bytes) : option bytes :=
  if bool_decide (name ∈ TIMESTAMP_HEADERS) && is_timestamp value then Some (B "<timestamp>")
  else normalize_value value.

Definition normalize_header (h : bytes * bytes) : option (bytes * bytes) :=
  let key := ascii_lower <$> h.1 in
  v ← normalize_header_value key h.2;
  Some (key, v).

Definition push_value (g : gmap (list ascii) (list bytes)) (h : bytes * bytes) : gmap (list ascii) (list bytes) :=
  <[h.1 := unwrap_or [] (g !! h.1) ++ [h.2]]> g.

Definition grouped_normalized_headers (headers : list (bytes * bytes)) :
    option (gmap (list ascii) (list bytes)) :=
  hs ← mapM normalize_header headers;
  Some (merge_sort bytes_le <$> foldl push_value ∅ hs).

Definition mismatch (exp act : gmap (list ascii) (list bytes)) (key : list ascii) :
    option (bytes * (option (list bytes) * option (list bytes))) :=
  match exp !! key, act !! key with
  | Some e, Some a => if bool_decide (e = a) then None else Some (key, (Some e, Some a))
  | e, a => Some (key, (e, a))
  end.

Definition normalize_header_values (expected actual : list (bytes * bytes)) :
    option (list (bytes * (option (list bytes) * option (list bytes)))) :=
  exp ← grouped_normalized_headers expected;
  act ← grouped_normalized_headers actual;
  Some (omap (mismatch exp act) (merge_sort bytes_le (elements (dom exp ∪ dom act)))).

(** ** The comparison *)

Class Sha256 := sha256 : list ascii -> list ascii.

(** [{b:02x}]. *)
Definition hex_lower (d : Z) : byte := if d <? 10 then chr (48 + d) else chr (87 + d).

Definition hex_encode (s : bytes) : bytes := concat (map (fun b => [hex_lower (code b / 16); hex_lower (code b mod 16)]) s).

(** What is captured of a response. *)
Record Captured := mkCaptured {
  cap_status : Z;
  cap_headers : list (bytes * bytes);
  cap_body : bytes;
  cap_truncated : bool;
}.

Section Compare.
Context `{!Sha256}.

Definition sha256_hex (data : bytes) : bytes := hex_encode (sha256 data).

Definition diff_responses (primary shadow : Captured) (ctx : RequestContext) : option (list Divergence) :=
  let out1 :=
    if negb (cap_status primary =? cap_status shadow)
    then [Divergence_new Status (show_Z (cap_status primary)) (show_Z (cap_status shadow)) ctx] else [] in
  let cut := cap_truncated primary || cap_truncated shadow in
  let out2 :=
    if cut then [(Divergence_new Body (B "full body") (B "truncated at cap") ctx) <| truncated := true |>] else [] in
  mism ← normalize_header_values (cap_headers primary) (cap_headers shadow);
  let out3 :=
    if negb (is_empty mism)
    then [Divergence_new Headers (B "matching normalized headers") (join (B ", ") (map fst mism)) ctx] else [] in
  out4 ← (if negb cut then
            p ← normalize_body_bytes (cap_body primary);
            s ← normalize_body_bytes (cap_body shadow);
            let exp_hash := sha256_hex p in
            let act_hash := sha256_hex s in
            Some (if bytes_eqb exp_hash act_hash then [] else [Divergence_new Body exp_hash act_hash ctx])
          else Some []);
  Some (out1 ++ out2 ++ out3 ++ out4).
End Compare.

(** A working directory in the output of a CGI script is not normalized. *)
Example diff_normalize_examples :
  normalize_value (B "SERVER_PORT=8081 HTTP_HOST=127.0.0.1:80 /tmp/thttpd_diff_x1/a")
    = Some (B "SERVER_PORT=PORT HTTP_HOST=127.0.0.1:PORT /tmp/thttpd_NORMALIZED/a") /\
  normalize_value (B "SERVER_PORT=") = Some (B "SERVER_PORT=") /\
  normalize_value (B "PWD=/srv/www/cgi-bin") = Some (B "PWD=/srv/www/cgi-bin") /\
  normalize_body_bytes [chr 128; chr 255; chr 65] = Some [chr 128; chr 255; chr 65].
Proof. vm_compute. auto. Qed.

(** ** Substitution on bytes

    The reference the normalizers are compared with: left to right, on single
    bytes. *)

Fixpoint bscan (n : nat) (m : bytes -> option (bytes * nat)) (s : bytes) : bytes :=
  match n, s with
  | O, _ | _, [] => []
  | S n', c :: s' =>
      match m s with
      | Some (rep, k) => rep ++ bscan n' m (drop k s)
      | None => c :: bscan n' m s'
      end
  end.

Definition substitute (m : bytes -> option (bytes * nat)) (s : bytes) : bytes := bscan (length s) m s.

(** What the substitutions of this file have in common: ASCII in, ASCII out,
    and the same matches on a string and on its Latin-1 image. *)
Record good (m : bytes -> option (bytes * nat)) : Prop := {
  good_len : forall s rep k, m s = Some (rep, k) -> (0 < k <= length s)%nat;
  good_rep : forall s rep k, m s = Some (rep, k) -> ascii_only rep;
  good_high : forall c s, 128 <= code c -> m (c :: s) = None;
  good_boundary : forall s rep k, valid_utf8 s = true -> m s = Some (rep, k) -> valid_utf8 (drop k s) = true;
  good_latin1 : forall s,
    m (bytes_to_latin1 s) = (fun '(rep, k) => (rep, length (bytes_to_latin1 (take k s)))) <$> m s;
}.

Lemma bscan_fuel m n s : good m -> (length s <= n)%nat -> bscan n m s = substitute m s.
Proof.
  intros Hm. unfold substitute. remember (length s) as l eqn:Hl. revert n s Hl.
  induction l as [l IH] using lt_wf_ind. intros n s Hl Hn.
  destruct s as [|c s]; [by destruct n, l|]. cbn [length] in Hl.
  destruct n as [|n]; [lia|]. destruct l as [|l]; [lia|]. cbn [bscan].
  destruct (m (c :: s)) as [[rep k]|] eqn:E.
  - apply (good_len m Hm) in E as Hk. cbn [length] in Hk. f_equal.
    assert (length (drop k (c :: s)) <= l)%nat by (rewrite length_drop; cbn [length]; lia).
    rewrite (IH (length (drop k (c :: s))) ltac:(lia) n) by (done || lia).
    by rewrite (IH (length (drop k (c :: s))) ltac:(lia) l) by (done || lia).
  - f_equal. rewrite (IH (length s) ltac:(lia) n) by (done || lia).
    by rewrite (IH (length s) ltac:(lia) l) by (done || lia).
Qed.

Lemma substitute_cons m c s : good m ->
  substitute m (c :: s) =
  match m (c :: s) with
  | Some (rep, k) => rep ++ substitute m (drop k (c :: s))
  | None => c :: substitute m s
  end.
Proof.
  intros Hm. unfold substitute at 1. cbn [length bscan]. destruct (m (c :: s)) as [[rep k]|] eqn:E; [|done].
  apply (good_len m Hm) in E. cbn [length] in E. by rewrite bscan_fuel by (rewrite ?length_drop; cbn [length]; auto with lia).
Qed.

Lemma substitute_high m a b : good m -> Forall (fun c => 128 <= code c) a ->
  substitute m (a ++ b) = a ++ substitute m b.
Proof.
  intros Hm Ha. induction Ha as [|c a Hc _ IH]; [done|]. cbn [app].
  by rewrite substitute_cons, (good_high m Hm), IH by done.
Qed.

Lemma substitute_none m s : good m -> (forall i, m (drop i s) = None) -> substitute m s = s.
Proof.
  intros Hm. induction s as [|c s IH]; [done|]. intros H. rewrite substitute_cons by done.
  pose proof (H 0%nat) as E0. rewrite drop_0 in E0. rewrite E0, IH; [done|]. intros i. apply (H (S i)).
Qed.

(** On a valid string the loop of the code does not panic and is the
    substitution on bytes. *)
Lemma scan_substitute m n s : good m -> valid_utf8 s = true -> (length s <= n)%nat ->
  scan n m s = Some (substitute m s) /\ valid_utf8 (substitute m s) = true.
Proof.
  intros Hm. remember (length s) as l eqn:Hl. revert n s Hl.
  induction l as [l IH] using lt_wf_ind. intros n s Hl Hv Hn.
  destruct s as [|c s]; [by destruct n|]. destruct n as [|n]; [cbn in *; lia|].
  destruct (utf8_head (c :: s)) as [ok j] eqn:Ej.
  pose proof (utf8_head_len (c :: s) ok j ltac:(done) Ej) as Hj.
  pose proof Hv as Hv'. rewrite valid_utf8_eq, Ej in Hv' by done. cbn [fst snd] in Hv'.
  apply andb_true_iff in Hv' as [-> Hvj].
  destruct (utf8_head_cont _ _ Ej) as [H0 Hc]. cbn [scan]. rewrite H0, substitute_cons by done.
  destruct (m (c :: s)) as [[rep k]|] eqn:E.
  - apply (good_len m Hm) in E as Hk. apply (good_rep m Hm) in E as Hr.
    apply (good_boundary m Hm _ _ _ Hv) in E as Hb.
    destruct (IH (length (drop k (c :: s))) ltac:(rewrite length_drop; lia) n _ eq_refl Hb
                ltac:(rewrite length_drop; lia)) as [-> IHv].
    split; [done|]. apply valid_utf8_app; [by apply valid_utf8_ascii|done].
  - rewrite Ej. cbn [snd].
    destruct (IH (length (drop j (c :: s))) ltac:(rewrite length_drop; lia) n _ eq_refl Hvj
                ltac:(rewrite length_drop; lia)) as [-> IHv].
    assert (Es : c :: substitute m s = take j (c :: s) ++ substitute m (drop j (c :: s))).
    { destruct j as [|j]; [lia|]. cbn [take drop]. cbn [app]. f_equal.
      rewrite <- (take_drop j s) at 1. apply substitute_high; [done|].
      apply Forall_lookup. intros i d Hd. apply lookup_take_Some in Hd as [Hd Hi].
      specialize (Hc (S i) ltac:(lia)). unfold is_cont, in_range, byte_at in Hc.
      change ((c :: s) !! S i) with (s !! i) in Hc. rewrite Hd in Hc.
      rewrite andb_true_iff, !Z.leb_le in Hc. lia. }
    rewrite Es. split; [done|]. apply valid_utf8_app; [|done].
    rewrite valid_utf8_eq by (destruct j; [lia|done]).
    pose proof (utf8_head_prefix (c :: s) [] j ltac:(done) Ej) as Ep. rewrite app_nil_r in Ep. rewrite Ep.
    cbn [fst snd]. rewrite drop_ge by (rewrite length_take; lia). done.
Qed.

(** *** The Latin-1 detour *)

Lemma latin1_char_high b : 128 <= code b -> exists c d,
  latin1_char b = [c; d] /\ code c = 192 + code b / 64 /\ code d = 128 + code b mod 64 /\
  194 <= code c <= 195 /\ 128 <= code d <= 191.
Proof.
  intros H. unfold latin1_char. rewrite (proj2 (Z.ltb_ge _ _)) by lia. pose proof (code_range b).
  assert (2 <= code b / 64 <= 3) by (split; [apply Z.div_le_lower_bound; lia|apply Z.lt_succ_r, Z.div_lt_upper_bound; lia]).
  pose proof (Z.mod_pos_bound (code b) 64 ltac:(lia)).
  eexists _, _. split; [done|]. rewrite !code_chr by lia. lia.
Qed.

Lemma latin1_char_low b : code b < 128 -> latin1_char b = [b].
Proof. intros H. unfold latin1_char. by rewrite (proj2 (Z.ltb_lt _ _)). Qed.

Lemma bytes_to_latin1_cons b s : bytes_to_latin1 (b :: s) = latin1_char b ++ bytes_to_latin1 s.
Proof. done. Qed.

Lemma bytes_to_latin1_app s t : bytes_to_latin1 (s ++ t) = bytes_to_latin1 s ++ bytes_to_latin1 t.
Proof. unfold bytes_to_latin1. by rewrite map_app, concat_app. Qed.

Lemma bytes_to_latin1_ascii s : ascii_only s -> bytes_to_latin1 s = s.
Proof. induction 1 as [|c s Hc _ IH]; [done|]. by rewrite bytes_to_latin1_cons, latin1_char_low, IH. Qed.

Lemma bytes_to_latin1_drop k s :
  drop (length (bytes_to_latin1 (take k s))) (bytes_to_latin1 s) = bytes_to_latin1 (drop k s).
Proof.
  rewrite <- (take_drop k s) at 2. rewrite bytes_to_latin1_app. by rewrite drop_app_length.
Qed.

Lemma utf8_head_latin1 b s :
  utf8_head (latin1_char b ++ s) = (true, length (latin1_char b)).
Proof.
  destruct (Z_lt_le_dec (code b) 128) as [H|H].
  - rewrite latin1_char_low by done. by apply utf8_head_ascii.
  - destruct (latin1_char_high b H) as (c & d & -> & _ & _ & Hc & Hd). cbn [app].
    unfold utf8_head, is_cont, in_range. cbv zeta.
    change (byte_at (c :: d :: s) 0) with (code c). change (byte_at (c :: d :: s) 1) with (code d).
    rewrite (proj2 (Z.ltb_ge _ _)) by lia. rewrite !(proj2 (Z.leb_le _ _)) by lia. done.
Qed.

Lemma char_code_latin1 b : char_code (latin1_char b) = code b.
Proof.
  destruct (Z_lt_le_dec (code b) 128) as [H|H]; [by rewrite latin1_char_low|].
  destruct (latin1_char_high b H) as (c & d & -> & Ec & Ed & _). unfold char_code. cbn [map]. rewrite Ec, Ed.
  pose proof (Z.div_mod (code b) 64). lia.
Qed.

(** Decoding inverts encoding, for all bytes. *)
Lemma latin1_roundtrip s : latin1_to_bytes (bytes_to_latin1 s) = s.
Proof.
  unfold latin1_to_bytes, chars. induction s as [|b s IH]; [done|].
  rewrite bytes_to_latin1_cons, utf8_chunks_eq, utf8_head_latin1.
  assert (latin1_char b ++ bytes_to_latin1 s <> []) as Hne by (unfold latin1_char; by destruct (_ <? _)).
  destruct (latin1_char b ++ bytes_to_latin1 s) eqn:E; [done|]. rewrite <- E. cbn [fst snd].
  rewrite drop_app_length, take_app_length. cbn [map snd]. rewrite IH, char_code_latin1.
  rewrite wrap_u_small by apply code_range. by rewrite chr_code.
Qed.

Lemma latin1_valid s : valid_utf8 (bytes_to_latin1 s) = true.
Proof.
  induction s as [|b s IH]; [done|]. rewrite bytes_to_latin1_cons.
  rewrite valid_utf8_eq by (unfold latin1_char; by destruct (_ <? _)).
  rewrite utf8_head_latin1. cbn [fst snd]. by rewrite drop_app_length.
Qed.

(** Substituting in the Latin-1 image is substituting in the bytes. *)
Lemma substitute_latin1 m s : good m -> substitute m (bytes_to_latin1 s) = bytes_to_latin1 (substitute m s).
Proof.
  intros Hm. remember (length s) as l eqn:Hl. revert s Hl.
  induction l as [l IH] using lt_wf_ind. intros s Hl. destruct s as [|c s]; [done|].
  pose proof (good_latin1 m Hm (c :: s)) as EL. rewrite (substitute_cons m c s) by done.
  destruct (m (c :: s)) as [[rep k]|] eqn:E.
  - apply (good_len m Hm) in E as Hk. apply (good_rep m Hm) in E as Hr. cbn [fmap option_fmap option_map] in EL.
    rewrite bytes_to_latin1_app, (bytes_to_latin1_ascii rep) by done.
    rewrite <- (IH (length (drop k (c :: s)))) by (rewrite ?length_drop; cbn [length] in *; lia || done).
    rewrite <- bytes_to_latin1_drop.
    destruct (bytes_to_latin1 (c :: s)) as [|x t] eqn:Et.
    { rewrite bytes_to_latin1_cons in Et. unfold latin1_char in Et. by destruct (code c <? 128). }
    rewrite substitute_cons by done. by rewrite EL.
  - rewrite !bytes_to_latin1_cons in *. rewrite <- (IH (length s)) by (cbn [length] in *; lia || done).
    destruct (Z_lt_le_dec (code c) 128) as [H|H].
    + rewrite latin1_char_low in * by done. cbn [app] in *. rewrite substitute_cons by done. by rewrite EL.
    + destruct (latin1_char_high c H) as (a & b & -> & _ & _ & Ha & Hb).
      apply substitute_high; [done|]. repeat constructor; lia.
Qed.

(** *** The matchers *)

(** A class of bytes that does not distinguish the bytes from 128 on. *)
Definition uniform (p : byte -> bool) : Prop :=
  forall c d, 128 <= code c -> 128 <= code d -> p c = p d.

Lemma starts_with_latin1 head s : ascii_only head -> starts_with head (bytes_to_latin1 s) = starts_with head s.
Proof.
  intros Hh. revert s. induction Hh as [|a head Ha _ IH]; intros [|c s]; [done..|].
  rewrite bytes_to_latin1_cons. destruct (Z_lt_le_dec (code c) 128) as [H|H].
  - rewrite latin1_char_low by done. cbn. by rewrite IH.
  - destruct (latin1_char_high c H) as (x & y & -> & _ & _ & Hx & _). cbn.
    rewrite !(proj2 (Ascii.eqb_neq _ _)) by (intros ->; lia). done.
Qed.

Lemma run_len_latin1 p t : uniform p ->
  run_len p (bytes_to_latin1 t) = length (bytes_to_latin1 (take (run_len p t) t)).
Proof.
  intros Hp. induction t as [|c t IH]; [done|]. rewrite bytes_to_latin1_cons. cbn [run_len].
  destruct (Z_lt_le_dec (code c) 128) as [H|H].
  - rewrite latin1_char_low by done. cbn [app run_len]. destruct (p c); [|done].
    cbn [take]. rewrite bytes_to_latin1_cons, latin1_char_low by done. cbn [app length]. by rewrite IH.
  - destruct (latin1_char_high c H) as (x & y & E & _ & _ & Hx & Hy). rewrite E. cbn [app run_len].
    rewrite (Hp x c), (Hp y c) by lia. destruct (p c); [|done].
    cbn [take]. rewrite bytes_to_latin1_cons, E. cbn [app length]. by rewrite IH.
Qed.

Lemma run_len_le p s : (run_len p s <= length s)%nat.
Proof. induction s as [|c s IH]; cbn; [lia|]. destruct (p c); lia. Qed.

Lemma run_len_take p s : Forall (fun c => p c = true) (take (run_len p s) s).
Proof. induction s as [|c s IH]; cbn; [constructor|]. destruct (p c) eqn:E; [by constructor|constructor]. Qed.

Lemma run_len_stop p s c : s !! run_len p s = Some c -> p c = false.
Proof.
  induction s as [|d s IH]; [done|]. cbn [run_len]. destruct (p d) eqn:E; [apply IH|]. by intros [= <-].
Qed.

(** A run ends at a character boundary. *)
Lemma run_len_boundary p s : uniform p -> valid_utf8 s = true -> valid_utf8 (drop (run_len p s) s) = true.
Proof.
  intros Hp Hv. destruct (p (chr 128)) eqn:E.
  - apply valid_utf8_boundary; [done|]. unfold byte_at. destruct (s !! run_len p s) as [c|] eqn:Ec; [|lia].
    apply run_len_stop in Ec. destruct (Z_lt_le_dec (code c) 128); [done|].
    rewrite (Hp c (chr 128)) in Ec; [congruence|done|by rewrite code_chr].
  - rewrite <- (take_drop (run_len p s) s) in Hv. eapply valid_utf8_drop_ascii; [|exact Hv].
    eapply Forall_impl; [apply run_len_take|]. cbn beta. intros c Hc. destruct (Z_lt_le_dec (code c) 128); [done|].
    rewrite (Hp c (chr 128)) in Hc; [congruence|done|by rewrite code_chr].
Qed.

Lemma head_run_good head p rep :
  head <> [] -> ascii_only head -> ascii_only rep -> uniform p -> good (head_run head p rep).
Proof.
  intros Hne Hh Hr Hp. assert (Hs : forall s, starts_with head s = true -> exists t, s = head ++ t)
    by (intros s; apply starts_with_spec).
  assert (0 < length head)%nat by (destruct head; [done|cbn; lia]).
  split; unfold head_run; intros *.
  - destruct (starts_with head s) eqn:E; [|done]. intros [= <- <-]. destruct (Hs s E) as [t ->].
    rewrite drop_app_length, length_app. pose proof (run_len_le p t). lia.
  - destruct (starts_with head s); [|done]. by intros [= <- <-].
  - intros Hc. destruct head as [|h head]; [done|]. apply Forall_cons in Hh as [Hh _]. cbn [starts_with].
    by rewrite (proj2 (Ascii.eqb_neq _ _)) by (intros ->; lia).
  - intros Hv. destruct (starts_with head s) eqn:E; [|done]. intros [= <- <-]. destruct (Hs s E) as [t ->].
    rewrite drop_app_length in *. rewrite <- drop_drop, drop_app_length. apply run_len_boundary; [done|].
    exact (valid_utf8_drop_ascii head t Hh Hv).
  - rewrite starts_with_latin1 by done. destruct (starts_with head s) eqn:E; [|done]. destruct (Hs s E) as [t ->].
    cbn. do 2 f_equal. rewrite bytes_to_latin1_app, (bytes_to_latin1_ascii head), !drop_app_length by done.
    rewrite run_len_latin1 by done. rewrite take_app_add, bytes_to_latin1_app, length_app.
    by rewrite (bytes_to_latin1_ascii head).
Qed.

Lemma or_else_good m1 m2 : good m1 -> good m2 -> good (fun s => or_else (m1 s) (m2 s)).
Proof.
  intros [A1 B1 C1 D1 E1] [A2 B2 C2 D2 E2]. split; intros *.
  - destruct (m1 s) eqn:E; cbn; [intros [= ->]|]; eauto.
  - destruct (m1 s) eqn:E; cbn; [intros [= ->]|]; eauto.
  - intros H. by rewrite C1, C2.
  - intros Hv. destruct (m1 s) eqn:E; cbn; [intros [= ->]|]; eauto.
  - rewrite E1, E2. by destruct (m1 s) as [[? ?]|].
Qed.

Lemma false_uniform p : (forall c, 128 <= code c -> p c = false) -> uniform p.
Proof. intros H c d Hc Hd. by rewrite !H. Qed.

Lemma high_no_range lo hi c : hi < 128 -> 128 <= code c -> (lo <=? code c) && (code c <=? hi) = false.
Proof. intros. apply andb_false_iff. right. apply Z.leb_gt. lia. Qed.

Lemma high_neq (c d : byte) : code d < 128 -> 128 <= code c -> (c =c? d) = false.
Proof. intros. apply Ascii.eqb_neq. intros ->. lia. Qed.

Lemma in_class_uniform cls : uniform (in_class cls).
Proof.
  destruct cls; cbn [in_class]; [|done|].
  - apply false_uniform. intros c Hc. by apply high_no_range.
  - intros c d Hc Hd. cbn. by rewrite !high_neq.
Qed.

Lemma regex_match_good head cls rep :
  head <> [] -> ascii_only head -> ascii_only rep -> good (regex_match head cls rep).
Proof.
  intros Hne Hh Hr. pose proof (head_run_good head (in_class cls) rep Hne Hh Hr (in_class_uniform cls)) as G.
  destruct cls; [|exact G..]. destruct G as [A Br C D L]. unfold regex_match. split; intros *.
  - destruct (head_run _ _ _ s) as [[r j]|] eqn:E; [|done]. destruct (j =? _)%nat; [done|]. intros [= -> ->]. eauto.
  - destruct (head_run _ _ _ s) as [[r j]|] eqn:E; [|done]. destruct (j =? _)%nat; [done|]. intros [= -> ->]. eauto.
  - intros H. by rewrite C.
  - intros Hv. destruct (head_run _ _ _ s) as [[r j]|] eqn:E; [|done].
    destruct (j =? _)%nat; [done|]. intros [= -> ->]. eauto.
  - rewrite L. destruct (head_run head _ rep s) as [[r k]|] eqn:E; [|done]. cbn.
    unfold head_run in E. destruct (starts_with head s) eqn:Es; [|done]. injection E as <- <-.
    apply starts_with_spec in Es as [t ->]. rewrite drop_app_length, take_app_add, bytes_to_latin1_app, length_app.
    rewrite (bytes_to_latin1_ascii head) by done.
    assert (length (bytes_to_latin1 (take (run_len is_ascii_digit t) t)) = run_len is_ascii_digit t) as E.
    { rewrite bytes_to_latin1_ascii; [rewrite length_take; pose proof (run_len_le is_ascii_digit t); lia|].
      eapply Forall_impl; [apply run_len_take|]. cbn beta. intros c. unfold is_ascii_digit. rewrite andb_true_iff, !Z.leb_le. lia. }
    change (in_class Digit) with is_ascii_digit. rewrite E. destruct (_ =? _)%nat; [done|]. cbn.
    by rewrite take_app_add, bytes_to_latin1_app, length_app, (bytes_to_latin1_ascii head), E.
Qed.

Ltac ascii_lit := unfold ascii_only; repeat constructor.

Lemma path_match_good : good path_match.
Proof.
  assert (Hi : uniform ident_byte).
  { apply false_uniform. intros c Hc. unfold ident_byte, is_alnum, is_ascii_upper, is_ascii_lower, is_ascii_digit.
    by rewrite !high_no_range, high_neq. }
  apply or_else_good; [|apply or_else_good]; apply head_run_good; try done; try ascii_lit.
  intros c d Hc Hd. unfold is_ascii_whitespace. rewrite !high_neq by done. by rewrite !(proj2 (Z.eqb_neq _ _)) by lia.
Qed.

(** *** All normalizers in a row *)

Definition normalizers : list (bytes -> option (bytes * nat)) :=
  [ path_match;
    regex_match (B "SERVER_PORT=") Digit (B "SERVER_PORT=PORT");
    regex_match (B "HTTP_HOST=127.0.0.1:") Digit (B "HTTP_HOST=127.0.0.1:PORT");
    regex_match (B "Host: 127.0.0.1:") Digit (B "Host: 127.0.0.1:PORT");
    regex_match (B "Host=127.0.0.1:") Digit (B "Host=127.0.0.1:PORT");
    head_run pwd_pattern (fun _ => false) (B "PWD=NORMALIZED") ].

Definition substituted (s : bytes) : bytes := foldl (fun s m => substitute m s) s normalizers.

Lemma normalizers_good : Forall good normalizers.
Proof.
  constructor; [apply path_match_good|]. repeat (constructor; [apply regex_match_good; [done|ascii_lit..]|]).
  constructor; [|constructor]. apply head_run_good; [done|ascii_lit..|done].
Qed.

Lemma run_len_false s : run_len (fun _ => false) s = 0%nat.
Proof. by destruct s. Qed.

Lemma str_replace_substitute needle rep s :
  str_replace needle rep s = substitute (head_run needle (fun _ => false) rep) s.
Proof.
  unfold str_replace, substitute. generalize (length s). intros n. revert s.
  induction n as [|n IH]; intros [|c s]; [done..|]. cbn [replace_fuel bscan]. unfold head_run at 1.
  rewrite run_len_false, Nat.add_0_r, !IH. by destruct (starts_with needle (c :: s)).
Qed.

Lemma substitute_valid m s : good m -> valid_utf8 s = true ->
  scan (length s) m s = Some (substitute m s) /\ valid_utf8 (substitute m s) = true.
Proof. intros. by apply scan_substitute. Qed.

(** The normalizers of a string are the substitutions, none of them panics. *)
Lemma normalize_value_substituted s : valid_utf8 s = true -> normalize_value s = Some (substituted s).
Proof.
  intros H. pose proof normalizers_good as G. unfold normalizers in G.
  repeat match type of G with Forall _ (_ :: _) => apply Forall_cons in G as [?G G] end.
  unfold normalize_value, normalize_paths.
  destruct (substitute_valid _ _ G0 H) as [-> H0]. cbn [mbind option_bind]. unfold normalize_cgi_output.
  change (regex_replace ?v (B "SERVER_PORT=\d+") ?r) with
    (scan (length v) (regex_match (B "SERVER_PORT=") Digit r) v).
  destruct (substitute_valid _ _ G1 H0) as [-> H1]. cbn [mbind option_bind].
  change (regex_replace ?v (B "HTTP_HOST=127\.0\.0\.1:\d+") ?r) with
    (scan (length v) (regex_match (B "HTTP_HOST=127.0.0.1:") Digit r) v).
  destruct (substitute_valid _ _ G2 H1) as [-> H2]. cbn [mbind option_bind].
  change (regex_replace ?v (B "Host: 127\.0\.0\.1:\d+") ?r) with
    (scan (length v) (regex_match (B "Host: 127.0.0.1:") Digit r) v).
  destruct (substitute_valid _ _ G3 H2) as [-> H3]. cbn [mbind option_bind].
  change (regex_replace ?v (B "Host=127\.0\.0\.1:\d+") ?r) with
    (scan (length v) (regex_match (B "Host=127.0.0.1:") Digit r) v).
  destruct (substitute_valid _ _ G4 H3) as [-> H4]. cbn [mbind option_bind].
  unfold normalize_pwd. change (regex_replace ?v pwd_pattern ?r) with (Some (str_replace pwd_pattern r v)).
  by rewrite str_replace_substitute.
Qed.

Lemma substituted_latin1 s : substituted (bytes_to_latin1 s) = bytes_to_latin1 (substituted s).
Proof.
  unfold substituted. revert s. generalize normalizers_good. generalize normalizers. intros l H.
  induction H as [|m l Hm _ IH]; intros s; [done|]. cbn [foldl]. by rewrite substitute_latin1, IH.
Qed.

Lemma normalize_body_substituted body : normalize_body_bytes body = Some (substituted body).
Proof.
  unfold normalize_body_bytes. rewrite normalize_value_substituted by apply latin1_valid.
  cbn [fmap option_fmap option_map]. by rewrite substituted_latin1, latin1_roundtrip.
Qed.

(** The literal heads of the substitutions. *)
Definition markers : list bytes :=
  [golden; diff; pytest; B "SERVER_PORT="; B "HTTP_HOST=127.0.0.1:"; B "Host: 127.0.0.1:"; B "Host=127.0.0.1:";
   pwd_pattern].

Lemma find_sub_None needle s i : contains_sub needle s = false -> starts_with needle (drop i s) = false.
Proof.
  unfold contains_sub. revert i. induction s as [|c s IH]; intros i.
  - rewrite drop_nil. cbn. by destruct (starts_with needle []).
  - cbn [find_sub]. destruct (starts_with needle (c :: s)) eqn:E; [done|].
    destruct i as [|i]; [by rewrite drop_0|]. cbn [drop]. intros H. apply IH. by destruct (find_sub needle s).
Qed.

Lemma substituted_plain s : Forall (fun h => contains_sub h s = false) markers -> substituted s = s.
Proof.
  intros H. unfold markers in H.
  repeat match type of H with Forall _ (_ :: _) => apply Forall_cons in H as [?Hm H] end.
  pose proof normalizers_good as G.
  assert (Hid : Forall (fun m => forall i, m (drop i s) = None) normalizers).
  { unfold normalizers, path_match, regex_match, head_run, or_else.
    repeat constructor; intros i; by rewrite !find_sub_None. }
  unfold substituted. revert G Hid. generalize normalizers. intros l G Hid.
  induction l as [|m l IH]; [done|]. apply Forall_cons in G as [Gm G]. apply Forall_cons in Hid as [Hm' Hid].
  cbn [foldl]. by rewrite substitute_none, IH.
Qed.

(** Comparing bodies is comparing bytes: the normalization of a body,
    which goes through a Latin-1 string and back, never panics and is the
    left-to-right substitution on its bytes, and a body in which no marker
    occurs, text or binary, is compared as it is. *)
Theorem body_normalization body :
  normalize_body_bytes body = Some (substituted body) /\
  (Forall (fun h => contains_sub h body = false) markers -> normalize_body_bytes body = Some body).
Proof.
  rewrite normalize_body_substituted. split; [done|]. intros H. by rewrite substituted_plain.
Qed.

(** ** Headers of two responses *)

Definition plain_value (key value : bytes) : bytes :=
  if bool_decide (key ∈ TIMESTAMP_HEADERS) && is_timestamp value then B "<timestamp>" else substituted value.

(** The normalized values a response has for a header name, in its order. *)
Definition values_of (key : bytes) (headers : list (bytes * bytes)) : list bytes :=
  omap (fun h => if bool_decide ((ascii_lower <$> h.1) = key) then Some (plain_value key h.2) else None) headers.

Definition valid_values (headers : list (bytes * bytes)) : Prop :=
  Forall (fun h => valid_utf8 h.2 = true) headers.

Lemma normalize_header_plain h : valid_utf8 h.2 = true ->
  normalize_header h = Some (ascii_lower <$> h.1, plain_value (ascii_lower <$> h.1) h.2).
Proof.
  intros H. unfold normalize_header, normalize_header_value, plain_value.
  destruct (_ && _); [done|]. by rewrite normalize_value_substituted.
Qed.

Lemma mapM_normalize headers : valid_values headers ->
  mapM normalize_header headers =
  Some (map (fun h => (ascii_lower <$> h.1, plain_value (ascii_lower <$> h.1) h.2)) headers).
Proof.
  induction 1 as [|h hs Hh _ IH]; [done|]. cbn [mapM map]. rewrite normalize_header_plain by done.
  cbn [mbind option_bind]. by rewrite IH.
Qed.

Lemma lookup_push hs g key :
  foldl push_value g hs !! key =
  match omap (fun h : bytes * bytes => if bool_decide (h.1 = key) then Some h.2 else None) hs with
  | [] => g !! key
  | vs => Some (unwrap_or [] (g !! key) ++ vs)
  end.
Proof.
  revert g. induction hs as [|h hs IH]; intros g; [done|]. cbn [foldl]. rewrite IH. unfold push_value.
  cbn [omap list_omap]. destruct (decide (h.1 = key)) as [<-|Hn].
  - rewrite bool_decide_true by done. rewrite lookup_insert_eq. cbn [unwrap_or].
    destruct (omap _ hs); [done|]. by rewrite <- app_assoc.
  - rewrite bool_decide_false by done. by rewrite lookup_insert_ne.
Qed.

Lemma grouped_lookup headers : valid_values headers ->
  exists g, grouped_normalized_headers headers = Some g /\
    forall key, g !! key = match values_of key headers with [] => None | vs => Some (merge_sort bytes_le vs) end.
Proof.
  intros H. unfold grouped_normalized_headers. rewrite mapM_normalize by done. cbn [mbind option_bind].
  eexists. split; [done|]. intros key. rewrite lookup_fmap, lookup_push, lookup_empty.
  assert (E : values_of key headers = omap (fun h : bytes * bytes => if bool_decide (h.1 = key) then Some h.2 else None)
              (map (fun h => (ascii_lower <$> h.1, plain_value (ascii_lower <$> h.1) h.2)) headers)).
  { unfold values_of. clear H. induction headers as [|h hs IH]; [done|]. cbn [omap list_omap map fst snd].
    destruct (decide ((ascii_lower <$> h.1) = key)) as [<-|Hn].
    - rewrite !bool_decide_true by done. f_equal. apply IH.
    - rewrite !bool_decide_false by done. apply IH. }
  rewrite E. by destruct (omap _ _).
Qed.

Lemma sorted_eq_perm (l1 l2 : list bytes) : merge_sort bytes_le l1 = merge_sort bytes_le l2 <-> l1 ≡ₚ l2.
Proof.
  split; intros H.
  - by rewrite <- (merge_sort_Permutation bytes_le l1), H, merge_sort_Permutation.
  - apply (Sorted_unique bytes_le); [apply Sorted_merge_sort; apply _..|]. by rewrite !merge_sort_Permutation.
Qed.

Lemma omap_nil {A C} (f : A -> option C) l : omap f l = [] <-> Forall (fun x => f x = None) l.
Proof.
  induction l as [|x l IH]; cbn; [split; constructor|]. rewrite Forall_cons, <- IH.
  destruct (f x); split; [done|by intros [? _]|done|by intros [_ ?]].
Qed.

(** No header is reported exactly when, for every name, both responses have
    the same normalized values, in any order. *)
Lemma header_values_match e a : valid_values e -> valid_values a ->
  exists ms, normalize_header_values e a = Some ms /\
    (ms = [] <-> forall key, values_of key e ≡ₚ values_of key a).
Proof.
  intros He Ha. destruct (grouped_lookup e He) as (ge & Ee & Le). destruct (grouped_lookup a Ha) as (ga & Ea & La).
  unfold normalize_header_values. rewrite Ee, Ea. cbn [mbind option_bind]. eexists. split; [done|].
  assert (Hm : forall key, key ∈ dom ge ∪ dom ga -> mismatch ge ga key = None <-> values_of key e ≡ₚ values_of key a).
  { intros key Hk. unfold mismatch. rewrite elem_of_union, !elem_of_dom in Hk. rewrite Le, La in *.
    destruct (values_of key e) as [|x l] eqn:E1, (values_of key a) as [|y l'] eqn:E2.
    - destruct Hk as [[? ?]|[? ?]]; done.
    - split; [done|]. intros H%Permutation_nil_l. done.
    - split; [done|]. intros H%Permutation_nil_r. done.
    - rewrite <- sorted_eq_perm. destruct (decide (merge_sort bytes_le (x :: l) = merge_sort bytes_le (y :: l'))).
      + by rewrite bool_decide_true.
      + by rewrite bool_decide_false. }
  rewrite omap_nil, Forall_forall. split.
  - intros H key. destruct (decide (key ∈ dom ge ∪ dom ga)) as [Hk|Hk].
    + apply Hm; [done|]. apply H. rewrite merge_sort_Permutation, elem_of_elements. done.
    + rewrite not_elem_of_union, !not_elem_of_dom in Hk. destruct Hk as [H1 H2]. rewrite Le in H1. rewrite La in H2.
      destruct (values_of key e), (values_of key a); done.
  - intros H key Hk. rewrite merge_sort_Permutation, elem_of_elements in Hk. by apply Hm.
Qed.

Lemma hex_lower_inj d e : 0 <= d < 16 -> 0 <= e < 16 -> hex_lower d = hex_lower e -> d = e.
Proof.
  intros Hd He H. assert (E : code (hex_lower d) = code (hex_lower e)) by by rewrite H. revert E. unfold hex_lower.
  destruct (Z.ltb_spec d 10), (Z.ltb_spec e 10); rewrite !code_chr by lia; lia.
Qed.

Lemma hex_encode_inj a b : hex_encode a = hex_encode b -> a = b.
Proof.
  unfold hex_encode. revert b. induction a as [|x a IH]; intros [|y b]; [done..|]. cbn. intros [= H1 H2 H3].
  assert (Hx : forall z, 0 <= code z / 16 < 16 /\ 0 <= code z mod 16 < 16).
  { intros z. pose proof (code_range z).
    split; [split; [apply Z.div_pos; lia|apply Z.div_lt_upper_bound; lia]|apply Z.mod_pos_bound; lia]. }
  apply hex_lower_inj in H1; [|apply Hx..]. apply hex_lower_inj in H2; [|apply Hx..].
  f_equal; [|by apply IH]. apply code_inj.
  pose proof (Z.div_mod (code x) 16). pose proof (Z.div_mod (code y) 16). lia.
Qed.

(** C27: the verdict on a mirrored response: the comparison never panics,
    and nothing is reported exactly when the status codes are equal, neither body
    was cut at the cap, each header name has the same normalized values on both
    sides, in any order and with the same multiplicity, and the digests of
    the substituted bodies agree. *)
Theorem no_divergence `{!Sha256} p s ctx :
  valid_values (cap_headers p) -> valid_values (cap_headers s) ->
  exists out, diff_responses p s ctx = Some out /\
    (out = [] <->
     cap_status p = cap_status s /\ cap_truncated p = false /\ cap_truncated s = false /\
     (forall key, values_of key (cap_headers p) ≡ₚ values_of key (cap_headers s)) /\
     sha256 (substituted (cap_body p)) = sha256 (substituted (cap_body s))).
Proof.
  intros Hp Hs. destruct (header_values_match _ _ Hp Hs) as (ms & Em & Hm). setoid_rewrite <- Hm.
  unfold diff_responses. rewrite Em, !normalize_body_substituted. cbn [mbind option_bind].
  destruct (Z.eqb_spec (cap_status p) (cap_status s)) as [E|E], (cap_truncated p), (cap_truncated s);
    cbn [orb negb]; (eexists; split; [done|]); try (split; [done|intuition congruence]).
  destruct ms; [|split; [done|intuition congruence]]. cbn [is_empty negb app]. unfold bytes_eqb, sha256_hex.
  destruct (decide (sha256 (substituted (cap_body p)) = sha256 (substituted (cap_body s)))) as [Eh|Eh].
  - rewrite Eh, bool_decide_true by done. done.
  - rewrite bool_decide_false by (by intros ?%hex_encode_inj). split; [done|]. by intros (_ & _ & _ & _ & ?).
Qed.

Lemma diff_responses_some `{!Sha256} p s ctx :
  valid_values (cap_headers p) -> valid_values (cap_headers s) -> is_Some (diff_responses p s ctx).
Proof.
  intros Hp Hs. destruct (header_values_match _ _ Hp Hs) as (ms & Em & _).
  unfold diff_responses. rewrite Em, !normalize_body_substituted. cbn [mbind option_bind].
  destruct (_ || _); cbn [negb mbind option_bind]; eauto.
Qed.

(** A header name with different values on the two sides is reported. *)
Lemma diff_header_divergence `{!Sha256} p s ctx n :
  valid_values (cap_headers p) -> valid_values (cap_headers s) ->
  ~ (values_of n (cap_headers p) ≡ₚ values_of n (cap_headers s)) ->
  exists out, diff_responses p s ctx = Some out /\ Exists (fun d => field d = Headers) out.
Proof.
  intros Hp Hs Hn. destruct (header_values_match _ _ Hp Hs) as (ms & Em & Hm).
  unfold diff_responses. rewrite Em, !normalize_body_substituted. cbn [mbind option_bind].
  destruct ms as [|x ms]; [destruct Hn; by apply Hm|].
  destruct (_ || _); cbn [negb mbind option_bind is_empty]; (eexists; split; [done|]);
    rewrite !Exists_app; right; right; left; by left.
Qed.

(** A stand-in digest for concrete runs. *)
Definition toy_digest : Sha256 := fun s => [chr (foldl (fun a c => (a * 31 + code c) mod 251) 7 s)].

Lemma no_divergence_witness :
  let p := mkCaptured 200 [(B "Date", B "Tue, 09 Jun 2026 03:20:35 GMT"); (B "Set-Cookie", B "a"); (B "Set-Cookie", B "b")]
             (B "port SERVER_PORT=8081") false in
  let s := mkCaptured 200 [(B "set-cookie", B "b"); (B "set-cookie", B "a"); (B "date", B "Wed, 10 Jun 2026 04:20:35 GMT")]
             (B "port SERVER_PORT=80") false in
  valid_values (cap_headers p) /\ valid_values (cap_headers s) /\
  @diff_responses toy_digest p s (mkCtx (B "/") (B "GET") (B "id")) = Some [] /\
  exists out, @diff_responses toy_digest p s (mkCtx (B "/") (B "GET") (B "id")) = Some out.
Proof.
  cbv zeta.
  match goal with |- valid_values (cap_headers ?p) /\ valid_values (cap_headers ?s) /\ _ =>
    assert (Hp : valid_values (cap_headers p)) by (vm_compute; repeat constructor);
    assert (Hs : valid_values (cap_headers s)) by (vm_compute; repeat constructor);
    destruct (@no_divergence toy_digest p s (mkCtx (B "/") (B "GET") (B "id")) Hp Hs) as (out & Ho & _)
  end.
  split_and!; [exact Hp|exact Hs|vm_compute; reflexivity|exact (ex_intro _ out Ho)].
Defined.

(** ** Dates of the Rust server *)

Lemma digits_of (z : Z) : 0 <= z < 100 ->
  exists a b, pad_left "0"%char 2 (show_nonneg z) = [a; b] /\ is_ascii_digit a = true /\ is_ascii_digit b = true.
Proof.
  intros Hz. set (ok s := match s with [a; b] => is_ascii_digit a && is_ascii_digit b | _ => false end).
  assert (H : forallb (fun z => ok (pad_left "0"%char 2 (show_nonneg z))) (seqZ 0 100) = true) by (vm_compute; done).
  rewrite forallb_forall in H. specialize (H z ltac:(apply list_elem_of_In, elem_of_seqZ; lia)). unfold ok in H.
  destruct (pad_left _ _ _) as [|a [|b [|]]]; [done..| |done]. apply andb_true_iff in H. eauto.
Qed.

Lemma year_digits (y : Z) : 1970 <= y < 10000 ->
  exists a b c d, show_nonneg y = [a; b; c; d] /\ forallb is_ascii_digit [a; b; c; d] = true.
Proof.
  intros Hy. set (ok s := match s with [a; b; c; d] => forallb is_ascii_digit s | _ => false end).
  assert (H : forallb (fun y => ok (show_nonneg y)) (seqZ 1970 8030) = true) by (vm_compute; done).
  rewrite forallb_forall in H. specialize (H y ltac:(apply list_elem_of_In, elem_of_seqZ; lia)). unfold ok in H.
  destruct (show_nonneg y) as [|a [|b [|c [|d [|]]]]]; [done..| |done]. eauto 10.
Qed.

(** The dates that the Rust server prints, from 1970 to the end of the
    year 9999, are recognised as timestamps, so that two servers whose clocks
    differ do not diverge in Date and Last-Modified. *)
Theorem printed_dates_recognised ts name :
  0 <= ts < 253402300800 -> name ∈ TIMESTAMP_HEADERS ->
  is_timestamp (format_http_date ts) = true /\
  normalize_header_value name (format_http_date ts) = Some (B "<timestamp>").
Proof.
  intros Hts Hn. enough (H : is_timestamp (format_http_date ts) = true).
  { split; [done|]. unfold normalize_header_value. by rewrite bool_decide_true, H by done. }
  destruct (format_http_date_fields ts ltac:(lia)) as (y & mo & d & h & mi & s & -> & Hy & Hmo & Hd & Hh & Hmi & Hs & E).
  pose proof (days_in_month_le mo y).
  assert (y < 10000).
  { rewrite date_to_epoch_closed_form in E by lia.
    assert (0 <= days_before_month mo y).
    { destruct Hmo as [Hmo _]. clear - Hmo. revert mo Hmo. apply natlike_ind; [done|]. intros m Hm IH.
      rewrite <- Z.add_1_r, days_before_month_succ by done. unfold days_in_month. repeat case_match; lia. }
    destruct (Z_lt_le_dec y 10000) as [|Hy']; [done|]. exfalso.
    pose proof (Z.div_mod (y - 1) 4). pose proof (Z.mod_pos_bound (y - 1) 4).
    pose proof (Z.div_mod (y - 1) 100). pose proof (Z.mod_pos_bound (y - 1) 100).
    pose proof (Z.div_mod (y - 1) 400). pose proof (Z.mod_pos_bound (y - 1) 400).
    destruct (Z.eq_dec y 10000) as [->|]; [cbn in E; lia|lia]. }
  pose proof (weekday_name ts) as Hw. revert Hw. generalize (unwrap_or [] (day_names !! weekday_index ts)). intros wd Hw.
  destruct (digits_of d ltac:(lia)) as (d1 & d2 & Ed & Hd1 & Hd2).
  destruct (digits_of h ltac:(lia)) as (h1 & h2 & Eh & Hh1 & Hh2).
  destruct (digits_of mi ltac:(lia)) as (m1 & m2 & Em & Hm1 & Hm2).
  destruct (digits_of s ltac:(lia)) as (s1 & s2 & Es & Hs1 & Hs2).
  destruct (year_digits y ltac:(lia)) as (y1 & y2 & y3 & y4 & Ey & Hyd).
  unfold rfc1123_words. rewrite Ed, Eh, Em, Es, Ey. cbn [forallb] in Hyd. rewrite !andb_true_iff in Hyd.
  destruct Hyd as (Hy1 & Hy2 & Hy3 & Hy4 & _).
  assert (Hmn : exists c1 c2 c3, unwrap_or [] (month_names !! Z.to_nat mo) = [c1; c2; c3] /\
             is_ascii_upper c1 = true /\ is_ascii_lower c2 = true /\ is_ascii_lower c3 = true).
  { pattern mo. apply month_case; [exact Hmo|..]; eexists _, _, _; split; (reflexivity || split_and!; reflexivity). }
  destruct Hmn as (c1 & c2 & c3 & -> & Hc1 & Hc2 & Hc3).
  assert (Hwn : exists w1 w2 w3, wd = [w1; w2; w3] /\
             is_ascii_upper w1 = true /\ is_ascii_lower w2 = true /\ is_ascii_lower w3 = true).
  { unfold day_names in Hw. repeat (apply elem_of_cons in Hw as [->|Hw]; [eexists _, _, _; split; (reflexivity || split_and!; reflexivity)|]).
    by apply not_elem_of_nil in Hw. }
  destruct Hwn as (w1 & w2 & w3 & -> & Hw1 & Hw2 & Hw3).
  unfold is_timestamp. cbn -[is_ascii_digit is_ascii_upper is_ascii_lower].
  by rewrite Hd1, Hd2, Hh1, Hh2, Hm1, Hm2, Hs1, Hs2, Hy1, Hy2, Hy3, Hy4, Hc1, Hc2, Hc3, Hw1, Hw2, Hw3.
Qed.

Lemma printed_dates_recognised_witness :
  is_timestamp (format_http_date 784111777) = true /\
  normalize_header_value (B "date") (format_http_date 784111777) = Some (B "<timestamp>").
Proof. apply (printed_dates_recognised 784111777); [lia|]. apply elem_of_cons. by left. Defined.
