(* ===== verification/Forwarder.v ===== *)
(** * Forwarding of requests (rust/crates/thttpd-migrate/src/forwarder.rs and
      the capped reader of shadow.rs)

    Header maps, header names and header values are those of the `http` crate:
    the class [HeaderMap] states what the code relies on.  A body is the
    sequence of frames its stream yields; reading it ends at an error.  [None]
    is a panic. *)

From S2P Require Import Prelude RustStr.

(** ** Header maps *)

(** [get_all]: the values of a name, in order. *)
Definition values_in (n : bytes) (l : list (bytes * bytes)) : list bytes :=
  omap (fun h : bytes * bytes => if bool_decide (h.1 = n) then Some h.2 else None) l.

Definition name_byte (c : byte) : bool :=
  is_ascii_upper c || is_ascii_lower c || is_ascii_digit c || (c =c? "-"%char).

Class HeaderMap := {
  hmap : Type;
  hm_empty : hmap;
  (** [iter()]: each name once per value *)
  hm_iter : hmap -> list (bytes * bytes);
  hm_append : bytes -> bytes -> hmap -> hmap;
  hm_insert : bytes -> bytes -> hmap -> hmap;
  hm_remove : bytes -> hmap -> hmap;
  (** [HeaderName::from_str], [HeaderValue::from_str], [HeaderValue::to_str] *)
  parse_name : bytes -> option bytes;
  parse_value : bytes -> option bytes;
  to_str : bytes -> option bytes;

  iter_empty : hm_iter hm_empty = [];
  iter_append : forall n k v m, parse_name k = Some k ->
    values_in n (hm_iter (hm_append k v m)) =
    values_in n (hm_iter m) ++ (if bool_decide (n = k) then [v] else []);
  iter_insert : forall n k v m, parse_name k = Some k ->
    values_in n (hm_iter (hm_insert k v m)) = if bool_decide (n = k) then [v] else values_in n (hm_iter m);
  iter_remove : forall n k m,
    values_in n (hm_iter (hm_remove k m)) = if bool_decide (n = k) then [] else values_in n (hm_iter m);
  iter_names : forall m n v, (n, v) ∈ hm_iter m -> parse_name n = Some n;
  (** parsing a name puts it in lower case; letters, digits and hyphens parse *)
  parse_name_lower : forall t n, parse_name t = Some n -> n = ascii_lower <$> t;
  parse_name_again : forall t n, parse_name t = Some n -> parse_name n = Some n;
  parse_name_plain : forall t, t <> [] -> forallb name_byte t = true -> parse_name t = Some (ascii_lower <$> t);
  (** a value that is text is its own text, and text parses back *)
  to_str_text : forall v s, to_str v = Some s -> s = v /\ parse_value s = Some v /\ valid_utf8 s = true;
  parse_value_empty : parse_value [] = Some [];
}.

Section Headers.
Context {HM : HeaderMap}.

Definition get_all (n : bytes) (m : hmap) : list bytes := values_in n (hm_iter m).

Definition contains_key (n : bytes) (m : hmap) : bool := negb (is_empty (get_all n m)).

Definition HOP_BY_HOP : list bytes :=
  [B "connection"; B "keep-alive"; B "proxy-authenticate"; B "proxy-authorization"; B "te"; B "trailer";
   B "transfer-encoding"; B "upgrade"].

Definition is_hop_by_hop (name : bytes) : bool := existsb (fun h => eq_ignore_ascii_case h name) HOP_BY_HOP.

(** [value.to_str().unwrap_or_default()]. *)
Definition text_or_empty (v : bytes) : bytes := unwrap_or [] (to_str v).

(** The names listed in the Connection fields. *)
Definition connection_tokens (m : hmap) : list bytes :=
  filter (fun t => t <> [])
    (concat (map (fun s => map (fun t => ascii_lower <$> trim t) (split_on ","%char s))
               (omap to_str (get_all (B "connection") m)))).

Definition forwarded_headers (m : hmap) : list (bytes * bytes) :=
  let tokens := connection_tokens m in
  map (fun h => (h.1, text_or_empty h.2))
    (filter (fun h : bytes * bytes =>
               negb (is_hop_by_hop h.1) && negb (bool_decide ((ascii_lower <$> h.1) ∈ tokens)) = true) (hm_iter m)).

Definition strip_hop_by_hop (m : hmap) : hmap :=
  let listed := filter (fun n => contains_key n m = true) (omap parse_name (connection_tokens m)) in
  let m := foldl (fun m n => hm_remove n m) m listed in
  let to_remove := filter (fun n => is_hop_by_hop n = true) (hm_iter m).*1 in
  foldl (fun m n => hm_remove n m) m to_remove.

(** ** Requests *)

Record Uri := mkUri { path : bytes; path_and_query : option bytes }.

(** [Bd] is the type of the body. *)
Record Request {Bd : Type} := mkRequest {
  method : bytes;
  target : bytes;
  req_headers : hmap;
  req_body : Bd;
}.
#[global] Arguments Request : clear implicits.

(** [format!(..).parse::<Uri>()] succeeds. *)
Context (uri_ok : bytes -> bool).

(** [builder.header(k, v)]: a name or value that does not parse makes
    [body(..)] fail. *)
Definition add_header (m : option hmap) (h : bytes * bytes) : option hmap :=
  m ← m; k ← parse_name h.1; v ← parse_value h.2; Some (hm_append k v m).

Definition rebuild_for_backend_streaming {Bd} (original_uri : Uri) (mth : bytes) (headers : list (bytes * bytes))
    (body : Bd) (backend_addr : bytes) : option (Request Bd) :=
  let uri := B "http://" ++ backend_addr ++ unwrap_or (B "/") (path_and_query original_uri) in
  if negb (uri_ok uri) then None
  else
    let kept := filter (fun h : bytes * bytes => is_hop_by_hop h.1 = false) headers in
    let had_host := existsb (fun h : bytes * bytes => eq_ignore_ascii_case h.1 (B "host")) kept in
    hs ← foldl add_header (Some hm_empty) (kept ++ (if had_host then [] else [(B "host", backend_addr)]));
    Some (mkRequest Bd mth uri hs body).
End Headers.

(** ** Bodies *)

Inductive Frame := Data (d : bytes) | Trailers (t : list (bytes * bytes)).

(** What a stream yields until it ends; [None] is an error. *)
Abbreviation stream := (list (option Frame)).

(** The data of a stream. *)
Definition data_of (s : stream) : bytes :=
  concat (map (fun f => match f with Some (Data d) => d | _ => [] end) s).

Definition reads_ok (s : stream) : Prop := Forall (fun f => f <> None) s.

Record ChainedBody := mkChained { chunks : list bytes; rest : option stream }.

Definition chained_new (cs : list bytes) (r : option stream) : ChainedBody :=
  mkChained (filter (fun c => c <> []) cs) r.

(** [None] ends the stream. *)
Definition poll_frame (b : ChainedBody) : option (option Frame) * ChainedBody :=
  match chunks b with
  | c :: cs => (Some (Some (Data c)), mkChained cs (rest b))
  | [] =>
      match rest b with
      | Some (f :: r) => (Some f, mkChained [] (Some r))
      | Some [] | None => (None, b)
      end
  end.

(** Polling until the end. *)
Fixpoint drain_body (n : nat) (b : ChainedBody) : stream :=
  match n with
  | O => []
  | S n' => match poll_frame b with
            | (Some f, b') => f :: drain_body n' b'
            | (None, _) => []
            end
  end.

Definition frames_left (b : ChainedBody) : nat :=
  S (length (chunks b) + match rest b with Some r => length r | None => 0 end).

Definition body_stream (b : ChainedBody) : stream := drain_body (frames_left b) b.

(** A [Full] body: one data frame, none when it is empty. *)
Definition full_body (d : bytes) : stream := if is_empty d then [] else [Some (Data d)].

(** [read_capped]: the buffered prefix, the rest of the frame that crossed
    the cap, whether it was crossed, and the unread stream; [None] is a read
    error. *)
Fixpoint read_capped_loop (buf : bytes) (max_bytes : nat) (body : stream) :
    option (bytes * option bytes * bool * stream) :=
  match body with
  | [] => Some (buf, None, false, [])
  | None :: _ => None
  | Some (Trailers _) :: body' => read_capped_loop buf max_bytes body'
  | Some (Data d) :: body' =>
      if length buf + length d <=? max_bytes then read_capped_loop (buf ++ d) max_bytes body'
      else
        let remaining := max_bytes - length buf in
        Some (buf ++ take remaining d, Some (drop remaining d), true, body')
  end.

Definition read_capped (body : stream) (max_bytes : nat) : option (bytes * option bytes * bool * stream) :=
  read_capped_loop [] max_bytes body.

(** The full body rebuilt from what [read_capped] returned. *)
Definition rebuilt_body (prefix : bytes) (tail : option bytes) (truncated : bool) (remainder : stream) : stream :=
  if truncated then body_stream (chained_new [prefix; unwrap_or [] tail] (Some remainder))
  else full_body prefix.

(** ** Headers: lemmas *)

Lemma values_in_app n l1 l2 : values_in n (l1 ++ l2) = values_in n l1 ++ values_in n l2.
Proof. apply omap_app. Qed.

Lemma values_in_elem n v l : v ∈ values_in n l <-> (n, v) ∈ l.
Proof.
  unfold values_in. rewrite list_elem_of_omap. split.
  - intros ([k w] & Hin & H). cbn in H. destruct (decide (k = n)) as [->|]; [|by rewrite bool_decide_false in H].
    rewrite bool_decide_true in H by done. by injection H as ->.
  - intros H. exists (n, v). cbn. by rewrite bool_decide_true.
Qed.

Lemma values_in_nil n l : values_in n l = [] <-> n ∉ l.*1.
Proof.
  split.
  - intros E ([k v] & -> & Hin)%list_elem_of_fmap. apply values_in_elem in Hin. cbn in E. rewrite E in Hin.
    by apply not_elem_of_nil in Hin.
  - intros H. destruct (values_in n l) as [|v vs] eqn:E; [done|]. destruct H. apply list_elem_of_fmap.
    exists (n, v). split; [done|]. apply values_in_elem. rewrite E. by left.
Qed.

(** Keeping the pairs whose name passes a test. *)
Lemma values_in_filter n (p : bytes -> bool) l :
  values_in n (filter (fun h : bytes * bytes => p h.1 = true) l) = if p n then values_in n l else [].
Proof.
  unfold values_in. induction l as [|[k v] l IH]; [by destruct (p n)|].
  destruct (p k) eqn:Ek.
  - rewrite filter_cons_True by done. cbn [omap list_omap fst snd]. destruct (decide (k = n)) as [->|].
    + rewrite !bool_decide_true by done. rewrite IH, Ek. done.
    + rewrite !bool_decide_false by done. apply IH.
  - rewrite filter_cons_False by (cbn; congruence). rewrite IH. destruct (p n) eqn:En; [|done].
    cbn [omap list_omap fst snd]. by rewrite bool_decide_false by congruence.
Qed.

Lemma values_in_map n (f : bytes -> bytes) l :
  values_in n (map (fun h : bytes * bytes => (h.1, f h.2)) l) = map f (values_in n l).
Proof.
  unfold values_in. induction l as [|[k v] l IH]; [done|]. cbn [omap list_omap map fst snd].
  destruct (bool_decide (k = n)); [|done]. cbn [map]. by rewrite IH.
Qed.

Lemma filter_ext_in {A} (f g : A -> bool) (l : list A) :
  (forall x, x ∈ l -> f x = g x) -> filter (fun x => f x = true) l = filter (fun x => g x = true) l.
Proof.
  induction l as [|x l IH]; intros H; [done|]. rewrite !filter_cons, (H x) by by left.
  rewrite IH; [done|]. intros y Hy. apply H. by right.
Qed.

Lemma filter_ext_in' {A} (f : A -> bool) (l : list A) :
  filter (fun x => f x = false) l = filter (fun x => negb (f x) = true) l.
Proof. apply list_filter_iff. intros x. by destruct (f x). Qed.

Lemma filter_all_in {A} (P : A -> Prop) {Hdec : forall x, Decision (P x)} (l : list A) :
  (forall x, x ∈ l -> P x) -> filter P l = l.
Proof.
  induction l as [|x l IH]; intros H; [done|]. rewrite filter_cons_True by (apply H; by left).
  f_equal. apply IH. intros y Hy. apply H. by right.
Qed.

(** A test for a lower-case name among lower-case names. *)
Lemma existsb_values (n : bytes) (l : list (bytes * bytes)) :
  (ascii_lower <$> n) = n -> Forall (fun h : bytes * bytes => (ascii_lower <$> h.1) = h.1) l ->
  existsb (fun h : bytes * bytes => eq_ignore_ascii_case h.1 n) l = negb (is_empty (values_in n l)).
Proof.
  intros Hn H. induction H as [|[k v] l Hk _ IH]; [done|]. cbn [existsb fst] in *.
  unfold eq_ignore_ascii_case at 1, bytes_eqb. rewrite Hk, Hn. unfold values_in. cbn [omap list_omap fst snd].
  destruct (decide (k = n)) as [->|]; [by rewrite !bool_decide_true|]. rewrite !bool_decide_false by done. apply IH.
Qed.

Lemma ascii_lower_idem (s : bytes) : ascii_lower <$> (ascii_lower <$> s) = ascii_lower <$> s.
Proof.
  rewrite <- list_fmap_compose. apply list_fmap_ext. intros _ c _. cbn. unfold ascii_lower.
  destruct (is_ascii_upper c) eqn:E; [|by rewrite E]. unfold is_ascii_upper in *.
  rewrite andb_true_iff, !Z.leb_le in E. rewrite code_chr by lia.
  by rewrite (proj2 (Z.leb_gt _ 90)), andb_false_r by lia.
Qed.

Section HeaderLemmas.
Context {HM : HeaderMap}.

Lemma name_lower m n v : (n, v) ∈ hm_iter m -> (ascii_lower <$> n) = n.
Proof. intros H%iter_names%parse_name_lower. done. Qed.

Lemma get_all_removed n l m :
  get_all n (foldl (fun m k => hm_remove k m) m l) = if bool_decide (n ∈ l) then [] else get_all n m.
Proof.
  revert m. induction l as [|k l IH]; intros m; [done|]. cbn [foldl]. rewrite IH. unfold get_all.
  rewrite iter_remove. destruct (decide (n ∈ l)) as [Hl|Hl].
  - rewrite !bool_decide_true by (done || by right). done.
  - rewrite (bool_decide_false _ Hl). destruct (decide (n = k)) as [->|Hk].
    + rewrite !bool_decide_true by (done || by left). done.
    + rewrite !bool_decide_false; [done|by intros [?|?]%elem_of_cons|done].
Qed.

Lemma token_lower m t : t ∈ connection_tokens m -> (ascii_lower <$> t) = t.
Proof.
  unfold connection_tokens. intros [_ H]%list_elem_of_filter.
  apply list_elem_of_In, in_concat in H as (l & H1 & H2). apply in_map_iff in H1 as (s & <- & _).
  apply in_map_iff in H2 as (x & <- & _). apply ascii_lower_idem.
Qed.

(** Which headers are of one hop only: the fixed ones and those the
    Connection field names. *)
Definition per_hop (n : bytes) (m : hmap) : bool := is_hop_by_hop n || bool_decide (n ∈ connection_tokens m).

Lemma strip_hop_by_hop_values n m :
  get_all n (strip_hop_by_hop m) = if per_hop n m then [] else get_all n m.
Proof.
  unfold strip_hop_by_hop, per_hop. set (listed := filter _ (omap parse_name _)).
  set (m' := foldl _ m listed).
  assert (Hm' : get_all n m' = if bool_decide (n ∈ connection_tokens m) then [] else get_all n m).
  { unfold m'. rewrite get_all_removed. destruct (decide (n ∈ listed)) as [Hl|Hl].
    - rewrite bool_decide_true by done. unfold listed in Hl. apply list_elem_of_filter in Hl as [_ Hl].
      apply list_elem_of_omap in Hl as (t & Ht & E). apply parse_name_lower in E. rewrite (token_lower m) in E by done.
      subst t. by rewrite bool_decide_true.
    - rewrite (bool_decide_false _ Hl). destruct (decide (n ∈ connection_tokens m)) as [Ht|Ht];
        [rewrite bool_decide_true by done|by rewrite bool_decide_false].
      destruct (get_all n m) as [|v vs] eqn:E; [done|]. destruct Hl. unfold listed. apply list_elem_of_filter.
      unfold contains_key. rewrite E. split; [done|]. apply list_elem_of_omap. exists n. split; [done|].
      apply (iter_names m n v). apply values_in_elem. unfold get_all in E. rewrite E. by left. }
  rewrite get_all_removed. destruct (is_hop_by_hop n) eqn:Eh; cbn [orb].
  - destruct (get_all n m') as [|v vs] eqn:E; [by case (bool_decide _)|]. rewrite bool_decide_true; [done|].
    apply list_elem_of_filter. split; [done|]. destruct (decide (n ∈ (hm_iter m').*1)) as [|Hn]; [done|].
    apply values_in_nil in Hn. unfold get_all in E. congruence.
  - rewrite bool_decide_false; [done|]. intros [H _]%list_elem_of_filter. congruence.
Qed.

Lemma forwarded_values n m :
  values_in n (forwarded_headers m) = if per_hop n m then [] else map text_or_empty (get_all n m).
Proof.
  unfold forwarded_headers. rewrite values_in_map.
  assert (E : filter (fun h : bytes * bytes =>
      negb (is_hop_by_hop h.1) && negb (bool_decide ((ascii_lower <$> h.1) ∈ connection_tokens m)) = true) (hm_iter m) =
    filter (fun h : bytes * bytes => negb (per_hop h.1 m) = true) (hm_iter m)).
  { apply (filter_ext_in (fun h : bytes * bytes =>
      negb (is_hop_by_hop h.1) && negb (bool_decide ((ascii_lower <$> h.1) ∈ connection_tokens m)))
      (fun h => negb (per_hop h.1 m))).
    intros [k v] Hin. cbn [fst]. rewrite (name_lower m k v) by done.
    unfold per_hop. by rewrite negb_orb. }
  rewrite E, (values_in_filter n (fun k => negb (per_hop k m))). by destruct (per_hop n m).
Qed.

(** A header list that survives the builder. *)
Definition sendable (h : bytes * bytes) : Prop := parse_name h.1 = Some h.1 /\ parse_value h.2 = Some h.2.

Lemma add_headers l m : Forall sendable l ->
  exists m', foldl add_header (Some m) l = Some m' /\ forall n, get_all n m' = get_all n m ++ values_in n l.
Proof.
  intros H. revert m. induction H as [|[k v] l [Hk Hv] _ IH]; intros m.
  - exists m. split; [done|]. intros n. by rewrite app_nil_r.
  - cbn [foldl add_header mbind option_bind fst snd]. cbn [fst snd] in Hk, Hv. rewrite Hk, Hv. cbn [mbind option_bind].
    destruct (IH (hm_append k v m)) as (m' & -> & Hm'). exists m'. split; [done|]. intros n. rewrite Hm'.
    unfold get_all. rewrite iter_append, <- app_assoc by done. f_equal. unfold values_in. cbn [omap list_omap fst snd].
    destruct (decide (n = k)) as [->|]; [by rewrite !bool_decide_true|]. by rewrite !bool_decide_false.
Qed.

Lemma text_or_empty_parses v : parse_value (text_or_empty v) = Some (text_or_empty v).
Proof.
  unfold text_or_empty. destruct (to_str v) as [s|] eqn:E; cbn; [|apply parse_value_empty].
  by destruct (to_str_text v s E) as (-> & ? & _).
Qed.

Lemma text_or_empty_valid v : valid_utf8 (text_or_empty v) = true.
Proof.
  unfold text_or_empty. destruct (to_str v) as [s|] eqn:E; [|done]. cbn. by destruct (to_str_text v s E) as (_ & _ & ?).
Qed.

Lemma get_all_empty n : get_all n hm_empty = [].
Proof. unfold get_all. by rewrite iter_empty. Qed.

Lemma forwarded_sendable m : Forall sendable (forwarded_headers m).
Proof.
  apply Forall_forall. intros h (h0 & -> & Hin)%list_elem_of_fmap. destruct h0 as [k v].
  apply list_elem_of_filter in Hin as [_ Hin]. split; cbn; [by apply (iter_names m k v)|apply text_or_empty_parses].
Qed.
End HeaderLemmas.

(** ** Bodies: lemmas *)

Lemma drain_chained cs r n :
  length cs + length r < n -> drain_body n (mkChained cs (Some r)) = map (fun c => Some (Data c)) cs ++ r.
Proof.
  revert cs r. induction n as [|n IH]; intros cs r Hn; [lia|].
  destruct cs as [|c cs]; cbn [length] in Hn.
  - destruct r as [|f r]; [done|]. cbn [length] in Hn. cbn [drain_body poll_frame chunks rest].
    rewrite (IH [] r) by (cbn [length]; lia). done.
  - cbn [drain_body poll_frame chunks rest]. rewrite (IH cs r) by lia. done.
Qed.

(** Draining a chained body yields its chunks and then the rest. *)
Lemma body_stream_chained cs r :
  body_stream (chained_new cs (Some r)) = map (fun c => Some (Data c)) (filter (fun c => c <> []) cs) ++ r.
Proof. apply drain_chained. unfold frames_left, chained_new. cbn [chunks rest]. lia. Qed.

Lemma data_of_app s t : data_of (s ++ t) = data_of s ++ data_of t.
Proof. unfold data_of. by rewrite map_app, concat_app. Qed.

Lemma data_of_chunks cs : data_of (map (fun c => Some (Data c)) (filter (fun c => c <> []) cs)) = concat cs.
Proof.
  induction cs as [|c cs IH]; [done|]. destruct (decide (c = [])) as [->|Hc].
  - rewrite filter_cons_False by auto. apply IH.
  - rewrite filter_cons_True by done. unfold data_of in *. cbn. by rewrite IH.
Qed.

Lemma data_of_full d : data_of (full_body d) = d.
Proof. destruct d; [done|]. unfold data_of, full_body. cbn. by rewrite app_nil_r. Qed.

Lemma data_of_rebuilt prefix tail truncated remainder :
  (truncated = false -> tail = None /\ remainder = []) ->
  data_of (rebuilt_body prefix tail truncated remainder) = prefix ++ unwrap_or [] tail ++ data_of remainder.
Proof.
  intros H. unfold rebuilt_body. destruct truncated.
  - rewrite body_stream_chained, data_of_app, data_of_chunks. cbn. by rewrite app_nil_r, <- app_assoc.
  - destruct H as [-> ->]; [done|]. rewrite data_of_full. cbn. by rewrite app_nil_r.
Qed.

Lemma read_capped_loop_spec buf cap body prefix tail truncated remainder :
  read_capped_loop buf cap body = Some (prefix, tail, truncated, remainder) -> length buf <= cap ->
  prefix ++ unwrap_or [] tail ++ data_of remainder = buf ++ data_of body /\
  length prefix <= cap /\ (truncated = true -> length prefix = cap /\ unwrap_or [] tail <> []) /\
  (truncated = false -> tail = None /\ remainder = []).
Proof.
  revert buf. induction body as [|[[d|t]|] body IH]; intros buf; cbn [read_capped_loop]; [| | |done].
  - intros [= <- <- <- <-] Hb. cbn. by rewrite !app_nil_r.
  - destruct (Nat.leb_spec (length buf + length d) cap) as [Hle|Hgt].
    + intros H Hb. destruct (IH _ H) as (E & ?); [rewrite length_app; lia|].
      split; [|done]. rewrite E. unfold data_of. cbn. by rewrite app_assoc.
    + intros [= <- <- <- <-] Hb. cbn [unwrap_or]. split_and!; [|rewrite length_app, length_take; lia| |done].
      * unfold data_of. cbn [map concat]. rewrite <- app_assoc. f_equal. rewrite app_assoc. f_equal. apply take_drop.
      * intros _. rewrite length_app, length_take. split; [lia|]. intros E.
        apply (f_equal length) in E. rewrite length_drop in E. cbn in E. lia.
  - intros H Hb. destruct (IH _ H Hb) as (E & ?). split; [|done]. rewrite E. done.
Qed.

Lemma read_capped_loop_ok buf cap body : reads_ok body -> is_Some (read_capped_loop buf cap body).
Proof.
  intros H. revert buf. induction H as [|f body Hf _ IH]; intros buf; [eauto|].
  destruct f as [[d|t]|]; [|apply IH|done]. cbn. destruct (_ <=? _); eauto.
Qed.

Lemma read_capped_ok body cap :
  reads_ok body ->
  exists prefix tail truncated remainder,
    read_capped body cap = Some (prefix, tail, truncated, remainder) /\
    prefix = take cap (data_of body) /\
    data_of (rebuilt_body prefix tail truncated remainder) = data_of body /\
    (truncated = true <-> cap < length (data_of body)).
Proof.
  intros H. destruct (read_capped_loop_ok [] cap body H) as [[[[prefix tail] truncated] remainder] E].
  exists prefix, tail, truncated, remainder. split; [done|].
  destruct (read_capped_loop_spec _ _ _ _ _ _ _ E) as (Ed & Hl & Ht & Hf); [cbn; lia|]. cbn [app] in Ed.
  rewrite data_of_rebuilt by done. rewrite Ed, <- Ed. split_and!; [|done|].
  - destruct truncated.
    + destruct (Ht eq_refl) as [<- _]. by rewrite take_app_length.
    + destruct (Hf eq_refl) as [-> ->]. cbn [unwrap_or app data_of map concat]. by rewrite app_nil_r, take_ge.
  - rewrite !length_app. destruct truncated.
    + destruct (Ht eq_refl) as [-> Hn]. split; [|done]. intros _. destruct (unwrap_or [] tail); [done|cbn; lia].
    + destruct (Hf eq_refl) as [-> ->]. cbn. split; [done|lia].
Qed.

(** C26: the capped reader: on a body without read errors it returns the
    first [cap] bytes, says that the body was cut exactly when it is longer, and
    prefix, tail and unread stream rebuild a body with all the data of the
    original one, which is what the primary backend and the client are sent. *)
Theorem capped_copy_is_lossless body cap :
  reads_ok body ->
  exists prefix tail truncated remainder,
    read_capped body cap = Some (prefix, tail, truncated, remainder) /\
    prefix = take cap (data_of body) /\
    (truncated = true <-> cap < length (data_of body)) /\
    data_of (rebuilt_body prefix tail truncated remainder) = data_of body.
Proof.
  intros H. destruct (read_capped_ok body cap H) as (a & b & c & d & H1 & H2 & H3 & H4). eauto 10.
Qed.

Lemma capped_copy_is_lossless_witness :
  let body := [Some (Data (B "hello ")); Some (Data (B "world")); Some (Data (B "!"))] in
  reads_ok body /\
  exists prefix tail truncated remainder,
    read_capped body 8 = Some (prefix, tail, truncated, remainder) /\
    prefix = take 8 (data_of body) /\ (truncated = true <-> 8 < length (data_of body)) /\
    data_of (rebuilt_body prefix tail truncated remainder) = data_of body.
Proof.
  cbv zeta. split; [by repeat constructor|].
  apply (capped_copy_is_lossless [Some (Data (B "hello ")); Some (Data (B "world")); Some (Data (B "!"))] 8).
  by repeat constructor.
Defined.

(** Trailers that come before the cap are dropped. *)
Example trailers_dropped :
  let body := [Some (Data (B "x")); Some (Trailers [(B "grpc-status", B "0")])] in
  exists prefix tail truncated remainder,
    read_capped body 8 = Some (prefix, tail, truncated, remainder) /\
    rebuilt_body prefix tail truncated remainder = [Some (Data (B "x"))].
Proof. by eexists _, _, _, _. Qed.

(** ** An instance: association lists *)

Module Assoc.
Definition name_ok (n : bytes) : bool := negb (is_empty n) && forallb name_byte n && bytes_eqb (ascii_lower <$> n) n.

Definition visible (c : byte) : bool := ((32 <=? code c) && (code c <? 127) || (code c =? 9))%Z.

Definition t : Type := { l : list (bytes * bytes) | forallb (fun h => name_ok h.1) l = true }.

Definition name_of (s : bytes) : option bytes :=
  if negb (is_empty s) && forallb name_byte s then Some (ascii_lower <$> s) else None.

Definition value_of (v : bytes) : option bytes := if forallb visible v then Some v else None.

Lemma without_ok (k : bytes) (m : t) :
  forallb (fun h => name_ok h.1) (filter (fun h : bytes * bytes => h.1 <> k) (proj1_sig m)) = true.
Proof.
  destruct m as [l H]. cbn. rewrite forallb_forall in *. intros h Hh. apply H.
  apply list_elem_of_In in Hh. apply list_elem_of_In. by apply list_elem_of_filter in Hh as [_ ?].
Qed.

Definition without (k : bytes) (m : t) : t := exist _ _ (without_ok k m).

Lemma snoc_ok k v (m : t) : name_ok k = true -> forallb (fun h => name_ok h.1) (proj1_sig m ++ [(k, v)]) = true.
Proof. intros H. rewrite forallb_app, (proj2_sig m). cbn. by rewrite H. Qed.

Definition add (k v : bytes) (m : t) : t :=
  match Bool.bool_dec (name_ok k) true with
  | left H => exist _ _ (snoc_ok k v m H)
  | right _ => m
  end.

Lemma lower_name_byte c : name_byte c = true -> name_byte (ascii_lower c) = true.
Proof. destruct c as [[] [] [] [] [] [] [] []]; vm_compute; auto. Qed.

Lemma name_of_ok s n : name_of s = Some n -> name_ok n = true /\ n = ascii_lower <$> s.
Proof.
  unfold name_of. destruct (_ && _) eqn:E; [|done]. intros [= <-]. split; [|done].
  apply andb_true_iff in E as [E1 E2]. unfold name_ok. rewrite ascii_lower_idem. unfold bytes_eqb.
  rewrite bool_decide_true by done. rewrite andb_true_r. apply andb_true_iff. split; [by destruct s|].
  rewrite forallb_forall in *. intros c Hc. apply list_elem_of_In, list_elem_of_fmap in Hc as (d & -> & Hd).
  apply lower_name_byte, E2. by apply list_elem_of_In.
Qed.

Lemma ok_name_of n : name_ok n = true -> name_of n = Some n.
Proof.
  unfold name_ok, name_of, bytes_eqb. rewrite !andb_true_iff. intros [[-> ->] H]. apply bool_decide_eq_true_1 in H.
  cbn. by rewrite H.
Qed.

Lemma values_in_without n k (l : list (bytes * bytes)) :
  values_in n (filter (fun h : bytes * bytes => h.1 <> k) l) = if bool_decide (n = k) then [] else values_in n l.
Proof.
  pose proof (values_in_filter n (fun x => negb (bool_decide (x = k))) l) as H.
  rewrite (list_filter_iff _ (fun h : bytes * bytes => negb (bool_decide (h.1 = k)) = true)).
  - rewrite H. by destruct (bool_decide (n = k)).
  - intros h. rewrite negb_true_iff, bool_decide_eq_false. done.
Qed.

Lemma add_values n k v m : name_of k = Some k ->
  values_in n (proj1_sig (add k v m)) = values_in n (proj1_sig m) ++ (if bool_decide (n = k) then [v] else []).
Proof.
  intros [H _]%name_of_ok. unfold add. destruct (Bool.bool_dec _ _); [|done]. cbn [proj1_sig].
  rewrite values_in_app. f_equal. unfold values_in. cbn. destruct (decide (n = k)) as [->|].
  - by rewrite !bool_decide_true.
  - by rewrite !bool_decide_false by congruence.
Qed.

Definition headers : HeaderMap.
Proof.
  refine {| hmap := t; hm_empty := exist _ [] eq_refl; hm_iter m := proj1_sig m;
            hm_append := add; hm_insert k v m := add k v (without k m); hm_remove := without;
            parse_name := name_of; parse_value := value_of; to_str := value_of |}.
  - done.
  - intros. by apply add_values.
  - intros n k v m H. rewrite add_values by done. cbn [proj1_sig without]. rewrite values_in_without.
    by destruct (bool_decide (n = k)); rewrite ?app_nil_r.
  - intros. apply values_in_without.
  - intros m n v Hin. apply ok_name_of. pose proof (proj2_sig m) as Hm. cbn beta in Hm. rewrite forallb_forall in Hm.
    apply (Hm (n, v)). by apply list_elem_of_In.
  - by intros s n [_ ?]%name_of_ok.
  - intros s n [H _]%name_of_ok. by apply ok_name_of.
  - intros s Hs H. unfold name_of. rewrite H. by destruct s.
  - intros v s. unfold value_of. destruct (forallb visible v) eqn:E; [|done]. intros [= <-]. rewrite E. split_and!; [done..|].
    apply valid_utf8_ascii, Forall_forall. intros c Hc. rewrite forallb_forall in E. apply list_elem_of_In, E in Hc.
    unfold visible in Hc. apply orb_true_iff in Hc as [Hc|Hc]; [apply andb_true_iff in Hc as [_ Hc]|]; lia.
  - done.
Defined.

Definition of_list (l : list (bytes * bytes)) : t := foldl (fun m h => add h.1 h.2 m) (exist _ [] eq_refl) l.
End Assoc.
