(* ===== verification/Proxy.v ===== *)
(** * Request handling of the proxy (rust/crates/thttpd-migrate/src/server.rs and
      the dispatcher of shadow.rs)

    A request is handled in two steps around the wait for the backend: up to
    sending the request ([handle_begin], [primary_request], ...), and from the
    answer on ([handle_finish], [handle_shadow_finish], [shadow_finish]); each
    access to the pool happens at one reading of the clock.  The answer of the
    HTTP client, the random numbers and the fresh request id are inputs.  A
    decision refers to its backends by name: [live] reads them when the code
    does.  [None] is a panic, which ends the task. *)

From S2P Require Import Prelude RustStr Breaker Backend Router Diff Forwarder.

(** [p.strip_suffix('*')]. *)
Definition strip_star (p : bytes) : option bytes :=
  match last p with
  | Some c => if c =c? "*"%char then Some (take (length p - 1) p) else None
  | None => None
  end.

Definition is_excluded (path : bytes) (patterns : list bytes) : bool :=
  existsb (fun p => match strip_star p with
                    | Some prefix => starts_with prefix path
                    | None => bytes_eqb path p
                    end) patterns.

(** ** Metrics *)

Definition status_class (status : Z) : bytes :=
  (if (200 <=? status) && (status <=? 299) then B "2xx"
   else if (300 <=? status) && (status <=? 399) then B "3xx"
   else if (400 <=? status) && (status <=? 499) then B "4xx"
   else B "5xx")%Z.

Inductive Metric :=
| RequestsTotal (backend : bytes)
| RequestDuration (backend class : bytes)
| Responses5xx (backend : bytes)
| ShadowDivergences (backend field : bytes).

Definition record_metrics (backend : bytes) (status : Z) : list Metric :=
  [RequestsTotal backend; RequestDuration backend (status_class status)].

(** [StatusCode::is_server_error]. *)
Definition is_server_error (status : Z) : bool := ((500 <=? status) && (status <? 600))%Z.

(** What is logged and counted when the backend could not be used. *)
Definition failure_metrics (backend : bytes) : list Metric := record_metrics backend 502 ++ [Responses5xx backend].

Definition answer_metrics (backend : bytes) (status : Z) : list Metric :=
  record_metrics backend status ++ (if is_server_error status then [Responses5xx backend] else []).

Definition X_REQUEST_ID : bytes := B "x-request-id".

Section Proxy.
Context {HM : HeaderMap} {Order : HashOrder} {Sha : Sha256} (uri_ok : bytes -> bool).

Record Response := mkResponse { status : Z; resp_headers : hmap; resp_body : stream }.

Inductive ForwardError := RequestFailed (e : bytes) | NotRoutable.

Definition forward_error_text (e : ForwardError) : bytes :=
  match e with
  | RequestFailed e => B "backend request failed: " ++ e
  | NotRoutable => B "backend not routable"
  end.

Record Inbound := mkInbound { in_method : bytes; in_uri : Uri; in_headers : hmap; in_body : stream }.

Definition not_found : Response := mkResponse 404 hm_empty (full_body (B "not found")).
Definition backend_unavailable : Response := mkResponse 503 hm_empty (full_body (B "no available backend")).
Definition bad_gateway : Response := mkResponse 502 hm_empty (full_body (B "bad gateway")).

(** ** Up to the request to the backend *)

Record Pending := mkPending {
  decision : RoutingDecision;
  backend_name : bytes;
  request_id : bytes;
  fwd_headers : list (bytes * bytes);
  p_method : bytes;
  p_uri : Uri;
  p_body : stream;
}.

Definition request_id_of (uuid : bytes) (m : hmap) : bytes :=
  unwrap_or uuid (head (get_all X_REQUEST_ID m) ≫= to_str).

Definition with_request_id (rid : bytes) (hs : list (bytes * bytes)) : list (bytes * bytes) :=
  filter (fun h : bytes * bytes => eq_ignore_ascii_case h.1 X_REQUEST_ID = false) hs ++ [(X_REQUEST_ID, rid)].

(** The first part of [handle]: an immediate answer, or the pending request. *)
Definition handle_begin (draw : nat -> Z -> Z) (now : Z) (uuid : bytes) (req : Inbound) (routing : RoutingConfig)
    (p : BackendPool) : (Response + Pending) * BackendPool :=
  if is_excluded (path (in_uri req)) (exclude_paths routing) then (inl not_found, p)
  else
    match decide_route draw now routing p with
    | (None, p') => (inl backend_unavailable, p')
    | (Some d, p') =>
        let rid := request_id_of uuid (in_headers req) in
        (inr (mkPending d (name (backend d)) rid (with_request_id rid (forwarded_headers (in_headers req)))
                (in_method req) (in_uri req) (in_body req)), p')
    end.

(** The backend behind a shared reference. *)
Definition live (p : BackendPool) (b : Backend) : Backend := unwrap_or b (backends p !! name b).

Definition addr (p : BackendPool) (b : Backend) : bytes := address (config (live p b)).

(** [forward] up to [client.request]. *)
Definition forward {Bd} (p : BackendPool) (d : RoutingDecision) (req : Request Bd) : Request Bd + ForwardError :=
  if negb (is_routable (live p (backend d))) then inr NotRoutable else inl req.

(** The request of [handle], streamed through. *)
Definition primary_request (p : BackendPool) (t : Pending) : option (Request stream + ForwardError) :=
  forward p (decision t) <$>
    rebuild_for_backend_streaming uri_ok (p_uri t) (p_method t) (fwd_headers t) (p_body t) (addr p (backend (decision t))).

(** The request of [handle_shadow], read up to the cap and rebuilt. *)
Definition shadowed_request (cap : nat) (p : BackendPool) (t : Pending) : option (Request stream + ForwardError) :=
  '(prefix, tail, truncated, remainder) ← read_capped (p_body t) cap;
  forward p (decision t) <$>
    rebuild_for_backend_streaming uri_ok (p_uri t) (p_method t) (fwd_headers t)
      (rebuilt_body prefix tail truncated remainder) (addr p (backend (decision t))).

(** ** From the answer on *)

(** [rebuild_response] of shadow.rs, which nothing calls: a header the builder
    does not take makes the [expect] panic. *)
Definition builder_header (m : option hmap) (h : bytes * bytes) : option hmap :=
  m ← m; n ← parse_name h.1; v ← parse_value h.2; Some (hm_append n v m).

Definition rebuild_response (st : Z) (headers : list (bytes * bytes)) (body : bytes) : option Response :=
  hs ← foldl builder_header (Some hm_empty) headers;
  Some (mkResponse st hs (full_body body)).

(** The answer of [run_skeleton], the entry point before there was routing. *)
Definition skeleton_response : Response := mkResponse 200 hm_empty (full_body (B "ok")).

(** [insert("x-request-id", request_id.parse().unwrap())]. *)
Definition set_request_id (rid : bytes) (m : hmap) : option hmap :=
  v ← parse_value rid; Some (hm_insert X_REQUEST_ID v m).

Definition handle_finish (now : Z) (t : Pending) (res : Response + ForwardError) (p : BackendPool) :
    option (Response * BackendPool * list Metric) :=
  match res with
  | inl r =>
      hs ← set_request_id (request_id t) (strip_hop_by_hop (resp_headers r));
      Some (mkResponse (status r) hs (resp_body r),
            record_outcome now (backend_name t) (negb (is_server_error (status r))) p,
            answer_metrics (backend_name t) (status r))
  | inr _ => Some (bad_gateway, record_outcome now (backend_name t) false p, failure_metrics (backend_name t))
  end.

Definition text_headers (m : hmap) : list (bytes * bytes) := map (fun h => (h.1, text_or_empty h.2)) (hm_iter m).

Definition append_parsed (m : hmap) (h : bytes * bytes) : hmap :=
  if eq_ignore_ascii_case h.1 X_REQUEST_ID then m
  else match parse_name h.1, parse_value h.2 with
       | Some n, Some v => hm_append n v m
       | _, _ => m
       end.

Definition rebuild_shadow_response_headers (primary : list (bytes * bytes)) (rid : bytes) : option hmap :=
  set_request_id rid (foldl append_parsed hm_empty primary).

(** The mirrored request, before its breaker is asked. *)
Record ShadowTask := mkShadowTask {
  s_decision : RoutingDecision;
  s_shadow : Backend;
  s_method : bytes;
  s_uri : Uri;
  s_headers : list (bytes * bytes);
  s_body : bytes;
  s_primary : Captured;
  s_request_id : bytes;
}.

(** [dispatch_shadow] up to the spawned task. *)
Definition dispatch_shadow (t : Pending) (body : bytes) (primary : Captured) : option ShadowTask :=
  (fun sh => mkShadowTask (decision t) sh (p_method t) (p_uri t) (fwd_headers t) body primary (request_id t))
    <$> shadow (decision t).

Definition handle_shadow_finish (now : Z) (cap : nat) (t : Pending) (res : Response + ForwardError) (p : BackendPool) :
    option (Response * BackendPool * list Metric * option ShadowTask) :=
  let failed := (bad_gateway, record_outcome now (backend_name t) false p, failure_metrics (backend_name t), None) in
  match read_capped (p_body t) cap with
  | None => Some failed
  | Some (req_prefix, _, _, _) =>
      match res with
      | inr _ => Some failed
      | inl r =>
          let primary_headers := text_headers (strip_hop_by_hop (resp_headers r)) in
          match read_capped (resp_body r) cap with
          | None => Some failed
          | Some (resp_prefix, resp_tail, resp_truncated, remainder) =>
              let task := dispatch_shadow t req_prefix
                            (mkCaptured (status r) primary_headers resp_prefix resp_truncated) in
              hs ← rebuild_shadow_response_headers primary_headers (request_id t);
              Some (mkResponse (status r) hs (rebuilt_body resp_prefix resp_tail resp_truncated remainder),
                    record_outcome now (backend_name t) (negb (is_server_error (status r))) p,
                    answer_metrics (backend_name t) (status r), task)
          end
      end
  end.

(** ** The mirrored request *)

Definition shadow_headers_for_body (headers : list (bytes * bytes)) (body_len : nat) : list (bytes * bytes) :=
  filter (fun h : bytes * bytes => eq_ignore_ascii_case h.1 (B "content-length") = false /\
                                   eq_ignore_ascii_case h.1 (B "transfer-encoding") = false) headers
  ++ [(B "content-length", show_nonneg (Z.of_nat body_len))].

Definition rebuild_for_backend (original_uri : Uri) (mth : bytes) (headers : list (bytes * bytes)) (body backend_addr : bytes) :
    option (Request stream) :=
  rebuild_for_backend_streaming uri_ok original_uri mth headers (full_body body) backend_addr.

Definition shadow_request (p : BackendPool) (m : ShadowTask) : option (Request stream + ForwardError) :=
  forward p (s_decision m) <$>
    rebuild_for_backend (s_uri m) (s_method m) (shadow_headers_for_body (s_headers m) (length (s_body m)))
      (s_body m) (addr p (s_shadow m)).

Definition lifecycle_divergence (exp act : bytes) (m : ShadowTask) : Divergence :=
  mkDivergence ConnectionLifecycle exp act (path (s_uri m)) (s_method m) false.

(** From the answer of the shadow backend on; [err] is the text of a read
    error. *)
Definition shadow_finish (now : Z) (cap : nat) (err : bytes) (m : ShadowTask) (res : Response + ForwardError)
    (p : BackendPool) : option (list Divergence * BackendPool * list Metric) :=
  let nm := name (s_shadow m) in
  let out ds p := (ds, p, map (fun d => ShadowDivergences nm (Field_as_str (field d))) ds) in
  match res with
  | inl r =>
      match read_capped (resp_body r) cap with
      | Some (shadow_body, _, shadow_truncated, _) =>
          ds ← diff_responses (s_primary m)
                 (mkCaptured (status r) (text_headers (resp_headers r)) shadow_body shadow_truncated)
                 (mkCtx (path (s_uri m)) (s_method m) (s_request_id m));
          Some (out ds (record_outcome now nm (negb (is_server_error (status r))) p))
      | None =>
          Some (out [lifecycle_divergence (B "complete response body") (B "body read error: " ++ err) m]
                  (record_outcome now nm false p))
      end
  | inr e =>
      Some (out [lifecycle_divergence (B "ok") (B "error: " ++ forward_error_text e) m]
              (match e with
               | NotRoutable => breaker_release_probe now nm p
               | RequestFailed _ => record_outcome now nm false p
               end))
  end.
End Proxy.

(** ** Headers on their way *)

Section HeaderFlow.
Context {HM : HeaderMap} {Order : HashOrder} {Sha : Sha256} (uri_ok : bytes -> bool).

Lemma sendable_lower h : sendable h -> (ascii_lower <$> h.1) = h.1.
Proof. intros [H _]. by apply parse_name_lower in H. Qed.

Lemma eq_ignore_lower (a b : bytes) :
  (ascii_lower <$> a) = a -> (ascii_lower <$> b) = b -> eq_ignore_ascii_case a b = bool_decide (a = b).
Proof. unfold eq_ignore_ascii_case, bytes_eqb. by intros -> ->. Qed.

Lemma name_parses (n : bytes) :
  n <> [] -> forallb name_byte n = true -> (ascii_lower <$> n) = n -> parse_name n = Some n.
Proof. intros H1 H2 H3. by rewrite parse_name_plain, H3. Qed.

Lemma x_request_id_parses : parse_name X_REQUEST_ID = Some X_REQUEST_ID.
Proof. by apply name_parses. Qed.

Lemma request_id_text uuid m :
  parse_value uuid = Some uuid -> parse_value (request_id_of uuid m) = Some (request_id_of uuid m).
Proof.
  intros Hu. unfold request_id_of. destruct (head _) as [v|]; cbn; [|done]. destruct (to_str v) as [s|] eqn:E; cbn; [|done].
  by destruct (to_str_text v s E) as (-> & ? & _).
Qed.

Lemma values_in_single n k v : values_in n [(k, v)] = if bool_decide (n = k) then [v] else [].
Proof.
  unfold values_in. cbn. destruct (decide (n = k)) as [->|]; [by rewrite !bool_decide_true|].
  by rewrite !bool_decide_false by congruence.
Qed.

(** The header list of a pending request. *)
Lemma with_request_id_values n rid m :
  (ascii_lower <$> n) = n ->
  values_in n (with_request_id rid (forwarded_headers m)) =
  if bool_decide (n = X_REQUEST_ID) then [rid]
  else if per_hop n m then [] else map text_or_empty (get_all n m).
Proof.
  intros Hn. unfold with_request_id. rewrite values_in_app, values_in_single.
  rewrite (filter_ext_in' (fun h : bytes * bytes => eq_ignore_ascii_case h.1 X_REQUEST_ID)).
  rewrite (values_in_filter n (fun k => negb (eq_ignore_ascii_case k X_REQUEST_ID))), eq_ignore_lower by done.
  destruct (decide (n = X_REQUEST_ID)) as [->|Hx].
  - by rewrite !bool_decide_true.
  - rewrite !bool_decide_false by done. cbn [negb]. by rewrite app_nil_r, forwarded_values.
Qed.

Lemma with_request_id_sendable rid m :
  parse_value rid = Some rid -> Forall sendable (with_request_id rid (forwarded_headers m)).
Proof.
  intros Hr. apply Forall_app. split.
  - apply Forall_forall. intros h [_ Hh]%list_elem_of_filter. revert h Hh. apply Forall_forall, forwarded_sendable.
  - constructor; [|constructor]. split; [apply x_request_id_parses|done].
Qed.

(** C24: what a backend is sent: whenever the target is a valid URI the
    request is built without a panic, with the method and body of the client; its
    headers are those of the client in the same order per name, without the ones of a
    single hop (the fixed list and those that the Connection field names), with
    exactly one request id, and with the address of the backend as Host when the
    client sent none. *)
Theorem outgoing_headers {Bd} uuid req rid a (body : Bd) :
  rid = request_id_of uuid (in_headers req) ->
  parse_value uuid = Some uuid -> parse_value a = Some a ->
  uri_ok (B "http://" ++ a ++ unwrap_or (B "/") (path_and_query (in_uri req))) = true ->
  exists out,
    rebuild_for_backend_streaming uri_ok (in_uri req) (in_method req)
      (with_request_id rid (forwarded_headers (in_headers req))) body a = Some out /\
    method out = in_method req /\ req_body out = body /\
    forall n, (ascii_lower <$> n) = n ->
      get_all n (req_headers out) =
      if bool_decide (n = X_REQUEST_ID) then [rid]
      else if per_hop n (in_headers req) then (if bool_decide (n = B "host") then [a] else [])
      else if bool_decide (n = B "host") && is_empty (get_all n (in_headers req)) then [a]
      else map text_or_empty (get_all n (in_headers req)).
Proof.
  intros -> Hu Ha Huri. set (m := in_headers req). set (rid := request_id_of uuid m).
  assert (Hs : Forall sendable (with_request_id rid (forwarded_headers m)))
    by (apply with_request_id_sendable, request_id_text; done).
  unfold rebuild_for_backend_streaming. rewrite Huri. cbn [negb].
  assert (Hkept : filter (fun h : bytes * bytes => is_hop_by_hop h.1 = false) (with_request_id rid (forwarded_headers m)) =
                  with_request_id rid (forwarded_headers m)).
  { apply filter_all_in. intros [k v] Hin. cbn [fst]. destruct (is_hop_by_hop k) eqn:E; [|done]. exfalso.
    rewrite Forall_forall in Hs. pose proof (sendable_lower _ (Hs _ Hin)) as Hk. cbn [fst] in Hk.
    apply values_in_elem in Hin. rewrite with_request_id_values in Hin by done. unfold per_hop in Hin. rewrite E in Hin.
    destruct (decide (k = X_REQUEST_ID)) as [->|]; [done|]. rewrite bool_decide_false in Hin by done.
    by apply not_elem_of_nil in Hin. }
  rewrite Hkept. set (l := with_request_id rid (forwarded_headers m)) in *.
  assert (Hhost : existsb (fun h : bytes * bytes => eq_ignore_ascii_case h.1 (B "host")) l =
                  negb (is_empty (values_in (B "host") l))).
  { rewrite existsb_values; [done|done|]. eapply Forall_impl; [exact Hs|]. intros h Hh. by apply sendable_lower. }
  rewrite Hhost.
  destruct (add_headers (l ++ (if negb (is_empty (values_in (B "host") l)) then [] else [(B "host", a)])) hm_empty)
    as (hs & -> & Hhs).
  { apply Forall_app. split; [done|]. destruct (negb _); [constructor|]. constructor; [|constructor].
    split; [by apply name_parses|done]. }
  cbn [mbind option_bind]. eexists. split; [done|]. split; [done|]. split; [done|]. cbn [req_headers]. intros n Hn.
  rewrite Hhs. rewrite get_all_empty. cbn [app]. rewrite values_in_app.
  unfold l. rewrite !with_request_id_values by done. rewrite (bool_decide_false (B "host" = X_REQUEST_ID)) by done.
  fold m. destruct (decide (n = X_REQUEST_ID)) as [->|Hx].
  { rewrite (bool_decide_true (X_REQUEST_ID = X_REQUEST_ID)) by done. by case (negb (is_empty _)). }
  rewrite (bool_decide_false _ Hx). destruct (decide (n = B "host")) as [->|Hh].
  - rewrite (bool_decide_true (B "host" = B "host")) by done.
    assert (Hone : values_in (B "host") [(B "host", a)] = [a]) by by rewrite values_in_single, bool_decide_true.
    destruct (per_hop (B "host") m); [exact Hone|].
    destruct (get_all (B "host") m) as [|v vs]; [exact Hone|]. cbn [map is_empty negb andb values_in omap list_omap].
    by rewrite app_nil_r.
  - rewrite !(bool_decide_false _ Hh). cbn [andb]. destruct (per_hop n m).
    + case (negb (is_empty _)); [done|]. by rewrite values_in_single, bool_decide_false.
    + case (negb (is_empty _)); rewrite ?values_in_single, ?bool_decide_false by done; by rewrite app_nil_r.
Qed.

(** The mirrored request is framed by what is mirrored: whatever length
    or transfer coding the client announced for the full body, the copy sent to
    the shadow backend announces exactly the bytes it carries, once, and no
    transfer coding; its body is the capped copy. *)
Theorem mirrored_request_framed p m :
  let body_len := show_nonneg (Z.of_nat (length (s_body m))) in
  let a := addr p (s_shadow m) in
  Forall sendable (s_headers m) -> parse_value body_len = Some body_len -> parse_value a = Some a ->
  uri_ok (B "http://" ++ a ++ unwrap_or (B "/") (path_and_query (s_uri m))) = true ->
  exists out,
    shadow_request uri_ok p m = Some (forward p (s_decision m) out) /\
    get_all (B "content-length") (req_headers out) = [body_len] /\
    get_all (B "transfer-encoding") (req_headers out) = [] /\
    data_of (req_body out) = s_body m /\ method out = s_method m.
Proof.
  cbv zeta. set (len := show_nonneg _). set (a := addr p (s_shadow m)). intros Hs Hl Ha Huri.
  unfold shadow_request, rebuild_for_backend, rebuild_for_backend_streaming. fold a. rewrite Huri. cbn [negb].
  set (l := shadow_headers_for_body (s_headers m) (length (s_body m))).
  assert (Hsl : Forall sendable l).
  { apply Forall_app. split; [|constructor; [split; [by apply name_parses|done]|constructor]].
    apply Forall_forall. intros h [_ Hh]%list_elem_of_filter. by apply (proj1 (Forall_forall _ _) Hs). }
  assert (Hv : forall n, values_in n (filter (fun h : bytes * bytes => is_hop_by_hop h.1 = false) l) =
                 if is_hop_by_hop n then [] else values_in n l).
  { intros n. rewrite (filter_ext_in' (fun h : bytes * bytes => is_hop_by_hop h.1)).
    rewrite (values_in_filter n (fun k => negb (is_hop_by_hop k))). by destruct (is_hop_by_hop n). }
  assert (Hcl : values_in (B "content-length") l = [len]).
  { unfold l, shadow_headers_for_body. rewrite values_in_app.
    rewrite (list_filter_iff _ (fun h : bytes * bytes => negb (eq_ignore_ascii_case h.1 (B "content-length")) &&
      negb (eq_ignore_ascii_case h.1 (B "transfer-encoding")) = true)) by (intros h; by rewrite andb_true_iff, !negb_true_iff).
    by rewrite (values_in_filter _ (fun k => negb (eq_ignore_ascii_case k (B "content-length")) &&
      negb (eq_ignore_ascii_case k (B "transfer-encoding")))). }
  set (kept := filter (fun h : bytes * bytes => is_hop_by_hop h.1 = false) l) in *.
  set (extra := if existsb _ kept then [] else [(B "host", a)]).
  assert (Hx : Forall sendable extra /\ forall n, n <> B "host" -> values_in n extra = []).
  { unfold extra. destruct (existsb _ kept); [by split; [constructor|]|]. split.
    - constructor; [|constructor]. split; [by apply name_parses|done].
    - intros n Hn. by rewrite values_in_single, bool_decide_false. }
  destruct Hx as [Hx1 Hx2]. destruct (add_headers (kept ++ extra) hm_empty) as (hs & -> & Hhs).
  { apply Forall_app. split; [|done]. apply Forall_forall. intros h [_ Hh]%list_elem_of_filter.
    by apply (proj1 (Forall_forall _ _) Hsl). }
  cbn [mbind option_bind fmap option_fmap option_map]. eexists. split; [reflexivity|]. cbn [req_headers req_body method].
  split_and!; [| | |done].
  - by rewrite Hhs, get_all_empty, values_in_app, Hv, Hx2, Hcl.
  - by rewrite Hhs, get_all_empty, values_in_app, Hv, Hx2.
  - unfold full_body. destruct (s_body m); [done|]. cbn. by rewrite app_nil_r.
Qed.
End HeaderFlow.

(** Concrete requests for the witnesses. *)
Definition demo_inbound : @Inbound Assoc.headers :=
  @mkInbound Assoc.headers (B "GET") (mkUri (B "/a") (Some (B "/a?x=1")))
    (Assoc.of_list [(B "connection", B "x-debug, Keep-Alive"); (B "x-debug", B "1"); (B "accept", B "a"); (B "accept", B "b")])
    [].

Lemma outgoing_headers_witness :
  exists out,
    @rebuild_for_backend_streaming Assoc.headers (fun _ => true) _ (in_uri demo_inbound) (in_method demo_inbound)
      (with_request_id (B "id") (forwarded_headers (in_headers demo_inbound))) (@nil (option Frame)) (B "127.0.0.1:8081")
      = Some out /\
    get_all (B "x-debug") (req_headers out) = [] /\ get_all (B "accept") (req_headers out) = [B "a"; B "b"] /\
    get_all (B "host") (req_headers out) = [B "127.0.0.1:8081"] /\ get_all X_REQUEST_ID (req_headers out) = [B "id"].
Proof.
  destruct (@outgoing_headers Assoc.headers (fun _ => true) _ (B "id") demo_inbound (B "id") (B "127.0.0.1:8081")
              (@nil (option Frame)) eq_refl eq_refl eq_refl eq_refl) as (out & E & _ & _ & H).
  exists out. split; [exact E|].
  split_and!; (rewrite H by reflexivity; vm_compute; reflexivity).
Defined.

(** ** Shadow mode and the client *)

Section Transparent.
Context {HM : HeaderMap} {Order : HashOrder} {Sha : Sha256}.

(** All header values are visible text. *)
Definition all_text (m : hmap) : Prop := Forall (fun h : bytes * bytes => to_str h.2 <> None) (hm_iter m).

Lemma text_headers_sendable m : Forall sendable (text_headers m).
Proof.
  apply Forall_forall. intros h ([k v] & -> & Hin)%list_elem_of_fmap. split; cbn [fst snd].
  - by apply (iter_names m k v).
  - apply text_or_empty_parses.
Qed.

Lemma text_headers_values n m : values_in n (text_headers m) = map text_or_empty (get_all n m).
Proof. apply values_in_map. Qed.

Lemma all_text_values n m : all_text m -> map text_or_empty (get_all n m) = get_all n m.
Proof.
  intros H. rewrite <- map_id. apply map_ext_in. intros v Hv. apply list_elem_of_In, values_in_elem in Hv.
  unfold all_text in H. rewrite Forall_forall in H. specialize (H _ Hv). cbn in H. unfold text_or_empty.
  destruct (to_str v) as [s|] eqn:E; [|done]. by destruct (to_str_text v s E) as (-> & _).
Qed.

Lemma append_parsed_values n l m : Forall sendable l ->
  get_all n (foldl append_parsed m l) =
  get_all n m ++ (if bool_decide (n = X_REQUEST_ID) then [] else values_in n l).
Proof.
  intros H. revert m. induction H as [|[k v] l Hs Hl IH]; intros m; cbn [foldl].
  - by destruct (bool_decide _); rewrite app_nil_r.
  - rewrite IH. clear IH. pose proof (sendable_lower _ Hs) as Hk. destruct Hs as [Hp Hv]. cbn [fst snd] in *.
    unfold append_parsed. cbn [fst snd]. rewrite eq_ignore_lower by done.
    change ((k, v) :: l) with ([(k, v)] ++ l). rewrite values_in_app, values_in_single.
    destruct (decide (k = X_REQUEST_ID)) as [->|Hx].
    + rewrite (bool_decide_true (X_REQUEST_ID = X_REQUEST_ID)) by done.
      destruct (decide (n = X_REQUEST_ID)); [by rewrite bool_decide_true|by rewrite bool_decide_false].
    + rewrite (bool_decide_false _ Hx), Hp, Hv. unfold get_all. rewrite iter_append, <- app_assoc by done. f_equal.
      destruct (decide (n = X_REQUEST_ID)) as [->|Hn]; [|by rewrite (bool_decide_false _ Hn)].
      rewrite (bool_decide_false (X_REQUEST_ID = k)) by congruence. by rewrite bool_decide_true.
Qed.

Lemma set_request_id_some rid m : parse_value rid = Some rid ->
  exists m', set_request_id rid m = Some m' /\
    forall n, get_all n m' = if bool_decide (n = X_REQUEST_ID) then [rid] else get_all n m.
Proof.
  intros Hr. unfold set_request_id. rewrite Hr. cbn. eexists. split; [done|]. intros n. apply iter_insert.
  apply x_request_id_parses.
Qed.

(** C11: what shadow mode changes for the client.  For the same answer of the
    backend the mirroring path never panics and is compared with the direct
    path.  When both bodies are read without error it returns the same status
    and the same body data, records the same outcome and the same metrics,
    keeps for the comparison the first [cap] bytes of both bodies, and returns
    the same header values, except that a value that is not visible text is
    emptied; so the whole answer is the same when all header values are text.
    When the request or the response body fails before [cap] bytes are read,
    the client gets a 502 and a failure is recorded, where the direct path
    returns the status of the backend. *)
Theorem shadow_mode_transparent now cap t r p :
  parse_value (request_id t) = Some (request_id t) ->
  exists r1 p1 ms1, handle_finish now t (inl r) p = Some (r1, p1, ms1) /\ status r1 = status r /\
  (reads_ok (p_body t) -> reads_ok (resp_body r) ->
   exists r2 task, handle_shadow_finish now cap t (inl r) p = Some (r2, p1, ms1, task) /\
    status r2 = status r1 /\ data_of (resp_body r2) = data_of (resp_body r1) /\
    get_all X_REQUEST_ID (resp_headers r2) = get_all X_REQUEST_ID (resp_headers r1) /\
    (forall n, n <> X_REQUEST_ID -> get_all n (resp_headers r2) = map text_or_empty (get_all n (resp_headers r1))) /\
    (all_text (strip_hop_by_hop (resp_headers r)) ->
     forall n, get_all n (resp_headers r2) = get_all n (resp_headers r1)) /\
    (forall m, task = Some m -> s_body m = take cap (data_of (p_body t)) /\
                                cap_body (s_primary m) = take cap (data_of (resp_body r)))) /\
  (read_capped (p_body t) cap = None \/ read_capped (resp_body r) cap = None ->
   exists r2, handle_shadow_finish now cap t (inl r) p =
     Some (r2, record_outcome now (backend_name t) false p, failure_metrics (backend_name t), None) /\
     status r2 = 502%Z).
Proof.
  intros Hid. unfold handle_finish, handle_shadow_finish.
  destruct (set_request_id_some (request_id t) (strip_hop_by_hop (resp_headers r)) Hid) as (m1 & -> & H1).
  cbn [mbind option_bind]. eexists _, _, _. split; [reflexivity|]. split; [done|]. split.
  - intros Hreq Hresp.
    destruct (read_capped_ok (p_body t) cap Hreq) as (rp & rt & rtr & rr & -> & Erp & _).
    destruct (read_capped_ok (resp_body r) cap Hresp) as (bp & bt & btr & br & -> & Ebp & Hdata & _).
    unfold rebuild_shadow_response_headers.
    destruct (set_request_id_some (request_id t)
                (foldl append_parsed hm_empty (text_headers (strip_hop_by_hop (resp_headers r)))) Hid) as (m2 & -> & H2).
    cbn [mbind option_bind]. eexists _, _. split; [reflexivity|].
    cbn [status resp_body resp_headers]. split; [done|]. split; [done|].
    assert (Hx : get_all X_REQUEST_ID m2 = get_all X_REQUEST_ID m1) by (by rewrite H1, H2, !bool_decide_true).
    assert (Hv : forall n, n <> X_REQUEST_ID -> get_all n m2 = map text_or_empty (get_all n (strip_hop_by_hop (resp_headers r)))).
    { intros n Hn. rewrite H2, !(bool_decide_false _ Hn), append_parsed_values, (bool_decide_false _ Hn) by apply text_headers_sendable.
      by rewrite get_all_empty, text_headers_values. }
    assert (H1' : forall n, n <> X_REQUEST_ID -> get_all n m1 = get_all n (strip_hop_by_hop (resp_headers r)))
      by (intros n Hn; by rewrite H1, (bool_decide_false _ Hn)).
    split; [done|]. split; [intros n Hn; by rewrite Hv, H1'|]. split.
    + intros Htext n. destruct (decide (n = X_REQUEST_ID)) as [->|Hn]; [done|].
      by rewrite Hv, H1', all_text_values.
    + intros m Hm. unfold dispatch_shadow in Hm. destruct (shadow (decision t)); [|done]. injection Hm as <-.
      cbn. by rewrite Erp, Ebp.
  - intros Hf. destruct (read_capped (p_body t) cap) as [[[[rp rt] rtr] rr]|]; [|by eexists].
    destruct Hf as [?| ->]; [done|]. by eexists.
Qed.

Lemma text_headers_valid m : valid_values (text_headers m).
Proof. apply Forall_forall. intros h ([k v] & -> & _)%list_elem_of_fmap. apply text_or_empty_valid. Qed.

Lemma text_headers_lower m : Forall (fun h : bytes * bytes => (ascii_lower <$> h.1) = h.1) (text_headers m).
Proof. eapply Forall_impl; [apply text_headers_sendable|]. apply sendable_lower. Qed.

Lemma values_of_length n (l : list (bytes * bytes)) :
  Forall (fun h : bytes * bytes => (ascii_lower <$> h.1) = h.1) l -> length (values_of n l) = length (values_in n l).
Proof.
  induction 1 as [|h l Hh _ IH]; [done|]. unfold values_of, values_in. cbn [omap list_omap]. rewrite Hh.
  destruct (bool_decide (h.1 = n)); cbn [length]; [f_equal|]; apply IH.
Qed.

(** Two backends that answer alike are reported as different: the
    captured headers of the primary have lost their hop-by-hop fields and those of
    the shadow have not, so that every answer with such a field (the servers
    send Connection: close) is a header divergence, even when both answers
    are the same. *)
Theorem hop_by_hop_diverges now cap err m r p n :
  (ascii_lower <$> n) = n -> is_hop_by_hop n = true -> get_all n (resp_headers r) <> [] -> reads_ok (resp_body r) ->
  cap_headers (s_primary m) = text_headers (strip_hop_by_hop (resp_headers r)) ->
  exists ds p' ms, shadow_finish now cap err m (inl r) p = Some (ds, p', ms) /\ Exists (fun d => field d = Headers) ds.
Proof.
  intros Hn Hh Hne Hok Hcap. unfold shadow_finish.
  destruct (read_capped_ok (resp_body r) cap Hok) as (bp & bt & btr & br & -> & _).
  set (sh := mkCaptured _ _ bp btr).
  destruct (diff_header_divergence (s_primary m) sh (mkCtx (path (s_uri m)) (s_method m) (s_request_id m)) n)
    as (ds & -> & Hd).
  - rewrite Hcap. apply text_headers_valid.
  - apply text_headers_valid.
  - intros Hp. rewrite Hcap in Hp. unfold sh in Hp. cbn [cap_headers] in Hp. apply Permutation_length in Hp.
    rewrite !values_of_length, !text_headers_values, !length_map, strip_hop_by_hop_values in Hp
      by (done || apply text_headers_lower).
    unfold per_hop in Hp. rewrite Hh in Hp. cbn in Hp. by destruct (get_all n (resp_headers r)).
  - cbn [mbind option_bind]. by eexists _, _, _.
Qed.
End Transparent.

Definition demo_backend : Backend := Backend_new (B "c") (mkBackendConfig (B "127.0.0.1:8081") 1 (B "/")).

Definition demo_pending : @Pending :=
  mkPending (mkDecision demo_backend (Some demo_backend)) (B "c") (B "id") [] (B "GET") (mkUri (B "/") None)
    [Some (Data (B "q"))].

Definition demo_response : @Response Assoc.headers :=
  @mkResponse Assoc.headers 200 (Assoc.of_list [(B "connection", B "close"); (B "set-cookie", B "a"); (B "set-cookie", B "b")])
    [Some (Data (B "hello")); Some (Data (B " world"))].

Definition demo_pool : BackendPool := mkPool {[B "c" := demo_backend]} ∅.

Lemma shadow_mode_transparent_witness :
  exists r1 r2 p' ms task,
    handle_finish 0 demo_pending (inl demo_response) demo_pool = Some (r1, p', ms) /\
    handle_shadow_finish 0 8 demo_pending (inl demo_response) demo_pool = Some (r2, p', ms, task) /\
    status r2 = status r1 /\ data_of (resp_body r2) = data_of (resp_body r1) /\
    (forall n, get_all n (resp_headers r2) = get_all n (resp_headers r1)) /\
    (forall m, task = Some m -> s_body m = take 8 (B "q") /\ cap_body (s_primary m) = take 8 (B "hello world")).
Proof.
  destruct (@shadow_mode_transparent Assoc.headers 0 8 demo_pending demo_response demo_pool eq_refl)
    as (r1 & p1 & ms1 & E1 & _ & H & _).
  destruct H as (r2 & task & E2 & H1 & H2 & _ & _ & H3 & H4); [by repeat constructor|by repeat constructor|].
  exists r1, r2, p1, ms1, task. split; [exact E1|]. split; [exact E2|]. split; [exact H1|]. split; [exact H2|].
  split; [|exact H4]. apply H3. unfold all_text. vm_compute. by repeat constructor.
Defined.

(** A header value that is not text, or a body that breaks off. *)
Example shadow_mode_visible :
  let opaque := @mkResponse Assoc.headers 200 (Assoc.of_list [(B "x-name", [chr 233])]) [] in
  let broken := @mkResponse Assoc.headers 200 (Assoc.of_list []) [Some (Data (B "he")); None] in
  let values r := match r with Some (r, _, _, _) => (status r, get_all (B "x-name") (resp_headers r)) | None => (0%Z, []) end in
  let direct r := match handle_finish 0 demo_pending (inl r) demo_pool with
                  | Some (r, _, _) => (status r, get_all (B "x-name") (resp_headers r)) | None => (0%Z, []) end in
  direct opaque = (200%Z, [[chr 233]]) /\ values (handle_shadow_finish 0 8 demo_pending (inl opaque) demo_pool) = (200%Z, [[]]) /\
  (direct broken).1 = 200%Z /\ (values (handle_shadow_finish 0 8 demo_pending (inl broken) demo_pool)).1 = 502%Z.
Proof. by vm_compute. Qed.

Definition demo_task : @ShadowTask :=
  mkShadowTask (mkDecision demo_backend (Some demo_backend)) demo_backend (B "GET") (mkUri (B "/") None) [] []
    (mkCaptured 200 (text_headers (strip_hop_by_hop (resp_headers demo_response))) (B "hello world") false) (B "id").

Definition demo_capped_task : @ShadowTask :=
  mkShadowTask (mkDecision demo_backend (Some demo_backend)) demo_backend (B "POST") (mkUri (B "/") None)
    [(B "content-length", B "5000"); (B "transfer-encoding", B "chunked"); (B "accept", B "a")] (B "capped")
    (mkCaptured 200 [] [] false) (B "id").

Lemma mirrored_request_framed_witness :
  exists out,
    @shadow_request Assoc.headers (fun _ => true) demo_pool demo_capped_task =
      Some (forward demo_pool (s_decision demo_capped_task) out) /\
    get_all (B "content-length") (req_headers out) = [B "6"] /\ get_all (B "transfer-encoding") (req_headers out) = [].
Proof.
  destruct (@mirrored_request_framed Assoc.headers (fun _ => true) demo_pool demo_capped_task) as (out & H1 & H2 & H3 & _);
    [by repeat constructor|by vm_compute|by vm_compute|done|].
  exists out. split; [exact H1|]. split; [exact H2|exact H3].
Defined.

Lemma hop_by_hop_diverges_witness :
  exists ds p' ms,
    @shadow_finish Assoc.headers toy_digest 0 100 [] demo_task (inl demo_response) demo_pool = Some (ds, p', ms) /\
    Exists (fun d => field d = Headers) ds.
Proof.
  apply (@hop_by_hop_diverges Assoc.headers toy_digest 0 100 [] demo_task demo_response demo_pool (B "connection")).
  - reflexivity.
  - reflexivity.
  - vm_compute. discriminate.
  - by repeat constructor.
  - reflexivity.
Defined.
