(* ===== verification/ProxyRun.v ===== *)
(** * Requests in flight

    The proxy as a transition system: requests and their mirrored copies are
    handled concurrently, each waiting for its backend between two accesses to
    the pool, while probes and the operator change health and weights, clients
    go away and connections are aborted.  What is shown is who is responsible
    for the half-open state of a breaker, and when nobody is. *)

From S2P Require Import Prelude RustStr Breaker Backend Router LiveState Diff Forwarder Proxy.

(** ** Breakers that wait for a probe *)

Definition half_open (n : bytes) (p : BackendPool) : Prop :=
  exists b, breakers p !! n = Some b /\ Breaker.state b = HalfOpen.

Lemma breaker_admit_refused now n p p' : breaker_admit now n p = (false, p') -> p' = p.
Proof.
  unfold breaker_admit, try_admit. destruct (breakers p !! n) as [b|] eqn:E; [|done].
  assert (H : forall x, x = b -> p <| breakers := <[n := x]> (breakers p) |> = p).
  { intros x ->. destruct p as [bs br]. cbn in *. by rewrite insert_id. }
  destruct (Breaker.state b); [done| |by intros [= <-]; apply H].
  destruct (_ && _); [done|]. intros [= <-]. by apply H.
Qed.

Lemma breaker_admit_granted now n p p' k : breaker_admit now n p = (true, p') ->
  ~ half_open n p /\ (half_open k p' -> k = n \/ half_open k p) /\ (k <> n -> half_open k p -> half_open k p').
Proof.
  unfold breaker_admit, half_open. destruct (breakers p !! n) as [b|] eqn:E.
  - destruct (try_admit now b) as [ok b'] eqn:Et. intros [= -> <-]. cbn. split_and!.
    + intros (x & [= <-] & Hx). unfold try_admit in Et. rewrite Hx in Et. done.
    + intros (x & Hx & Hs). destruct (decide (k = n)) as [->|Hk]; [by left|]. rewrite lookup_insert_ne in Hx by done.
      right. eauto.
    + intros Hk (x & Hx & Hs). exists x. by rewrite lookup_insert_ne.
  - intros [= <-]. split_and!; [|by right|done]. by intros (x & ? & _).
Qed.

Lemma record_not_half_open now ok b : Breaker.state (Breaker.record now ok b) <> HalfOpen.
Proof.
  destruct (record_cases now ok b) as [->|[->|(Hn & w & [->| ->])]]; [done..|]. exact Hn.
Qed.

Lemma altered_half_open f n p k :
  (forall b, Breaker.state (f b) <> HalfOpen) ->
  let p' := p <| breakers := alter f n (breakers p) |> in
  ~ half_open n p' /\ (half_open k p' -> half_open k p) /\ (k <> n -> half_open k p -> half_open k p').
Proof.
  intros Hf. cbv zeta. unfold half_open. cbn. split_and!.
  - intros (b & Hb & Hs). rewrite lookup_alter_eq in Hb. destruct (breakers p !! n) as [x|]; [|done].
    injection Hb as <-. by apply (Hf x).
  - intros (b & Hb & Hs). destruct (decide (k = n)) as [->|Hk].
    + rewrite lookup_alter_eq in Hb. destruct (breakers p !! n) as [x|]; [|done]. injection Hb as <-. by destruct (Hf x).
    + rewrite lookup_alter_ne in Hb by done. eauto.
  - intros Hk (b & Hb & Hs). exists b. by rewrite lookup_alter_ne.
Qed.

Lemma release_not_half_open now b : Breaker.state (release_probe now b) <> HalfOpen.
Proof.
  unfold release_probe. destruct (decide (Breaker.state b = HalfOpen)) as [E|E].
  - by rewrite bool_decide_true.
  - by rewrite bool_decide_false.
Qed.

(** ** What a routing decision does to the pool *)

Section Decisions.
Context {Order : HashOrder}.

Lemma choose_pool fuel draw i now cs p :
  match choose fuel draw i now cs p with
  | (None, p') => p' = p
  | (Some b, p') => breaker_admit now (name b) p = (true, p')
  end.
Proof.
  revert i cs. induction fuel as [|fuel IH]; intros i cs; cbn [choose]; [done|].
  destruct (_ =? 0)%Z; [done|]. destruct (select_or_last _ _) as [b|]; [|done].
  destruct (breaker_admit now (name b) p) as [[] p'] eqn:E; [done|]. apply breaker_admit_refused in E as ->.
  destruct (is_empty _); [done|]. apply IH.
Qed.

(** No decision, no change; a decision admits its backend. *)
Lemma decide_pool draw now r p :
  match decide_route draw now r p with
  | (None, p') => p' = p
  | (Some d, p') => breaker_admit now (name (backend d)) p = (true, p')
  end.
Proof.
  unfold decide_route. destruct (mode r).
  - destruct (is_empty _); [done|]. pose proof (choose_pool (length (candidates now p)) draw 0 now (candidates now p) p) as H.
    by destruct (choose _ _ _ _ _ _) as [[b|] p'].
  - destruct (primary_backend r ≫= _) as [b|]; [|done]. destruct (_ || _); [done|].
    destruct (breaker_admit now (name b) p) as [[] p'] eqn:E; cbn; [done|]. by apply breaker_admit_refused in E.
  - destruct (is_empty _); [done|]. pose proof (choose_pool (length (candidates now p)) draw 0 now (candidates now p) p) as H.
    by destruct (choose _ _ _ _ _ _) as [[b|] p'].
Qed.
End Decisions.

(** ** The system *)

Inductive Task := Primary (t : Pending) | Queued (m : ShadowTask) | Mirroring (m : ShadowTask).

(** The pool and the tasks in flight; [lost] is the history of the requests
    that were dropped. *)
Record Sys := mkSys { pool : BackendPool; tasks : gmap nat Task; lost : list Pending }.

(** The breaker a task has been admitted by. *)
Definition holds (t : Task) (n : bytes) : Prop :=
  match t with
  | Primary t => name (backend (decision t)) = n
  | Mirroring m => name (s_shadow m) = n
  | Queued _ => False
  end.

#[export] Instance holds_dec t n : Decision (holds t n).
Proof. destruct t; cbn; apply _. Defined.

Section System.
Context {HM : HeaderMap} {Order : HashOrder} {Sha : Sha256}.

(** The answer of the backend arrives: the task ends, and may leave a
    mirrored request behind. *)
Definition finish (now : Z) (cap : nat) (err : bytes) (t : Task) (res : Response + ForwardError) (p : BackendPool) :
    option (BackendPool * option Task) :=
  match t with
  | Primary t =>
      if is_some (shadow (decision t))
      then match handle_shadow_finish now cap t res p with
           | Some (_, p', _, m) => Some (p', option_map Queued m)
           | None => None
           end
      else match handle_finish now t res p with Some (_, p', _) => Some (p', None) | None => None end
  | Queued _ => None
  | Mirroring m => match shadow_finish now cap err m res p with Some (_, p', _) => Some (p', None) | None => None end
  end.

Definition put (id : nat) (t : option Task) (ts : gmap nat Task) : gmap nat Task :=
  match t with Some t => <[id := t]> ts | None => delete id ts end.

(** [step_dropped]: the client goes away, or its connection is aborted at the
    end of a drain, and the future of the handler is dropped between its two
    halves.  Mirrored requests are detached tasks and run to their end. *)
Inductive step : Sys -> Sys -> Prop :=
| step_answered draw now uuid req r s resp p' :
    handle_begin draw now uuid req r (pool s) = (inl resp, p') -> step s (mkSys p' (tasks s) (lost s))
| step_accepted draw now uuid req r s id t p' :
    handle_begin draw now uuid req r (pool s) = (inr t, p') -> parse_value uuid = Some uuid ->
    tasks s !! id = None -> step s (mkSys p' (<[id := Primary t]> (tasks s)) (lost s))
| step_finished now cap err res s id t p' spawned :
    tasks s !! id = Some t -> finish now cap err t res (pool s) = Some (p', spawned) ->
    step s (mkSys p' (put id spawned (tasks s)) (lost s))
| step_mirrored now s id m ok p' :
    tasks s !! id = Some (Queued m) -> breaker_admit now (name (s_shadow m)) (pool s) = (ok, p') ->
    step s (mkSys p' (put id (if ok then Some (Mirroring m) else None) (tasks s)) (lost s))
| step_probed c ok n s :
    step s (mkSys ((pool s) <| backends := alter (update_health c ok) n (backends (pool s)) |>) (tasks s) (lost s))
| step_weights ws s :
    step s (mkSys (apply_pool ws (pool s)) (tasks s) (lost s))
| step_dropped s id t :
    tasks s !! id = Some (Primary t) -> step s (mkSys (pool s) (delete id (tasks s)) (t :: lost s)).

Definition initial (s : Sys) : Prop := exists bs c now, s = mkSys (with_breaker_cfg bs c now) ∅ [].

Definition reachable (s : Sys) : Prop := exists s0, initial s0 /\ rtc step s0 s.

Definition task_ok (t : Task) : Prop :=
  match t with
  | Primary t => backend_name t = name (backend (decision t)) /\ parse_value (request_id t) = Some (request_id t)
  | Queued m | Mirroring m => valid_values (cap_headers (s_primary m))
  end.

Definition tasks_ok (s : Sys) : Prop := forall id t, tasks s !! id = Some t -> task_ok t.

(** A task in flight holds the breaker of [n]. *)
Definition owned (n : bytes) (s : Sys) : Prop := exists id t, tasks s !! id = Some t /\ holds t n.

(** A waiting breaker without an owner. *)
Definition stranded (n : bytes) (s : Sys) : Prop := half_open n (pool s) /\ ~ owned n s.

(** Every waiting breaker has a task that will resolve it, or had one that was
    dropped. *)
Definition probes_owned (s : Sys) : Prop :=
  forall n, half_open n (pool s) -> owned n s \/ exists t, t ∈ lost s /\ name (backend (decision t)) = n.

Lemma handle_begin_pending draw now uuid req r p t p' :
  handle_begin draw now uuid req r p = (inr t, p') -> parse_value uuid = Some uuid ->
  task_ok (Primary t) /\ breaker_admit now (name (backend (decision t))) p = (true, p').
Proof.
  intros H Hu. unfold handle_begin in H. destruct (is_excluded _ _); [done|].
  pose proof (decide_pool draw now r p) as Hd. destruct (decide_route draw now r p) as [[d|] q]; [|done].
  injection H as <- <-. split; [|exact Hd]. split; [done|]. by apply request_id_text.
Qed.

Lemma handle_begin_answered draw now uuid req r p resp p' :
  handle_begin draw now uuid req r p = (inl resp, p') -> p' = p.
Proof.
  unfold handle_begin. destruct (is_excluded _ _); [by intros [= _ <-]|].
  pose proof (decide_pool draw now r p) as Hd. destruct (decide_route draw now r p) as [[d|] q]; [done|].
  by intros [= _ <-].
Qed.

(** The end of a task resolves its breaker and touches no other; it
    cannot panic. *)
Lemma finish_resolves now cap err t res p n :
  task_ok t -> holds t n ->
  exists p' spawned, finish now cap err t res p = Some (p', spawned) /\
    (forall t', spawned = Some t' -> task_ok t' /\ forall k, ~ holds t' k) /\
    ~ half_open n p' /\ (forall k, half_open k p' -> half_open k p) /\
    (forall k, k <> n -> half_open k p -> half_open k p').
Proof.
  intros Hok Hn.
  assert (Hrec : forall ok, let p' := record_outcome now n ok p in
            ~ half_open n p' /\ (forall k, half_open k p' -> half_open k p) /\
            (forall k, k <> n -> half_open k p -> half_open k p')).
  { intros ok. split_and!; [|intros k..]; by apply (altered_half_open _ n p), record_not_half_open. }
  destruct t as [t|m|m]; cbn in Hn; [|done|].
  - destruct Hok as [Hb Hid]. rewrite Hn in Hb. unfold finish.
    destruct (shadow (decision t)) as [sh|] eqn:Es; cbn [is_some].
    + unfold handle_shadow_finish. rewrite Hb.
      destruct (read_capped (p_body t) cap) as [[[[rp rt] rtr] rr]|]; [|eexists _, _; split; [reflexivity|]; split; [done|]; apply Hrec].
      destruct res as [r|e]; [|eexists _, _; split; [reflexivity|]; split; [done|]; apply Hrec].
      destruct (read_capped (resp_body r) cap) as [[[[bp bt] btr] br]|]; [|eexists _, _; split; [reflexivity|]; split; [done|]; apply Hrec].
      unfold rebuild_shadow_response_headers.
      destruct (set_request_id_some (request_id t)
        (foldl append_parsed hm_empty (text_headers (strip_hop_by_hop (resp_headers r)))) Hid) as (hs & -> & _).
      cbn [mbind option_bind]. eexists _, _. split; [done|]. split; [|apply Hrec].
      unfold dispatch_shadow. rewrite Es. intros t' [= <-]. split; [|by intros k []]. apply text_headers_valid.
    + unfold handle_finish. rewrite Hb. destruct res as [r|e]; [|eexists _, _; split; [reflexivity|]; split; [done|]; apply Hrec].
      destruct (set_request_id_some (request_id t) (strip_hop_by_hop (resp_headers r)) Hid) as (hs & -> & _).
      cbn [mbind option_bind]. eexists _, _; split; [reflexivity|]; split; [done|]; apply Hrec.
  - unfold finish, shadow_finish. rewrite Hn. destruct res as [r|e].
    + destruct (read_capped (resp_body r) cap) as [[[[bp bt] btr] br]|]; [|eexists _, _; split; [reflexivity|]; split; [done|]; apply Hrec].
      destruct (diff_responses_some (s_primary m) (mkCaptured (status r) (text_headers (resp_headers r)) bp btr)
                 (mkCtx (path (s_uri m)) (s_method m) (s_request_id m)) Hok (text_headers_valid _)) as [ds ->].
      cbn [mbind option_bind]. eexists _, _; split; [reflexivity|]; split; [done|]; apply Hrec.
    + destruct e as [e|]; [eexists _, _; split; [reflexivity|]; split; [done|]; apply Hrec|]. eexists _, _. split; [done|]. split; [done|].
      split_and!; [|intros k..]; by apply (altered_half_open _ n p), release_not_half_open.
Qed.

Lemma finish_holds now cap err t res p r : finish now cap err t res p = Some r -> exists n, holds t n.
Proof. destruct t as [t|m|m]; [eexists; done|done|eexists; done]. Qed.

Lemma lookup_put id o ts k : put id o ts !! k = if decide (k = id) then o else ts !! k.
Proof.
  unfold put. destruct o as [t|], (decide (k = id)) as [->|Hk].
  - apply lookup_insert_eq.
  - by apply lookup_insert_ne.
  - apply lookup_delete_eq.
  - by apply lookup_delete_ne.
Qed.

Lemma step_tasks_ok s s' : step s s' -> tasks_ok s -> tasks_ok s'.
Proof.
  intros Hst Hok. destruct Hst as [| ? ? ? ? ? s id t p' Hb Hu Hf| ? ? ? ? s id t p' sp Ht Hfin| ? s id m ok p' Ht Ha| | |s id t Ht].
  - exact Hok.
  - intros k x. cbn. destruct (decide (k = id)) as [->|Hk].
    + rewrite lookup_insert_eq. intros [= <-]. by apply (handle_begin_pending _ _ _ _ _ _ _ _ Hb Hu).
    + rewrite lookup_insert_ne by done. apply Hok.
  - intros k x. cbn. rewrite lookup_put. destruct (decide (k = id)) as [->|Hk]; [|apply Hok]. intros ->.
    destruct (finish_holds _ _ _ _ _ _ _ Hfin) as [n Hn].
    destruct (finish_resolves now cap err t res (pool s) n (Hok _ _ Ht) Hn) as (q & sp' & E & Hsp & _).
    rewrite Hfin in E. injection E as <- <-. by apply Hsp.
  - intros k x. cbn. rewrite lookup_put. destruct (decide (k = id)) as [->|Hk]; [|apply Hok].
    destruct ok; [|done]. intros [= <-]. exact (Hok _ _ Ht).
  - exact Hok.
  - exact Hok.
  - intros k x. cbn. intros [_ Hx]%lookup_delete_Some. by apply (Hok k).
Qed.

(** An owner that is not the task of this step stays. *)
Lemma owned_other n s p id o l :
  (forall t, tasks s !! id = Some t -> ~ holds t n) -> owned n s -> owned n (mkSys p (put id o (tasks s)) l).
Proof.
  intros Hid (k & x & Hx & Hh). exists k, x. split; [|done]. cbn [tasks]. rewrite lookup_put, decide_False; [done|].
  intros ->. by apply (Hid x).
Qed.

Lemma owned_new n s p id t l : holds t n -> owned n (mkSys p (put id (Some t) (tasks s)) l).
Proof. intros H. exists id, t. cbn [tasks]. by rewrite lookup_put, decide_True. Qed.

(** Owners come from new tasks only. *)
Lemma owned_put n s p id o l :
  owned n (mkSys p (put id o (tasks s)) l) -> owned n s \/ exists t, o = Some t /\ holds t n.
Proof.
  intros (k & x & Hx & Hh). cbn [tasks] in Hx. rewrite lookup_put in Hx. destruct (decide (k = id)) as [->|].
  - right. eauto.
  - left. by exists k, x.
Qed.

Lemma holds_fun t n k : holds t n -> holds t k -> n = k.
Proof. destruct t; cbn; [congruence|done|congruence]. Qed.

Lemma step_probes_owned s s' : step s s' -> tasks_ok s -> probes_owned s -> probes_owned s'.
Proof.
  intros Hst Hok Hown. destruct Hst as [? ? ? ? ? s resp p' Hb| ? ? ? ? ? s id t p' Hb Hu Hf| ? ? ? ? s id t p' sp Ht Hfin
    | ? s id m ok p' Ht Ha| | |s id t Ht]; [| | | |exact Hown|exact Hown|]; intros n Hn; cbn [pool] in Hn.
  - apply handle_begin_answered in Hb as ->. exact (Hown n Hn).
  - apply handle_begin_pending in Hb as [_ Ha]; [|done].
    destruct (breaker_admit_granted _ _ _ _ n Ha) as (_ & Hnew & _).
    destruct (Hnew Hn) as [->|[Ho|Hl]%Hown]; [left; by apply (owned_new _ s p' id (Primary t))| |by right].
    left. apply (owned_other n s p' id (Some (Primary t))); [congruence|done].
  - destruct (finish_holds _ _ _ _ _ _ _ Hfin) as [m Hm].
    destruct (finish_resolves now cap err t res (pool s) m (Hok _ _ Ht) Hm) as (q & sp' & E & _ & Hno & Hold & _).
    rewrite Hfin in E. injection E as <- <-. destruct (Hown n (Hold n Hn)) as [Ho|Hl]; [left|by right].
    apply owned_other; [|done]. intros x Hx Hh. rewrite Ht in Hx. injection Hx as <-.
    by rewrite (holds_fun t n m Hh Hm) in Hn.
  - assert (Hq : forall x, tasks s !! id = Some x -> ~ holds x n) by (intros x Hx; rewrite Ht in Hx; injection Hx as <-; tauto).
    destruct ok.
    + destruct (breaker_admit_granted _ _ _ _ n Ha) as (_ & Hnew & _).
      destruct (Hnew Hn) as [->|[Ho|Hl]%Hown]; [left; by apply (owned_new _ s p' id (Mirroring m))|left; by apply owned_other|by right].
    + apply breaker_admit_refused in Ha as ->. destruct (Hown n Hn) as [Ho|Hl]; [left; by apply owned_other|by right].
  - destruct (Hown n Hn) as [(k & x & Hx & Hh)|(x & Hx & E)]; [|right; exists x; split; [by right|done]].
    destruct (decide (k = id)) as [->|Hk].
    + right. exists t. rewrite Ht in Hx. injection Hx as <-. split; [by left|exact Hh].
    + left. exists k, x. cbn. by rewrite lookup_delete_ne.
Qed.

Lemma proxy_inv s : reachable s -> tasks_ok s /\ probes_owned s.
Proof.
  intros (s0 & (bs & c & now & ->) & H).
  assert (H0 : tasks_ok (mkSys (with_breaker_cfg bs c now) ∅ []) /\ probes_owned (mkSys (with_breaker_cfg bs c now) ∅ [])).
  { split; [intros id t; cbn; by rewrite lookup_empty|]. intros n (b & Hb & Hs). cbn in Hb. unfold Breakers_from_config in Hb. rewrite lookup_fmap in Hb.
    destruct (bs !! n); [|done]. injection Hb as <-. done. }
  revert H0. induction H as [|s s1 s2 Hst _ IH]; [done|]. intros [H1 H2]. apply IH.
  split; [by eapply step_tasks_ok|by eapply step_probes_owned].
Qed.

(** A stranded breaker stays stranded. *)
Lemma step_stranded n s s' : step s s' -> tasks_ok s -> stranded n s -> stranded n s'.
Proof.
  intros Hst Hok [Hn Hno]. destruct Hst as [? ? ? ? ? s resp p' Hb| ? ? ? ? ? s id t p' Hb Hu Hf| ? ? ? ? s id t p' sp Ht Hfin
    | ? s id m ok p' Ht Ha| | |s id t Ht].
  - by apply handle_begin_answered in Hb as ->.
  - apply handle_begin_pending in Hb as [_ Ha]; [|done].
    destruct (breaker_admit_granted _ _ _ _ n Ha) as (Hna & _ & Hkeep).
    assert (n <> name (backend (decision t))) by (intros ->; done). split; [by apply Hkeep|].
    intros [?|(x & [= <-] & Hx)]%(owned_put n s p' id (Some (Primary t))); [done|]. cbn in Hx. congruence.
  - destruct (finish_holds _ _ _ _ _ _ _ Hfin) as [k Hk].
    destruct (finish_resolves now cap err t res (pool s) k (Hok _ _ Ht) Hk) as (q & sp' & E & Hsp & _ & _ & Hkeep).
    rewrite Hfin in E. injection E as <- <-. assert (n <> k) by (intros ->; apply Hno; by exists id, t).
    split; [by apply Hkeep|]. intros [?|(x & -> & Hx)]%owned_put; [done|]. by apply (Hsp x eq_refl) in Hx.
  - destruct ok.
    + destruct (breaker_admit_granted _ _ _ _ n Ha) as (Hna & _ & Hkeep).
      assert (n <> name (s_shadow m)) by (intros ->; done). split; [by apply Hkeep|].
      intros [?|(x & [= <-] & Hx)]%owned_put; [done|]. cbn in Hx. congruence.
    + apply breaker_admit_refused in Ha as ->. split; [done|]. by intros [?|(x & [=] & _)]%owned_put.
  - by split.
  - by split.
  - split; [done|]. intros (k & x & Hx & Hh). cbn [tasks] in Hx. apply lookup_delete_Some in Hx as [_ Hx].
    apply Hno. by exists k, x.
Qed.

Lemma run_stranded n s s' : rtc step s s' -> tasks_ok s -> stranded n s -> stranded n s'.
Proof. induction 1 as [|x y z Hst _ IH]; [done|]. intros. apply IH; [by eapply step_tasks_ok|by eapply step_stranded]. Qed.

Lemma stranded_not_chosen n s draw now r d p' :
  stranded n s -> decide_route draw now r (pool s) = (Some d, p') -> name (backend d) <> n.
Proof.
  intros [Hn _] E Hd. pose proof (decide_pool draw now r (pool s)) as Ha. rewrite E in Ha. subst n.
  by destruct (breaker_admit_granted _ _ _ _ (name (backend d)) Ha) as (? & _).
Qed.

Lemma owned_decide n s : owned n s \/ ~ owned n s.
Proof.
  destruct (decide (Exists (fun x => holds x.2 n) (map_to_list (tasks s)))) as [H|H].
  - left. apply Exists_exists in H as ([k t] & Ht%elem_of_map_to_list & Hh). by exists k, t.
  - right. intros (k & t & Ht & Hh). apply H, Exists_exists. exists (k, t). split; [by apply elem_of_map_to_list|done].
Qed.

(** C6: who resolves a half-open breaker: in every reachable state of the
    proxy, with any number of concurrent requests and mirrored requests, some
    of them dropped because their client went away or their connection was
    aborted, each half-open breaker is in one of two cases.  Either a request
    in flight was admitted by it, and whatever the backend answers (or fails
    to) when that request ends, its handler does not panic and the breaker is
    not half-open afterwards.  Or the request that it had admitted was dropped;
    then the breaker stays half-open in every later state, and no routing
    decision ever chooses its backend again.  So when nothing is in flight and
    no request was ever dropped, no breaker is half-open. *)
Theorem probes_are_resolved s :
  reachable s ->
  (forall n, half_open n (pool s) ->
     (exists id t, tasks s !! id = Some t /\ holds t n /\
        forall now cap err res, exists p' spawned,
          finish now cap err t res (pool s) = Some (p', spawned) /\ ~ half_open n p') \/
     (exists t, t ∈ lost s /\ name (backend (decision t)) = n /\
        forall s', rtc step s s' -> half_open n (pool s') /\
          forall draw now r d p', decide_route draw now r (pool s') = (Some d, p') -> name (backend d) <> n)) /\
  (tasks s = ∅ -> lost s = [] -> forall n, ~ half_open n (pool s)).
Proof.
  intros [Hok Hown]%proxy_inv. split.
  - intros n Hn. destruct (owned_decide n s) as [(id & t & Ht & Hh)|Hno].
    + left. exists id, t. split; [done|]. split; [done|]. intros now cap err res.
      destruct (finish_resolves now cap err t res (pool s) n (Hok _ _ Ht) Hh) as (p' & sp & E & _ & Hno & _). eauto.
    + right. destruct (Hown n Hn) as [?|(t & Ht & E)]; [done|]. exists t. split; [done|]. split; [done|].
      intros s' Hrun. apply (run_stranded n) in Hrun; [|done|done]. split; [apply Hrun|].
      intros draw now r d p'. by apply stranded_not_chosen.
  - intros E El n Hn. destruct (Hown n Hn) as [(id & t & Ht & _)|(t & Ht & _)].
    + rewrite E, lookup_empty in Ht. done.
    + rewrite El in Ht. by apply not_elem_of_nil in Ht.
Qed.

(** The second case happens: when the one request that a half-open breaker
    admitted is dropped before its answer, the breaker is stranded. *)
Theorem dropped_probe_strands s id t n s1 s' :
  reachable s -> half_open n (pool s) ->
  (forall k x, tasks s !! k = Some x -> holds x n -> k = id) ->
  tasks s !! id = Some (Primary t) -> s1 = mkSys (pool s) (delete id (tasks s)) (t :: lost s) -> rtc step s1 s' ->
  step s s1 /\ half_open n (pool s') /\
  forall draw now r d p', decide_route draw now r (pool s') = (Some d, p') -> name (backend d) <> n.
Proof.
  intros [Hok _]%proxy_inv Hn Hone Ht -> Hrun. pose proof (step_dropped s id t Ht) as Hs.
  apply (run_stranded n) in Hrun as Hst; [|by eapply step_tasks_ok|].
  - split; [done|]. split; [apply Hst|]. intros draw now r d p'. by apply stranded_not_chosen.
  - split; [done|]. intros (k & x & Hx & Hh). cbn [tasks] in Hx. apply lookup_delete_Some in Hx as [Hk Hx]. by destruct Hk; symmetry; apply (Hone k x).
Qed.
End System.

(** ** A run that opens a breaker and starts a probe *)

Module Demo.
Definition circuit : CircuitConfig := mkCircuit (f64_of_Z 0) 30 1.
Definition pool0 : BackendPool :=
  with_breaker_cfg {[B "c" := mkBackendConfig (B "127.0.0.1:8081") 1 (B "/")]} circuit 0.
Definition routing0 : RoutingConfig := mkRouting ActiveActive None None [].
Definition begin_at (now : Z) (p : BackendPool) : (Response + Pending) * BackendPool :=
  @handle_begin Assoc.headers list_order (fun _ _ => 0%Z) now (B "id") demo_inbound routing0 p.
Definition pending_of (r : (@Response Assoc.headers + Pending) * BackendPool) : Pending :=
  match r.1 with inr t => t | inl _ => demo_pending end.
Definition finish_at (now : Z) (t : Pending) (p : BackendPool) : option (BackendPool * option Task) :=
  @finish Assoc.headers toy_digest now 8 [] (Primary t) (inr (RequestFailed [])) p.

Definition first := begin_at 0 pool0.
Definition failed : BackendPool := match finish_at SEC (pending_of first) first.2 with Some (p, _) => p | None => pool0 end.
Definition probe := begin_at (10 * SEC) failed.

Definition sys0 : Sys := mkSys pool0 ∅ [].
Definition sys1 : Sys := mkSys first.2 (<[0%nat := Primary (pending_of first)]> (tasks sys0)) [].
Definition sys2 : Sys := mkSys failed (put 0 None (tasks sys1)) [].
Definition sys3 : Sys := mkSys probe.2 (<[0%nat := Primary (pending_of probe)]> (tasks sys2)) [].

Lemma first_accepted : begin_at 0 pool0 = (inr (pending_of first), first.2).
Proof. vm_cast_no_check (eq_refl (begin_at 0 pool0)). Qed.

Lemma first_failed : finish_at SEC (pending_of first) first.2 = Some (failed, None).
Proof. vm_cast_no_check (eq_refl (finish_at SEC (pending_of first) first.2)). Qed.

Lemma probe_accepted : begin_at (10 * SEC) failed = (inr (pending_of probe), probe.2).
Proof. vm_cast_no_check (eq_refl (begin_at (10 * SEC) failed)). Qed.

Lemma sys3_reachable : @reachable Assoc.headers list_order toy_digest sys3.
Proof.
  exists sys0. split; [by eexists _, _, _|].
  apply rtc_l with sys1; [|apply rtc_l with sys2; [|apply rtc_once]].
  - exact (@step_accepted Assoc.headers list_order toy_digest (fun _ _ => 0%Z) 0 (B "id") demo_inbound routing0 sys0 0
             (pending_of first) first.2 first_accepted eq_refl eq_refl).
  - exact (@step_finished Assoc.headers list_order toy_digest SEC 8 [] (inr (RequestFailed [])) sys1 0
             (Primary (pending_of first)) failed None eq_refl first_failed).
  - exact (@step_accepted Assoc.headers list_order toy_digest (fun _ _ => 0%Z) (10 * SEC) (B "id") demo_inbound routing0
             sys2 0 (pending_of probe) probe.2 probe_accepted eq_refl eq_refl).
Qed.

Lemma sys3_half_open : half_open (B "c") (pool sys3).
Proof. eexists. split; vm_compute; reflexivity. Qed.

Lemma sys3_task (k : nat) t : tasks sys3 !! k = Some t -> k = 0%nat.
Proof.
  destruct (decide (k = 0%nat)) as [->|Hk]; [done|]. unfold sys3, sys2, sys1, sys0. cbn [tasks put].
  by rewrite lookup_insert_ne, lookup_delete_ne, lookup_insert_ne, lookup_empty.
Qed.
(** A request is in flight, then it is dropped. *)
Definition sys4 : Sys := mkSys (pool sys3) (delete 0%nat (tasks sys3)) (pending_of probe :: lost sys3).

Lemma sys3_dropped : @step Assoc.headers list_order toy_digest sys3 sys4.
Proof. apply step_dropped. apply lookup_insert_eq. Qed.

Lemma sys4_reachable : @reachable Assoc.headers list_order toy_digest sys4.
Proof.
  destruct sys3_reachable as (s0 & H0 & H). exists s0. split; [done|].
  eapply rtc_r; [exact H|exact sys3_dropped].
Qed.
End Demo.

Lemma probes_are_resolved_witness :
  (exists id t, tasks Demo.sys3 !! id = Some t /\ holds t (B "c")) /\
  (exists t, t ∈ lost Demo.sys4 /\ name (backend (decision t)) = B "c" /\
     forall s', rtc (@step Assoc.headers list_order toy_digest) Demo.sys4 s' -> half_open (B "c") (pool s')).
Proof.
  split.
  - destruct (proj1 (@probes_are_resolved Assoc.headers list_order toy_digest Demo.sys3 Demo.sys3_reachable) (B "c")
           Demo.sys3_half_open) as [(id & t & H1 & H2 & _)|(t & Ht & _)]; [by exists id, t|].
    by apply not_elem_of_nil in Ht.
  - destruct (proj1 (@probes_are_resolved Assoc.headers list_order toy_digest Demo.sys4 Demo.sys4_reachable) (B "c")
           Demo.sys3_half_open) as [(id & t & Ht & _)|(t & H1 & H2 & H3)].
    + unfold Demo.sys4 in Ht. cbn [tasks] in Ht. apply lookup_delete_Some in Ht as [Hid Ht]. by destruct Hid; symmetry; apply (Demo.sys3_task id t).
    + exists t. split; [done|]. split; [done|]. intros s' Hs. by apply H3.
Defined.

Lemma dropped_probe_strands_witness :
  half_open (B "c") (pool Demo.sys4) /\
  forall draw now r d p',
    @decide_route list_order draw now r (pool Demo.sys4) = (Some d, p') -> name (backend d) <> B "c".
Proof.
  apply (@dropped_probe_strands Assoc.headers list_order toy_digest Demo.sys3 0 (Demo.pending_of Demo.probe) (B "c")
    Demo.sys4 Demo.sys4 Demo.sys3_reachable Demo.sys3_half_open); [|apply lookup_insert_eq|done|apply rtc_refl].
  intros k t Ht _. by apply (Demo.sys3_task k t).
Defined.
