(* ===== verification/ProxySystem.v ===== *)
(** * The migration proxy as a whole (rust/crates/thttpd-migrate/src/lib.rs,
      main.rs, and the commands of state.rs and control.rs beside the requests
      of server.rs)

    [LiveState] has a command as one step.  In the running proxy only other
    commands are kept out by the control lock: the weights of the pool are
    written one by one and the configuration is stored last, while requests
    load the configuration, are routed and answered on other threads.  This
    file has the single writes, shows that together they are the one step, and
    what a request can see in between.  [start] puts the parts together. *)

From S2P Require Import Prelude RustStr Breaker Backend Router MigrateConfig LiveState Control.
From S2P Require Import Diff Forwarder Proxy ProxyRun.

(** ** Commands, write by write *)

Inductive Command := SetWeights (ws : gmap (list ascii) Z) | RollBack (target : bytes).

(** The command that holds the control lock: its weights, those still to be
    written, and the target of a rollback. *)
Record Job := mkJob {
  job_weights : gmap (list ascii) Z;
  writes : list (list ascii * Z);
  job_target : option bytes;
}.

(** [set_weight] of the backend found under the name. *)
Definition write_weight (p : BackendPool) (nw : list ascii * Z) : BackendPool :=
  p <| backends := alter (set_weight nw.2) nw.1 (backends p) |>.

Section Commands.
Context {Order : HashOrder}.

(** The checks of a command, and the writes it sets out to make. *)
Definition begin_command (c : Command) (p : BackendPool) : Job + CommandError :=
  match c with
  | SetWeights ws =>
      match check_weights ws p with
      | Some e => inr e
      | None => inl (mkJob ws (iter ws) None)
      end
  | RollBack target =>
      match check_target target p with
      | Some e => inr e
      | None => let ws := rollback_weights target p in inl (mkJob ws (iter ws) (Some target))
      end
  end.

(** [self.config.store]: the last write. *)
Definition store_config (j : Job) (s : LiveState) : LiveState :=
  s <| live_config :=
    match job_target j with
    | None => apply_config (job_weights j) (live_config s)
    | Some target => rollback_config target (job_weights j) (live_config s)
    end |>.

Definition command_step (c : Command) (s : LiveState) (p : BackendPool) :
    (LiveState * BackendPool) + CommandError :=
  match c with SetWeights ws => set_weights ws s p | RollBack target => rollback target s p end.

(** *** The writes together are the one step *)

Lemma lookup_writes l p n :
  backends (foldl write_weight p l) !! n =
  (fun b => foldl (fun b nw => if bool_decide (nw.1 = n) then set_weight nw.2 b else b) b l)
    <$> backends p !! n.
Proof.
  revert p. induction l as [|[m w] l IH]; intros p; cbn [foldl].
  { by destruct (backends p !! n). }
  rewrite IH. cbn [backends write_weight fst snd].
  change (backends (write_weight p (m, w))) with (alter (set_weight w) m (backends p)).
  destruct (decide (m = n)) as [->|Hne].
  - rewrite lookup_alter_eq, bool_decide_true by done. by destruct (backends p !! n).
  - by rewrite lookup_alter_ne, bool_decide_false by done.
Qed.

Lemma foldl_writes_absent (n : list ascii) (l : list (list ascii * Z)) b :
  n ∉ l.*1 -> foldl (fun b nw => if bool_decide (nw.1 = n) then set_weight nw.2 b else b) b l = b.
Proof.
  revert b. induction l as [|[m w] l IH]; intros b Hn; [done|]. cbn [foldl fst snd].
  rewrite fmap_cons, not_elem_of_cons in Hn. destruct Hn as [H1 H2].
  rewrite bool_decide_false by (cbn in H1; congruence). by apply IH.
Qed.

(** Each name is written at most once. *)
Lemma foldl_writes_once (l : list (list ascii * Z)) n w b :
  NoDup l.*1 -> (n, w) ∈ l ->
  foldl (fun b nw => if bool_decide (nw.1 = n) then set_weight nw.2 b else b) b l = set_weight w b.
Proof.
  revert b. induction l as [|[m v] l IH]; intros b Hnd Hin; [by apply not_elem_of_nil in Hin|].
  rewrite fmap_cons in Hnd. apply NoDup_cons in Hnd as [Hm Hnd]. cbn [foldl fst snd] in *.
  apply elem_of_cons in Hin as [[= <- <-]|Hin].
  - rewrite bool_decide_true by done. by apply foldl_writes_absent.
  - assert (m <> n). { intros ->. apply Hm, list_elem_of_fmap. by exists (n, w). }
    rewrite bool_decide_false by done. by apply IH.
Qed.

Lemma iter_NoDup {A} (m : gmap (list ascii) A) : NoDup (iter m).*1.
Proof. rewrite iter_perm. apply NoDup_fst_map_to_list. Qed.

Lemma writes_apply ws p : foldl write_weight p (iter ws) = apply_pool ws p.
Proof.
  assert (H : backends (foldl write_weight p (iter ws)) = backends (apply_pool ws p)).
  { apply map_eq. intros n. rewrite lookup_writes, lookup_apply_pool.
    destruct (backends p !! n) as [b|]; [|done]. cbn. f_equal. destruct (ws !! n) as [w|] eqn:E.
    - apply foldl_writes_once; [apply iter_NoDup|by apply elem_of_iter].
    - apply foldl_writes_absent. intros ([m w] & -> & Hin)%list_elem_of_fmap.
      apply elem_of_iter in Hin. cbn in E. congruence. }
  assert (Hb : forall l q, breakers (foldl write_weight q l) = breakers q)
    by (induction l as [|x l IH]; intros q; [done|]; cbn [foldl]; by rewrite IH).
  specialize (Hb (iter ws) p). destruct (foldl write_weight p (iter ws)) as [bs br].
  cbn in *. subst. by destruct p.
Qed.

(** The commands as the code makes them give the commands as one step: the checks refuse what [set_weights] and [rollback] refuse, and the
    writes to the pool in the order of the hash map, followed by the store of
    the configuration, give exactly their result. *)
Lemma commands_refine c s p :
  command_step c s p =
    match begin_command c p with
    | inl j => inl (store_config j s, foldl write_weight p (writes j))
    | inr e => inr e
    end.
Proof.
  destruct c as [ws|target]; cbn [command_step begin_command].
  - unfold set_weights. destruct (check_weights ws p); [done|]. cbn [writes]. by rewrite writes_apply.
  - unfold rollback. destruct (check_target target p); [done|]. cbn [writes]. by rewrite writes_apply.
Qed.
(** The weight an operator asks for. *)
Definition wanted (c : Command) (n : bytes) (old : Z) : Z :=
  match c with
  | SetWeights ws => unwrap_or old (ws !! n)
  | RollBack target => if bool_decide (n = target) then 100 else 0
  end.

Definition mentions (c : Command) (n : bytes) : Prop :=
  match c with SetWeights ws => is_Some (ws !! n) | RollBack target => n = target end.

Lemma lookup_job_weights c p j n b :
  begin_command c p = inl j -> backends p !! n = Some b ->
  backends (apply_pool (job_weights j) p) !! n = Some (set_weight (wanted c n (weight b)) b).
Proof.
  intros Hj Hb. rewrite lookup_apply_pool, Hb. cbn [fmap option_fmap option_map]. f_equal.
  destruct c as [ws|target]; cbn [begin_command wanted] in *.
  - destruct (check_weights ws p); [done|]. injection Hj as <-. cbn. destruct (ws !! n); [done|].
    destruct b as [? [] ? ? ?]. done.
  - destruct (check_target target p); [done|]. injection Hj as <-. cbn. unfold rollback_weights.
    by rewrite map_lookup_imap, Hb.
Qed.

(** C37: what a weight command does, all its writes and the final store
    taken together.  It is refused exactly when it names a backend that the
    pool does not have, or (for [set-weight]) when the weights that would
    result add up to zero in 64 bits; a refused command has made no write.  Otherwise each
    backend of the pool has the weight asked for (100 and 0 for a rollback, the
    old one if [set-weight] does not name it) and is unchanged in all else, no
    backend is added, the breakers are untouched, the configuration mirrors the
    pool, some backend has a positive weight, and a rollback in shadow mode has
    made its target the primary. *)
Theorem command_effect c s p :
  named p -> in_step s p ->
  match begin_command c p with
  | inr (UnknownBackend n) => mentions c n /\ backends p !! n = None
  | inr TotalWeightZero =>
      (forall n, mentions c n -> is_Some (backends p !! n)) /\
      exists ws, c = SetWeights ws /\ wrap_u64 (weight_sum (apply_config ws (live_config s))) = 0%Z
  | inl j =>
      let p' := foldl write_weight p (writes j) in let s' := store_config j s in
      (forall n, mentions c n -> is_Some (backends p !! n)) /\
      (forall n, backends p' !! n = (fun b => set_weight (wanted c n (weight b)) b) <$> backends p !! n) /\
      breakers p' = breakers p /\ in_step s' p' /\
      (exists n b, backends p' !! n = Some b /\ weight b <> 0%Z) /\
      match c with
      | SetWeights _ => routing (live_config s') = routing (live_config s)
      | RollBack target =>
          mode (routing (live_config s')) = mode (routing (live_config s)) /\
          (mode (routing (live_config s)) = Shadow -> primary_backend (routing (live_config s')) = Some target)
      end
  end.
Proof.
  intros Hn Hs. destruct (begin_command c p) as [j|e] eqn:Hj.
  - cbv zeta. assert (Ew : writes j = iter (job_weights j)).
    { destruct c; cbn in Hj; [destruct (check_weights ws p)|destruct (check_target target p)]; [done| |done|];
        by injection Hj as <-. }
    rewrite Ew, writes_apply.
    assert (Hl : forall n, backends (apply_pool (job_weights j) p) !! n =
                   (fun b => set_weight (wanted c n (weight b)) b) <$> backends p !! n).
    { intros n. destruct (backends p !! n) as [b|] eqn:Hb; [by apply lookup_job_weights|].
      by rewrite lookup_apply_pool, Hb. }
    assert (Hstep : in_step (store_config j s) (apply_pool (job_weights j) p)).
    { apply apply_in_step; [done|]. by destruct (job_target j). }
    destruct c as [ws|target]; cbn [begin_command mentions wanted] in *.
    + pose proof (check_weights_spec ws p) as Hc. destruct (check_weights ws p); [done|]. injection Hj as <-. cbn in *.
      destruct Hc as [Hk Ht]. split; [intros n [w Hw]; by apply (Hk n w)|]. split; [exact Hl|].
      split; [done|]. split; [done|]. split; [by apply prospective_positive|done].
    + unfold check_target in Hj. destruct (backends p !! target) as [bt|] eqn:Hb; [|done]. injection Hj as <-.
      split; [by intros n ->|]. split; [exact Hl|]. split; [done|]. split; [done|]. split.
      * exists target, (set_weight 100 bt). split; [|done]. rewrite Hl, Hb. cbn. by rewrite bool_decide_true.
      * cbn. split; [apply rollback_routing_mode|apply rollback_routing_primary].
  - destruct c as [ws|target]; cbn [begin_command mentions] in *.
    + pose proof (check_weights_spec ws p) as Hc. destruct (check_weights ws p) as [e'|]; [|done]. injection Hj as ->.
      destruct e as [n|]; [exact Hc|]. destruct Hc as [Hk Ht]. split; [intros n [w Hw]; by apply (Hk n w)|].
      exists ws. split; [done|]. by rewrite <- (prospective_sum ws s p Hn Hs).
    + unfold check_target in Hj. destruct (backends p !! target) eqn:Hb; [done|]. by injection Hj as <-.
Qed.
End Commands.

(** ** Requests and commands together *)

(** A request has loaded the configuration and is about to be routed, or is
    one of the tasks of [ProxyRun]. *)
Inductive Stage := Arriving (r : RoutingConfig) | Running (t : Task).

Record World := mkWorld {
  w_live : LiveState;
  w_pool : BackendPool;
  stages : gmap nat Stage;
  job : option Job;
  next_id : nat;
}.

#[export] Instance World_settable : Settable World := fun w =>
  mkWorld (w_live w) (w_pool w) (stages w) (job w) (next_id w).

Definition put_stage (id : nat) (t : option Task) (ss : gmap nat Stage) : gmap nat Stage :=
  match t with Some t => <[id := Running t]> ss | None => delete id ss end.

Section World.
Context {HM : HeaderMap} {Order : HashOrder} {Sha : Sha256}.

(** The serving side: the closure of [run_proxy_with_listener] loads the
    configuration, [handle] runs to its first wait, backends answer, mirrored
    requests start, clients go away (the future of the handler is dropped), and
    the health checker probes. *)
Inductive serve_step : World -> World -> Prop :=
| serve_arrive w :
    serve_step w (w <| stages := <[next_id w := Arriving (routing (live_config (w_live w)))]> (stages w) |>
                    <| next_id := S (next_id w) |>)
| serve_answered draw now uuid req r w id resp p' :
    stages w !! id = Some (Arriving r) ->
    handle_begin draw now uuid req r (w_pool w) = (inl resp, p') ->
    serve_step w (w <| w_pool := p' |> <| stages := delete id (stages w) |>)
| serve_accepted draw now uuid req r w id t p' :
    stages w !! id = Some (Arriving r) ->
    handle_begin draw now uuid req r (w_pool w) = (inr t, p') ->
    serve_step w (w <| w_pool := p' |> <| stages := <[id := Running (Primary t)]> (stages w) |>)
| serve_finished now cap err res w id t p' spawned :
    stages w !! id = Some (Running t) -> finish now cap err t res (w_pool w) = Some (p', spawned) ->
    serve_step w (w <| w_pool := p' |> <| stages := put_stage id spawned (stages w) |>)
| serve_mirrored now w id m ok p' :
    stages w !! id = Some (Running (Queued m)) ->
    breaker_admit now (name (s_shadow m)) (w_pool w) = (ok, p') ->
    serve_step w (w <| w_pool := p' |>
                    <| stages := put_stage id (if ok then Some (Mirroring m) else None) (stages w) |>)
| serve_dropped w id st :
    stages w !! id = Some st -> (forall t, st = Running t -> exists q, t = Primary q) ->
    serve_step w (w <| stages := delete id (stages w) |>)
| serve_probed c ok n w :
    serve_step w (w <| w_pool := (w_pool w) <| backends := alter (update_health c ok) n (backends (w_pool w)) |> |>).

(** A command takes the lock and makes its writes. *)
Inductive control_step : World -> World -> Prop :=
| control_begin c w j :
    job w = None -> begin_command c (w_pool w) = inl j -> control_step w (w <| job := Some j |>)
| control_write w j nw l :
    job w = Some j -> writes j = nw :: l ->
    control_step w (w <| w_pool := write_weight (w_pool w) nw |>
                      <| job := Some (mkJob (job_weights j) l (job_target j)) |>)
| control_store w j :
    job w = Some j -> writes j = [] ->
    control_step w (w <| w_live := store_config j (w_live w) |> <| job := None |>).

(** The writes of the command in progress, without a new one. *)
Definition write_step (w w' : World) : Prop :=
  exists j nw l, job w = Some j /\ writes j = nw :: l /\
    w' = w <| w_pool := write_weight (w_pool w) nw |>
           <| job := Some (mkJob (job_weights j) l (job_target j)) |>.

(** *** What the serving side leaves alone *)

(** The names, addresses and weights of a pool. *)
Definition same_weights (p q : BackendPool) : Prop :=
  forall n, (fun b => (name b, config b)) <$> backends p !! n = (fun b => (name b, config b)) <$> backends q !! n.

Lemma same_weights_backends p q : backends p = backends q -> same_weights p q.
Proof. intros E n. by rewrite E. Qed.

Lemma breaker_admit_backends now n p ok p' : breaker_admit now n p = (ok, p') -> backends p' = backends p.
Proof.
  unfold breaker_admit. destruct (breakers p !! n); [|by intros [= _ <-]].
  destruct (Breaker.try_admit _ _). by intros [= _ <-].
Qed.

Lemma handle_begin_backends draw now uuid req r p out p' :
  handle_begin draw now uuid req r p = (out, p') -> backends p' = backends p.
Proof.
  unfold handle_begin. destruct (is_excluded _ _); [by intros [= _ <-]|].
  pose proof (decide_pool draw now r p) as Hd. destruct (decide_route draw now r p) as [[d|] q].
  - intros [= _ <-]. by eapply breaker_admit_backends.
  - by intros [= _ <-]; subst.
Qed.

Lemma finish_backends now cap err t res p p' spawned :
  finish now cap err t res p = Some (p', spawned) -> backends p' = backends p.
Proof.
  unfold finish, handle_shadow_finish, handle_finish, shadow_finish, mbind, option_bind.
  intros H. repeat case_match; simplify_eq; done.
Qed.

(** A finished task leaves at most a mirrored request behind. *)
Lemma finish_spawns now cap err t res p p' t' :
  finish now cap err t res p = Some (p', Some t') -> exists m, t' = Queued m.
Proof.
  unfold finish. intros H. destruct t as [t|m|m]; [|done|].
  - destruct (is_some _).
    + destruct (handle_shadow_finish _ _ _ _ _) as [[[[? ?] ?] [m|]]|]; [|done..].
      injection H as _ <-. by exists m.
    + by destruct (handle_finish _ _ _ _) as [[[? ?] ?]|].
  - by destruct (shadow_finish _ _ _ _ _ _) as [[[? ?] ?]|].
Qed.

Lemma serve_step_keeps w w' :
  serve_step w w' -> same_weights (w_pool w') (w_pool w) /\ w_live w' = w_live w /\ job w' = job w /\ (next_id w <= next_id w')%nat.
Proof.
  destruct 1 as [w|????? w ???? H|????? w ???? H|???? w ???? H1 H2|? w ???? H1 H2|w id st H1 H2|c ok n w];
    (split; [|split_and!; [done|done|cbn; lia]]).
  - done.
  - by eapply same_weights_backends, handle_begin_backends.
  - by eapply same_weights_backends, handle_begin_backends.
  - by eapply same_weights_backends, finish_backends.
  - by eapply same_weights_backends, breaker_admit_backends.
  - done.
  - intros m. cbn. destruct (decide (m = n)) as [->|Hm]; [|by rewrite lookup_alter_ne].
    rewrite lookup_alter_eq. destruct (backends (w_pool w) !! n) as [b|]; [|done]. cbn.
    by destruct (update_health_config c ok b) as [-> ->].
Qed.

(** *** Reachable worlds *)

Definition initial_world (c : ProxyConfig) (now : Z) : World :=
  mkWorld (LiveState_new c) (with_breaker_cfg (proxy_backends c) (circuit_breaker c) now) ∅ None 0.

Definition world_step (w w' : World) : Prop := serve_step w w' \/ control_step w w'.

Definition world_reachable (w : World) : Prop := exists c now, rtc world_step (initial_world c now) w.

Record world_ok (w : World) : Prop := {
  wo_named : named (w_pool w);
  wo_ids : forall id st, stages w !! id = Some st -> (id < next_id w)%nat;
}.

Lemma same_weights_named p q : same_weights p q -> named q -> named p.
Proof.
  intros H Hq n b Hb. specialize (H n). rewrite Hb in H. symmetry in H.
  apply fmap_Some in H as (x & Hx & [= -> _]). exact (Hq n x Hx).
Qed.

Lemma write_weight_named p nw : named p -> named (write_weight p nw).
Proof.
  intros H n b. cbn. destruct (decide (n = nw.1)) as [->|Hn].
  - rewrite lookup_alter_eq. intros (x & Hx & ->)%fmap_Some. exact (H _ _ Hx).
  - rewrite lookup_alter_ne by done. apply H.
Qed.

Lemma serve_step_ids w w' :
  serve_step w w' -> (forall id st, stages w !! id = Some st -> (id < next_id w)%nat) ->
  forall id st, stages w' !! id = Some st -> (id < next_id w')%nat.
Proof.
  assert (Hput : forall id0 o (ss : gmap nat Stage) n,
    (forall id st, ss !! id = Some st -> (id < n)%nat) -> is_Some (ss !! id0) ->
    forall id st, put_stage id0 o ss !! id = Some st -> (id < n)%nat).
  { intros id0 o ss n H [x Hx] id st. unfold put_stage. destruct o as [t|].
    - destruct (decide (id = id0)) as [->|]; [intros _; by apply (H id0 x)|]. rewrite lookup_insert_ne by done. apply H.
    - intros [_ E]%lookup_delete_Some. by apply (H id st). }
  destruct 1 as [w|????? w id ??? H|????? w id t ?? H|???? w id t ?? H1 H2|? w id m ?? H1 H2|w id st0 H1 H2|c ok n w]; intros Hids i st; cbn.
  - destruct (decide (i = next_id w)) as [->|]; [lia|]. rewrite lookup_insert_ne by done. intros E%Hids. lia.
  - apply (Hput id None _ _ Hids). by eexists.
  - apply (Hput id (Some (Primary t)) _ _ Hids). by eexists.
  - apply (Hput id _ _ _ Hids). by eexists.
  - apply (Hput id _ _ _ Hids). by eexists.
  - apply (Hput id None _ _ Hids). by eexists.
  - apply Hids.
Qed.

Lemma serve_step_ok w w' : serve_step w w' -> world_ok w -> world_ok w'.
Proof.
  intros Hs [H1 H2]. split; [|by eapply serve_step_ids].
  eapply same_weights_named; [apply (serve_step_keeps _ _ Hs)|done].
Qed.

Lemma world_step_ok w w' : world_step w w' -> world_ok w -> world_ok w'.
Proof.
  intros [Hs|Hs]; [by apply serve_step_ok|]. intros [H1 H2].
  destruct Hs; split; try done. by apply write_weight_named.
Qed.

Lemma world_reachable_ok w : world_reachable w -> world_ok w.
Proof.
  intros (c & now & H). assert (H0 : world_ok (initial_world c now)).
  { split; [apply with_breaker_cfg_named|]. intros id st. cbn. by rewrite lookup_empty. }
  revert H0. induction H as [|x y z Hst _ IH]; [done|]. intros H0. apply IH. by eapply world_step_ok.
Qed.

(** *** A rollback takes effect *)

(** While a rollback is writing: the others are at 0 or still to be written. *)
Definition rolling (target : bytes) (w : World) : Prop :=
  exists j, job w = Some j /\ job_target j = Some target /\
    Forall (fun nw => nw.1 <> target -> nw.2 = 0%Z) (writes j) /\
    forall n b, backends (w_pool w) !! n = Some b -> n <> target -> n ∉ (writes j).*1 -> weight b = 0%Z.

Lemma rolling_begins target w j :
  begin_command (RollBack target) (w_pool w) = inl j -> rolling target (w <| job := Some j |>).
Proof.
  cbn [begin_command]. unfold check_target. destruct (backends (w_pool w) !! target) as [bt|]; [|done]. intros [= <-].
  eexists. split; [done|]. split; [done|]. cbn [writes]. split.
  - apply Forall_forall. intros [n v] Hin Hne. apply elem_of_iter in Hin. unfold rollback_weights in Hin.
    rewrite map_lookup_imap in Hin. destruct (backends (w_pool w) !! n); [|done]. injection Hin as <-.
    by rewrite bool_decide_false.
  - intros n b Hb _ Hin. cbn in Hb. destruct Hin. apply list_elem_of_fmap.
    eexists (n, _). split; [done|]. apply elem_of_iter. unfold rollback_weights. rewrite map_lookup_imap, Hb. done.
Qed.

Lemma rolling_step target w w' : serve_step w w' \/ write_step w w' -> rolling target w -> rolling target w'.
Proof.
  intros Hs (j & Hj & Ht & Hz & Hd). destruct Hs as [Hs|(j' & [n v] & l & Hj' & Hl & ->)].
  - destruct (serve_step_keeps _ _ Hs) as (Hw & _ & Ej & _). exists j. rewrite Ej. split_and!; [done..|].
    intros n b Hb Hne Hin. specialize (Hw n). rewrite Hb in Hw. symmetry in Hw.
    apply fmap_Some in Hw as (x & Hx & [= _ E]). unfold weight. rewrite E. by apply (Hd n x).
  - rewrite Hj in Hj'. injection Hj' as <-. eexists. split; [done|]. split; [done|].
    rewrite Hl in Hz, Hd. apply Forall_cons in Hz as [Hv Hz]. split; [done|].
    intros m b. cbn [writes w_pool]. cbn. intros Hb Hne Hin. destruct (decide (m = n)) as [->|Hmn].
    + rewrite lookup_alter_eq in Hb. apply fmap_Some in Hb as (x & _ & ->). cbn. by apply Hv.
    + rewrite lookup_alter_ne in Hb by done. apply (Hd m b); [done..|]. rewrite fmap_cons, not_elem_of_cons. done.
Qed.

(** After the store: requests that arrive from now on. *)
Record settled_on (target : bytes) (from : nat) (w : World) : Prop := {
  so_ok : world_ok w;
  so_only : only_target target (routing (live_config (w_live w))) (w_pool w);
  so_requests : forall id, (from <= id)%nat ->
    match stages w !! id with
    | Some (Arriving r) => r = routing (live_config (w_live w))
    | Some (Running (Primary t)) => name (backend (decision t)) = target
    | _ => True
    end;
}.

Lemma only_target_same target r p q : same_weights p q -> only_target target r q -> only_target target r p.
Proof.
  intros H [H1 H2]. split; [done|]. intros Hm n b Hb Hne. specialize (H n). rewrite Hb in H. symmetry in H.
  apply fmap_Some in H as (x & Hx & [= _ E]). unfold weight. rewrite E. by apply (H2 Hm n x).
Qed.

Lemma settled_stored target w j :
  world_ok w -> rolling target w -> job w = Some j -> writes j = [] ->
  settled_on target (next_id w) (w <| w_live := store_config j (w_live w) |> <| job := None |>).
Proof.
  intros Hok (j' & Hj' & Ht & _ & Hd) Hj Hw. rewrite Hj' in Hj. injection Hj as ->. constructor.
  - destruct Hok. by split.
  - cbn. unfold store_config. rewrite Ht. cbn. split.
    + rewrite rollback_routing_mode. apply rollback_routing_primary.
    + intros _ n b Hb Hne. apply (Hd n b); [done..|]. rewrite Hw. apply not_elem_of_nil.
  - intros id Hid. cbn. destruct (stages w !! id) as [st|] eqn:E; [|done]. apply (wo_ids _ Hok) in E. lia.
Qed.

Lemma settled_step target from w w' :
  serve_step w w' -> (from <= next_id w)%nat -> settled_on target from w -> settled_on target from w'.
Proof.
  intros Hs Hf [Hok Ho Hr]. destruct (serve_step_keeps _ _ Hs) as (Hw & El & _ & _).
  constructor; [by eapply serve_step_ok|rewrite El; by eapply only_target_same|].
  intros i Hi. specialize (Hr i Hi) as Hri. rewrite El.
  destruct Hs as [w|????? w id ??? H|? ? uuid req r w id t p' H Hb|???? w id t ? sp H1 H2|? w id m ok ? H1 H2|w id st H1 H2|c ok n w];
    cbn in *; unfold put_stage in *; try done.
  - destruct (decide (i = next_id w)) as [->|]; [by rewrite lookup_insert_eq|by rewrite lookup_insert_ne].
  - destruct (decide (i = id)) as [->|]; [by rewrite lookup_delete_eq|by rewrite lookup_delete_ne].
  - destruct (decide (i = id)) as [->|]; [|by rewrite lookup_insert_ne]. rewrite lookup_insert_eq. rewrite H in Hri. subst r.
    unfold handle_begin in Hb. destruct (is_excluded _ _); [done|].
    destruct (decide_route _ _ _ _) as [[d|] q] eqn:E; [|done]. injection Hb as <- <-. cbn.
    eapply routed_to_target; [apply Hok|exact Ho|exact E].
  - destruct (decide (i = id)) as [->|].
    + destruct sp as [t'|]; [|by rewrite lookup_delete_eq]. rewrite lookup_insert_eq.
      destruct (finish_spawns _ _ _ _ _ _ _ _ H2) as [m ->]. done.
    + destruct sp; [by rewrite lookup_insert_ne|by rewrite lookup_delete_ne].
  - destruct (decide (i = id)) as [->|].
    + destruct ok; [by rewrite lookup_insert_eq|by rewrite lookup_delete_eq].
    + destruct ok; [by rewrite lookup_insert_ne|by rewrite lookup_delete_ne].
  - destruct (decide (i = id)) as [->|]; [by rewrite lookup_delete_eq|by rewrite lookup_delete_ne].
Qed.

Lemma settled_run target from w w' :
  rtc serve_step w w' -> (from <= next_id w)%nat -> settled_on target from w -> settled_on target from w'.
Proof.
  induction 1 as [|x y z Hst _ IH]; [done|]. intros Hle Hs. apply IH.
  - pose proof (serve_step_keeps _ _ Hst) as (_ & _ & _ & H). lia.
  - by eapply settled_step.
Qed.

Lemma rolling_run target w w' :
  rtc (fun w w' => serve_step w w' \/ write_step w w') w w' ->
  world_ok w -> rolling target w -> world_ok w' /\ rolling target w'.
Proof.
  induction 1 as [|x y z Hst _ IH]; [done|]. intros H0 H1. apply IH; [|by eapply rolling_step].
  destruct Hst as [Hs|(k & nw & l & Hk & Hl & ->)]; [by eapply serve_step_ok|].
  eapply world_step_ok; [right; by apply control_write|done].
Qed.

(** C9: a rollback takes effect: once its configuration is stored, which
    is before its reply, every request that arrives is forwarded to the target
    or not at all, in every routing mode, however requests, mirrored requests,
    answers and health probes interleave with the single writes of the rollback
    and with each other afterwards. *)
Theorem rollback_holds target w0 j wa j' w2 :
  world_reachable w0 -> job w0 = None -> begin_command (RollBack target) (w_pool w0) = inl j ->
  rtc (fun w w' => serve_step w w' \/ write_step w w') (w0 <| job := Some j |>) wa ->
  job wa = Some j' -> writes j' = [] ->
  let w1 := wa <| w_live := store_config j' (w_live wa) |> <| job := None |> in
  rtc serve_step w1 w2 ->
  forall id t, (next_id w1 <= id)%nat -> stages w2 !! id = Some (Running (Primary t)) ->
    name (backend (decision t)) = target.
Proof.
  intros Hr _ Hb Hrun Hj' Hw' w1 H2.
  apply world_reachable_ok in Hr as [Hn Hids].
  destruct (rolling_run target _ _ Hrun) as [Hok Hroll]; [by split|by apply rolling_begins|].
  pose proof (settled_stored target wa j' Hok Hroll Hj' Hw' : settled_on target (next_id w1) w1) as Hs1.
  destruct (settled_run target (next_id w1) w1 w2 H2 ltac:(done) Hs1) as [_ _ Hreq].
  intros id t Hid Hst. specialize (Hreq id Hid). by rewrite Hst in Hreq.
Qed.
End World.

(** ** What a request can see in between *)

(** A command in progress has made the writes [l1] and not yet [l2]. *)
Lemma weight_in_progress `{HashOrder} ws l1 l2 p n b :
  iter ws = l1 ++ l2 -> backends p !! n = Some b ->
  (weight <$> backends (foldl write_weight p l1) !! n) =
    Some (if bool_decide (n ∈ l1.*1) then unwrap_or (weight b) (ws !! n) else weight b).
Proof.
  intros Hl Hb. rewrite lookup_writes, Hb. cbn. f_equal.
  pose proof (iter_NoDup ws) as Hnd. rewrite Hl, fmap_app in Hnd. apply NoDup_app in Hnd as (Hnd & _ & _).
  case_bool_decide as Hin; [|by rewrite foldl_writes_absent].
  apply list_elem_of_fmap in Hin as ([m w] & -> & Hin). rewrite (foldl_writes_once l1 _ w) by done.
  assert (Hw : ws !! m = Some w) by (apply elem_of_iter; rewrite Hl; apply elem_of_app; by left).
  cbn. by rewrite Hw.
Qed.

(** A weight update never takes traffic away in passing when one
    backend is to keep some: if a backend has a positive weight before and
    after, some backend has one in every state between its writes. *)
Theorem update_keeps_weight `{HashOrder} ws l1 l2 p n b :
  iter ws = l1 ++ l2 -> backends p !! n = Some b -> weight b <> 0%Z -> unwrap_or (weight b) (ws !! n) <> 0%Z ->
  exists m x, backends (foldl write_weight p l1) !! m = Some x /\ weight x <> 0%Z.
Proof.
  intros Hl Hb H1 H2. pose proof (weight_in_progress ws l1 l2 p n b Hl Hb) as Hw.
  apply fmap_Some in Hw as (x & Hx & E). exists n, x. split; [done|].
  rewrite <- E. by destruct (bool_decide _).
Qed.

Lemma command_effect_witness :
  exists j, begin_command (RollBack (B "rust")) Router.demo_pool = inl j /\
    breakers (foldl write_weight Router.demo_pool (writes j)) = breakers Router.demo_pool /\
    in_step (store_config j demo_live) (foldl write_weight Router.demo_pool (writes j)).
Proof.
  pose proof (command_effect (RollBack (B "rust")) demo_live Router.demo_pool demo_pool_named demo_in_step) as H.
  assert (Hok : match begin_command (RollBack (B "rust")) Router.demo_pool with inl _ => true | inr _ => false end = true)
    by (by vm_compute).
  destruct (begin_command _ _) as [j|e]; [|discriminate]. exists j.
  destruct H as (_ & _ & H1 & H2 & _). split; [reflexivity|]. by split.
Defined.

Module DemoWorld.

Definition cf (port : bytes) (w : Z) : BackendConfig := mkBackendConfig (B "127.0.0.1:" ++ port) w (B "/").

(** The migration is complete: all traffic goes to [rust]. *)
Definition config0 : ProxyConfig :=
  minimal_config (B "127.0.0.1:8080") {[B "c" := cf (B "8081") 0; B "rust" := cf (B "8082") 100]}
    (mkRouting ActiveActive None None []).

Definition w0 : World := initial_world config0 0.

Definition j0 : Job := mkJob (rollback_weights (B "c") (w_pool w0)) [(B "rust", 0%Z); (B "c", 100%Z)] (Some (B "c")).

Definition write (w : World) (nw : list ascii * Z) : World :=
  w <| w_pool := write_weight (w_pool w) nw |>
    <| job := (fun j => mkJob (job_weights j) (tail (writes j)) (job_target j)) <$> job w |>.

Definition wb : World := w0 <| job := Some j0 |>.
Definition wa : World := foldl write wb (writes j0).
Definition j1 : Job := mkJob (job_weights j0) [] (Some (B "c")).
Definition w1 : World := wa <| w_live := store_config j1 (w_live wa) |> <| job := None |>.
Definition arrive (w : World) : World :=
  w <| stages := <[next_id w := Arriving (routing (live_config (w_live w)))]> (stages w) |>
    <| next_id := S (next_id w) |>.
Definition begun (w : World) : (@Response Assoc.headers + Pending) * BackendPool :=
  @handle_begin Assoc.headers list_order (fun _ _ => 0%Z) 1 (B "id") demo_inbound
    (routing (live_config (w_live w))) (w_pool w).
Definition pending_of (r : (@Response Assoc.headers + Pending) * BackendPool) : Pending :=
  match r.1 with inr t => t | inl _ => demo_pending end.
Definition w2 : World :=
  (arrive w1) <| w_pool := (begun (arrive w1)).2 |>
    <| stages := <[0%nat := Running (Primary (pending_of (begun (arrive w1))))]> (stages (arrive w1)) |>.

Lemma begins : begin_command (RollBack (B "c")) (w_pool w0) = inl j0.
Proof. vm_compute. reflexivity. Qed.

Lemma writes_run :
  rtc (fun w w' => @serve_step Assoc.headers list_order toy_digest w w' \/ write_step w w') wb wa.
Proof.
  apply rtc_l with (write wb (B "rust", 0%Z)); [|apply rtc_once]; right.
  - exists j0, (B "rust", 0%Z), [(B "c", 100%Z)]. done.
  - eexists (mkJob (job_weights j0) [(B "c", 100%Z)] (Some (B "c"))), (B "c", 100%Z), []. done.
Qed.

Lemma accepted : begun (arrive w1) = (inr (pending_of (begun (arrive w1))), (begun (arrive w1)).2).
Proof. vm_cast_no_check (eq_refl (begun (arrive w1))). Qed.

Lemma serves : rtc (@serve_step Assoc.headers list_order toy_digest) w1 w2.
Proof.
  apply rtc_l with (arrive w1); [apply serve_arrive|apply rtc_once].
  exact (@serve_accepted Assoc.headers list_order toy_digest (fun _ _ => 0%Z) 1 (B "id") demo_inbound
    (routing (live_config (w_live w1))) (arrive w1) 0 _ _ (lookup_insert_eq _ _ _) accepted).
Qed.

End DemoWorld.

Lemma rollback_holds_witness :
  exists t, stages DemoWorld.w2 !! 0%nat = Some (Running (Primary t)) /\ name (backend (decision t)) = B "c".
Proof.
  exists (DemoWorld.pending_of (DemoWorld.begun (DemoWorld.arrive DemoWorld.w1))). split; [apply lookup_insert_eq|].
  exact (@rollback_holds Assoc.headers list_order toy_digest (B "c") DemoWorld.w0 DemoWorld.j0 DemoWorld.wa
    DemoWorld.j1 DemoWorld.w2 (ex_intro _ DemoWorld.config0 (ex_intro _ 0%Z (rtc_refl _ _))) eq_refl
    DemoWorld.begins DemoWorld.writes_run eq_refl eq_refl DemoWorld.serves 0%nat _ (le_n 0) (lookup_insert_eq _ _ _)).
Defined.

(** In between nothing may be routable: while the rollback of a completed
    migration has taken the weight from [rust] and not yet given it to [c],
    a request is answered with 503. *)
Example rollback_gap :
  match (DemoWorld.begun (DemoWorld.write DemoWorld.wb (B "rust", 0%Z))).1 with
  | inl resp => status resp = 503%Z
  | inr _ => False
  end.
Proof. vm_compute. reflexivity. Qed.

Lemma update_keeps_weight_witness :
  exists m x, backends (foldl write_weight (w_pool DemoWorld.w0) [(B "rust", 70%Z)]) !! m = Some x /\ weight x <> 0%Z.
Proof.
  eapply (update_keeps_weight {[B "c" := 30%Z; B "rust" := 70%Z]} [(B "rust", 70%Z)] [(B "c", 30%Z)]
    (w_pool DemoWorld.w0) (B "rust")); vm_compute; first [reflexivity|discriminate].
Defined.
