(* ===== verification/ProxyStart.v ===== *)
(** * The command line and start-up of the migration proxy
      (rust/crates/thttpd-migrate/src/main.rs, lib.rs, [load] of config.rs, the
      accept loop of control.rs and the loop of health.rs)

    [start] is the sequence of what it sets up, each piece failing or not as
    the machine has it; it ends in the first state of [ProxySystem].  TOML is
    the parameter [from_toml]. *)

From S2P Require Import Prelude RustStr Breaker Backend Router MigrateConfig LiveState Control.
From S2P Require Import Diff Forwarder Proxy ProxyRun ProxySystem.

(** ** Start *)

Inductive LoadError := ReadError | TomlError | Invalid (e : ConfigError).

Inductive StartError :=
| ConfigRequired | LoadFailed (e : LoadError) | ListenUnparsed | MetricsUnparsed
| ControlFailed (e : SocketError) | BindFailed.

(** What [start] sets up, in order. *)
Inductive Effect :=
| TracingOn (level : bytes)
| MetricsOn (addr : bytes)
| MetricsWarning
| HealthChecks (c : HealthConfig)
| ControlListening (path : bytes)
| StateWriter (path : bytes)
| Serving (addr : bytes).

(** The answers of the machine: the text of the file, whether the exporter
    installs, the calls of the control socket, and the bind of the listener. *)
Record Machine := mkMachine {
  config_text : option bytes;
  metrics_ok : bool;
  parent_ok : bool;
  probe_answer : Connect;
  remove_ok : bool;
  bind_ok : bool;
}.

Section Start.
Context {Order : HashOrder} (uri_ok : bytes -> bool) (from_toml : bytes -> option ProxyConfig).

Definition load (text : option bytes) : ProxyConfig + LoadError :=
  match text with
  | None => inr ReadError
  | Some text =>
      match from_toml text with
      | None => inr TomlError
      | Some cfg => match validate uri_ok cfg with Some e => inr (Invalid e) | None => inl cfg end
      end
  end.

(** The effects, what is at the control path afterwards, and the outcome;
    [me] is this process.  [--listen] is ignored by the code and left out; the
    log lines and their format are too. *)
Definition start (me : nat) (config : option bytes) (cli_level : option bytes) (m : Machine) (e : Entry)
    (now : Z) : list Effect * Entry * (World + StartError) :=
  match config with
  | None => ([], e, inr ConfigRequired)
  | Some _ =>
      match load (config_text m) with
      | inr err => ([], e, inr (LoadFailed err))
      | inl cfg =>
          let fx := [TracingOn (effective_log_level cli_level (log_level cfg))] in
          if negb (SocketAddr.parses (listen cfg)) then (fx, e, inr ListenUnparsed)
          else if negb (SocketAddr.parses (metrics_listen (metrics cfg))) then (fx, e, inr MetricsUnparsed)
          else
            let fx := fx ++ [if metrics_ok m then MetricsOn (metrics_listen (metrics cfg)) else MetricsWarning;
                             HealthChecks (health_cfg cfg)] in
            match spawn_server me (parent_ok m) (probe_answer m) (remove_ok m) e with
            | (e', Some err) => (fx, e', inr (ControlFailed err))
            | (e', None) =>
                let fx := fx ++ [ControlListening (control_socket cfg); StateWriter (state_path cfg)] in
                if bind_ok m then (fx ++ [Serving (listen cfg)], e', inl (initial_world cfg now))
                else (fx, e', inr BindFailed)
            end
      end
  end.

Lemma spawned_listens me pok c rok e e' : spawn_server me pok c rok e = (e', None) -> e' = Sock (Some me).
Proof.
  unfold spawn_server, prepare_control_socket_path, probe_path.
  destruct pok, e as [| | |[o|]], c, rok; cbn; by intros [= <-].
Qed.

(** C36: start-up: the proxy serves exactly when a configuration was given
    that reads, parses and validates, its control socket could be bound and so
    could the listener, and nothing else can fail it, not the addresses once
    they are validated and not the exporter; it then listens for clients last,
    after the control socket, from the initial state of a valid configuration
    whose weights the pool mirrors, with its own process behind the control
    path; when it fails, no client was ever accepted. *)
Theorem start_outcome me config cli_level m e now :
  let '(fx, e', out) := start me config cli_level m e now in
  let control := spawn_server me (parent_ok m) (probe_answer m) (remove_ok m) e in
  match out with
  | inl w =>
      exists cfg pre, load (config_text m) = inl cfg /\ is_Some config /\ control = (e', None) /\ bind_ok m = true /\
        fx = pre ++ [ControlListening (control_socket cfg); StateWriter (state_path cfg); Serving (listen cfg)] /\
        w = initial_world cfg now /\ valid_config uri_ok (live_config (w_live w)) /\
        in_step (w_live w) (w_pool w) /\ named (w_pool w) /\ e' = Sock (Some me)
  | inr err =>
      (forall addr, Serving addr ∉ fx) /\
      match err with
      | ConfigRequired => config = None
      | LoadFailed le => load (config_text m) = inr le
      | ListenUnparsed | MetricsUnparsed => False
      | ControlFailed se => control = (e', Some se)
      | BindFailed => bind_ok m = false
      end
  end.
Proof.
  unfold start. destruct config as [path|]; [|split; [intros ?; apply not_elem_of_nil|done]].
  destruct (load (config_text m)) as [cfg|le] eqn:El; [|split; [intros ?; apply not_elem_of_nil|done]].
  assert (Hv : valid_config uri_ok cfg).
  { apply validate_spec. unfold load in El. destruct (config_text m) as [text|]; [|done].
    destruct (from_toml text) as [c|]; [|done]. destruct (validate uri_ok c) eqn:Ev; [done|]. by injection El as <-. }
  destruct (vc_listen _ _ Hv) as [-> ->]. cbn [negb].
  destruct (spawn_server _ _ _ _ e) as [e' [se|]] eqn:Ec.
  { split; [|done]. intros addr. destruct (metrics_ok m); cbn; set_solver. }
  destruct (bind_ok m) eqn:Eb.
  - eexists cfg, _. split_and!; try done; [by rewrite <- app_assoc|apply new_in_step|apply with_breaker_cfg_named|].
    by apply spawned_listens in Ec.
  - split; [|done]. intros addr. destruct (metrics_ok m); cbn; set_solver.
Qed.
End Start.

(** ** The command line *)

(** The commands with their arguments; clap fills in the paths and the default
    time-out of [drain]. *)
Inductive Cmd :=
| CmdStart (config log_level : option bytes)
| CmdStatus
| CmdSetWeight (pairs : list bytes)
| CmdDrain (timeout_secs : Z)
| CmdRollback (to : bytes).

(** Why the process exits with an error. *)
Inductive CliError := BadPairs (e : PairError) | CommandRefused (m : bytes) | Transport (e : FrameError) | NoState.

(** [{:<width}]: padded on the right, by characters. *)
Definition pad_right (width : nat) (s : bytes) : bytes := s ++ replicate (width - length (chars s)) SP.

Definition status_line (b : BackendSnapshot) : bytes :=
  B "  " ++ pad_right 16 (snap_name b) ++ B " " ++ pad_right 22 (snap_address b) ++ B " weight=" ++
  pad_right 4 (show_Z (snap_weight b)) ++ B " health=" ++ snap_health b.

(** The lines [status] prints. *)
Definition status_text (s : StateSnapshot) : list bytes :=
  [B "Uptime:  " ++ show_Z (uptime_secs s) ++ B "s";
   B "Draining: " ++ (if snap_draining s then B "true" else B "false"); B "Backends:"] ++
  map status_line (snap_backends s).

Section Cli.
Context {Order : HashOrder} `{Serde ControlRequest} `{Serde ControlResponse} `{Serde StateSnapshot}
  (debug_weights : gmap (list ascii) Z -> bytes)
  (uri_ok : bytes -> bool) (from_toml : bytes -> option ProxyConfig).

(** [main]: either the proxy itself, on this machine, or a command to a proxy
    that listens: its state afterwards, and the lines printed or the error. *)
Definition main_ (me : nat) (m : Machine) (e : Entry) (now : Z) (uptime : Z) (d : Disk) (cmd : Cmd) (h : Host) :
    (list Effect * Entry * (World + StartError)) + (Host * (list bytes + CliError)) :=
  let sent (r : Host * (ControlResponse + FrameError)) :=
    inr (r.1, match report r.2 with
          | inl m => inl [m]
          | inr (inl m) => inr (CommandRefused m)
          | inr (inr e) => inr (Transport e)
          end) in
  match cmd with
  | CmdStart config log_level => inl (start uri_ok from_toml me config log_level m e now)
  | CmdStatus => inr (h, match Control.status (host_files h) with Some s => inl (status_text s) | None => inr NoState end)
  | CmdSetWeight pairs =>
      match parse_weight_pairs pairs with
      | inr e => inr (h, inr (BadPairs e))
      | inl ws => sent (client_set_weight debug_weights uptime d ws h)
      end
  | CmdDrain secs => sent (client_drain debug_weights uptime d secs h)
  | CmdRollback to => sent (client_rollback debug_weights uptime d to h)
  end.

(** The request a command sends. *)
Definition request_of (cmd : Cmd) : option ControlRequest :=
  match cmd with
  | CmdSetWeight pairs => match parse_weight_pairs pairs with inl ws => Some (SetWeight ws) | inr _ => None end
  | CmdDrain secs => Some (Drain secs)
  | CmdRollback to => Some (Rollback to)
  | _ => None
  end.

(** A command of the command line succeeds exactly when the proxy carried it
    out: it prints the message of the proxy and leaves it in the state the
    command leads to; a refused command exits with the reason and changes
    nothing. *)
Theorem cli_follows_proxy me m e now uptime d cmd req h :
  request_of cmd = Some req -> Control.sendable req -> Control.sendable (execute debug_weights uptime d req h).2 ->
  let '(h', resp) := execute debug_weights uptime d req h in
  main_ me m e now uptime d cmd h =
    inr (h', if ok resp then inl [message resp] else inr (CommandRefused (message resp))).
Proof.
  intros Hr [Hs1 Hs2] [Hp1 Hp2].
  assert (Hsend : send_request debug_weights uptime d req h =
            ((execute debug_weights uptime d req h).1, inl (execute debug_weights uptime d req h).2)).
  { unfold send_request, handle_conn. rewrite read_write_message by done.
    destruct (execute debug_weights uptime d req h) as [h' resp]. by rewrite read_write_message. }
  destruct (execute debug_weights uptime d req h) as [h' resp]. cbn [fst snd] in Hsend.
  destruct cmd as [| |pairs|secs|to]; cbn [request_of] in Hr; try done; unfold main_.
  - destruct (parse_weight_pairs pairs) as [ws|]; [|done]. injection Hr as <-.
    unfold client_set_weight. rewrite Hsend. cbn. by destruct (ok resp).
  - injection Hr as <-. unfold client_drain. rewrite Hsend. cbn. by destruct (ok resp).
  - injection Hr as <-. unfold client_rollback. rewrite Hsend. cbn. by destruct (ok resp).
Qed.

(** *** The accept loop of the control socket *)

(** An accepted connection delivers bytes; [None] is an error of [accept].
    The control lock makes the connections one after the other.  Whether the
    loop still runs is the second result. *)
Fixpoint control_loop (uptime : Z) (d : Disk) (accepts : list (option bytes)) (h : Host) : Host * bool :=
  match accepts with
  | [] => (h, true)
  | None :: _ => (h, false)
  | Some received :: rest => control_loop uptime d rest (handle_conn debug_weights uptime d received h).1
  end.

(** One failed [accept] ends the control socket for good: no later command
    reaches the proxy, which serves on. *)
Lemma accept_error_ends_control uptime d before after h :
  control_loop uptime d (before ++ None :: after) h = ((control_loop uptime d before h).1, false) \/
  (control_loop uptime d before h).2 = false.
Proof.
  revert h. induction before as [|[r|] before IH]; intros h; cbn; [by left|apply IH|by right].
Qed.
End Cli.

(** ** The health checker *)

(** One round of [spawn_checker]: each backend in turn, with what its probe
    gives. *)
Definition check_round `{HashOrder} (uri_ok : bytes -> bool) (c : HealthConfig) (answer : bytes -> ProbeResult)
    (p : BackendPool) : BackendPool :=
  foldl (fun p n => p <| backends := alter (probe_backend uri_ok c (answer n)) n (backends p) |>) p
    (iter (backends p)).*1.

Lemma lookup_probed (f : list ascii -> Backend -> Backend) (names : list (list ascii)) p n :
  NoDup names ->
  backends (foldl (fun p n => p <| backends := alter (f n) n (backends p) |>) p names) !! n =
    if decide (n ∈ names) then f n <$> backends p !! n else backends p !! n.
Proof.
  intros Hnd. revert p. induction Hnd as [|m names Hm _ IH]; intros p; cbn [foldl].
  { by rewrite decide_False by apply not_elem_of_nil. }
  rewrite IH. cbn. destruct (decide (n = m)) as [->|Hne].
  - rewrite (decide_False (P := m ∈ names)) by done. rewrite decide_True by (by left). by rewrite lookup_alter_eq.
  - rewrite lookup_alter_ne by done. destruct (decide (n ∈ names)).
    + by rewrite decide_True by (by right).
    + rewrite decide_False; [done|]. by rewrite not_elem_of_cons.
Qed.

(** A round probes every backend once, whatever the order of the map. *)
Theorem check_round_probes_all `{HashOrder} uri_ok c answer p n :
  backends (check_round uri_ok c answer p) !! n = probe_backend uri_ok c (answer n) <$> backends p !! n.
Proof.
  unfold check_round. rewrite (lookup_probed (fun n => probe_backend uri_ok c (answer n))) by apply iter_NoDup.
  case_decide as Hin; [done|]. destruct (backends p !! n) as [b|] eqn:E; [|done]. destruct Hin.
  apply list_elem_of_fmap. exists (n, b). split; [done|]. by apply elem_of_iter.
Qed.

Module DemoStart.
Definition machine : Machine := mkMachine (Some (B "toml")) false true ConnectionRefused true true.

(** A stale socket is replaced, the exporter fails, and the proxy serves. *)
Example start_example :
  let '(fx, e, out) := start (fun _ => true) (fun _ => Some demo_config) 7 (Some (B "proxy.toml")) (Some (B "debug"))
    machine (Sock None) 0 in
  e = Sock (Some 7%nat) /\ head fx = Some (TracingOn (B "debug")) /\ last fx = Some (Serving (B "127.0.0.1:8080")) /\
  match out with inl _ => True | inr _ => False end.
Proof. vm_compute. repeat split. Qed.
End DemoStart.

Import Codec.

Lemma cli_follows_proxy_witness :
  exists h', main_ (fun _ => []) (fun _ => true) (fun _ => None) 7 DemoStart.machine Absent 0 5 Codec.good_disk
    (CmdRollback (B "rust")) Codec.host = inr (h', inl [B "rolled back to rust"]).
Proof.
  pose proof (cli_follows_proxy (fun _ => []) (fun _ => true) (fun _ => None) 7 DemoStart.machine Absent 0 5 Codec.good_disk (CmdRollback (B "rust")) (Rollback (B "rust")) Codec.host
    eq_refl ltac:(split; [done|vm_compute; discriminate]) ltac:(split; [done|vm_compute; discriminate])) as H.
  assert (E : (execute (fun _ => []) 5 Codec.good_disk (Rollback (B "rust")) Codec.host).2.(ok) = true /\
              message (execute (fun _ => []) 5 Codec.good_disk (Rollback (B "rust")) Codec.host).2 = B "rolled back to rust")
    by (vm_compute; split; reflexivity).
  destruct (execute _ _ _ _ _) as [h' resp]. cbn in E. destruct E as [E1 E2]. exists h'. rewrite H, E1, E2. reflexivity.
Defined.
