(* ===== verification/Observability.v ===== *)
(** * Logs and metrics of the migration proxy (rust/crates/thttpd-migrate/src/
      tracing_setup.rs, metrics.rs, [init_tracing] of lib.rs and the metrics of
      server.rs and shadow.rs)

    The filter language of tracing-subscriber and the Prometheus recorder are
    parameters: [Filters] reads directives, [Exporter] counts. *)

From S2P Require Import Prelude RustStr Breaker Backend Router MigrateConfig LiveState Control.
From S2P Require Import Diff Forwarder Proxy ProxyRun ProxySystem ProxyStart.

(** ** Logs *)

Module Tracing.

(** [EnvFilter::new] takes any text, [try_from_default_env] only directives it
    can parse. *)
Class Filters := {
  Filter : Type;
  filter_new : bytes -> Filter;
  filter_parse : bytes -> option Filter;
}.

Inductive Format := Compact | Json.

Section Tracing.
Context {Flt : Filters}.

Record Subscriber := mkSubscriber { sub_filter : Filter; sub_format : Format }.

(** The variables of the environment that are read. *)
Record Env := mkEnv { RUST_LOG : option bytes; LOG_FORMAT : option bytes }.

(** [try_from_default_env]: an error when the variable is not set or does not
    parse. *)
Definition try_from_default_env (env : Env) : option Filter := RUST_LOG env ≫= filter_parse.

(** The global subscriber after [init]: [try_init] fails when there is one,
    and the failure is ignored. *)
Definition init (level : bytes) (json : bool) (env : Env) (g : option Subscriber) : option Subscriber :=
  let filter := unwrap_or (filter_new level) (try_from_default_env env) in
  let fmt_layer := if json then Json else Compact in
  match g with
  | None => Some (mkSubscriber filter fmt_layer)
  | Some _ => g
  end.

Definition init_tracing (log_level : bytes) (env : Env) (g : option Subscriber) : option Subscriber :=
  let json := match LOG_FORMAT env with Some v => bytes_eqb v (B "json") | None => false end in
  init log_level json env g.

(** The subscriber of a process that carried out the effects of [start]. *)
Definition apply_effect (env : Env) (g : option Subscriber) (fx : Effect) : option Subscriber :=
  match fx with TracingOn level => init_tracing level env g | _ => g end.

Definition subscriber_after (env : Env) (fx : list Effect) : option Subscriber := foldl (apply_effect env) None fx.

Lemma tracing_first {Order : HashOrder} uri_ok from_toml me config cli m e now cfg :
  load uri_ok from_toml (config_text m) = inl cfg -> is_Some config ->
  exists rest, (start uri_ok from_toml me config cli m e now).1.1 =
      TracingOn (effective_log_level cli (log_level cfg)) :: rest /\
    Forall (fun x => forall l, x <> TracingOn l) rest.
Proof.
  intros El [path ->]. unfold start. rewrite El. cbv zeta.
  destruct (negb _); [by exists []|]. destruct (negb _); [by exists []|].
  destruct (spawn_server _ _ _ _ e) as [e' [se|]]; [|destruct (bind_ok m)]; eexists; (split; [reflexivity|]);
    repeat constructor; by destruct (metrics_ok m).
Qed.

Lemma silent_effects env g fx : Forall (fun x => forall l, x <> TracingOn l) fx -> foldl (apply_effect env) g fx = g.
Proof.
  intros H. revert g. induction H as [|x fx Hx _ IH]; intros g; [done|]. cbn [foldl]. rewrite IH.
  destruct x; try done. exfalso. by eapply Hx.
Qed.

(** Which log lines the started proxy writes, and how: whenever the
    configuration loads, the directives of [RUST_LOG] rule if they parse, even
    over [--log-level]; else the level of the command line; else that of the
    configuration; and lines are JSON exactly when
    [THTTPD_MIGRATE_LOG_FORMAT] is [json]. *)
Theorem log_level_precedence {Order : HashOrder} uri_ok from_toml me path cli m e now cfg env :
  load uri_ok from_toml (config_text m) = inl cfg ->
  subscriber_after env (start uri_ok from_toml me (Some path) cli m e now).1.1 =
    Some (mkSubscriber
      match RUST_LOG env ≫= filter_parse with
      | Some f => f
      | None => filter_new (match cli with Some l => l | None => log_level cfg end)
      end
      (if bool_decide (LOG_FORMAT env = Some (B "json")) then Json else Compact)).
Proof.
  intros El. destruct (tracing_first uri_ok from_toml me (Some path) cli m e now cfg El) as (rest & -> & Hs); [done|].
  unfold subscriber_after. cbn [foldl]. rewrite silent_effects by done.
  cbn [apply_effect]. unfold init_tracing, init, try_from_default_env. do 2 f_equal.
  destruct (LOG_FORMAT env) as [v|]; [|done]. unfold bytes_eqb.
  destruct (decide (v = B "json")) as [->|Hv]; [done|].
  by rewrite !bool_decide_false by congruence.
Qed.
End Tracing.

(** Filters as the texts they were made from; only [debug] and [info] parse. *)
#[export] Instance text_filters : Filters := {|
  Filter := bytes;
  filter_new l := l;
  filter_parse l := if bytes_eqb l (B "debug") || bytes_eqb l (B "info") then Some l else None;
|}.

(** The command line asks for [info], the environment for [debug]. *)
Lemma log_level_precedence_witness :
  subscriber_after (mkEnv (Some (B "debug")) (Some (B "json")))
    (start (fun _ => true) (fun _ => Some demo_config) 7 (Some (B "proxy.toml")) (Some (B "info"))
       DemoStart.machine (Sock None) 0).1.1 = Some (mkSubscriber (B "debug") Json).
Proof.
  etrans; [apply (log_level_precedence (fun _ => true) (fun _ => Some demo_config) 7 (B "proxy.toml") (Some (B "info"))
    DemoStart.machine (Sock None) 0 demo_config); by vm_compute|]. reflexivity.
Defined.
End Tracing.

(** ** Metrics *)

Module Exporting.
#[local] Open Scope nat_scope.

Inductive Kind := Counter | Histogram.

#[export] Instance Kind_eq_dec : EqDecision Kind.
Proof. solve_decision. Defined.

(** A time series: a name with its labels. *)
Definition Series : Type := bytes * list (bytes * bytes).

(** [metrics::counter!] and [metrics::histogram!] of server.rs and shadow.rs. *)
Definition series_of (m : Metric) : Kind * Series :=
  match m with
  | RequestsTotal b => (Counter, (B "thttpd_migrate_requests_total", [(B "backend", b)]))
  | RequestDuration b c =>
      (Histogram, (B "thttpd_migrate_request_duration_seconds", [(B "backend", b); (B "status_class", c)]))
  | Responses5xx b => (Counter, (B "thttpd_migrate_5xx_responses_total", [(B "backend", b)]))
  | ShadowDivergences b f =>
      (Counter, (B "thttpd_migrate_shadow_divergences_total", [(B "backend", b); (B "field", f)]))
  end.

(** The recorder of metrics-exporter-prometheus: [samples] is the value of a
    counter and the number of observations of a histogram; both macros add
    one to their series. *)
Class Exporter := {
  Registry : Type;
  fresh_registry : Registry;
  samples : Registry -> Kind * Series -> nat;
  add_sample : Kind * Series -> Registry -> Registry;
  samples_fresh k : samples fresh_registry k = 0;
  samples_add k k' r : samples (add_sample k r) k' = (if bool_decide (k = k') then 1 else 0) + samples r k';
}.

(** What [install] describes, with the help texts. *)
Definition descriptions : list (Kind * bytes * bytes) :=
  [ (Counter, B "thttpd_migrate_requests_total", B "Total proxied requests");
    (Counter, B "thttpd_migrate_5xx_responses_total", B "Total 5xx responses from backends");
    (Counter, B "thttpd_migrate_shadow_divergences_total", B "Total shadow divergences");
    (Histogram, B "thttpd_migrate_request_duration_seconds", B "End-to-end request duration") ].

(** A request to backend [b] with a status that satisfies [p]. *)
Definition about (b : bytes) (p : Z -> bool) (q : bytes * Z) : Prop := q.1 = b /\ p q.2 = true.

#[export] Instance about_dec b p q : Decision (about b p q).
Proof. unfold about. apply _. Defined.

Section Exporting.
Context {Exp : Exporter}.

(** The global recorder with its descriptions; without one the macros do
    nothing. *)
Definition Global : Type := option (Registry * list (Kind * bytes * bytes)).

(** [install]: the [?] returns before anything is described.  [installed] is
    the answer of [PrometheusBuilder::install]; [path] is not used. *)
Definition install (installed : bool) (path : bytes) (g : Global) : Global * bool :=
  if installed then (Some (fresh_registry, descriptions), true) else (g, false).

Definition emit (g : Global) (m : Metric) : Global :=
  (fun r => (add_sample (series_of m) r.1, r.2)) <$> g.

Definition emit_all (ms : list Metric) (g : Global) : Global := foldl emit g ms.

Definition exported (g : Global) (k : Kind * Series) : option nat := (fun r => samples r.1 k) <$> g.

Lemma exported_emit_all ms r ds k :
  exported (emit_all ms (Some (r, ds))) k =
    Some (length (filter (fun m => series_of m = k) ms) + samples r k).
Proof.
  revert r. induction ms as [|m ms IH]; intros r; [done|]. unfold emit_all. cbn [foldl].
  change (emit (Some (r, ds)) m) with (Some (add_sample (series_of m) r, ds)). fold (emit_all ms).
  etrans; [apply IH|]. f_equal. rewrite samples_add, filter_cons.
  destruct (decide (series_of m = k)) as [E|E].
  - rewrite bool_decide_true by done. simpl. lia.
  - by rewrite bool_decide_false by done.
Qed.

Lemma emitted_described ms r : exists r', emit_all ms (Some (r, descriptions)) = Some (r', descriptions).
Proof.
  revert r. induction ms as [|x ms IH]; intros r; [by eexists|]. unfold emit_all. cbn [foldl].
  apply (IH (add_sample (series_of x) r)).
Qed.

(** Every series a handler can feed is described. *)
Lemma series_described m :
  exists help, ((series_of m).1, (series_of m).2.1, help) ∈ descriptions.
Proof.
  destruct m; eexists;
    [apply (list_elem_of_lookup_2 _ 0)|apply (list_elem_of_lookup_2 _ 3)|apply (list_elem_of_lookup_2 _ 1)|
     apply (list_elem_of_lookup_2 _ 2)]; reflexivity.
Qed.

(** *** What the series count *)

(** The requests of a run that were sent to a backend, each with the status
    its client was answered with. *)
Definition run_metrics (reqs : list (bytes * Z)) : list Metric := concat (List.map (fun q => answer_metrics q.1 q.2) reqs).

(** How often series [k] occurs in the metrics of one request. *)
Lemma run_counts k b (p : Z -> bool) reqs :
  (forall c st, length (filter (fun m => series_of m = k) (answer_metrics c st)) =
     if decide (about b p (c, st)) then 1 else 0) ->
  length (filter (fun m => series_of m = k) (run_metrics reqs)) = length (filter (about b p) reqs).
Proof.
  intros H. unfold run_metrics. induction reqs as [|[c st] reqs IH]; [done|].
  cbn [List.map concat]. rewrite filter_app, length_app. cbn [fst snd]. rewrite H, filter_cons, IH.
  by destruct (decide (about b p (c, st))).
Qed.

(** Two metrics with the same series are the same. *)
Lemma series_of_inj m m' : series_of m = series_of m' -> m = m'.
Proof. destruct m, m'; cbn [series_of]; intros H; simplify_eq; reflexivity. Qed.

Ltac count_one :=
  intros ? st; unfold answer_metrics, record_metrics;
  destruct (decide (about _ _ _)) as [Hab|Hab]; unfold about in Hab; cbn [fst snd] in Hab;
  destruct (is_server_error st) eqn:?; cbn [app]; rewrite ?filter_cons, filter_nil;
  repeat case_decide; cbn [length];
  repeat match goal with
    | H : series_of _ = series_of _ |- _ => apply series_of_inj in H; simplify_eq
    | H : _ /\ _ |- _ => destruct H; simplify_eq
    | H : bytes_eqb _ _ = true |- _ => apply bytes_eqb_true in H; simplify_eq
    end; try done; exfalso;
  match goal with H : ~ _ |- _ => apply H; first [done | split; [done|first [done | by apply bytes_eqb_true]]] end.

(** What the exporter holds after the metrics of a run. *)
Lemma run_exported path g0 reqs b c :
  let g := emit_all (run_metrics reqs) (install true path g0).1 in
  exported g (series_of (RequestsTotal b)) = Some (length (filter (about b (fun _ => true)) reqs)) /\
  exported g (series_of (Responses5xx b)) = Some (length (filter (about b is_server_error) reqs)) /\
  exported g (series_of (RequestDuration b c)) =
    Some (length (filter (about b (fun st => bytes_eqb (status_class st) c)) reqs)).
Proof.
  cbn [install fst]. split_and!; rewrite exported_emit_all, samples_fresh, Nat.add_0_r; f_equal; apply run_counts.
  - count_one.
  - count_one.
  - count_one.
Qed.
End Exporting.

(** A registry as a function of the series. *)
#[export] Instance counting_exporter : Exporter := {|
  Registry := (Kind * Series) -> nat;
  fresh_registry _ := 0;
  samples r k := r k;
  add_sample k r k' := (if bool_decide (k = k') then 1 else 0) + r k';
  samples_fresh _ := eq_refl;
  samples_add _ _ _ := eq_refl;
|}.

(** A failed install describes nothing, and what is emitted is lost. *)
Lemma install_failed path ms k :
  install false path None = (None, false) /\ exported (emit_all ms (install false path None).1) k = None.
Proof. split; [done|]. cbn [install fst]. by induction ms as [|m ms IH]. Qed.

(** *** The status of the client *)

Section Status.
Context {HM : HeaderMap} {Exp : Exporter}.

(** The status a client is answered with decides what is recorded,
    whatever happened on the way (an answer of the backend, an error of the
    request or of either body, with or without a shadow): one outcome of its
    backend for the circuit breaker, a failure exactly for a server error, and
    the metrics of that status. *)
Lemma client_status_recorded now cap t (res : Response + ForwardError) p r p' ms :
  handle_finish now t res p = Some (r, p', ms) \/
  (exists task, handle_shadow_finish now cap t res p = Some (r, p', ms, task)) ->
  p' = record_outcome now (backend_name t) (negb (is_server_error (status r))) p /\
  ms = answer_metrics (backend_name t) (status r).
Proof.
  intros [H|[task H]].
  - unfold handle_finish in H. destruct res as [a|e]; [|by injection H as <- <- <-].
    destruct (set_request_id _ _); [|done]. cbn [mbind option_bind] in H. by injection H as <- <- <-.
  - unfold handle_shadow_finish in H. destruct (read_capped (p_body t) cap) as [[[[? ?] ?] ?]|]; [|by injection H as <- <- <- _].
    destruct res as [a|e]; [|by injection H as <- <- <- _].
    destruct (read_capped (resp_body a) cap) as [[[[? ?] ?] ?]|]; [|by injection H as <- <- <- _].
    destruct (rebuild_shadow_response_headers _ _); [|done]. cbn [mbind option_bind] in H. by injection H as <- <- <- _.
Qed.

Lemma builder_header_none hs : foldl builder_header None hs = None.
Proof. by induction hs. Qed.

(** [rebuild_response] panics exactly on a header whose name or value does not
    parse. *)
Lemma rebuild_response_total st hs body :
  is_Some (rebuild_response st hs body) <-> Forall (fun h => is_Some (parse_name h.1) /\ is_Some (parse_value h.2)) hs.
Proof.
  unfold rebuild_response. generalize hm_empty as m.
  induction hs as [|h hs IH]; intros m; cbn [foldl]; [split; [constructor|by eexists]|]. rewrite Forall_cons.
  cbn [builder_header mbind option_bind].
  destruct (parse_name h.1) as [n|]; cbn [mbind option_bind].
  2:{ rewrite builder_header_none. split; [by intros [? ?]|by intros [[[? ?] _] _]]. }
  destruct (parse_value h.2) as [v|]; cbn [mbind option_bind].
  2:{ rewrite builder_header_none. split; [by intros [? ?]|by intros [[_ [? ?]] _]]. }
  rewrite IH. split; [|tauto]. intros H. split; [split; by eexists|done].
Qed.

(** A request answered by [handle], with or without a shadow: its backend, the
    status of the answer and the metrics it emitted. *)
Inductive answered (b : bytes) (st : Z) (ms : list Metric) : Prop :=
| answered_direct now t (res : Response + ForwardError) p r p' :
    handle_finish now t res p = Some (r, p', ms) -> backend_name t = b -> status r = st -> answered b st ms
| answered_shadowed now cap t (res : Response + ForwardError) p r p' task :
    handle_shadow_finish now cap t res p = Some (r, p', ms, task) -> backend_name t = b -> status r = st ->
    answered b st ms.

Lemma answered_metrics b st ms : answered b st ms -> ms = answer_metrics b st.
Proof.
  intros [now t res p r p' H <- <-|now cap t res p r p' task H <- <-].
  - by apply (client_status_recorded now 0 t res p r p' ms); left.
  - apply (client_status_recorded now cap t res p r p' ms); right. by exists task.
Qed.

(** C25: what a scrape reads: when the exporter was installed and the
    proxy has then answered any sequence of requests, each in its own way (an
    answer of the backend, an error of the request or of a body, with or
    without a shadow), for each backend the request counter is the number of
    its requests, the 5xx counter the number of those whose client got a
    server error, and each class of the duration histogram has the
    observations of that class; and every series was described. *)
Theorem scrape_counts path g0 (run : list (bytes * Z * list Metric)) b c :
  Forall (fun q => answered q.1.1 q.1.2 q.2) run ->
  let g := emit_all (concat run.*2) (install true path g0).1 in
  exported g (series_of (RequestsTotal b)) = Some (length (filter (about b (fun _ => true)) run.*1)) /\
  exported g (series_of (Responses5xx b)) = Some (length (filter (about b is_server_error) run.*1)) /\
  exported g (series_of (RequestDuration b c)) =
    Some (length (filter (about b (fun st => bytes_eqb (status_class st) c)) run.*1)) /\
  exists r, g = Some (r, descriptions) /\
    Forall (fun m => exists help, ((series_of m).1, (series_of m).2.1, help) ∈ descriptions) (concat run.*2).
Proof.
  intros H g.
  assert (E : concat run.*2 = run_metrics run.*1).
  { clear g. unfold run_metrics. induction H as [|[[n st] ms] run Hq _ IH]; [done|].
    apply answered_metrics in Hq. cbn in *. by rewrite Hq, IH. }
  subst g. rewrite E. destruct (run_exported path g0 run.*1 b c) as (H1 & H2 & H3). split_and!; [done..|].
  destruct (emitted_described (run_metrics run.*1) fresh_registry) as [r Hr]. exists r. split; [exact Hr|].
  apply Forall_forall. intros m _. apply series_described.
Qed.
End Status.

(** An answer with status 200 and a request that failed. *)
Lemma scrape_counts_witness :
  let run := [(B "c", 200%Z, answer_metrics (B "c") 200); (B "c", 502%Z, failure_metrics (B "c"))] in
  exported (emit_all (concat run.*2) (install true (B "/metrics") None).1) (series_of (Responses5xx (B "c"))) = Some 1.
Proof.
  set (run := [(B "c", 200%Z, answer_metrics (B "c") 200); (B "c", 502%Z, failure_metrics (B "c"))]).
  pose (t := mkPending (decision demo_pending) (B "c") (request_id demo_pending) (fwd_headers demo_pending)
    (p_method demo_pending) (p_uri demo_pending) (p_body demo_pending)).
  pose (ok := mkResponse (HM := Assoc.headers) 200 (resp_headers demo_response) (resp_body demo_response)).
  apply (scrape_counts (HM := Assoc.headers) (B "/metrics") None run (B "c") (B "2xx")).
  repeat constructor; cbn [fst snd].
  - destruct (@handle_finish Assoc.headers 0 t (inl ok) demo_pool) as [[[r p'] ms]|] eqn:E;
      [|exfalso; assert (H : is_some (@handle_finish Assoc.headers 0 t (inl ok) demo_pool) = true) by (by vm_compute); by rewrite E in H].
    destruct (client_status_recorded (HM := Assoc.headers) 0 0 t (inl ok) demo_pool r p' ms (or_introl E)) as [_ Hms].
    assert (Hs : ((fun x => status x.1.1) <$> @handle_finish Assoc.headers 0 t (inl ok) demo_pool) = Some 200%Z) by (by vm_compute).
    rewrite E in Hs. injection Hs as Hs. rewrite Hs in Hms. apply (answered_direct _ _ _ 0 t (inl ok) demo_pool r p'); [|done|done].
    by rewrite E, Hms.
  - by apply (answered_direct _ _ _ 0 t (inr (RequestFailed [])) demo_pool bad_gateway
      (record_outcome 0 (B "c") false demo_pool)).
Defined.

(** A status from 200 to 599 is in the class 5xx exactly when it is a server
    error, so that the counter and the histogram agree on the final statuses
    of HTTP. *)
Lemma class_5xx st : (200 <= st < 600)%Z -> bytes_eqb (status_class st) (B "5xx") = is_server_error st.
Proof.
  intros H. unfold status_class, is_server_error.
  destruct (Z.leb_spec 200 st), (Z.leb_spec st 299), (Z.leb_spec 300 st), (Z.leb_spec st 399), (Z.leb_spec 400 st),
    (Z.leb_spec st 499), (Z.leb_spec 500 st), (Z.ltb_spec st 600); cbn [andb]; try done; lia.
Qed.

(** Any other status is in the class 5xx and is no server error: a 101 is
    observed as 5xx and not counted as one. *)
Theorem other_statuses_classed_5xx st :
  (st < 200 \/ 600 <= st)%Z -> status_class st = B "5xx" /\ is_server_error st = false.
Proof.
  intros H. unfold status_class, is_server_error.
  destruct (Z.leb_spec 200 st), (Z.leb_spec st 299), (Z.leb_spec 300 st), (Z.leb_spec st 399), (Z.leb_spec 400 st),
    (Z.leb_spec st 499), (Z.leb_spec 500 st), (Z.ltb_spec st 600); cbn [andb]; try done; lia.
Qed.

Lemma other_statuses_classed_5xx_witness : status_class 101 = B "5xx" /\ is_server_error 101 = false.
Proof. apply (other_statuses_classed_5xx 101). lia. Defined.
End Exporting.
